(* ===== verification/_CoqProject ===== *)
-Q . S2P
Prelude.v
RBTree.v
RBSpec.v
RBRep.v
RBInsert.v
RBIter.v
RBDelete.v
RBTraverse.v
RBProps.v
Float.v
DataTypes.v
OrderBook.v
Utilities.v
OBRep.v
OBMatch.v
OBBook.v
OBOps.v
OBPriority.v
OBInv.v
OBTerm.v
OBAdd.v
OBTypes.v
OBCancel.v
OBQuery.v
OBLimit.v
OBLoad.v
OBRestart.v
OBProps.v
RingBuffer.v
RingLive.v
ThreadPool.v
Calendar.v
Lifetimes.v
Repository.v
TradeRepository.v
InstrumentFile.v
Exchange.v
ExchangeSpec.v
Independence.v
Concurrency.v
Responses.v
Handlers.v
Session.v
WebSocketClient.v
Server.v
SysTypes.v
ClockThread.v
ServerSpec.v
Pipeline.v
EndToEnd.v
Examples.v
SysProps.v
TreeWitnesses.v
BookWitnesses.v
SysWitnesses.v
EndWitnesses.v
ProgramWitnesses.v
UnitTests.v
