(* ===== verification/Prelude.v ===== *)
(** * A verified model of the LimitOrderBook exchange

    The program under src/ is a stock exchange: an HTTP server accepts orders for a set of
    instruments, each instrument has an order book that matches the orders, and repositories store
    the orders and the trades.  This library models the program from its red-black tree to its
    request handlers and proves what the parts do.

    ** How the program works, and the files that model it

    The paths are relative to src/src/.  Each file of the library opens with a comment of its own.

    - storage/rbtree.hpp: [RBTree.v] has the nodes, the sentinel and every operation of the tree,
      field access by field access; [RBTraverse.v] the iterator classes, printing and the
      destructor.  [RBSpec.v] is the tree as an inductive value with the two rebalancings as
      functions on contexts, [RBRep.v] says when a store of nodes represents such a value,
      [RBInsert.v], [RBDelete.v] and [RBIter.v] prove the operations, [RBProps.v] the properties.
    - data_structures/: [Float.v] is IEEE arithmetic, [DataTypes.v] the orders, limits, trades and
      comparators with their methods.
    - orderbook/orderbook.cpp: [OrderBook.v] has every member function of the order book, over
      heaps of orders and limits and five trees.  [OBRep.v] (levels in the heap), [OBMatch.v]
      (matching), [OBBook.v] (sides), [OBOps.v] (levels added), [OBPriority.v] (facts about the
      specification), [OBInv.v] (the invariant [book_ok]), [OBTerm.v] (the bound of the matching
      loop), [OBAdd.v] (adding orders), [OBCancel.v] (cancelling, modifying), [OBQuery.v] and
      [OBLimit.v] (the getters), [OBLoad.v] (one loaded order, the end of the day), [OBRestart.v]
      (all of them) prove the operations, [OBProps.v] the properties; [OBTypes.v] says that every
      number of a book stays a value of its type.
    - utils/ringbuffer.hpp: [RingBuffer.v], [push] and [pop] as atomic steps of two threads, and
      [RingLive.v], its infinite executions; utils/thread_pool.hpp and utils/function_task.hpp:
      [ThreadPool.v].
    - utils/time.hpp: [Calendar.v]; utils/file_utils.hpp: [InstrumentFile.v]; utils/uuid_generator.hpp
      and utils/defer.hpp: [Utilities.v].
    - repository/: [Repository.v] is the store of orders, [TradeRepository.v] that of trades;
      [Lifetimes.v] has the constructors and destructors of both, with the interleavings of a
      destructor and its thread, and their properties.
    - exchange/exchange.cpp: [Exchange.v] has the maps from instruments to books and workers, the
      dispatch of requests and the turns of the clock thread; [ExchangeSpec.v] its invariant,
      [Independence.v] that the instruments do not disturb each other, and [Concurrency.v] the workers,
      their buffers and the books together.
    - server/handlers/ and mappers/: [Handlers.v], with the objects of the replies in [Responses.v];
      [Session.v] has the requests and the turns of the clock thread as steps of a relation on
      exchanges, and what every step keeps.
    - server/server.cpp and main.cpp: [Server.v], with the interface that the routes make and the
      sessions of a closed exchange in [ServerSpec.v]; [SysTypes.v] carries the types of the numbers
      from the files to the replies.
    - main.cpp, the loop and the destructor of exchange.cpp, utils/seastar_signal_catcher.hpp:
      [ClockThread.v] is the running program and its end, the main thread and the clock thread
      interleaved with requests, signals and time.
    - server/websocket/websocket_client.cpp: [WebSocketClient.v], with its property.
    - [Pipeline.v] puts all the books, the one ring buffer of the order repository, its thread and the
      database together; [TradeRepository.v] has the ring buffer of the trades.
    - [SysProps.v] and [EndToEnd.v] have the properties of everything above the order book;
      [Examples.v] and the five files of witnesses apply the properties at concrete inputs.
    - [UnitTests.v] runs the program's own unit tests on the model.

    A request goes from a handler ([CreateOrderHandler_handle]) through the mapper
    ([map_json_to_order]) to the exchange ([Exchange.add_order]), which finds the book of the
    instrument and its worker thread, runs the book's operation ([OrderBook.add_order]) as a task
    and waits for the result.  The book calls [enqueue] of the order repository, which pushes into a
    ring buffer that all books share; its thread hands the orders to [process_message].  In
    [OrderBook.v] the calls are recorded in the order in which they are made ([order_queue]), and
    [Pipeline.v] makes them pushes.  A book's operations run one at a time, on its
    worker, so the model of the exchange composes them sequentially; [Concurrency.v] puts the requests
    through the ring buffers of the workers, in every interleaving, and proves that this is what the
    exchange then does.

    ** How state and operations correspond to the code

    An operation on the state [St] is a function [St -> St * outcome A], built with [M]'s bind in
    the order of the statements.  An outcome is a value or an [error]; the errors are the C++
    undefined behaviours that the code can run into and the exceptions that it throws.  Objects
    behind pointers live in heaps indexed by addresses ([nodes] of a tree, [b_oh] and [b_lh] of a
    book), so aliasing is the program's: two references to an order are one address.  A [shared_ptr]
    or a node pointer is an address, and [None], or the address [0] in the tree, is null.  Addresses
    are not used again after a deletion, so a dangling pointer is always seen.  [int], [size_t] and
    [uint32_t] arithmetic wraps around where the code's does, floats are rounded as IEEE 754 says.
    Names are the source's; where two classes have a function of the same name the file's name
    tells them apart.

    Code that is not under src/ is a class with laws: [Database] (RocksDB), [Archive] (Boost's
    archives), [Cassandra] (the ScyllaDB driver), [Json] (simdjson), [JsonText] (the text of
    Seastar's JSON), [Routes] (Seastar's matching of paths) and [Time] (the local time of the C
    library, in a zone without daylight saving time); [JsonTypes] and [ArchiveTypes] say that what is
    read is in the range of its type.  The witnesses instantiate each with a concrete one.  The
    current time, new identifiers and the seeds they are made of are parameters.

    ** What is proved

    - The tree: insertions, removals and lookups return what a sorted list returns and keep a
      well-formed red-black tree; logarithmic search; removal leaves the other nodes alone; both
      iterators, the bounds and the printing functions follow the order of the keys.
    - The order book: [add_order] refines an abstract book of price levels ([submit_refines]); the
      book never crosses; price-time priority; limit prices; all-or-none and immediate orders;
      conservation of quantities; matching ends; which stop orders wait; the getters; and
      what goes wrong in cancelling, modifying, serialising and recording trades.
    - The types: from the files to the replies every [float], [double] and machine integer is a value
      of its type, whatever is asked and whether it is answered ([numbers_keep_their_types], with the
      judgement [maintains] for operations that keep an invariant even when they fail).
    - Threads: the ring buffer is a queue in every interleaving in which the consumer keeps up, and
      in a fair one every value is popped; the pool's workers run their tasks in order; two threads
      that push at once can lose a value.
    - Stores: what is saved is read back, but for the members that the code drops.  The order
      repository's thread stores what matching made of the orders of all books when it comes late but
      before the ring is full, and a state that goes stale when it comes at once; what is in its queue
      when the repository is destroyed is lost.  That destructor frees nothing that is in use, the one
      of the trades' repository does.
    - The exchange and the handlers: every request is routed to its book and to no other, replies
      are the book's answers, and bad requests are refused with the right status.  Whatever requests
      are answered, in any order, the exchange keeps its instruments, each with a well-formed book
      that is not crossed ([exchange_stays_well_formed]), provided that the orders created have a price
      that is a number and a positive quantity and that no resting stop order is updated.
      Requests for different instruments commute ([instruments_are_independent]), and the workers, which
      handle them concurrently, do what handling them one after the other does
      ([workers_serve_the_exchange]).
    - The clock: the exchange opens at half past nine; one that is open at closing time stays open all
      night, if its thread is not still in a sleep that ends before the morning; and the end of the program waits until the clock thread's sleep is over.
    - The server: the five request lines reach their handlers and no other does, for paths whose
      segments are neither empty nor encoded; the texts of the replies can be read back; a program that
      is started after the opening refuses every order.
    - The websocket client goes through its protocol, one operation at a time, until one fails.
    - The calendar and the instrument file: [day_of_week] counts days correctly up to the year in which
      its sums leave the range of [int]; a file is parsed back into its instruments.

    Theorems hold of the code as it is: where it does something else than its documentation or its
    name says, the theorem states what it does.

    ** Fuel

    A loop takes a bound.  In the tree it is [fuel_of], twice the number of nodes and two: a path
    has at most as many nodes as the tree, and a removal's loop first descends and then ascends.
    Over a level's linked list it is [list_fuel], one more than the heap has orders.  The theorems
    say that the operations return ([Ret]), so that [OutOfFuel] never occurs for well-formed states;
    [matching_ends] bounds the turns of the matching loop by the levels of the opposite side, and
    [search_is_logarithmic] those of a search by [2 * log2 (n + 1)].

    ** Assumptions of the model

    The atomic accesses of the ring buffer are sequentially consistent (the code orders them by
    acquire and release).  The books' pushes into the ring of the order repository are taken one at a
    time ([concurrent_pushes_lose_a_value] shows what happens otherwise), and what one request does to a
    book is done before the repository's thread takes its next turn.  Memory is not exhausted and
    allocation does not throw.  A handler runs its whole request before the next one touches the same
    book, as the worker does; the clock thread does its turn at once, a task of a worker is run at once
    when it is taken, and the seconds pass between the steps of threads.  The keys of the maps of
    instruments and orders are string views: the model takes them for the strings they show, which
    outlive the entries but for instruments that are added later and for names of no instrument, which
    the handlers never look up.  The prices and quantities of submitted orders are numbers, and
    quantities positive ([valid_order]), where a theorem says so: the server does not check it.

    ** Not modelled

    The parsing of the command line, the delivery of signals, the options of the databases and what
    the HTTP server does when it is stopped are the libraries'.  The websocket server does not compile:
    it names members and functions that are not declared.  *)

From stdpp Require Export base tactics list gmap strings.
From stdpp Require Export fin_maps.
From stdpp Require Export sorting.
From Stdlib Require Export ZArith Lia Sorted.

(** ** Outcomes and the state monad

    A C++ operation on a component's state [St] is a function [St -> St * outcome A].  The state
    is returned on an error as well: what an operation had already changed when it threw or ran
    into undefined behaviour stays changed. *)

Inductive error :=
  | NullDeref        (** a null pointer is dereferenced *)
  | UseAfterFree     (** a node that was deleted is accessed *)
  | UseAfterErase    (** a reference into a map entry that was erased is read *)
  | InvalidArgument  (** the code throws [std::invalid_argument] *)
  | RuntimeError     (** the code throws [std::runtime_error] *)
  | OutOfBounds      (** an index past the end of an array or vector *)
  | IntOverflow      (** arithmetic on [int] leaves its range *)
  | JsonError        (** [simdjson_error]: a document or a field that is not as expected *)
  | OutOfFuel.       (** the model's loop bound was reached; never for the bounds used *)

Inductive outcome (A : Type) :=
  | Ret (a : A)
  | Err (e : error).
Arguments Ret {A} _.
Arguments Err {A} _.

#[export] Instance error_eq_dec : EqDecision error.
Proof. solve_decision. Defined.

(** A computation without a state: the first error ends it. *)
#[export] Instance outcome_ret : MRet outcome := @Ret.
#[export] Instance outcome_bind : MBind outcome := λ A B k m,
  match m with Ret a => k a | Err e => Err e end.
Lemma bind_value {A B} (a : A) (k : A → outcome B) : Ret a ≫= k = k a.
Proof. done. Qed.
Lemma bind_error {A B} e (k : A → outcome B) : Err e ≫= k = Err e.
Proof. done. Qed.

Definition M (St A : Type) : Type := St → St * outcome A.

#[export] Instance M_ret St : MRet (M St) := λ A a s, (s, Ret a).
#[export] Instance M_bind St : MBind (M St) := λ A B k m s,
  match m s with
  | (s', Ret a) => k a s'
  | (s', Err e) => (s', Err e)
  end.
#[export] Instance M_fmap St : FMap (M St) := λ A B f m s,
  match m s with
  | (s', Ret a) => (s', Ret (f a))
  | (s', Err e) => (s', Err e)
  end.

Section monad.
Context {St : Type}.

Definition fail {A} (e : error) : M St A := λ s, (s, Err e).
Definition gets {A} (f : St → A) : M St A := λ s, (s, Ret (f s)).
Definition modify (f : St → St) : M St unit := λ s, (f s, Ret tt).
Definition whenM (b : bool) (m : M St unit) : M St unit := if b then m else mret tt.

(** Run an operation of a component whose state is the field [proj] of the larger state. *)
Definition zoom {St' A} (proj : St → St') (put : St' → St → St) (m : M St' A) : M St A :=
  λ s, match m (proj s) with (c, r) => (put c s, r) end.

(** A [for] over a vector the loop does not change. *)
Fixpoint forM {A} (l : list A) (f : A → M St unit) : M St unit :=
  match l with
  | [] => mret tt
  | x :: l => f x ;; forM l f
  end.

Lemma bind_ok {A B} (m : M St A) (k : A → M St B) s s' a :
  m s = (s', Ret a) → (m ≫= k) s = k a s'.
Proof. unfold mbind, M_bind. by intros ->. Qed.

Lemma bind_err {A B} (m : M St A) (k : A → M St B) s s' e :
  m s = (s', Err e) → (m ≫= k) s = (s', Err e).
Proof. unfold mbind, M_bind. by intros ->. Qed.

(** A composed operation that returns: both parts do. *)
Lemma bind_inv {A B} (m : M St A) (k : A → M St B) s s' b :
  (m ≫= k) s = (s', Ret b) → ∃ s1 a, m s = (s1, Ret a) ∧ k a s1 = (s', Ret b).
Proof. unfold mbind, M_bind. destruct (m s) as [s1 [a|e]]; [eauto|done]. Qed.

Lemma bind_ret {A B} (a : A) (k : A → M St B) s : (mret a ≫= k) s = k a s.
Proof. done. Qed.

Lemma bind_gets {A B} (f : St → A) (k : A → M St B) s : (gets f ≫= k) s = k (f s) s.
Proof. done. Qed.

Lemma bind_modify {B} f (k : unit → M St B) s : (modify f ≫= k) s = k tt (f s).
Proof. done. Qed.

Lemma bind_assoc {A B C} (m : M St A) (f : A → M St B) (g : B → M St C) s :
  ((m ≫= f) ≫= g) s = (m ≫= (λ a, f a ≫= g)) s.
Proof. unfold mbind, M_bind. by destruct (m s) as [? []]. Qed.

Lemma zoom_ok {St' A} proj put (m : M St' A) s c a :
  m (proj s) = (c, Ret a) → zoom proj put m s = (put c s, Ret a).
Proof. unfold zoom. by intros ->. Qed.

Lemma zoom_fst {St' A} proj put (m : M St' A) s :
  ∃ c, (zoom proj put m s).1 = put c s.
Proof. unfold zoom. destruct (m (proj s)) as [c r]. by exists c. Qed.

(** An operation that leaves a part of the state alone, whether it returns or not. *)
Definition keeps {X A} (f : St → X) (m : M St A) : Prop := ∀ s, f (m s).1 = f s.

Lemma keeps_ret {X A} (f : St → X) (a : A) : keeps f (mret a).
Proof. done. Qed.
Lemma keeps_fail {X A} (f : St → X) e : keeps f (fail (A:=A) e).
Proof. done. Qed.
Lemma keeps_gets {X A} (f : St → X) (g : St → A) : keeps f (gets g).
Proof. done. Qed.
Lemma keeps_bind {X A B} (f : St → X) (m : M St A) (k : A → M St B) :
  keeps f m → (∀ a, keeps f (k a)) → keeps f (m ≫= k).
Proof.
  intros Hm Hk s. unfold mbind, M_bind. specialize (Hm s).
  destruct (m s) as [s' [a|e]]; simpl in *; [|done]. by rewrite Hk.
Qed.
Lemma keeps_fmap {X A B} (f : St → X) (g : A → B) (m : M St A) : keeps f m → keeps f (g <$> m).
Proof.
  intros Hm s. unfold fmap, M_fmap. specialize (Hm s). by destruct (m s) as [s' [a|e]].
Qed.
Lemma keeps_when {X} (f : St → X) (b : bool) m : keeps f m → keeps f (whenM b m).
Proof. by destruct b. Qed.
Lemma keeps_zoom {X St' A} (f : St → X) proj put (m : M St' A) :
  (∀ c s, f (put c s) = f s) → keeps f (zoom proj put m).
Proof. intros Hp s. destruct (zoom_fst proj put m s) as [c ->]. apply Hp. Qed.
(** Running an operation that changes nothing on a part. *)
Lemma keeps_zoom_id {St' A} proj put (m : M St' A) :
  (∀ c : St', (m c).1 = c) → (∀ s, put (proj s) s = s) → keeps (λ s : St, s) (zoom proj put m).
Proof.
  intros Hm Hp s. unfold zoom. specialize (Hm (proj s)). destruct (m (proj s)) as [c r].
  simpl in *. subst c. apply Hp.
Qed.
Lemma keeps_forM {X A} (f : St → X) (l : list A) (g : A → M St unit) :
  (∀ a, keeps f (g a)) → keeps f (forM l g).
Proof. intros Hg. induction l as [|a l IH]; simpl; [apply keeps_ret|by apply keeps_bind]. Qed.

(** An operation that keeps an invariant of the state, whether it returns or not, and returns
    values that satisfy [Q]. *)
Definition maintains {A} (I : St → Prop) (m : M St A) (Q : A → Prop) : Prop :=
  ∀ s, I s → I (m s).1 ∧ ∀ a, (m s).2 = Ret a → Q a.

Lemma maintains_ret {A} (I : St → Prop) (a : A) (Q : A → Prop) : Q a → maintains I (mret a) Q.
Proof. intros HQ s Hs. split; [done|]. by intros ? [= <-]. Qed.
Lemma maintains_fail {A} (I : St → Prop) e (Q : A → Prop) : maintains I (fail e) Q.
Proof. done. Qed.
Lemma maintains_gets {A} (I : St → Prop) (f : St → A) (Q : A → Prop) :
  (∀ s, I s → Q (f s)) → maintains I (gets f) Q.
Proof. intros HQ s Hs. split; [done|]. intros ? [= <-]. by apply HQ. Qed.
Lemma maintains_modify (I : St → Prop) f :
  (∀ s, I s → I (f s)) → maintains I (modify f) (λ _, True).
Proof. intros Hf s Hs. split; [by apply Hf|done]. Qed.
Lemma maintains_bind {A B} (I : St → Prop) (m : M St A) (k : A → M St B) (Q : A → Prop) R :
  maintains I m Q → (∀ a, Q a → maintains I (k a) R) → maintains I (m ≫= k) R.
Proof.
  intros Hm Hk s Hs. unfold mbind, M_bind. destruct (Hm s Hs) as [Hs' HQ].
  destruct (m s) as [s' [a|e]]; simpl in *; [|done]. by apply Hk; [apply HQ|].
Qed.
Lemma maintains_weaken {A} (I : St → Prop) (m : M St A) (Q R : A → Prop) :
  maintains I m Q → (∀ a, Q a → R a) → maintains I m R.
Proof. intros Hm HQ s Hs. destruct (Hm s Hs) as [? H]. split; [done|]. eauto. Qed.
Lemma maintains_fmap {A B} (I : St → Prop) (f : A → B) (m : M St A) (Q : B → Prop) :
  maintains I m (λ a, Q (f a)) → maintains I (f <$> m) Q.
Proof.
  intros Hm s Hs. unfold fmap, M_fmap. destruct (Hm s Hs) as [Hs' HQ].
  destruct (m s) as [s' [a|e]]; simpl in *; (split; [done|]); intros ? [= <-]. by apply HQ.
Qed.
Lemma maintains_when (I : St → Prop) (b : bool) m :
  maintains I m (λ _, True) → maintains I (whenM b m) (λ _, True).
Proof. destruct b; [done|]. intros _. by apply maintains_ret. Qed.
Lemma maintains_forM {A} (I : St → Prop) (P : A → Prop) (l : list A) (f : A → M St unit) :
  Forall P l → (∀ a, P a → maintains I (f a) (λ _, True)) → maintains I (forM l f) (λ _, True).
Proof.
  intros Hl Hf. induction Hl as [|a l Ha Hl IH]; simpl; [by apply maintains_ret|].
  eapply maintains_bind; [by apply Hf|auto].
Qed.
End monad.
#[global] Typeclasses Opaque M.

(** The lemmas that automate the common cases. *)
Create HintDb lob discriminated.
#[export] Hint Resolve keeps_ret keeps_fail keeps_gets keeps_bind keeps_fmap keeps_when keeps_forM : lob.
#[global] Opaque zoom.

(** The goal is about a composed operation: take it apart. *)
Ltac keeps_step :=
  match goal with
  | |- keeps _ (_ ≫= _) => apply keeps_bind; [|intros ?]
  | |- keeps _ (match ?x with _ => _ end) => destruct x
  | |- keeps _ _ => solve [auto with lob]
  end.

(** The same for an invariant; [Q] is found by the operation's lemma in [lob]. *)
Ltac maintains_step :=
  match goal with
  | |- maintains _ (mret _) _ => apply maintains_ret; auto with lob
  | |- maintains _ (fail _) _ => apply maintains_fail
  | |- maintains _ (_ ≫= _) _ => eapply maintains_bind; [solve [eauto with lob]|intros ? ?]
  | |- maintains _ (_ ≫= _) _ => apply (maintains_bind _ _ _ (λ _, True)); [|intros ? _]
  | |- maintains _ (whenM _ _) _ => apply maintains_when
  | |- maintains _ (match ?x with _ => _ end) _ => destruct x eqn:?
  | |- maintains _ _ _ => solve [eauto with lob]
  end.

(** An operation that changes nothing, and what follows when it returns. *)
Abbreviation reads := (keeps (λ s, s)).
Lemma reads_inv {St A} (m : M St A) s s' r : m s = (s', r) → reads m → s' = s.
Proof. intros E Hm. specialize (Hm s). by rewrite E in Hm. Qed.

(** One step of a monadic program whose first operation is known to return. *)
Ltac mstep_with H := first [erewrite bind_ok by (apply H) | erewrite bind_ok by (eapply H)].

(** Remove the administrative redexes at the head of a monadic goal. *)
Ltac msimpl :=
  repeat first
    [ rewrite bind_assoc | rewrite bind_ret | rewrite bind_gets | rewrite bind_modify
    | progress (unfold whenM) | progress cbn beta iota ].

(** ** Machine words *)

Definition u64 (z : Z) : Z := (z mod 2 ^ 64)%Z.

(** The two's complement value of 64 bits. *)
Definition i64 (z : Z) : Z := (let u := u64 z in if u <? 2 ^ 63 then u else u - 2 ^ 64)%Z.

Lemma u64_small z : (0 ≤ z < 2 ^ 64)%Z → u64 z = z.
Proof. apply Z.mod_small. Qed.

Lemma u64_range z : (0 ≤ u64 z < 2 ^ 64)%Z.
Proof. apply Z.mod_pos_bound. lia. Qed.

Lemma u64_sub a b : u64 (u64 a - b) = u64 (a - b).
Proof. unfold u64. apply Zminus_mod_idemp_l. Qed.
Lemma u64_add a b : u64 (u64 a + b) = u64 (a + b).
Proof. unfold u64. apply Zplus_mod_idemp_l. Qed.

(** ** Lists *)

(** Disjoint segments of a duplicate-free list can be told apart by a numbering: with the numbers
    of two addresses at hand, [congruence] proves them different. *)
Lemma labelled (Ls : list (list nat)) :
  NoDup (concat Ls) →
  ∃ lab : nat → nat, ∀ i l, Ls !! i = Some l → NoDup l ∧ ∀ q, q ∈ l → lab q = i.
Proof.
  induction Ls as [|l Ls IH]; simpl; [by exists (λ _, 0)|].
  rewrite NoDup_app. intros (Hnd&Hd&[lab Hlab]%IH).
  exists (λ q, if decide (q ∈ l) then 0 else S (lab q)). intros [|i] l' Hl; simplify_eq/=.
  - split; [done|]. intros q Hq. by rewrite decide_True.
  - destruct (Hlab _ _ Hl) as [Hnd' Hq']. split; [done|]. intros q Hq.
    rewrite decide_False; [by rewrite Hq'|]. intros Hql. apply (Hd q Hql).
    rewrite list_elem_of_In, in_concat. exists l'.
    rewrite <-!list_elem_of_In, list_elem_of_lookup. eauto.
Qed.

(** ** Comparators

    What C++ asks of a comparator: a strict weak order, here on the values that satisfy [P] (a
    comparison of floats is one only away from NaN). *)
Class StrictWeak {A} (P : A → Prop) (less : A → A → bool) : Prop := {
  sw_irrefl a : P a → less a a = false;
  sw_trans a b c : P a → P b → P c → less a b = true → less b c = true → less a c = true;
  sw_split a b c : P a → P b → P c → less a b = true → less a c = true ∨ less c b = true
}.

(** Two values the comparator does not tell apart. *)
Definition equivb {A} (less : A → A → bool) (a b : A) : bool := negb (less a b) && negb (less b a).

Section sorted.
Context {A : Type} (P : A → Prop) (less : A → A → bool) `{!StrictWeak P less}.
Implicit Types (l : list A) (v : A).

Definition sorted l : Prop := StronglySorted (λ a b, less a b = true) l.

(** The sorted sequence as an abstract container. *)
Fixpoint sinsert v l : list A :=
  match l with
  | [] => [v]
  | k :: l =>
      if less v k then v :: k :: l else if less k v then k :: sinsert v l else v :: l
  end.
Fixpoint sfind v l : option A :=
  match l with
  | [] => None
  | k :: l => if less v k then None else if less k v then sfind v l else Some k
  end.
Fixpoint sremove v l : list A :=
  match l with
  | [] => []
  | k :: l =>
      if less v k then k :: l else if less k v then k :: sremove v l else l
  end.

Lemma sorted_app l1 l2 :
  sorted (l1 ++ l2) ↔ sorted l1 ∧ sorted l2 ∧ ∀ a b, a ∈ l1 → b ∈ l2 → less a b = true.
Proof.
  unfold sorted. induction l1 as [|a l1 IH]; simpl.
  - split; [intros; split_and!; [constructor|done|by intros ?? ?%elem_of_nil]|tauto].
  - rewrite !StronglySorted_cons, IH, Forall_app, !Forall_forall. setoid_rewrite elem_of_cons.
    naive_solver.
Qed.

Lemma sorted_cons a l : sorted (a :: l) ↔ sorted l ∧ ∀ b, b ∈ l → less a b = true.
Proof. unfold sorted. rewrite StronglySorted_cons, Forall_forall. tauto. Qed.

Lemma less_asym a b : P a → P b → less a b = true → less b a = false.
Proof.
  intros Ha Hb Hab. destruct (less b a) eqn:Hba; [|done].
  rewrite <-(sw_irrefl a Ha). symmetry. by eapply sw_trans.
Qed.

Lemma sinsert_mid v l1 l2 :
  P v → Forall P (l1 ++ l2) → (∀ k, k ∈ l1 → less k v = true) →
  (∀ k, k ∈ l2 → less v k = true) → sinsert v (l1 ++ l2) = l1 ++ v :: l2.
Proof.
  intros Hv. induction l1 as [|k l1 IH]; simpl; intros HP H1 H2.
  - destruct l2 as [|k l2]; [done|]. simpl. by rewrite H2 by set_solver.
  - apply Forall_cons in HP as [Hk HP]. assert (less k v = true) as Hkv by (apply H1; set_solver).
    rewrite less_asym, Hkv by done. f_equal. apply IH; [done| |done]. set_solver.
Qed.

Lemma sinsert_replace v k l1 l2 :
  P v → Forall P (l1 ++ k :: l2) → sorted (l1 ++ k :: l2) →
  less v k = false → less k v = false → sinsert v (l1 ++ k :: l2) = l1 ++ v :: l2.
Proof.
  intros Hv. induction l1 as [|j l1 IH]; simpl; intros HP Hs Hvk Hkv.
  - by rewrite Hvk, Hkv.
  - apply Forall_cons in HP as [Hj HP]. apply sorted_cons in Hs as [Hs Hjs].
    assert (P k) as Hk by (rewrite Forall_forall in HP; apply HP; set_solver).
    assert (less j v = true) as Hjv.
    { destruct (sw_split j k v Hj Hk Hv) as [?|?]; [apply Hjs; set_solver|done|congruence]. }
    rewrite less_asym, Hjv by done. f_equal. by apply IH.
Qed.

Lemma sremove_mid v k l1 l2 :
  P v → Forall P (l1 ++ k :: l2) → sorted (l1 ++ k :: l2) →
  less v k = false → less k v = false → sremove v (l1 ++ k :: l2) = l1 ++ l2.
Proof.
  intros Hv. induction l1 as [|j l1 IH]; simpl; intros HP Hs Hvk Hkv.
  - by rewrite Hvk, Hkv.
  - apply Forall_cons in HP as [Hj HP]. apply sorted_cons in Hs as [Hs Hjs].
    assert (P k) as Hk by (rewrite Forall_forall in HP; apply HP; set_solver).
    assert (less j v = true) as Hjv.
    { destruct (sw_split j k v Hj Hk Hv) as [?|?]; [apply Hjs; set_solver|done|congruence]. }
    rewrite less_asym, Hjv by done. f_equal. by apply IH.
Qed.

Lemma sfind_hit v k l1 l2 :
  P v → Forall P (l1 ++ k :: l2) → sorted (l1 ++ k :: l2) →
  less v k = false → less k v = false → sfind v (l1 ++ k :: l2) = Some k.
Proof.
  intros Hv. induction l1 as [|j l1 IH]; simpl; intros HP Hs Hvk Hkv.
  - by rewrite Hvk, Hkv.
  - apply Forall_cons in HP as [Hj HP]. apply sorted_cons in Hs as [Hs Hjs].
    assert (P k) as Hk by (rewrite Forall_forall in HP; apply HP; set_solver).
    assert (less j v = true) as Hjv.
    { destruct (sw_split j k v Hj Hk Hv) as [?|?]; [apply Hjs; set_solver|done|congruence]. }
    rewrite less_asym, Hjv by done. by apply IH.
Qed.

Lemma sfind_miss v l1 l2 :
  P v → Forall P (l1 ++ l2) → (∀ k, k ∈ l1 → less k v = true) →
  (∀ k, k ∈ l2 → less v k = true) →
  sfind v (l1 ++ l2) = None ∧ sremove v (l1 ++ l2) = l1 ++ l2.
Proof.
  intros Hv. induction l1 as [|k l1 IH]; simpl; intros HP H1 H2.
  - destruct l2 as [|k l2]; [done|]. simpl. by rewrite H2 by set_solver.
  - apply Forall_cons in HP as [Hk HP]. assert (less k v = true) as Hkv by (apply H1; set_solver).
    rewrite less_asym, Hkv by done. destruct IH as [-> ->]; [done| |done|done]. set_solver.
Qed.
End sorted.

Lemma sinsert_in {A} (less : A → A → bool) (v : A) l : v ∈ sinsert less v l.
Proof.
  induction l as [|k l IH]; simpl; [left|]. destruct (less v k); [left|].
  destruct (less k v); [by right|left].
Qed.

(** ** Automation *)

#[export] Hint Resolve u64_range : lob.


