(* ===== verification/RBTree.v ===== *)
(** * The red-black tree of storage/rbtree.hpp, at the level of its pointers

    A tree is a store of nodes indexed by addresses, with the sentinel [_nil] as an ordinary node
    of the store whose [parent] field the deletion writes and reads.  Every operation is the
    sequence of field reads and writes of the C++ code; an access to an address that holds no
    node is the outcome [NullDeref] (the null pointer) or [UseAfterFree] (a node that was
    deleted).  The allocator never hands out an address twice, so every use of a dangling pointer
    is visible.  Loops carry a fuel argument, started at [fuel_of]. *)

From S2P Require Import Prelude.

Abbreviation ptr := nat (only parsing).
Definition null : ptr := 0.
(** The address of the sentinel, allocated by the constructor. *)
Definition nil_ptr : ptr := 1.

Record node (T : Type) := Node {
  key : T;
  is_black : bool;
  parent : ptr;
  left : ptr;
  right : ptr
}.
Arguments Node {T} _ _ _ _ _.
Arguments key {T} _.
Arguments is_black {T} _.
Arguments parent {T} _.
Arguments left {T} _.
Arguments right {T} _.

Record rbtree (T : Type) := RBTree {
  nodes : gmap nat (node T);
  next_addr : ptr;
  root : ptr;
  first_ptr : ptr;
  last_ptr : ptr;
  tree_size : Z
}.
Arguments RBTree {T} _ _ _ _ _ _.
Arguments nodes {T} _.
Arguments next_addr {T} _.
Arguments root {T} _.
Arguments first_ptr {T} _.
Arguments last_ptr {T} _.
Arguments tree_size {T} _.

Section fields.
Context {T : Type}.
Implicit Types t : rbtree T.

Definition with_nodes (h : gmap nat (node T)) t : rbtree T :=
  RBTree h (next_addr t) (root t) (first_ptr t) (last_ptr t) (tree_size t).
Definition with_root (p : ptr) t : rbtree T :=
  RBTree (nodes t) (next_addr t) p (first_ptr t) (last_ptr t) (tree_size t).
Definition with_first (p : ptr) t : rbtree T :=
  RBTree (nodes t) (next_addr t) (root t) p (last_ptr t) (tree_size t).
Definition with_last (p : ptr) t : rbtree T :=
  RBTree (nodes t) (next_addr t) (root t) (first_ptr t) p (tree_size t).
Definition with_size (z : Z) t : rbtree T :=
  RBTree (nodes t) (next_addr t) (root t) (first_ptr t) (last_ptr t) z.

(** Access through a node pointer. *)
Definition get_node (p : ptr) : M (rbtree T) (node T) := λ t,
  match nodes t !! p with
  | Some n => (t, Ret n)
  | None => (t, Err (if decide (p = null) then NullDeref else UseAfterFree))
  end.
Definition upd_node (p : ptr) (f : node T → node T) : M (rbtree T) unit := λ t,
  match nodes t !! p with
  | Some n => (with_nodes (<[p := f n]> (nodes t)) t, Ret tt)
  | None => (t, Err (if decide (p = null) then NullDeref else UseAfterFree))
  end.

Definition get_key (p : ptr) : M (rbtree T) T := key <$> get_node p.
Definition get_black (p : ptr) : M (rbtree T) bool := is_black <$> get_node p.
Definition get_parent (p : ptr) : M (rbtree T) ptr := parent <$> get_node p.
Definition get_left (p : ptr) : M (rbtree T) ptr := left <$> get_node p.
Definition get_right (p : ptr) : M (rbtree T) ptr := right <$> get_node p.

Definition set_key (p : ptr) (v : T) : M (rbtree T) unit :=
  upd_node p (λ n, Node v (is_black n) (parent n) (left n) (right n)).
Definition set_black (p : ptr) (v : bool) : M (rbtree T) unit :=
  upd_node p (λ n, Node (key n) v (parent n) (left n) (right n)).
Definition set_parent (p : ptr) (v : ptr) : M (rbtree T) unit :=
  upd_node p (λ n, Node (key n) (is_black n) v (left n) (right n)).
Definition set_left (p : ptr) (v : ptr) : M (rbtree T) unit :=
  upd_node p (λ n, Node (key n) (is_black n) (parent n) v (right n)).
Definition set_right (p : ptr) (v : ptr) : M (rbtree T) unit :=
  upd_node p (λ n, Node (key n) (is_black n) (parent n) (left n) v).

(** [new Node(key, is_black, parent, left, right)] *)
Definition new_node (n : node T) : M (rbtree T) ptr := λ t,
  (RBTree (<[next_addr t := n]> (nodes t)) (S (next_addr t))
     (root t) (first_ptr t) (last_ptr t) (tree_size t), Ret (next_addr t)).
(** [delete node] *)
Definition delete_node (p : ptr) : M (rbtree T) unit := λ t,
  (with_nodes (delete p (nodes t)) t, Ret tt).

Definition set_root (p : ptr) : M (rbtree T) unit := modify (with_root p).
Definition set_first (p : ptr) : M (rbtree T) unit := modify (with_first p).
Definition set_last (p : ptr) : M (rbtree T) unit := modify (with_last p).

(** The bound of every loop over the tree: no loop visits a node more than twice. *)
Definition fuel_of t : nat := 2 * size (nodes t) + 2.
End fields.

Section rbtree.
Context {T : Type}.
(** [T()], the value the sentinel's key is initialised with. *)
Variable default_key : T.
(** [_comparator] *)
Variable less : T → T → bool.
Local Abbreviation op := (M (rbtree T)).

(** [Node()] sets the three pointers to null; the constructor makes the sentinel black. *)
Definition empty_tree : rbtree T :=
  RBTree {[ nil_ptr := Node default_key true null null null ]} 2 nil_ptr nil_ptr nil_ptr 0.

(** [first]/[last] return a copy of the key. *)
Definition first : op (option T) :=
  f ← gets first_ptr;
  if decide (f = nil_ptr) then mret None else Some <$> get_key f.

Definition last : op (option T) :=
  l ← gets last_ptr;
  if decide (l = nil_ptr) then mret None else Some <$> get_key l.

Fixpoint search_loop (fuel : nat) (node : ptr) (value : T) : op ptr :=
  match fuel with
  | 0 => fail OutOfFuel
  | S fuel =>
      if decide (node = nil_ptr) then mret nil_ptr else
      k ← get_key node;
      if less value k then l ← get_left node; search_loop fuel l value
      else if less k value then r ← get_right node; search_loop fuel r value
      else mret node
  end.

Definition search_tree (node : ptr) (value : T) : op ptr :=
  n ← gets fuel_of; search_loop n node value.

Definition find (value : T) : op (option T) :=
  r ← gets root;
  found_node ← search_tree r value;
  if decide (found_node = nil_ptr) then mret None else Some <$> get_key found_node.

Definition contains (value : T) : op bool :=
  o ← find value; mret (bool_decide (is_Some o)).

Fixpoint most_left_loop (fuel : nat) (node : ptr) : op ptr :=
  match fuel with
  | 0 => fail OutOfFuel
  | S fuel => l ← get_left node;
      if decide (l = nil_ptr) then mret node else most_left_loop fuel l
  end.
Definition most_left (node : ptr) : op ptr := n ← gets fuel_of; most_left_loop n node.

Fixpoint most_right_loop (fuel : nat) (node : ptr) : op ptr :=
  match fuel with
  | 0 => fail OutOfFuel
  | S fuel => r ← get_right node;
      if decide (r = nil_ptr) then mret node else most_right_loop fuel r
  end.
Definition most_right (node : ptr) : op ptr := n ← gets fuel_of; most_right_loop n node.

Fixpoint successor_loop (fuel : nat) (node successor_node : ptr) : op ptr :=
  match fuel with
  | 0 => fail OutOfFuel
  | S fuel =>
      if decide (successor_node = null) then mret successor_node else
      if decide (successor_node = nil_ptr) then mret successor_node else
      r ← get_right successor_node;
      if decide (node = r) then
        p ← get_parent successor_node; successor_loop fuel successor_node p
      else mret successor_node
  end.
Definition successor (node : ptr) : op ptr :=
  r ← get_right node;
  if decide (r = nil_ptr) then
    p ← get_parent node; n ← gets fuel_of; successor_loop n node p
  else most_left r.

(** The loop of [predecessor] has no test for the null pointer. *)
Fixpoint predecessor_loop (fuel : nat) (node predecessor_node : ptr) : op ptr :=
  match fuel with
  | 0 => fail OutOfFuel
  | S fuel =>
      if decide (predecessor_node = nil_ptr) then mret predecessor_node else
      l ← get_left predecessor_node;
      if decide (node = l) then
        p ← get_parent predecessor_node; predecessor_loop fuel predecessor_node p
      else mret predecessor_node
  end.
Definition predecessor (node : ptr) : op ptr :=
  l ← get_left node;
  if decide (l = nil_ptr) then
    p ← get_parent node; n ← gets fuel_of; predecessor_loop n node p
  else most_right l.

Definition rotate_right (node : ptr) : op unit :=
  child_left ← get_left node;
  clr ← get_right child_left;
  set_left node clr;;
  clr ← get_right child_left;
  (if decide (clr = nil_ptr) then mret tt else set_parent clr node);;
  np ← get_parent node;
  set_parent child_left np;;
  (if decide (np = nil_ptr) then set_root child_left else
   npr ← get_right np;
   if decide (node = npr) then set_right np child_left else set_left np child_left);;
  set_right child_left node;;
  set_parent node child_left.

Definition rotate_left (node : ptr) : op unit :=
  child_right ← get_right node;
  crl ← get_left child_right;
  set_right node crl;;
  crl ← get_left child_right;
  (if decide (crl = nil_ptr) then mret tt else set_parent crl node);;
  np ← get_parent node;
  set_parent child_right np;;
  (if decide (np = nil_ptr) then set_root child_right else
   npl ← get_left np;
   if decide (node = npl) then set_left np child_right else set_right np child_right);;
  set_left child_right node;;
  set_parent node child_right.

Definition transplant (u v : ptr) : op unit :=
  up ← get_parent u;
  (if decide (up = nil_ptr) then set_root v else
   upl ← get_left up;
   if decide (u = upl) then set_left up v else set_right up v);;
  up ← get_parent u;
  set_parent v up.

(** [while (node != _root && !node->parent->is_black)], then the root is blackened. *)
Fixpoint rebalance_insert_loop (fuel : nat) (node : ptr) : op unit :=
  match fuel with
  | 0 => fail OutOfFuel
  | S fuel =>
      r ← gets root;
      if decide (node = r) then mret tt else
      np ← get_parent node;
      npb ← get_black np;
      if npb : bool then mret tt else
      gp ← get_parent np;
      gpr ← get_right gp;
      if decide (np = gpr) then
        u ← get_left gp;
        ub ← get_black u;
        if negb ub then
          set_black u true;;
          set_black np true;;
          set_black gp false;;
          rebalance_insert_loop fuel gp
        else
          npl ← get_left np;
          node ← (if decide (node = npl) then rotate_right np;; mret np else mret node);
          np ← get_parent node;
          set_black np true;;
          gp ← get_parent np;
          set_black gp false;;
          rotate_left gp;;
          rebalance_insert_loop fuel node
      else
        u ← get_right gp;
        ub ← get_black u;
        if negb ub then
          set_black u true;;
          set_black np true;;
          set_black gp false;;
          rebalance_insert_loop fuel gp
        else
          npr ← get_right np;
          node ← (if decide (node = npr) then rotate_left np;; mret np else mret node);
          np ← get_parent node;
          set_black np true;;
          gp ← get_parent np;
          set_black gp false;;
          rotate_right gp;;
          rebalance_insert_loop fuel node
  end.

Definition rebalance_insert (node : ptr) : op unit :=
  n ← gets fuel_of;
  rebalance_insert_loop n node;;
  r ← gets root;
  set_black r true.

(** The descent of [insert]: the parent and side of the free place, or the node whose key is
    equivalent to the value. *)
Fixpoint insert_loop (fuel : nat) (value : T) (parent current : ptr) (lt : bool)
    : op (ptr * bool + ptr) :=
  match fuel with
  | 0 => fail OutOfFuel
  | S fuel =>
      if decide (current = nil_ptr) then mret (inl (parent, lt)) else
      k ← get_key current;
      if less value k then
        l ← get_left current; insert_loop fuel value current l true
      else if less k value then
        r ← get_right current; insert_loop fuel value current r false
      else mret (inr current)
  end.

Definition insert (value : T) : op unit :=
  r ← gets root;
  n ← gets fuel_of;
  place ← insert_loop n value nil_ptr r true;
  match place with
  | inr current => set_key current value
  | inl (parent, lt) =>
      new ← new_node (Node value false parent nil_ptr nil_ptr);
      (if decide (parent = nil_ptr) then
         set_root new;; set_first new;; set_last new
       else if lt : bool then set_left parent new else set_right parent new);;
      f ← gets first_ptr;
      fl ← get_left f;
      whenM (bool_decide (fl ≠ nil_ptr)) (set_first fl);;
      l ← gets last_ptr;
      lr ← get_right l;
      whenM (bool_decide (lr ≠ nil_ptr)) (set_last lr);;
      rebalance_insert new;;
      modify (λ t, with_size (u64 (tree_size t + 1)) t)
  end.

(** [while (node != _root && node->is_black)], then the node is blackened. *)
Fixpoint rebalance_delete_loop (fuel : nat) (node : ptr) : op ptr :=
  match fuel with
  | 0 => fail OutOfFuel
  | S fuel =>
      r ← gets root;
      if decide (node = r) then mret node else
      nb ← get_black node;
      if negb nb then mret node else
      np ← get_parent node;
      npl ← get_left np;
      if decide (node = npl) then
        parent_right ← get_right np;
        prb ← get_black parent_right;
        parent_right ← (if negb prb then
            set_black parent_right true;;
            set_black np false;;
            rotate_left np;;
            np ← get_parent node;
            get_right np
          else mret parent_right);
        prl ← get_left parent_right;
        prlb ← get_black prl;
        prr ← get_right parent_right;
        prrb ← get_black prr;
        if prlb && prrb then
          set_black parent_right false;;
          np ← get_parent node;
          rebalance_delete_loop fuel np
        else
          parent_right ← (if prrb : bool then
              set_black prl true;;
              set_black parent_right false;;
              rotate_right parent_right;;
              np ← get_parent node;
              get_right np
            else mret parent_right);
          np ← get_parent node;
          npb ← get_black np;
          set_black parent_right npb;;
          set_black np true;;
          prr ← get_right parent_right;
          set_black prr true;;
          rotate_left np;;
          r ← gets root;
          rebalance_delete_loop fuel r
      else
        parent_left ← get_left np;
        plb ← get_black parent_left;
        parent_left ← (if negb plb then
            set_black parent_left true;;
            set_black np false;;
            rotate_right np;;
            np ← get_parent node;
            get_left np
          else mret parent_left);
        plr ← get_right parent_left;
        plrb ← get_black plr;
        pll ← get_left parent_left;
        pllb ← get_black pll;
        if plrb && pllb then
          set_black parent_left false;;
          np ← get_parent node;
          rebalance_delete_loop fuel np
        else
          parent_left ← (if pllb : bool then
              set_black plr true;;
              set_black parent_left false;;
              rotate_left parent_left;;
              np ← get_parent node;
              get_left np
            else mret parent_left);
          np ← get_parent node;
          npb ← get_black np;
          set_black parent_left npb;;
          set_black np true;;
          pll ← get_left parent_left;
          set_black pll true;;
          rotate_right np;;
          r ← gets root;
          rebalance_delete_loop fuel r
  end.

Definition rebalance_delete (node : ptr) : op unit :=
  n ← gets fuel_of;
  node ← rebalance_delete_loop n node;
  set_black node true.

(** The update of [_first] and [_last] at the start of [remove(node)]. *)
Definition remove_ends (node : ptr) : op unit :=
  f ← gets first_ptr;
  l ← gets last_ptr;
  if decide (node = f) then
    r ← get_right node;
    if decide (r = nil_ptr) then p ← get_parent node; set_first p else set_first r
  else if decide (node = l) then
    l ← get_left node;
    if decide (l = nil_ptr) then p ← get_parent node; set_last p else set_last l
  else mret tt.

(** The unlinking of [remove(node)]: the node to rebalance from and the colour removed. *)
Definition remove_splice (node : ptr) : op (ptr * bool) :=
  original_color ← get_black node;
  l ← get_left node;
  if decide (l = nil_ptr) then
    r ← get_right node;
    transplant node r;;
    mret (r, original_color)
  else
    r ← get_right node;
    if decide (r = nil_ptr) then
      transplant node l;;
      mret (l, original_color)
    else
      pom ← most_left r;
      original_color ← get_black pom;
      fix_node ← get_right pom;
      pp ← get_parent pom;
      (if decide (pp = node) then set_parent fix_node pom
       else
         transplant pom fix_node;;
         nr ← get_right node;
         set_right pom nr;;
         set_parent nr pom);;
      transplant node pom;;
      nl ← get_left node;
      set_left pom nl;;
      set_parent nl pom;;
      nb ← get_black node;
      set_black pom nb;;
      mret (fix_node, original_color).

Definition remove_node (node : ptr) : op unit :=
  remove_ends node;;
  fc ← remove_splice node;
  delete_node node;;
  whenM fc.2 (rebalance_delete fc.1).

Definition remove (k : T) : op bool :=
  r ← gets root;
  node ← search_tree r k;
  if decide (node = nil_ptr) then mret false else
  remove_node node;;
  modify (λ t, with_size (u64 (tree_size t - 1)) t);;
  mret true.

(** [clear(node)]: the subtrees are freed before the node. *)
Fixpoint clear_loop (fuel : nat) (node : ptr) : op unit :=
  match fuel with
  | 0 => fail OutOfFuel
  | S fuel =>
      if decide (node = nil_ptr) then mret tt else
      l ← get_left node;
      clear_loop fuel l;;
      r ← get_right node;
      clear_loop fuel r;;
      delete_node node;;
      modify (λ t, with_size (u64 (tree_size t - 1)) t)
  end.

(** [clear()] resets the root; [_first] and [_last] keep their values. *)
Definition clear : op unit :=
  r ← gets root;
  n ← gets fuel_of;
  clear_loop n r;;
  set_root nil_ptr.

(** Iterators are a node pointer; [++] on a forward iterator is [successor]. *)
Definition begin : op ptr := gets first_ptr.
Definition rbegin : op ptr := gets last_ptr.
(** [end()] and [rend()] are the last and the first element, not a position past the end. *)
Definition end_ : op ptr := gets last_ptr.
Definition rend : op ptr := gets first_ptr.
Definition valid (it : ptr) : bool := bool_decide (it ≠ nil_ptr).

Fixpoint lower_bound_loop (fuel : nat) (from : T) (result node : ptr) : op ptr :=
  match fuel with
  | 0 => fail OutOfFuel
  | S fuel =>
      if decide (node = nil_ptr) then mret result else
      k ← get_key node;
      if less k from then r ← get_right node; lower_bound_loop fuel from result r
      else l ← get_left node; lower_bound_loop fuel from node l
  end.
Definition lower_bound (from : T) : op ptr :=
  result ← gets last_ptr;
  node ← gets root;
  n ← gets fuel_of;
  lower_bound_loop n from result node.

Fixpoint upper_bound_loop (fuel : nat) (to : T) (result node : ptr) : op ptr :=
  match fuel with
  | 0 => fail OutOfFuel
  | S fuel =>
      if decide (node = nil_ptr) then mret result else
      k ← get_key node;
      if negb (less to k) then r ← get_right node; upper_bound_loop fuel to result r
      else l ← get_left node; upper_bound_loop fuel to node l
  end.
Definition upper_bound (to : T) : op ptr :=
  result ← gets last_ptr;
  node ← gets root;
  n ← gets fuel_of;
  upper_bound_loop n to result node.

Definition range (from to : T) : op (ptr * ptr) :=
  l ← lower_bound from;
  u ← upper_bound to;
  mret (l, u).

(** The loop [for (auto it = begin(); it.valid(); it++)] that collects the keys. *)
Fixpoint collect_loop (fuel : nat) (next : ptr → op ptr) (it : ptr) : op (list T) :=
  match fuel with
  | 0 => fail OutOfFuel
  | S fuel =>
      if valid it then
        k ← get_key it;
        it ← next it;
        ks ← collect_loop fuel next it;
        mret (k :: ks)
      else mret []
  end.
End rbtree.
