(* ===== verification/RBSpec.v ===== *)
(** * Red-black trees as values: contexts, invariants and the rebalancing functions

    The pointer-level tree of [RBTree] is compared with the inductive type [ptree], whose nodes
    carry the address of the node they stand for.  A position inside a tree is a context (the list
    of frames from the position up to the root) and the subtree at it, so that "go to
    [node->parent]" is one frame less.  [fix_ins] and [fix_del] are the two rebalancing loops on
    such positions; this file proves that they keep the in-order sequence and restore the
    red-black invariant, and that a red-black tree has logarithmic height. *)

From S2P Require Import Prelude RBTree.

Section spec.
Context {T : Type}.

Inductive ptree :=
  | Lf
  | Nd (p : ptr) (c : bool) (l : ptree) (k : T) (r : ptree).

Inductive frame :=
  | FL (p : ptr) (c : bool) (k : T) (r : ptree)   (** the hole is the left child *)
  | FR (p : ptr) (c : bool) (l : ptree) (k : T).  (** the hole is the right child *)

Implicit Types (t : ptree) (C : list frame).

Definition rp t : ptr := match t with Lf => nil_ptr | Nd p _ _ _ _ => p end.
Definition col t : bool := match t with Lf => true | Nd _ c _ _ _ => c end.
Definition recolor (c : bool) t : ptree :=
  match t with Lf => Lf | Nd p _ l k r => Nd p c l k r end.
Abbreviation blk := (recolor true).

Fixpoint items t : list (ptr * T) :=
  match t with Lf => [] | Nd p _ l k r => items l ++ (p, k) :: items r end.
Definition ptrs t : list ptr := (items t).*1.
Definition keys t : list T := (items t).*2.

Definition fptr (f : frame) : ptr := match f with FL p _ _ _ | FR p _ _ _ => p end.
Definition fcol (f : frame) : bool := match f with FL _ c _ _ | FR _ c _ _ => c end.
Definition frecolor (c : bool) (f : frame) : frame :=
  match f with FL p _ k r => FL p c k r | FR p _ l k => FR p c l k end.
Definition plug1 (f : frame) t : ptree :=
  match f with FL p c k r => Nd p c t k r | FR p c l k => Nd p c l k t end.
Fixpoint plug C t : ptree := match C with [] => t | f :: C => plug C (plug1 f t) end.
Definition cptr C : ptr := match C with [] => nil_ptr | f :: _ => fptr f end.

(** The items left and right of the hole. *)
Fixpoint citems_l C : list (ptr * T) :=
  match C with
  | [] => []
  | FL _ _ _ _ :: C => citems_l C
  | FR p _ l k :: C => citems_l C ++ items l ++ [(p, k)]
  end.
Fixpoint citems_r C : list (ptr * T) :=
  match C with
  | [] => []
  | FL p _ k r :: C => (p, k) :: items r ++ citems_r C
  | FR _ _ _ _ :: C => citems_r C
  end.
Definition citems C : list (ptr * T) := citems_l C ++ citems_r C.
Definition cptrs C : list ptr := (citems C).*1.

Lemma items_plug C t : items (plug C t) = citems_l C ++ items t ++ citems_r C.
Proof.
  revert t. induction C as [|[p c k r|p c l k] C IH]; intros t; simpl.
  - by rewrite app_nil_r.
  - rewrite IH. simpl. by rewrite <-!app_assoc.
  - rewrite IH. simpl. by rewrite <-!app_assoc.
Qed.

Lemma ptrs_plug C t : ptrs (plug C t) ≡ₚ ptrs t ++ cptrs C.
Proof.
  unfold ptrs, cptrs, citems. rewrite items_plug, !fmap_app.
  apply Permutation_app_swap_app.
Qed.

Lemma plug_app C1 C2 t : plug (C1 ++ C2) t = plug C2 (plug C1 t).
Proof. revert t. induction C1; simpl; auto. Qed.

Lemma items_recolor c t : items (recolor c t) = items t.
Proof. by destruct t. Qed.
Lemma ptrs_recolor c t : ptrs (recolor c t) = ptrs t.
Proof. unfold ptrs. by rewrite items_recolor. Qed.
Lemma rp_recolor c t : rp (recolor c t) = rp t.
Proof. by destruct t. Qed.
Lemma items_plug1_frecolor c f t : items (plug1 (frecolor c f) t) = items (plug1 f t).
Proof. by destruct f. Qed.

(** ** Insertion *)

(** The loop of [rebalance_insert]: [t] is the red node the loop is at.  The two innermost
    frames are the parent and the grandparent. *)
Fixpoint fix_ins C t : ptree :=
  match C with
  | f :: (g :: C) as C' =>
      if fcol f then plug (f :: C') t else
      match g with
      | FR gp _ gl gk =>
          if negb (col gl) then
            fix_ins C (Nd gp false (blk gl) gk (plug1 (frecolor true f) t))
          else
            match f, t with
            | FL fp _ fk fr, Nd n _ a k b =>
                plug C (Nd n true (Nd gp false gl gk a) k (Nd fp false b fk fr))
            | FR fp _ fl fk, _ => plug C (Nd fp true (Nd gp false gl gk fl) fk t)
            | _, Lf => Lf
            end
      | FL gp _ gk gr =>
          if negb (col gr) then
            fix_ins C (Nd gp false (plug1 (frecolor true f) t) gk (blk gr))
          else
            match f, t with
            | FR fp _ fl fk, Nd n _ a k b =>
                plug C (Nd n true (Nd fp false fl fk a) k (Nd gp false b gk gr))
            | FL fp _ fk fr, _ => plug C (Nd fp true t fk (Nd gp false fr gk gr))
            | _, Lf => Lf
            end
      end
  | _ => plug C t
  end.

(** ** Deletion *)

(** One round of the loop of [rebalance_delete] once the sibling [w] is black: [x] is the left
    child of [p].  [up] says what to do with the subtree of [p] when the deficit moves up. *)
Definition del_left (up : ptree → ptree) C p c x k w : ptree :=
  match w with
  | Lf => Lf
  | Nd wp _ wl wk wr =>
      if col wl && col wr then up (Nd p c x k (Nd wp false wl wk wr))
      else if col wr then
        match wl with
        | Lf => Lf
        | Nd q _ a qk b => blk (plug C (Nd q c (Nd p true x k a) qk (Nd wp true b wk wr)))
        end
      else blk (plug C (Nd wp c (Nd p true x k wl) wk (blk wr)))
  end.
Definition del_right (up : ptree → ptree) C p c w k x : ptree :=
  match w with
  | Lf => Lf
  | Nd wp _ wl wk wr =>
      if col wr && col wl then up (Nd p c (Nd wp false wl wk wr) k x)
      else if col wl then
        match wr with
        | Lf => Lf
        | Nd q _ a qk b => blk (plug C (Nd q c (Nd wp true wl wk a) qk (Nd p true b k x)))
        end
      else blk (plug C (Nd wp c (blk wl) wk (Nd p true wr k x)))
  end.

(** The loop of [rebalance_delete] at the position of [x], with the final blackening. *)
Fixpoint fix_del C x : ptree :=
  if negb (col x) then plug C (blk x) else
  match C with
  | [] => blk x
  | FL p c k w :: C =>
      match w with
      | Nd wp false wl wk wr =>
          let C' := FL wp true wk wr :: C in
          del_left (λ t, plug C' (blk t)) C' p false x k wl
      | _ => del_left (fix_del C) C p c x k w
      end
  | FR p c w k :: C =>
      match w with
      | Nd wp false wl wk wr =>
          let C' := FR wp true wl wk :: C in
          del_right (λ t, plug C' (blk t)) C' p false wr k x
      | _ => del_right (fix_del C) C p c w k x
      end
  end.

(** The leftmost node of [t] under the context [D]: its context, address, colour, key and right
    child. *)
Fixpoint split_min (D : list frame) t : option (list frame * ptr * bool * T * ptree) :=
  match t with
  | Lf => None
  | Nd p c Lf k r => Some (D, p, c, k, r)
  | Nd p c l k r => split_min (FL p c k r :: D) l
  end.

(** [remove_splice] at the node [p]: the position to rebalance from and the colour removed. *)
Definition splice C c l r : option (list frame * ptree * bool) :=
  match l, r with
  | Lf, _ => Some (C, r, c)
  | _, Lf => Some (C, l, c)
  | _, _ =>
      '(D, q, qc, qk, qr) ← split_min [] r;
      Some (D ++ FR q c l qk :: C, qr, qc)
  end.

(** ** The red-black invariant *)

(** [rb c n t]: no red node of [t] has a red child, every path to a leaf has [n] black nodes,
    and the root's colour is [c]. *)
Inductive rb : bool → nat → ptree → Prop :=
  | rb_lf : rb true 0 Lf
  | rb_red p n l k r : rb true n l → rb true n r → rb false n (Nd p false l k r)
  | rb_blk p n cl cr l k r : rb cl n l → rb cr n r → rb true (S n) (Nd p true l k r).

(** [rbc a n C]: filling the hole of [C] with a tree of black height [n] gives a red-black tree
    with a black root; the tree may be red when [a] holds. *)
Inductive rbc : bool → nat → list frame → Prop :=
  | rbc_nil n : rbc false n []
  | rbc_FL_red p n k r C : rb true n r → rbc true n C → rbc false n (FL p false k r :: C)
  | rbc_FL_blk p n a c k r C : rb c n r → rbc a (S n) C → rbc true n (FL p true k r :: C)
  | rbc_FR_red p n k l C : rb true n l → rbc true n C → rbc false n (FR p false l k :: C)
  | rbc_FR_blk p n a c k l C : rb c n l → rbc a (S n) C → rbc true n (FR p true l k :: C).

Definition rb_tree t : Prop := ∃ n, rb true n t.
End spec.
Arguments ptree T : clear implicits.
Arguments frame T : clear implicits.
Abbreviation blk := (recolor true).

#[export] Hint Constructors rb rbc : lob.

Section rb_lemmas.
Context {T : Type}.
Implicit Types (t x : ptree T) (C : list (frame T)).

(** Case analysis on the sibling tree of the innermost frame. *)
Local Ltac rbc_sibling :=
  match goal with
  | _ : rbc _ _ (FL _ _ _ ?u :: _), H : rb _ _ ?u |- _ => inversion H; subst
  | _ : rbc _ _ (FR _ _ ?u _ :: _), H : rb _ _ ?u |- _ => inversion H; subst
  end.

Lemma rb_col c n t : rb c n t → col t = c.
Proof. by destruct 1. Qed.

Lemma rb_fun c1 c2 n1 n2 t : rb c1 n1 t → rb c2 n2 t → c1 = c2 ∧ n1 = n2.
Proof.
  intros H1. revert c2 n2. induction H1; intros c2 n2 H2; inversion H2; subst; [done|..].
  - split; [done|]. by edestruct IHrb1.
  - split; [done|]. edestruct IHrb1 as [_ ->]; eauto.
Qed.

Lemma rb_blk_tree c n t : rb c n t → rb_tree (blk t).
Proof. destruct 1; simpl; eexists; eauto with lob. Qed.

Lemma rb_red_to_blk n p c l (k : T) r :
  rb false n (Nd p c l k r) → rb true (S n) (Nd p true l k r).
Proof. inversion 1; subst. eauto with lob. Qed.

Lemma plug_rb a n C c t : rbc a n C → rb c n t → c = true ∨ a = true → rb_tree (plug C t).
Proof.
  intros HC. revert c t. induction HC; intros c' t Ht Hca; simpl.
  - destruct Hca as [->|]; [by eexists|done].
  - destruct Hca as [->|]; [|done]. eapply IHHC; eauto with lob.
  - eapply IHHC; eauto with lob.
  - destruct Hca as [->|]; [|done]. eapply IHHC; eauto with lob.
  - eapply IHHC; eauto with lob.
Qed.

Lemma unplug_rb C t : rb_tree (plug C t) → ∃ a n c, rbc a n C ∧ rb c n t ∧ (c = true ∨ a = true).
Proof.
  revert t. induction C as [|f C IH]; simpl; intros t Ht.
  - destruct Ht as [n Ht]. exists false, n, true. eauto with lob.
  - apply IH in Ht as (a & n & c & HC & Ht & Hca).
    destruct f as [p fc k r|p fc l k]; simpl in Ht; inversion Ht; subst.
    all: try (destruct Hca as [ | -> ]; [done|]; exists false).
    all: try (exists true).
    all: do 2 eexists; split_and!; eauto with lob.
Qed.

Lemma fix_ins_rb C t a n : rbc a n C → rb false n t → rb_tree (blk (fix_ins C t)).
Proof.
  remember (length C) as m eqn:Hm. revert C t a n Hm.
  induction m as [m IH] using lt_wf_ind. intros C t a n -> HC Ht.
  destruct C as [|f [|g C]].
  - simpl. eapply rb_blk_tree; eauto.
  - (* the parent is the root, hence black *)
    simpl. assert (rb_tree (plug1 f t)) as [n' Hn'].
    { inversion HC; subst; simpl;
        match goal with H : rbc _ _ [] |- _ => inversion H; subst end; eexists; eauto with lob. }
    eapply rb_blk_tree; eauto.
  - simpl. destruct (fcol f) eqn:Hf.
    { change (plug C (plug1 g (plug1 f t))) with (plug (f :: g :: C) t).
      assert (rb_tree (plug (f :: g :: C) t)) as [n' Hn'].
      { eapply plug_rb; eauto. inversion HC; subst; auto; done. }
      eapply rb_blk_tree; eauto. }
    assert (∀ u : ptree T, rb_tree u → rb_tree (blk u)) as Hblk.
    { intros u [? ?]. by eapply rb_blk_tree. }
    assert (∀ t' n' a', rbc a' n' C → rb false n' t' → rb_tree (blk (fix_ins C t'))) as IH'.
    { intros. eapply (IH (length C)); simpl; eauto with lia. }
    inversion HC; subst; simpl in *; try discriminate;
      match goal with H : rbc true _ (g :: C) |- _ => inversion H; subst end; simpl;
      match goal with |- context [negb (col ?u)] => destruct (col u) eqn:Hu end; simpl.
    all: match goal with H : rb ?c _ ?u, Hu : col ?u = _ |- _ =>
           let E := fresh in pose proof (rb_col _ _ _ H) as E; rewrite Hu in E;
           destruct c; try discriminate E; clear E end.
    all: try (inversion Ht; subst; apply Hblk; eapply plug_rb; [eassumption| |left; reflexivity];
              eauto 6 with lob; fail).
    all: eapply IH'; [eassumption|].
    all: match goal with H : rb false _ ?u, Hu : col ?u = false |- _ => inversion H; subst end.
    all: simpl; eauto 6 with lob.
Qed.

Lemma fix_ins_items C t : t ≠ Lf → items (fix_ins C t) = items (plug C t).
Proof.
  remember (length C) as m eqn:Hm. revert C t Hm.
  induction m as [m IH] using lt_wf_ind. intros C t -> Ht.
  destruct C as [|f [|g C]]; [done..|]. cbn [fix_ins].
  destruct (fcol f); [done|].
  destruct t as [|n c a k b]; [done|].
  destruct g as [gp gc gk gr|gp gc gl gk];
    match goal with |- context [negb (col ?u)] => destruct (col u) end; cbn [negb].
  all: try (rewrite (IH (length C)) by (simpl; auto; lia || done)).
  all: destruct f; cbn [plug plug1 frecolor]; rewrite !items_plug; simpl;
    rewrite ?items_recolor; repeat (rewrite <-app_assoc || simpl); done.
Qed.

(** *** Deletion *)

(** [x] has black height [n] in a hole that wants [S n]: the deficit the loop repairs.  [Hup]
    is the case where the deficit moves to the parent. *)
Lemma del_left_rb (up : ptree T → ptree T) C p c x k w n a :
  rbc a (if c : bool then S (S n) else S n) C → c = true ∨ a = true →
  rb true (S n) w → rb true n x →
  (∀ wp wl wk wr, rb true n wl → rb true n wr →
     rb_tree (up (Nd p c x k (Nd wp false wl wk wr)))) →
  rb_tree (del_left up C p c x k w).
Proof.
  intros HC Hca Hw Hx Hup. inversion Hw as [| |? ? cl cr wl wk wr Hl Hr]; subst. simpl.
  assert (∀ u : ptree T, rb_tree u → rb_tree (blk u)) as Hblk.
  { intros u [? ?]. by eapply rb_blk_tree. }
  rewrite (rb_col _ _ _ Hl), (rb_col _ _ _ Hr).
  destruct cr; [destruct cl|]; rewrite ?andb_false_r; simpl.
  - eauto.
  - inversion Hl; subst. apply Hblk. destruct c; (eapply plug_rb; [exact HC| |]); eauto with lob.
  - inversion Hr; subst. apply Hblk. destruct c; (eapply plug_rb; [exact HC| |]); eauto with lob.
Qed.

Lemma del_right_rb (up : ptree T → ptree T) C p c x k w n a :
  rbc a (if c : bool then S (S n) else S n) C → c = true ∨ a = true →
  rb true (S n) w → rb true n x →
  (∀ wp wl wk wr, rb true n wl → rb true n wr →
     rb_tree (up (Nd p c (Nd wp false wl wk wr) k x))) →
  rb_tree (del_right up C p c w k x).
Proof.
  intros HC Hca Hw Hx Hup. inversion Hw as [| |? ? cl cr wl wk wr Hl Hr]; subst. simpl.
  assert (∀ u : ptree T, rb_tree u → rb_tree (blk u)) as Hblk.
  { intros u [? ?]. by eapply rb_blk_tree. }
  rewrite (rb_col _ _ _ Hl), (rb_col _ _ _ Hr).
  destruct cl; [destruct cr|]; rewrite ?andb_false_r; simpl.
  - eauto.
  - inversion Hr; subst. apply Hblk. destruct c; (eapply plug_rb; [exact HC| |]); eauto with lob.
  - inversion Hl; subst. apply Hblk. destruct c; (eapply plug_rb; [exact HC| |]); eauto with lob.
Qed.

Lemma fix_del_red_up C t a n :
  rbc a (S n) C → rb true (S n) (blk t) → rb_tree (plug C (blk t)).
Proof. intros HC Ht. eapply plug_rb; eauto. Qed.

Lemma fix_del_red C t : col t = false → fix_del C t = plug C (blk t).
Proof. destruct C as [|[] ?]; simpl; by intros ->. Qed.

Lemma fix_del_rb C x a n c : rbc a (S n) C → rb c n x → rb_tree (fix_del C x).
Proof.
  revert x a n c. induction C as [|f C IH]; intros x a n c HC Hx.
  { destruct Hx; simpl; eexists; eauto with lob. }
  destruct c; last first.
  { inversion Hx; subst. cbn [fix_del col negb]. eapply fix_del_red_up; eauto with lob. }
  assert (∀ p l (k : T) r, rb true (S n) (Nd p true l k r) → ∀ a, rbc a (S (S n)) C →
            rb_tree (fix_del C (Nd p true l k r))) as IHb by eauto.
  destruct f as [p fc k w|p fc w k]; cbn [fix_del]; rewrite (rb_col _ _ _ Hx); cbn [negb].
  all: inversion HC; subst.
  all: rbc_sibling.
  all: first [eapply del_left_rb | eapply del_right_rb]; eauto 6 with lob.
  all: intros; rewrite ?fix_del_red by done.
  all: try (eapply fix_del_red_up; eauto 6 with lob; fail).
  all: eauto 6 with lob.
Qed.

Lemma del_left_items (up : ptree T → ptree T) C p c x k w n :
  rb true (S n) w → (∀ t, items (up t) = items (plug C t)) →
  items (del_left up C p c x k w) = items (plug C (Nd p c x k w)).
Proof.
  intros Hw Hup. inversion Hw as [| |? ? cl cr wl wk wr Hl Hr]; subst. simpl.
  rewrite (rb_col _ _ _ Hl), (rb_col _ _ _ Hr).
  destruct cr; [destruct cl; [|inversion Hl; subst]|]; rewrite ?andb_false_r; simpl;
    rewrite ?Hup, ?items_recolor, !items_plug; simpl; rewrite ?items_recolor;
    repeat (rewrite <-app_assoc || simpl); done.
Qed.

Lemma del_right_items (up : ptree T → ptree T) C p c x k w n :
  rb true (S n) w → (∀ t, items (up t) = items (plug C t)) →
  items (del_right up C p c w k x) = items (plug C (Nd p c w k x)).
Proof.
  intros Hw Hup. inversion Hw as [| |? ? cl cr wl wk wr Hl Hr]; subst. simpl.
  rewrite (rb_col _ _ _ Hl), (rb_col _ _ _ Hr).
  destruct cl; [destruct cr; [|inversion Hr; subst]|]; rewrite ?andb_false_r; simpl;
    rewrite ?Hup, ?items_recolor, !items_plug; simpl; rewrite ?items_recolor;
    repeat (rewrite <-app_assoc || simpl); done.
Qed.

Lemma items_plug_recolor c C t : items (plug C (recolor c t)) = items (plug C t).
Proof. by rewrite !items_plug, items_recolor. Qed.

Lemma fix_del_items C x a n : rbc a (S n) C → items (fix_del C x) = items (plug C x).
Proof.
  revert x a n. induction C as [|f C IH]; intros x a n HC.
  { simpl. destruct (negb _); simpl; by rewrite items_recolor. }
  assert (∀ t, items (fix_del C t) = items (plug C t)) as IH'.
  { inversion HC; subst; eauto. }
  destruct f as [p fc k w|p fc w k]; cbn [fix_del]; destruct (negb (col x));
    try by rewrite items_plug_recolor.
  all: inversion HC; subst;
    rbc_sibling;
    first [erewrite del_left_items by eauto with lob | erewrite del_right_items by eauto with lob
          | erewrite del_left_items by (eauto; intros; by rewrite items_plug_recolor)
          | erewrite del_right_items by (eauto; intros; by rewrite items_plug_recolor)].
  all: cbn [plug plug1]; rewrite ?items_plug; simpl;
    repeat (rewrite <-app_assoc || simpl); done.
Qed.

(** *** Unlinking *)

Lemma split_min_spec D t : t ≠ Lf → ∃ E p c k r,
  split_min D t = Some (E ++ D, p, c, k, r) ∧ t = plug E (Nd p c Lf k r) ∧
  citems_l E = [] ∧ Forall (λ f, ∃ q qc qk qr, f = FL q qc qk qr) E.
Proof.
  revert D. induction t as [|p c l IHl k r _]; [done|]. intros D _.
  destruct l as [|p' c' l' k' r'] eqn:Hl.
  - exists [], p, c, k, r. repeat constructor.
  - destruct (IHl (FL p c k r :: D)) as (E&q&qc&qk&qr&HE&Hp&Hi&Hall); [done|].
    exists (E ++ [FL p c k r]), q, qc, qk, qr. split_and!.
    + rewrite <-app_assoc. exact HE.
    + rewrite plug_app. simpl. by rewrite <-Hp.
    + clear -Hi Hall. induction Hall as [|f E (?&?&?&?&->) ? IH]; [done|]. by apply IH.
    + apply Forall_app. split; [done|]. repeat constructor. eauto.
Qed.

Lemma splice_items C c l r C' x oc :
  splice C c l r = Some (C', x, oc) →
  items (plug C' x) = citems_l C ++ items l ++ items r ++ citems_r C.
Proof.
  intros Hs. destruct l as [|lp lc ll lk lr], r as [|rpp rc rl rk rr]; simpl in Hs; simplify_eq;
    try (rewrite items_plug; simpl; by rewrite ?app_nil_r).
  destruct (split_min_spec [] (Nd rpp rc rl rk rr)) as (E&q&qc&qk&qr&HE&Hp&Hi&_); [done|].
  rewrite Hp. simpl in HE. rewrite HE in Hs. simplify_eq/=. rewrite app_nil_r, plug_app.
  cbn [plug plug1]. rewrite items_plug. simpl. rewrite !items_plug, Hi. simpl.
  repeat (rewrite <-app_assoc || simpl). done.
Qed.

Lemma splice_is_Some C c l r : is_Some (splice C c l r).
Proof.
  destruct l, r as [|rpp rc rl rk rr]; try (eexists; reflexivity).
  destruct (split_min_spec [] (Nd rpp rc rl rk rr)) as (E&q&qc&qk&qr&HE&_); [done|].
  unfold splice. rewrite HE. by eexists.
Qed.

Lemma rbc_swap a n E p q c l k k' C :
  rbc a n (E ++ FR p c l k :: C) → rbc a n (E ++ FR q c l k' :: C).
Proof.
  revert a n. induction E as [|f E IH]; simpl; intros a n H; inversion H; subst; eauto with lob.
Qed.

(** Removing a node: the position left by the unlinking is repaired when the colour removed
    was black. *)
Definition unlink C c l r : option (ptree T) :=
  '(C', x, oc) ← splice C c l r;
  Some (if oc : bool then fix_del C' x else plug C' x).

Lemma splice_rb C p c l k r C' x oc :
  rb_tree (plug C (Nd p c l k r)) → splice C c l r = Some (C', x, oc) →
  if oc then ∃ a n c', rbc a (S n) C' ∧ rb c' n x else rb_tree (plug C' x).
Proof.
  intros Ht Hs.
  assert (∀ C0 q qc (y : ptree T) qk ql qr a n c0, (ql = Lf ∧ y = qr ∨ qr = Lf ∧ y = ql) →
    rbc a n C0 → rb c0 n (Nd q qc ql qk qr) → c0 = true ∨ a = true →
    if qc : bool then ∃ a n c', rbc a (S n) C0 ∧ rb c' n y else rb_tree (plug C0 y)) as Hone.
  { intros C0 q qc y qk ql qr a n c0 Hy HC Hq Hca. inversion Hq; subst.
    - destruct Hca as [|Ha]; [done|].
      destruct Hy as [[-> ->]|[-> ->]]; eapply plug_rb; eauto.
    - destruct Hy as [[-> ->]|[-> ->]].
      + match goal with H : rb _ _ Lf |- _ => inversion H; subst end. eauto 8.
      + match goal with H : rb _ _ Lf |- _ => inversion H; subst end. eauto 8. }
  destruct (unplug_rb _ _ Ht) as (a&n&c0&HC&Hq&Hca).
  destruct l as [|lp lc ll lk lr], r as [|rpp rc rl rk rr]; simpl in Hs; simplify_eq;
    try (eapply Hone; [|exact HC|exact Hq|exact Hca]; by auto).
  destruct (split_min_spec [] (Nd rpp rc rl rk rr)) as (E&q&qc&qk&qr&HE&Hp&_); [done|].
  simpl in HE. rewrite HE in Hs. simplify_eq/=. rewrite app_nil_r.
  set (L := Nd lp lc ll lk lr) in *.
  assert (rb_tree (plug (E ++ FR p c L k :: C) (Nd q oc Lf qk x))) as Ht'.
  { rewrite plug_app, <-Hp. exact Ht. }
  destruct (unplug_rb _ _ Ht') as (a'&n'&c0'&HC'&Hq'&Hca').
  eapply Hone; [by left|by eapply rbc_swap|done|done].
Qed.

Theorem unlink_ok C p c l k r :
  rb_tree (plug C (Nd p c l k r)) →
  ∃ t', unlink C c l r = Some t' ∧ rb_tree t' ∧
    items t' = citems_l C ++ items l ++ items r ++ citems_r C.
Proof.
  intros Ht. destruct (splice_is_Some C c l r) as [[[C' x] oc] Hs].
  pose proof (splice_rb _ _ _ _ _ _ _ _ _ Ht Hs) as Hrb. unfold unlink. rewrite Hs. simpl.
  eexists. split; [done|]. rewrite <-(splice_items _ _ _ _ _ _ _ Hs).
  destruct oc; [|done]. destruct Hrb as (a&n&c'&HC&Hx).
  split; [by eapply fix_del_rb|by eapply fix_del_items].
Qed.

(** *** Height *)

Fixpoint height t : nat := match t with Lf => 0 | Nd _ _ l _ r => S (max (height l) (height r)) end.

Lemma rb_height c n t : rb c n t → height t ≤ 2 * n + (if c then 0 else 1).
Proof. induction 1; simpl in *; repeat case_match; lia. Qed.

Lemma rb_size c n t : rb c n t → 2 ^ n ≤ length (items t) + 1.
Proof. induction 1; simpl in *; rewrite ?length_app; simpl; lia. Qed.

Theorem rb_tree_height t : rb_tree t → height t ≤ 2 * Nat.log2 (length (items t) + 1).
Proof.
  intros [n Ht]. pose proof (rb_height _ _ _ Ht). pose proof (rb_size _ _ _ Ht) as Hs.
  apply Nat.log2_le_mono in Hs. rewrite Nat.log2_pow2 in Hs by lia. simpl in *. lia.
Qed.

(** *** The ends of the in-order sequence *)

Definition firstp t : ptr := default nil_ptr (head (ptrs t)).
Definition lastp t : ptr := default nil_ptr (list.last (ptrs t)).

(** In a red-black tree the only child of a node without a left child is a leaf node. *)
Lemma rb_tree_only_right C p c k r :
  rb_tree (plug C (Nd p c Lf k r)) → r = Lf ∨ ∃ q qk, r = Nd q false Lf qk Lf.
Proof.
  intros Ht. destruct (unplug_rb _ _ Ht) as (a&n&c0&_&Hq&_).
  inversion Hq; subst; repeat match goal with H : rb _ _ Lf |- _ => inversion H; subst; clear H end;
    match goal with H : rb _ 0 r |- _ => inversion H; subst end; eauto;
    repeat match goal with H : rb true 0 _ |- _ => inversion H; subst; clear H end; eauto.
Qed.

Lemma rb_tree_only_left C p c k l :
  rb_tree (plug C (Nd p c l k Lf)) → l = Lf ∨ ∃ q qk, l = Nd q false Lf qk Lf.
Proof.
  intros Ht. destruct (unplug_rb _ _ Ht) as (a&n&c0&_&Hq&_).
  inversion Hq; subst; repeat match goal with H : rb _ _ Lf |- _ => inversion H; subst; clear H end;
    match goal with H : rb _ 0 l |- _ => inversion H; subst end; eauto;
    repeat match goal with H : rb true 0 _ |- _ => inversion H; subst; clear H end; eauto.
Qed.
End rb_lemmas.
