(* ===== verification/RBRep.v ===== *)
(** * What a node store represents, and the specifications of the pointer-level primitives

    [Pos tr C t] says that the store of [tr] holds the tree [plug C t] and nothing else besides
    the sentinel.  The lemmas below give, for each primitive of the code (recolouring, linking,
    rotations, [most_left], [search_tree], iterator steps), the position before and after. *)

From S2P Require Import Prelude RBTree RBSpec.

Section rep.
Context {T : Type}.
Implicit Types (h : gmap nat (node T)) (t a b : ptree T) (C : list (frame T)) (tr : rbtree T).

Fixpoint rep h (par : ptr) t : Prop :=
  match t with
  | Lf => True
  | Nd p c l k r =>
      h !! p = Some (Node k c par (rp l) (rp r)) ∧ rep h p l ∧ rep h p r
  end.

(** [v] is the address in the hole. *)
Fixpoint repc h C (v : ptr) : Prop :=
  match C with
  | [] => True
  | FL p c k r :: C =>
      h !! p = Some (Node k c (cptr C) v (rp r)) ∧ rep h p r ∧ repc h C p
  | FR p c l k :: C =>
      h !! p = Some (Node k c (cptr C) (rp l) v) ∧ rep h p l ∧ repc h C p
  end.

(** The store holds the sentinel and the nodes [ps]. *)
Record store_ok tr (ps : list ptr) : Prop := {
  so_nodup : NoDup ps;
  so_bound : ∀ q, q ∈ ps → 1 < q < next_addr tr;
  so_nil : ∃ n, nodes tr !! nil_ptr = Some n ∧ is_black n = true;
  so_dom : ∀ q, is_Some (nodes tr !! q) → q = nil_ptr ∨ q ∈ ps;
  so_next : 1 < next_addr tr
}.

Record Pos tr C t : Prop := {
  pos_ctx : repc (nodes tr) C (rp t);
  pos_sub : rep (nodes tr) (cptr C) t;
  pos_store : store_ok tr (ptrs t ++ cptrs C);
  pos_root : root tr = rp (plug C t)
}.

Definition Rep tr t : Prop := Pos tr [] t.

(** The fields a rebalancing step leaves alone. *)
Record same_meta tr tr' : Prop := {
  sm_first : first_ptr tr' = first_ptr tr;
  sm_last : last_ptr tr' = last_ptr tr;
  sm_size : tree_size tr' = tree_size tr;
  sm_next : next_addr tr' = next_addr tr;
  sm_nil : nodes tr' !! nil_ptr = nodes tr !! nil_ptr;
  sm_dom : dom (nodes tr') = dom (nodes tr)
}.

Lemma same_meta_refl tr : same_meta tr tr.
Proof. by split. Qed.
Lemma same_meta_trans tr1 tr2 tr3 : same_meta tr1 tr2 → same_meta tr2 tr3 → same_meta tr1 tr3.
Proof. intros [] []. split; congruence. Qed.

Lemma store_ok_perm tr ps ps' : ps ≡ₚ ps' → store_ok tr ps → store_ok tr ps'.
Proof.
  intros Hp [Hnd Hb Hn Hd Hx]. split; [by rewrite <-Hp| |done| |done].
  - intros q. rewrite <-Hp. apply Hb.
  - intros q. rewrite <-Hp. apply Hd.
Qed.

Lemma store_ok_nodup_ctx tr t C : store_ok tr (ptrs t ++ cptrs C) → NoDup (cptrs C).
Proof. intros [Hnd _ _ _ _]. apply NoDup_app in Hnd. tauto. Qed.

Lemma store_ok_meta tr tr' ps : same_meta tr tr' → store_ok tr ps → store_ok tr' ps.
Proof.
  intros Hm [Hnd Hb Hn Hd Hx]. split; rewrite ?(sm_next _ _ Hm), ?(sm_nil _ _ Hm); auto.
  intros q Hq%elem_of_dom. rewrite (sm_dom _ _ Hm) in Hq. by apply Hd, elem_of_dom.
Qed.

(** *** Frames *)

Lemma ptrs_Nd p c a k b : ptrs (Nd p c a k b) = ptrs a ++ p :: ptrs b.
Proof. unfold ptrs. simpl. by rewrite fmap_app. Qed.

Lemma rp_in t : t ≠ Lf → rp t ∈ ptrs t.
Proof. destruct t; [done|]. intros _. rewrite ptrs_Nd, elem_of_app, elem_of_cons. auto. Qed.

Lemma cptrs_FL p c k b C : cptrs (FL p c k b :: C) ≡ₚ p :: ptrs b ++ cptrs C.
Proof.
  unfold cptrs, citems, ptrs. simpl. rewrite !fmap_app. simpl. rewrite fmap_app.
  rewrite <-Permutation_middle. by rewrite Permutation_app_swap_app.
Qed.
Lemma cptrs_FR p c a k C : cptrs (FR p c a k :: C) ≡ₚ p :: ptrs a ++ cptrs C.
Proof.
  unfold cptrs, citems, ptrs. simpl. rewrite !fmap_app. simpl.
  rewrite <-!app_assoc. simpl. rewrite app_assoc, <-Permutation_middle.
  by rewrite <-app_assoc, Permutation_app_swap_app.
Qed.
Lemma elem_of_Nd q p c a k b : q ∈ ptrs (Nd p c a k b) ↔ q ∈ ptrs a ∨ q = p ∨ q ∈ ptrs b.
Proof. by rewrite ptrs_Nd, elem_of_app, elem_of_cons. Qed.
Lemma elem_of_FL q p c k b C : q ∈ cptrs (FL p c k b :: C) ↔ q = p ∨ q ∈ ptrs b ∨ q ∈ cptrs C.
Proof. by rewrite cptrs_FL, elem_of_cons, elem_of_app. Qed.
Lemma elem_of_FR q p c k a C : q ∈ cptrs (FR p c a k :: C) ↔ q = p ∨ q ∈ ptrs a ∨ q ∈ cptrs C.
Proof. by rewrite cptrs_FR, elem_of_cons, elem_of_app. Qed.
#[export] Instance set_unfold_Nd q p c a k b :
  SetUnfoldElemOf q (ptrs (Nd p c a k b)) (q ∈ ptrs a ∨ q = p ∨ q ∈ ptrs b).
Proof. constructor. apply elem_of_Nd. Qed.
#[export] Instance set_unfold_Lf q : SetUnfoldElemOf q (ptrs (@Lf T)) False.
Proof. constructor. apply elem_of_nil. Qed.
#[export] Instance set_unfold_FL q p c k b C :
  SetUnfoldElemOf q (cptrs (FL p c k b :: C)) (q = p ∨ q ∈ ptrs b ∨ q ∈ cptrs C).
Proof. constructor. apply elem_of_FL. Qed.
#[export] Instance set_unfold_FR q p c k a C :
  SetUnfoldElemOf q (cptrs (FR p c a k :: C)) (q = p ∨ q ∈ ptrs a ∨ q ∈ cptrs C).
Proof. constructor. apply elem_of_FR. Qed.
#[export] Instance set_unfold_top q : SetUnfoldElemOf q (cptrs (@nil (frame T))) False.
Proof. constructor. apply elem_of_nil. Qed.
Lemma cptrs_nil : cptrs (@nil (frame T)) = [].
Proof. done. Qed.

Lemma cptr_in C : C ≠ [] → cptr C ∈ cptrs C.
Proof.
  destruct C as [|[]]; [done| |]; intros _; rewrite ?cptrs_FL, ?cptrs_FR; simpl; set_solver.
Qed.

Lemma ptrs_plug1 f t : ptrs (plug1 f t) ≡ₚ ptrs t ++ cptrs [f].
Proof. apply (ptrs_plug [f]). Qed.

Lemma ptrs_plug_cons f C t : ptrs t ++ cptrs (f :: C) ≡ₚ ptrs (plug1 f t) ++ cptrs C.
Proof. by rewrite <-!ptrs_plug. Qed.

Lemma rep_frame h h' par t :
  (∀ q, q ∈ ptrs t → h' !! q = h !! q) → rep h par t → rep h' par t.
Proof.
  revert par. induction t as [|p c l IHl k r IHr]; simpl; [done|].
  intros par. rewrite ptrs_Nd. setoid_rewrite elem_of_app. setoid_rewrite elem_of_cons.
  intros Hq (Hp&Hl&Hr). split_and!; [|by apply IHl; auto|by apply IHr; auto].
  rewrite Hq by auto. done.
Qed.

Lemma repc_frame h h' C v :
  (∀ q, q ∈ cptrs C → h' !! q = h !! q) → repc h C v → repc h' C v.
Proof.
  revert v. induction C as [|[p c k r|p c l k] C IH]; simpl; [done|..]; intros v Hq (Hp&Hr&HC).
  all: first [setoid_rewrite cptrs_FL in Hq | setoid_rewrite cptrs_FR in Hq];
    setoid_rewrite elem_of_cons in Hq; setoid_rewrite elem_of_app in Hq.
  all: split_and!; [rewrite Hq; auto| |eapply IH; auto].
  all: match goal with H : rep ?h0 _ _ |- _ => apply (rep_frame h0); [auto|exact H] end.
Qed.

Lemma rep_plug h C t : rep h nil_ptr (plug C t) ↔ repc h C (rp t) ∧ rep h (cptr C) t.
Proof.
  revert t. induction C as [|[p c k r|p c l k] C IH]; intros t; simpl; [tauto|..];
    rewrite IH; simpl; tauto.
Qed.

Lemma Pos_cons tr f C t : Pos tr (f :: C) t ↔ Pos tr C (plug1 f t).
Proof.
  split; intros [Hc Hs Hst Hr]; split.
  1,2,5,6: destruct f; simpl in *; tauto.
  1,3: eapply store_ok_perm; [|done]; by rewrite ptrs_plug_cons.
  all: done.
Qed.

Lemma Pos_plug tr C t : Pos tr C t ↔ Rep tr (plug C t).
Proof. revert t. induction C as [|f C IH]; intros t; [done|]. by rewrite Pos_cons, IH. Qed.

(** *** Pointers *)

Lemma store_ok_not_nil tr ps q : store_ok tr ps → q ∈ ps → q ≠ nil_ptr ∧ q ≠ null.
Proof. intros Hs Hq. pose proof (so_bound _ _ Hs q Hq). unfold nil_ptr, null. lia. Qed.

Lemma Pos_ptr_ne tr C p c l k r :
  Pos tr C (Nd p c l k r) → p ≠ nil_ptr ∧ p ≠ null.
Proof.
  intros HP. eapply store_ok_not_nil; [apply HP|].
  rewrite ptrs_Nd, !elem_of_app, elem_of_cons. auto.
Qed.

Lemma get_node_ok tr p n : nodes tr !! p = Some n → get_node p tr = (tr, Ret n).
Proof. unfold get_node. by intros ->. Qed.
Lemma upd_node_ok tr p f n :
  nodes tr !! p = Some n → upd_node p f tr = (with_nodes (<[p := f n]> (nodes tr)) tr, Ret tt).
Proof. unfold upd_node. by intros ->. Qed.

Lemma get_key_ok tr p n : nodes tr !! p = Some n → get_key p tr = (tr, Ret (key n)).
Proof. unfold get_key, fmap, M_fmap. intros H. by rewrite (get_node_ok _ _ _ H). Qed.
Lemma get_black_ok tr p n : nodes tr !! p = Some n → get_black p tr = (tr, Ret (is_black n)).
Proof. unfold get_black, fmap, M_fmap. intros H. by rewrite (get_node_ok _ _ _ H). Qed.
Lemma get_parent_ok tr p n : nodes tr !! p = Some n → get_parent p tr = (tr, Ret (parent n)).
Proof. unfold get_parent, fmap, M_fmap. intros H. by rewrite (get_node_ok _ _ _ H). Qed.
Lemma get_left_ok tr p n : nodes tr !! p = Some n → get_left p tr = (tr, Ret (left n)).
Proof. unfold get_left, fmap, M_fmap. intros H. by rewrite (get_node_ok _ _ _ H). Qed.
Lemma get_right_ok tr p n : nodes tr !! p = Some n → get_right p tr = (tr, Ret (right n)).
Proof. unfold get_right, fmap, M_fmap. intros H. by rewrite (get_node_ok _ _ _ H). Qed.
Lemma set_key_ok tr p n v : nodes tr !! p = Some n →
  set_key p v tr = (with_nodes (<[p := Node v (is_black n) (parent n) (left n) (right n)]> (nodes tr)) tr, Ret tt).
Proof. intros H. unfold set_key. by rewrite (upd_node_ok _ _ _ _ H). Qed.
Lemma set_black_ok tr p n v : nodes tr !! p = Some n →
  set_black p v tr = (with_nodes (<[p := Node (key n) v (parent n) (left n) (right n)]> (nodes tr)) tr, Ret tt).
Proof. intros H. unfold set_black. by rewrite (upd_node_ok _ _ _ _ H). Qed.
Lemma set_parent_ok tr p n v : nodes tr !! p = Some n →
  set_parent p v tr = (with_nodes (<[p := Node (key n) (is_black n) v (left n) (right n)]> (nodes tr)) tr, Ret tt).
Proof. intros H. unfold set_parent. by rewrite (upd_node_ok _ _ _ _ H). Qed.
Lemma set_left_ok tr p n v : nodes tr !! p = Some n →
  set_left p v tr = (with_nodes (<[p := Node (key n) (is_black n) (parent n) v (right n)]> (nodes tr)) tr, Ret tt).
Proof. intros H. unfold set_left. by rewrite (upd_node_ok _ _ _ _ H). Qed.
Lemma set_right_ok tr p n v : nodes tr !! p = Some n →
  set_right p v tr = (with_nodes (<[p := Node (key n) (is_black n) (parent n) (left n) v]> (nodes tr)) tr, Ret tt).
Proof. intros H. unfold set_right. by rewrite (upd_node_ok _ _ _ _ H). Qed.

(** *** Linking a subtree to its parent: the code shared by the rotations and [transplant] *)

Definition link C (v : ptr) tr : rbtree T :=
  match C with
  | [] => with_root v tr
  | FL p c k r :: C => with_nodes (<[p := Node k c (cptr C) v (rp r)]> (nodes tr)) tr
  | FR p c l k :: C => with_nodes (<[p := Node k c (cptr C) (rp l) v]> (nodes tr)) tr
  end.

Definition reparent t (par : ptr) h : gmap nat (node T) :=
  match t with
  | Lf => h
  | Nd p c l k r => <[p := Node k c par (rp l) (rp r)]> h
  end.

Lemma link_lookup C v tr q : q ∉ cptrs C → nodes (link C v tr) !! q = nodes tr !! q.
Proof.
  destruct C as [|[p c k r|p c l k] C]; simpl; [done|..]; rewrite ?cptrs_FL, ?cptrs_FR;
    intros ?; apply lookup_insert_ne; set_solver.
Qed.

Lemma link_repc C u v tr :
  NoDup (cptrs C) → repc (nodes tr) C u → repc (nodes (link C v tr)) C v.
Proof.
  destruct C as [|[p c k r|p c l k] C]; simpl; [done|..]; rewrite ?cptrs_FL, ?cptrs_FR;
    rewrite NoDup_cons, NoDup_app; intros (Hp&Hnd&Hd&_) (_&Hr&HC).
  all: rewrite lookup_insert_eq; split_and!; [done| |].
  all: first [eapply rep_frame; [|eassumption] | eapply repc_frame; [|eassumption]];
    intros q Hq; apply lookup_insert_ne; intros ->; apply Hp; set_solver.
Qed.

Lemma link_meta C u v tr :
  nil_ptr ∉ cptrs C → repc (nodes tr) C u → same_meta tr (link C v tr).
Proof.
  destruct C as [|[p c k r|p c l k] C]; simpl; [by split|..]; rewrite ?cptrs_FL, ?cptrs_FR;
    intros Hn (Hp&_&_); split; try done; simpl.
  all: try (apply lookup_insert_ne; set_solver).
  all: rewrite dom_insert_L; apply elem_of_dom_2 in Hp; set_solver.
Qed.

Lemma rp_plug C t :
  rp (plug C t) = match list.last C with Some f => fptr f | None => rp t end.
Proof.
  revert t. induction C as [|f C IH]; intros t; [done|]. cbn [plug]. rewrite IH.
  destruct C as [|g C]; [by destruct f|]. change (list.last (f :: g :: C)) with (list.last (g :: C)).
  destruct (list.last (g :: C)) eqn:E; [done|]. by apply last_None in E.
Qed.

Lemma link_root C v tr t t' :
  rp t' = v → root tr = rp (plug C t) → root (link C v tr) = rp (plug C t').
Proof.
  intros Hv Hr. destruct C as [|f C]; [by simpl|].
  rewrite rp_plug. rewrite rp_plug in Hr.
  assert (is_Some (list.last (f :: C))) as [g Hg] by (apply last_is_Some; done).
  rewrite Hg in Hr |- *. rewrite <-Hr. by destruct f.
Qed.

Lemma link_run_left C u v tr :
  nil_ptr ∉ cptrs C → u ∉ cptrs C → u ≠ nil_ptr → repc (nodes tr) C u →
  (if decide (cptr C = nil_ptr) then set_root v else
   upl ← get_left (cptr C);
   if decide (u = upl) then set_left (cptr C) v else set_right (cptr C) v) tr
  = (link C v tr, Ret tt).
Proof.
  destruct C as [|[p c k r|p c l k] C]; simpl.
  - done.
  - intros Hn Hu _ (Hp&_). rewrite decide_False by set_solver.
    mstep_with (get_left_ok _ _ _ Hp). simpl. rewrite decide_True by done.
    unfold set_left. by erewrite upd_node_ok by exact Hp.
  - intros Hn Hu Hu' (Hp&_). rewrite decide_False by set_solver.
    mstep_with (get_left_ok _ _ _ Hp). simpl. rewrite decide_False.
    + unfold set_right. by erewrite upd_node_ok by exact Hp.
    + intros ->. destruct l; [done|]. apply Hu, elem_of_FR. right; left. apply elem_of_Nd. auto.
Qed.

Lemma link_run_right C u v tr :
  nil_ptr ∉ cptrs C → u ∉ cptrs C → u ≠ nil_ptr → repc (nodes tr) C u →
  (if decide (cptr C = nil_ptr) then set_root v else
   upr ← get_right (cptr C);
   if decide (u = upr) then set_right (cptr C) v else set_left (cptr C) v) tr
  = (link C v tr, Ret tt).
Proof.
  destruct C as [|[p c k r|p c l k] C]; simpl.
  - done.
  - intros Hn Hu Hu' (Hp&_). rewrite decide_False by set_solver.
    mstep_with (get_right_ok _ _ _ Hp). simpl. rewrite decide_False.
    + unfold set_left. by erewrite upd_node_ok by exact Hp.
    + intros ->. destruct r; [done|]. apply Hu, elem_of_FL. right; left. apply elem_of_Nd. auto.
  - intros Hn Hu _ (Hp&_). rewrite decide_False by set_solver.
    mstep_with (get_right_ok _ _ _ Hp). simpl. rewrite decide_True by done.
    unfold set_right. by erewrite upd_node_ok by exact Hp.
Qed.

Lemma reparent_lookup t par h q : q ∉ ptrs t → reparent t par h !! q = h !! q.
Proof.
  destruct t; simpl; [done|]. rewrite ptrs_Nd. intros. apply lookup_insert_ne. set_solver.
Qed.

Lemma reparent_rep t par par' h : NoDup (ptrs t) → rep h par t → rep (reparent t par' h) par' t.
Proof.
  destruct t as [|p c l k r]; simpl; [done|]. rewrite ptrs_Nd.
  rewrite NoDup_app, NoDup_cons. intros (_&Hd&Hp&_) (_&Hl&Hr). rewrite lookup_insert_eq.
  split_and!; [done| |]; (eapply rep_frame; [|eassumption]); intros q Hq;
    apply lookup_insert_ne; intros ->; [by apply (Hd q); [|left]|done].
Qed.

Lemma reparent_dom t par par' h : rep h par t → dom (reparent t par' h) = dom h.
Proof.
  destruct t; simpl; [done|]. intros (Hp&_). rewrite dom_insert_L.
  apply elem_of_dom_2 in Hp. set_solver.
Qed.

Lemma reparent_run t par x tr :
  nil_ptr ∉ ptrs t → rep (nodes tr) par t →
  (if decide (rp t = nil_ptr) then mret tt else set_parent (rp t) x) tr
  = (with_nodes (reparent t x (nodes tr)) tr, Ret tt).
Proof.
  destruct t as [|p c l k r]; simpl; [by destruct tr|].
  intros Hn (Hp&_). rewrite decide_False by set_solver.
  unfold set_parent. by erewrite upd_node_ok by exact Hp.
Qed.
End rep.

(** ** Symbolic execution on the store *)

(** [q ∉ l] and [p ≠ q] from the labels of the segments. *)
Ltac not_in :=
  let H := fresh in
  intros H;
  match type of H with
  | _ ∈ ?l => match goal with F : ∀ q, q ∈ l → _ q = _ |- _ => apply F in H; congruence end
  end.
Ltac look :=
  repeat first
    [ rewrite lookup_insert_eq | rewrite lookup_insert_ne by congruence
    | rewrite link_lookup by not_in | rewrite reparent_lookup by not_in | progress simpl ].
(** The content of a node after some updates. *)
Ltac node_at := look; first [eassumption | reflexivity].
(** A subtree or context the updates did not touch. *)
Ltac same_cells :=
  let q := fresh "q" in let Hq := fresh "Hq" in
  intros q Hq;
  match type of Hq with
  | _ ∈ ?l => match goal with F : ∀ q, q ∈ l → _ q = _ |- _ => pose proof (F q Hq) end
  end; look; reflexivity.
Ltac untouched :=
  match goal with
  | H : rep ?h _ ?t |- rep _ _ ?t => apply (rep_frame h); [same_cells|exact H]
  | H : repc ?h ?C _ |- repc _ ?C _ => apply (repc_frame h); [same_cells|exact H]
  end.
Ltac get_step :=
  first
    [ erewrite bind_ok by (apply get_left_ok; node_at)
    | erewrite bind_ok by (apply get_right_ok; node_at)
    | erewrite bind_ok by (apply get_parent_ok; node_at)
    | erewrite bind_ok by (apply get_black_ok; node_at)
    | erewrite bind_ok by (apply get_key_ok; node_at)
    | erewrite bind_ok by (apply set_left_ok; node_at)
    | erewrite bind_ok by (apply set_right_ok; node_at)
    | erewrite bind_ok by (apply set_parent_ok; node_at)
    | erewrite bind_ok by (apply set_black_ok; node_at)
    | erewrite bind_ok by (apply set_key_ok; node_at) ];
  cbn beta iota delta [key is_black parent left right].

Section meta.
Context {T : Type}.
Implicit Types (h : gmap nat (node T)) (tr : rbtree T).

Lemma same_meta_upd tr p n n' :
  nodes tr !! p = Some n → p ≠ nil_ptr → same_meta tr (with_nodes (<[p := n']> (nodes tr)) tr).
Proof.
  intros Hp Hne. split; try done; simpl; [by apply lookup_insert_ne|].
  rewrite dom_insert_L. apply elem_of_dom_2 in Hp. set_solver.
Qed.

Lemma same_meta_reparent tr t par par' :
  rep (nodes tr) par t → nil_ptr ∉ ptrs t →
  same_meta tr (with_nodes (reparent t par' (nodes tr)) tr).
Proof.
  intros Hr Hn. split; try done; simpl; [by apply reparent_lookup|by eapply reparent_dom].
Qed.
End meta.

Ltac meta :=
  lazymatch goal with
  | |- same_meta ?t ?t => apply same_meta_refl
  | |- same_meta _ (with_nodes (<[_ := _]> _) ?S) =>
      apply (same_meta_trans _ S); [meta|eapply same_meta_upd; [node_at|congruence]]
  | |- same_meta _ (with_nodes (reparent _ _ _) ?S) =>
      apply (same_meta_trans _ S); [meta|eapply same_meta_reparent; [untouched|not_in]]
  | |- same_meta _ (link _ _ ?S) =>
      apply (same_meta_trans _ S); [meta|eapply link_meta; [not_in|untouched]]
  end.

Lemma store_labels {T} (tr : rbtree T) ps (Ls : list (list nat)) :
  store_ok tr ps → [nil_ptr] ++ ps = concat Ls →
  ∃ lab : nat → nat, ∀ i l, Ls !! i = Some l → NoDup l ∧ ∀ q, q ∈ l → lab q = i.
Proof.
  intros HP Heq. apply labelled. rewrite <-Heq. simpl. apply NoDup_cons.
  split; [|apply HP]. intros Hn. by destruct (store_ok_not_nil _ _ _ HP Hn).
Qed.

(** Name the disjoint segments [Ls] of a store: [Hst : store_ok tr ps]. *)
Ltac store_segments Hst Ls :=
  let lab := fresh "lab" in let Hlab := fresh "Hlab" in
  destruct (store_labels _ _ Ls Hst) as [lab Hlab];
  [ simpl; rewrite ?ptrs_Nd, ?app_nil_r; simpl; rewrite <-?app_assoc; simpl;
    rewrite <-?app_assoc; reflexivity |];
  let rec go n L :=
    lazymatch L with
    | [] => idtac
    | ?l :: ?L' =>
        let H := fresh "Seg" in
        let Hnd := fresh "Snd" in
        destruct (Hlab n l eq_refl) as [Hnd H];
        lazymatch l with
        | [?p] => specialize (H p (proj2 (list_elem_of_singleton p p) eq_refl)); clear Hnd
        | _ => idtac
        end;
        go (S n) L'
    end in
  go 0 Ls; clear Hlab.
(** The same for a position [HP : Pos tr C t]. *)
Ltac segments HP Ls := store_segments (pos_store _ _ _ HP) Ls.

(** Name the facts about the state a [link] or [reparent] step leaves. *)
Ltac after_link t' Hroot :=
  match goal with
  | _ : repc _ ?C ?u |- context [link ?C ?v ?S] =>
      let H := fresh "HCl" in let Hr := fresh "Hrl" in
      assert (repc (nodes (link C v S)) C v) as H by (apply (link_repc C u); [assumption|untouched]);
      assert (root (link C v S) = rp (plug C t')) as Hr
        by (eapply link_root; [reflexivity|exact Hroot])
  end.
Ltac after_reparent :=
  match goal with
  | |- context [reparent ?b ?x ?h] =>
      let H := fresh "Hrp" in
      assert (rep (reparent b x h) x b) as H by (eapply reparent_rep; [assumption|untouched])
  end.

(** Two ways to write the addresses of a tree, up to associativity. *)
Ltac perm_assoc :=
  rewrite ?ptrs_Nd; repeat (rewrite <-app_assoc || simpl); reflexivity.

Section rotations.
Context {T : Type}.
Implicit Types (a b c : ptree T) (C : list (frame T)) (tr : rbtree T).

Lemma rotate_left_ok tr C x cx a kx y cy b ky c :
  Pos tr C (Nd x cx a kx (Nd y cy b ky c)) →
  ∃ tr', rotate_left x tr = (tr', Ret tt) ∧
    Pos tr' C (Nd y cy (Nd x cx a kx b) ky c) ∧ same_meta tr tr'.
Proof.
  intros HP.
  segments HP [[nil_ptr]; ptrs a; [x]; ptrs b; [y]; ptrs c; cptrs C].
  destruct HP as [HC (Hx&Ha&Hy&Hb&Hc) Hst Hroot]. simpl rp in *.
  unfold rotate_left. do 4 get_step.
  erewrite bind_ok; [|apply reparent_run with (par := y); [not_in|untouched]]. after_reparent.
  do 2 get_step.
  erewrite bind_ok; [|apply link_run_left; [not_in|not_in|congruence|untouched]].
  after_link (Nd y cy (Nd x cx a kx b) ky c) Hroot.
  get_step. erewrite set_parent_ok by node_at. cbn [key is_black left right].
  eexists. split; [reflexivity|].
  match goal with |- Pos ?S _ _ ∧ _ => assert (same_meta tr S) as Hm by meta end.
  split; [|exact Hm]. split.
  - simpl. untouched.
  - simpl. split_and!; first [node_at|untouched].
  - eapply store_ok_meta; [exact Hm|]. eapply store_ok_perm; [|exact Hst].
    perm_assoc.
  - exact Hrl.
Qed.

Lemma rotate_right_ok tr C x cx a kx y cy b ky c :
  Pos tr C (Nd x cx (Nd y cy a ky b) kx c) →
  ∃ tr', rotate_right x tr = (tr', Ret tt) ∧
    Pos tr' C (Nd y cy a ky (Nd x cx b kx c)) ∧ same_meta tr tr'.
Proof.
  intros HP.
  segments HP [[nil_ptr]; ptrs a; [y]; ptrs b; [x]; ptrs c; cptrs C].
  destruct HP as [HC (Hx&(Hy&Ha&Hb)&Hc) Hst Hroot]. simpl rp in *.
  unfold rotate_right. do 4 get_step.
  erewrite bind_ok; [|apply reparent_run with (par := y); [not_in|untouched]]. after_reparent.
  do 2 get_step.
  erewrite bind_ok; [|apply link_run_right; [not_in|not_in|congruence|untouched]].
  after_link (Nd y cy a ky (Nd x cx b kx c)) Hroot.
  get_step. erewrite set_parent_ok by node_at. cbn [key is_black left right].
  eexists. split; [reflexivity|].
  match goal with |- Pos ?S _ _ ∧ _ => assert (same_meta tr S) as Hm by meta end.
  split; [|exact Hm]. split.
  - simpl. untouched.
  - simpl. split_and!; first [node_at|untouched].
  - eapply store_ok_meta; [exact Hm|]. eapply store_ok_perm; [|exact Hst].
    perm_assoc.
  - exact Hrl.
Qed.
End rotations.

(** ** Reading and recolouring at a position *)

Section positions.
Context {T : Type}.
Implicit Types (t l r : ptree T) (C : list (frame T)) (tr : rbtree T).

Lemma Pos_here tr C p c l k r :
  Pos tr C (Nd p c l k r) → nodes tr !! p = Some (Node k c (cptr C) (rp l) (rp r)).
Proof. intros HP. apply (pos_sub _ _ _ HP). Qed.

Lemma Pos_black tr C t : Pos tr C t → ∃ n, nodes tr !! rp t = Some n ∧ is_black n = col t.
Proof.
  destruct t; intros HP; [apply (so_nil _ _ (pos_store _ _ _ HP))|].
  simpl. rewrite (Pos_here _ _ _ _ _ _ _ HP). eauto.
Qed.

Lemma get_black_rp tr C t : Pos tr C t → get_black (rp t) tr = (tr, Ret (col t)).
Proof. intros (n&Hn&<-)%Pos_black. by apply get_black_ok. Qed.

Lemma Pos_left tr C p c l k r : Pos tr C (Nd p c l k r) → Pos tr (FL p c k r :: C) l.
Proof. by rewrite Pos_cons. Qed.
Lemma Pos_right tr C p c l k r : Pos tr C (Nd p c l k r) → Pos tr (FR p c l k :: C) r.
Proof. by rewrite Pos_cons. Qed.

Lemma Pos_up tr f C t : Pos tr (f :: C) t → Pos tr C (plug1 f t).
Proof. by rewrite Pos_cons. Qed.

Lemma Pos_rp_ne tr C p c l k r : Pos tr C (Nd p c l k r) → l ≠ Lf ∨ r ≠ Lf → rp l ≠ rp r.
Proof.
  intros HP Hlr. segments HP [[nil_ptr]; ptrs l; [p]; ptrs r; cptrs C].
  assert (l ≠ Lf → lab (rp l) = 1) by (intros; by apply Seg0, rp_in).
  assert (r ≠ Lf → lab (rp r) = 3) by (intros; by apply Seg2, rp_in).
  destruct l, r; simpl in *; destruct Hlr as [Hlr|Hlr]; try done; intros Heq;
    repeat match goal with H : _ → lab _ = _ |- _ => specialize (H ltac:(done)) end; congruence.
Qed.

Lemma Pos_root_ne tr f C p c l k r : Pos tr (f :: C) (Nd p c l k r) → p ≠ root tr.
Proof.
  intros HP. rewrite (pos_root _ _ _ HP), rp_plug.
  assert (is_Some (list.last (f :: C))) as [g Hg] by (apply last_is_Some; done). rewrite Hg.
  assert (fptr g ∈ cptrs (f :: C)) as Hin.
  { apply last_Some_elem_of in Hg. revert Hg. generalize (f :: C). clear.
    induction l as [|f C IH]; [by intros ?%elem_of_nil|].
    intros [->|Hg]%elem_of_cons.
    - destruct f; simpl; [apply elem_of_FL|apply elem_of_FR]; auto.
    - destruct f; [apply elem_of_FL|apply elem_of_FR]; auto. }
  pose proof (so_nodup _ _ (pos_store _ _ _ HP)) as Hnd.
  apply NoDup_app in Hnd as (_&Hd&_). intros ->. apply (Hd (fptr g)); [|done].
  apply elem_of_Nd. auto.
Qed.

Lemma set_black_at tr C p c l k r v :
  Pos tr C (Nd p c l k r) →
  ∃ tr', set_black p v tr = (tr', Ret tt) ∧ Pos tr' C (Nd p v l k r) ∧ same_meta tr tr'.
Proof.
  intros HP. segments HP [[nil_ptr]; ptrs l; [p]; ptrs r; cptrs C].
  destruct HP as [HC (Hp&Hl&Hr) Hst Hroot].
  erewrite set_black_ok by exact Hp. eexists. split; [reflexivity|].
  match goal with |- Pos ?S _ _ ∧ _ => assert (same_meta tr S) as Hm by meta end.
  split; [|exact Hm]. split.
  - simpl in *. untouched.
  - simpl. split_and!; first [node_at|untouched].
  - eapply store_ok_meta; [exact Hm|]. eapply store_ok_perm; [|exact Hst]. perm_assoc.
  - simpl. rewrite Hroot, !rp_plug. done.
Qed.

Lemma set_key_at tr C p c l k r v :
  Pos tr C (Nd p c l k r) →
  ∃ tr', set_key p v tr = (tr', Ret tt) ∧ Pos tr' C (Nd p c l v r) ∧ same_meta tr tr'.
Proof.
  intros HP. segments HP [[nil_ptr]; ptrs l; [p]; ptrs r; cptrs C].
  destruct HP as [HC (Hp&Hl&Hr) Hst Hroot].
  erewrite set_key_ok by exact Hp. eexists. split; [reflexivity|].
  match goal with |- Pos ?S _ _ ∧ _ => assert (same_meta tr S) as Hm by meta end.
  split; [|exact Hm]. split.
  - simpl in *. untouched.
  - simpl. split_and!; first [node_at|untouched].
  - eapply store_ok_meta; [exact Hm|]. eapply store_ok_perm; [|exact Hst]. perm_assoc.
  - simpl. rewrite Hroot, !rp_plug. done.
Qed.

(** Blackening the root of a subtree; the sentinel is already black. *)
Lemma set_black_rp tr C t :
  Pos tr C t →
  ∃ tr', set_black (rp t) true tr = (tr', Ret tt) ∧ Pos tr' C (blk t) ∧ same_meta tr tr'.
Proof.
  intros HP. destruct t as [|p c l k r]; [|by eapply set_black_at].
  destruct (so_nil _ _ (pos_store _ _ _ HP)) as ([]&Hn&Hb). simpl in Hb. subst.
  simpl. erewrite set_black_ok by exact Hn. simpl. rewrite insert_id by done.
  eexists. split; [reflexivity|]. destruct tr. by split.
Qed.

Lemma rep_lookup h par t q : rep h par t → q ∈ ptrs t → is_Some (h !! q).
Proof.
  revert par. induction t as [|p c l IHl k r IHr]; intros par; [by intros _ ?%elem_of_nil|].
  intros (Hp&Hl&Hr) [Hq|[->|Hq]]%elem_of_Nd; eauto.
Qed.

Lemma repc_lookup h C v q : repc h C v → q ∈ cptrs C → is_Some (h !! q).
Proof.
  revert v. induction C as [|[p c k r|p c l k] C IH]; intros v; [by intros _ ?%elem_of_nil|..];
    intros (Hp&Hr&HC); rewrite ?elem_of_FL, ?elem_of_FR; intros [->|[Hq|Hq]];
    eauto using rep_lookup.
Qed.

Lemma length_cptrs C : length C ≤ length (cptrs C).
Proof.
  induction C as [|[] C IH]; simpl; [done|..]; rewrite ?cptrs_FL, ?cptrs_FR; simpl;
    rewrite ?length_app; lia.
Qed.

(** The fuel of the loops covers every node of the tree. *)
Lemma Pos_fuel tr C t : Pos tr C t → 2 * length C + 2 * length (ptrs t) + 2 ≤ fuel_of tr.
Proof.
  intros HP. pose proof (length_cptrs C). unfold fuel_of.
  assert (length (ptrs t ++ cptrs C) ≤ size (nodes tr)) as Hs; [|rewrite length_app in Hs; lia].
  pose proof (so_nodup _ _ (pos_store _ _ _ HP)) as Hnd.
  rewrite <-size_dom, <-(size_list_to_set (C:=gset nat) _ Hnd). apply subseteq_size.
  intros q [Hq|Hq]%elem_of_list_to_set%elem_of_app; apply elem_of_dom.
  - eapply rep_lookup; [apply HP|done].
  - eapply repc_lookup; [apply HP|done].
Qed.
End positions.
