(* ===== verification/RBInsert.v ===== *)
(** * Searching and inserting

    The pointer-level operations [search_tree] and [insert] on a store that represents a red-black
    tree do what the sorted sequence of its items says, and they always return; [insert] restores
    the red-black invariant by the loop of [rebalance_insert]. *)

From S2P Require Import Prelude RBTree RBSpec RBRep.

(** Run the operation the goal is about to do with its specification [spec]; [H] becomes the
    position afterwards. *)
Ltac at_op spec H :=
  let tr' := fresh "tr" in let E := fresh "E" in let HP := fresh "HP" in let Hm := fresh "Hm" in
  destruct spec as (tr'&E&HP&Hm); erewrite bind_ok by exact E; cbn beta;
  clear H E; rename HP into H.

Section rebalance.
Context {T : Type}.
Implicit Types (t l r : ptree T) (C : list (frame T)) (tr : rbtree T).

(** The loop stops at the root and below a black parent. *)
Lemma rebalance_insert_stop fuel tr C n c a k b :
  Pos tr C (Nd n c a k b) → match C with [] => True | f :: _ => fcol f = true end →
  rebalance_insert_loop (S fuel) n tr = (tr, Ret tt).
Proof.
  intros HP HC. cbn [rebalance_insert_loop]. rewrite bind_gets. destruct C as [|f C].
  - rewrite (pos_root _ _ _ HP), decide_True by done. done.
  - rewrite decide_False by (by eapply Pos_root_ne).
    pose proof (Pos_here _ _ _ _ _ _ _ HP) as Hn. get_step.
    apply Pos_up in HP. destruct f as [p fc k' r|p fc l k']; simpl in *; subst fc;
      pose proof (Pos_here _ _ _ _ _ _ _ HP) as Hp; by get_step.
Qed.

Definition last_black C : Prop := ∀ f, list.last C = Some f → fcol f = true.

Lemma last_black_tail f g C : last_black (f :: g :: C) → last_black C.
Proof.
  unfold last_black. intros H h Hh. apply H. rewrite !last_cons.
  destruct (list.last C); simplify_eq/=. done.
Qed.

(** The last rotation of [rebalance_insert], after which the loop ends. *)
Lemma rebalance_insert_last_right fuel tr C n c a k b fp fc fk fr gp gc gk gr :
  Pos tr C (Nd gp gc (Nd fp fc (Nd n c a k b) fk fr) gk gr) →
  ∃ tr', (np ← get_parent n; set_black np true;; gp ← get_parent np; set_black gp false;;
          rotate_right gp;; rebalance_insert_loop (S fuel) n) tr = (tr', Ret tt) ∧
    Pos tr' C (Nd fp true (Nd n c a k b) fk (Nd gp false fr gk gr)) ∧ same_meta tr tr'.
Proof.
  intros HP. pose proof (Pos_here _ _ _ _ _ _ _ (Pos_left _ _ _ _ _ _ _
                            (Pos_left _ _ _ _ _ _ _ HP))) as Hn.
  get_step. apply Pos_left in HP.
  at_op (set_black_at _ _ _ _ _ _ _ true HP) HP.
  pose proof (Pos_here _ _ _ _ _ _ _ HP) as Hf. get_step. apply Pos_up in HP.
  at_op (set_black_at _ _ _ _ _ _ _ false HP) HP.
  at_op (rotate_right_ok _ _ _ _ _ _ _ _ _ _ _ HP) HP.
  rewrite (rebalance_insert_stop _ _ _ _ _ _ _ _ (Pos_left _ _ _ _ _ _ _ HP)) by done.
  eexists. split_and!; [done|exact HP|eauto using same_meta_trans].
Qed.

Lemma rebalance_insert_last_left fuel tr C n c a k b fp fc fl fk gp gc gl gk :
  Pos tr C (Nd gp gc gl gk (Nd fp fc fl fk (Nd n c a k b))) →
  ∃ tr', (np ← get_parent n; set_black np true;; gp ← get_parent np; set_black gp false;;
          rotate_left gp;; rebalance_insert_loop (S fuel) n) tr = (tr', Ret tt) ∧
    Pos tr' C (Nd fp true (Nd gp false gl gk fl) fk (Nd n c a k b)) ∧ same_meta tr tr'.
Proof.
  intros HP. pose proof (Pos_here _ _ _ _ _ _ _ (Pos_right _ _ _ _ _ _ _
                            (Pos_right _ _ _ _ _ _ _ HP))) as Hn.
  get_step. apply Pos_right in HP.
  at_op (set_black_at _ _ _ _ _ _ _ true HP) HP.
  pose proof (Pos_here _ _ _ _ _ _ _ HP) as Hf. get_step. apply Pos_up in HP.
  at_op (set_black_at _ _ _ _ _ _ _ false HP) HP.
  at_op (rotate_left_ok _ _ _ _ _ _ _ _ _ _ _ HP) HP.
  rewrite (rebalance_insert_stop _ _ _ _ _ _ _ _ (Pos_right _ _ _ _ _ _ _ HP)) by done.
  eexists. split_and!; [done|exact HP|eauto using same_meta_trans].
Qed.

(** A turn of the loop below a red parent [f] that is a left child: a red uncle [gr] is recoloured
    and the loop goes on at the grandparent; below a black one at most two rotations end it. *)
Lemma insert_turn_left fuel tr C f n a k b gp gc gk gr :
  Pos tr (f :: FL gp gc gk gr :: C) (Nd n false a k b) → fcol f = false →
  if col gr then ∃ tr', rebalance_insert_loop (S (S fuel)) n tr = (tr', Ret tt) ∧
    Rep tr' (fix_ins (f :: FL gp gc gk gr :: C) (Nd n false a k b)) ∧ same_meta tr tr'
  else ∃ tr', rebalance_insert_loop (S (S fuel)) n tr = rebalance_insert_loop (S fuel) gp tr' ∧
    Pos tr' C (Nd gp false (plug1 (frecolor true f) (Nd n false a k b)) gk (blk gr)) ∧
    same_meta tr tr'.
Proof.
  intros HP Hfc. pose proof (Pos_root_ne _ _ _ _ _ _ _ _ HP) as Hne.
  pose proof (Pos_here _ _ _ _ _ _ _ HP) as Hn.
  pose proof (Pos_up _ _ _ _ HP) as HPf. pose proof (Pos_up _ _ _ _ HPf) as HPg.
  cbn [rebalance_insert_loop]. rewrite bind_gets, decide_False by done. cbn [fix_ins]. rewrite Hfc.
  destruct f as [fp fc fk fr|fp fc fl fk]; simpl in Hfc; subst fc; cbn [plug1] in HPf, HPg;
    pose proof (Pos_here _ _ _ _ _ _ _ HPf) as Hf; pose proof (Pos_here _ _ _ _ _ _ _ HPg) as Hg;
    cbn [cptr rp fptr] in *; do 4 get_step;
    rewrite decide_False by (by eapply (Pos_rp_ne _ _ _ _ (Nd fp _ _ _ _)); [exact HPg|left]);
    get_step; erewrite bind_ok by (eapply get_black_rp, Pos_right, HPg); cbn beta;
    destruct (col gr) eqn:Hu; cbn [negb].
  2,4: at_op (set_black_rp _ _ _ (Pos_right _ _ _ _ _ _ _ HPg)) HPg;
    apply Pos_up in HPg; cbn [plug1] in HPg;
    at_op (set_black_at _ _ _ _ _ _ _ true (Pos_left _ _ _ _ _ _ _ HPg)) HPg;
    apply Pos_up in HPg; cbn [plug1] in HPg; at_op (set_black_at _ _ _ _ _ _ _ false HPg) HPg;
    eexists; split; [done|]; split; [exact HPg|]; eauto 8 using same_meta_trans.
  all: get_step.
  - rewrite decide_False by (by eapply (Pos_rp_ne _ _ _ _ (Nd n _ _ _ _)); [exact HPf|left]).
    rewrite bind_ret.
    destruct (rebalance_insert_last_right fuel _ _ _ _ _ _ _ _ _ _ _ _ _ _ _ HPg)
      as (tr'&E&HP'&Hm). exists tr'. by rewrite <-Pos_plug.
  - rewrite decide_True by done. rewrite bind_assoc.
    at_op (rotate_left_ok _ _ _ _ _ _ _ _ _ _ _ HPf) HPf. rewrite bind_ret.
    apply Pos_up in HPf. cbn [plug1] in HPf.
    destruct (rebalance_insert_last_right fuel _ _ _ _ _ _ _ _ _ _ _ _ _ _ _ HPf)
      as (tr'&E&HP'&Hm'). exists tr'. rewrite <-Pos_plug. eauto using same_meta_trans.
Qed.

Lemma insert_turn_right fuel tr C f n a k b gp gc gl gk :
  Pos tr (f :: FR gp gc gl gk :: C) (Nd n false a k b) → fcol f = false →
  if col gl then ∃ tr', rebalance_insert_loop (S (S fuel)) n tr = (tr', Ret tt) ∧
    Rep tr' (fix_ins (f :: FR gp gc gl gk :: C) (Nd n false a k b)) ∧ same_meta tr tr'
  else ∃ tr', rebalance_insert_loop (S (S fuel)) n tr = rebalance_insert_loop (S fuel) gp tr' ∧
    Pos tr' C (Nd gp false (blk gl) gk (plug1 (frecolor true f) (Nd n false a k b))) ∧
    same_meta tr tr'.
Proof.
  intros HP Hfc. pose proof (Pos_root_ne _ _ _ _ _ _ _ _ HP) as Hne.
  pose proof (Pos_here _ _ _ _ _ _ _ HP) as Hn.
  pose proof (Pos_up _ _ _ _ HP) as HPf. pose proof (Pos_up _ _ _ _ HPf) as HPg.
  cbn [rebalance_insert_loop]. rewrite bind_gets, decide_False by done. cbn [fix_ins]. rewrite Hfc.
  destruct f as [fp fc fk fr|fp fc fl fk]; simpl in Hfc; subst fc; cbn [plug1] in HPf, HPg;
    pose proof (Pos_here _ _ _ _ _ _ _ HPf) as Hf; pose proof (Pos_here _ _ _ _ _ _ _ HPg) as Hg;
    cbn [cptr rp fptr] in *; do 4 get_step; rewrite decide_True by done;
    get_step; erewrite bind_ok by (eapply get_black_rp, Pos_left, HPg); cbn beta;
    destruct (col gl) eqn:Hu; cbn [negb].
  2,4: at_op (set_black_rp _ _ _ (Pos_left _ _ _ _ _ _ _ HPg)) HPg;
    apply Pos_up in HPg; cbn [plug1] in HPg;
    at_op (set_black_at _ _ _ _ _ _ _ true (Pos_right _ _ _ _ _ _ _ HPg)) HPg;
    apply Pos_up in HPg; cbn [plug1] in HPg; at_op (set_black_at _ _ _ _ _ _ _ false HPg) HPg;
    eexists; split; [done|]; split; [exact HPg|]; eauto 8 using same_meta_trans.
  all: get_step.
  - rewrite decide_True by done. rewrite bind_assoc.
    at_op (rotate_right_ok _ _ _ _ _ _ _ _ _ _ _ HPf) HPf. rewrite bind_ret.
    apply Pos_up in HPf. cbn [plug1] in HPf.
    destruct (rebalance_insert_last_left fuel _ _ _ _ _ _ _ _ _ _ _ _ _ _ _ HPf)
      as (tr'&E&HP'&Hm'). exists tr'. rewrite <-Pos_plug. eauto using same_meta_trans.
  - rewrite decide_False.
    2: { intros Heq. eapply (Pos_rp_ne _ _ _ _ _ _ (Nd n _ _ _ _)); [exact HPf|by right|done]. }
    rewrite bind_ret.
    destruct (rebalance_insert_last_left fuel _ _ _ _ _ _ _ _ _ _ _ _ _ _ _ HPg)
      as (tr'&E&HP'&Hm). exists tr'. by rewrite <-Pos_plug.
Qed.

(** The whole loop computes [fix_ins]. *)
Lemma rebalance_insert_loop_ok fuel tr C n a k b :
  length C + 1 ≤ fuel → Pos tr C (Nd n false a k b) → last_black C →
  ∃ tr', rebalance_insert_loop fuel n tr = (tr', Ret tt) ∧
    Rep tr' (fix_ins C (Nd n false a k b)) ∧ same_meta tr tr'.
Proof.
  remember (length C) as m eqn:Hm. revert fuel tr C n a k b Hm.
  induction m as [m IH] using lt_wf_ind. intros fuel tr C n a k b -> Hfuel HP Hlb.
  destruct fuel as [|fuel]; [lia|]. destruct C as [|f [|g C]].
  { rewrite (rebalance_insert_stop _ _ _ _ _ _ _ _ HP) by done.
    exists tr. split_and!; [done|exact HP|apply same_meta_refl]. }
  { rewrite (rebalance_insert_stop _ _ _ _ _ _ _ _ HP) by (by apply Hlb).
    exists tr. split_and!; [done|by apply (Pos_plug _ [f])|apply same_meta_refl]. }
  simpl in Hfuel. pose proof (last_black_tail _ _ _ Hlb) as Hlb'. destruct (fcol f) eqn:Hfc.
  { rewrite (rebalance_insert_stop _ _ _ _ _ _ _ _ HP) by done. cbn [fix_ins]. rewrite Hfc.
    exists tr. split_and!; [done|by apply (Pos_plug _ (f :: g :: C))|apply same_meta_refl]. }
  destruct fuel as [|fuel]; [lia|]. destruct g as [gp gc gk gr|gp gc gl gk].
  - pose proof (insert_turn_left fuel _ _ _ _ _ _ _ _ _ _ _ HP Hfc) as Ht.
    destruct (col gr) eqn:Hu; [exact Ht|]. destruct Ht as (tr1&E1&HP1&Hm1).
    destruct (IH (length C) ltac:(simpl; lia) (S fuel) tr1 C _ _ _ _ eq_refl ltac:(lia) HP1 Hlb')
      as (tr'&E&HP'&Hm'). exists tr'. rewrite E1. cbn [fix_ins]. rewrite Hfc, Hu.
    eauto using same_meta_trans.
  - pose proof (insert_turn_right fuel _ _ _ _ _ _ _ _ _ _ _ HP Hfc) as Ht.
    destruct (col gl) eqn:Hu; [exact Ht|]. destruct Ht as (tr1&E1&HP1&Hm1).
    destruct (IH (length C) ltac:(simpl; lia) (S fuel) tr1 C _ _ _ _ eq_refl ltac:(lia) HP1 Hlb')
      as (tr'&E&HP'&Hm'). exists tr'. rewrite E1. cbn [fix_ins]. rewrite Hfc, Hu.
    eauto using same_meta_trans.
Qed.
End rebalance.

Section search.
Context {T : Type} (P : T → Prop) (less : T → T → bool) `{!StrictWeak P less}.
Implicit Types (t l r : ptree T) (C : list (frame T)) (tr : rbtree T) (v : T).

(** The position a search for [v] ends at. *)
Fixpoint locate v C t : list (frame T) * ptree T :=
  match t with
  | Lf => (C, Lf)
  | Nd p c l k r =>
      if less v k then locate v (FL p c k r :: C) l
      else if less k v then locate v (FR p c l k :: C) r
      else (C, t)
  end.

Lemma locate_plug v C t : plug (locate v C t).1 (locate v C t).2 = plug C t.
Proof.
  revert C. induction t as [|p c l IHl k r IHr]; intros C; simpl; [done|].
  destruct (less v k); [by rewrite IHl|]. destruct (less k v); [by rewrite IHr|done].
Qed.

Lemma locate_Pos tr v C t :
  Pos tr C t → Pos tr (locate v C t).1 (locate v C t).2.
Proof. rewrite !Pos_plug. by rewrite locate_plug. Qed.

(** Everything left of the position is below [v], everything right of it above. *)
Definition split_at v C : Prop :=
  (∀ k, k ∈ (citems_l C).*2 → less k v = true) ∧ (∀ k, k ∈ (citems_r C).*2 → less v k = true).

Lemma keys_plug C t : keys (plug C t) = (citems_l C).*2 ++ keys t ++ (citems_r C).*2.
Proof. unfold keys. by rewrite items_plug, !fmap_app. Qed.

Lemma keys_Nd p c l k r : keys (Nd p c l k r) = keys l ++ k :: keys r.
Proof. unfold keys. simpl. by rewrite fmap_app. Qed.

Lemma locate_split v C t :
  P v → Forall P (keys (plug C t)) → sorted less (keys (plug C t)) → split_at v C →
  match (locate v C t).2 with
  | Lf => split_at v (locate v C t).1
  | Nd _ _ _ k _ => less v k = false ∧ less k v = false
  end.
Proof.
  intros Hv. revert C. induction t as [|p c l IHl k r IHr]; intros C HP Hs HC; simpl; [done|].
  pose proof HP as HP0. pose proof Hs as Hs0. rewrite keys_plug, keys_Nd in Hs, HP.
  rewrite !Forall_app, Forall_cons, !Forall_forall in HP.
  destruct HP as (Hp1&(Hp2&Hk&Hp3)&Hp4).
  apply sorted_app in Hs as (_&Hs&_). apply sorted_app in Hs as (Hs&_&_).
  apply sorted_app in Hs as (_&Hs&Hlk). apply sorted_cons in Hs as [_ Hkr].
  destruct (less v k) eqn:Hvk; [|destruct (less k v) eqn:Hkv; [|done]].
  - apply (IHl (FL p c k r :: C)); [exact HP0|exact Hs0|].
    split; [apply HC|]. simpl. intros j. rewrite fmap_app, elem_of_cons, elem_of_app.
    intros [->|[Hj|Hj]]; [done| |by apply HC].
    eapply (sw_trans v k j); auto.
  - apply (IHr (FR p c l k :: C)); [exact HP0|exact Hs0|].
    split; [|apply HC]. simpl. intros j. rewrite !fmap_app, !elem_of_app.
    intros [Hj|[Hj|Hj]]; [by apply HC| |].
    + eapply (sw_trans j k v); auto. apply Hlk; [done|]. apply elem_of_cons. auto.
    + apply list_elem_of_singleton in Hj as ->. exact Hkv.
Qed.

Lemma height_ptrs (t : ptree T) : height t ≤ length (ptrs t).
Proof.
  induction t as [|p c l IHl k r IHr]; [done|]. rewrite ptrs_Nd, length_app. simpl. lia.
Qed.

(** The descent visits no more nodes than the tree is high. *)
Lemma search_loop_ok fuel v tr C t :
  height t < fuel → Pos tr C t →
  search_loop less fuel (rp t) v tr = (tr, Ret (rp (locate v C t).2)).
Proof.
  revert fuel C. induction t as [|p c l IHl k r IHr]; intros fuel C Hf HP;
    (destruct fuel as [|fuel]; [simpl in Hf; lia|]); [done|].
  cbn [search_loop rp locate]. simpl in Hf.
  rewrite decide_False by (eapply Pos_ptr_ne, HP). pose proof (Pos_here _ _ _ _ _ _ _ HP) as Hp.
  get_step. destruct (less v k).
  { get_step. rewrite (IHl _ (FL p c k r :: C)); [done|lia|by apply Pos_left]. }
  destruct (less k v); [|done].
  get_step. rewrite (IHr _ (FR p c l k :: C)); [done|lia|by apply Pos_right].
Qed.

Lemma search_tree_ok v tr t :
  Rep tr t → search_tree less (root tr) v tr = (tr, Ret (rp (locate v [] t).2)).
Proof.
  intros HP. unfold search_tree. rewrite bind_gets. pose proof (Pos_fuel _ _ _ HP).
  pose proof (pos_root _ _ _ HP) as Hr. simpl in Hr. rewrite Hr. pose proof (height_ptrs t).
  apply search_loop_ok; [lia|done].
Qed.

(** The side of the hole a flag stands for. *)
Definition side C (lt : bool) : Prop :=
  match C with [] => True | FL _ _ _ _ :: _ => lt = true | FR _ _ _ _ :: _ => lt = false end.

Lemma insert_loop_ok fuel v tr C t lt :
  length (ptrs t) < fuel → Pos tr C t → side C lt →
  let '(C', t') := locate v C t in
  match t' with
  | Lf => ∃ lt', side C' lt' ∧
      insert_loop less fuel v (cptr C) (rp t) lt tr = (tr, Ret (inl (cptr C', lt')))
  | Nd q _ _ _ _ => insert_loop less fuel v (cptr C) (rp t) lt tr = (tr, Ret (inr q))
  end.
Proof.
  revert fuel C lt. induction t as [|p c l IHl k r IHr]; intros fuel C lt Hf HP Hlt;
    (destruct fuel as [|fuel]; [simpl in Hf; lia|]); [by eexists|].
  cbn [insert_loop rp locate]. rewrite ptrs_Nd, length_app in Hf. simpl in Hf.
  rewrite decide_False by (eapply Pos_ptr_ne, HP). pose proof (Pos_here _ _ _ _ _ _ _ HP) as Hp.
  get_step. destruct (less v k).
  { get_step. apply (IHl _ (FL p c k r :: C) true); [lia|by apply Pos_left|done]. }
  destruct (less k v); [|done].
  get_step. apply (IHr _ (FR p c l k :: C) false); [lia|by apply Pos_right|done].
Qed.
End search.

Section attach.
Context {T : Type}.
Implicit Types (t l r : ptree T) (C : list (frame T)) (tr : rbtree T) (v : T).

(** The state after [new Node(value, false, parent, _nil, _nil)]. *)
Definition allocated C v tr : rbtree T :=
  RBTree (<[next_addr tr := Node v false (cptr C) nil_ptr nil_ptr]> (nodes tr))
    (S (next_addr tr)) (root tr) (first_ptr tr) (last_ptr tr) (tree_size tr).

(** The state after [insert] linked the new node into the free place. *)
Definition attached C v tr : rbtree T :=
  let new := next_addr tr in
  match C with
  | [] => with_last new (with_first new (with_root new (allocated C v tr)))
  | _ => link C new (allocated C v tr)
  end.

Lemma new_node_run tr C v :
  new_node (Node v false (cptr C) nil_ptr nil_ptr) tr = (allocated C v tr, Ret (next_addr tr)).
Proof. done. Qed.

Lemma store_fresh tr ps : store_ok tr ps → (next_addr tr ∉ ps) ∧ next_addr tr ≠ nil_ptr.
Proof.
  intros Hst. split; [intros Hq; apply (so_bound _ _ Hst) in Hq; lia|].
  pose proof (so_next _ _ Hst). unfold nil_ptr. lia.
Qed.

Lemma attach_run tr C v lt :
  Pos tr C Lf → side C lt →
  (if decide (cptr C = nil_ptr) then
     set_root (next_addr tr);; set_first (next_addr tr);; set_last (next_addr tr)
   else if lt : bool then set_left (cptr C) (next_addr tr)
   else set_right (cptr C) (next_addr tr)) (allocated C v tr)
  = (attached C v tr, Ret tt).
Proof.
  intros HP Hlt. destruct (store_fresh _ _ (pos_store _ _ _ HP)) as [Hfr _].
  unfold attached. destruct C as [|f C]; [done|].
  assert (cptr (f :: C) ∈ cptrs (f :: C)) as Hin by (by apply cptr_in).
  rewrite decide_False by
    (eapply store_ok_not_nil; [exact (pos_store _ _ _ HP)|by apply elem_of_app; right]).
  assert (next_addr tr ≠ cptr (f :: C)) as Hne by (intros Hq; by rewrite Hq in Hfr).
  pose proof (pos_ctx _ _ _ HP) as HC.
  destruct f as [p c k r|p c l k]; simpl in Hlt; subst lt; destruct HC as [Hp _]; simpl in Hne |- *.
  - by erewrite set_left_ok by (simpl; by rewrite lookup_insert_ne).
  - by erewrite set_right_ok by (simpl; by rewrite lookup_insert_ne).
Qed.

Lemma attached_Pos tr C v :
  Pos tr C Lf → Pos (attached C v tr) C (Nd (next_addr tr) false Lf v Lf).
Proof.
  intros HP. pose proof (pos_store _ _ _ HP) as Hst.
  destruct (store_fresh _ _ Hst) as [Hfr Hfn]. simpl in Hst, Hfr.
  set (new := next_addr tr) in *.
  assert (Hpos : repc (nodes (attached C v tr)) C new ∧
    nodes (attached C v tr) !! new = Some (Node v false (cptr C) nil_ptr nil_ptr) ∧
    next_addr (attached C v tr) = S new ∧
    dom (nodes (attached C v tr)) = {[new]} ∪ dom (nodes tr) ∧
    nodes (attached C v tr) !! nil_ptr = nodes tr !! nil_ptr ∧
    root (attached C v tr) = rp (plug C (Nd new false Lf v Lf))).
  { unfold attached. fold new. set (tr1 := allocated C v tr).
    assert (repc (nodes tr1) C nil_ptr) as HC1.
    { eapply repc_frame; [|apply HP]. intros q Hq. simpl. apply lookup_insert_ne.
      intros <-. by apply Hfr. }
    assert (same_meta tr1 (link C new tr1)) as Hm.
    { eapply link_meta; [|exact HC1]. intros Hn.
      by destruct (store_ok_not_nil _ _ _ Hst Hn). }
    assert (repc (nodes (link C new tr1)) C new) as HCl.
    { eapply link_repc; [|exact HC1]. apply Hst. }
    assert (root (link C new tr1) = rp (plug C (Nd new false Lf v Lf))) as Hrl.
    { eapply link_root; [done|]. apply HP. }
    assert (nodes (link C new tr1) !! new = nodes tr1 !! new) as Hnew.
    { by apply link_lookup. }
    destruct Hm as [_ _ _ Hnx Hnil Hdom].
    destruct C as [|f C]; [simpl|rewrite Hnx, Hdom, Hnil, Hnew];
      split_and!; try done; simpl; rewrite ?lookup_insert_eq; try done;
      try (by rewrite dom_insert_L); by rewrite lookup_insert_ne. }
  destruct Hpos as (H1&H2&H3&H4&H5&H6). split; [exact H1|simpl; tauto| |exact H6].
  unfold ptrs. simpl. destruct Hst as [Hnd Hb Hn Hd Hx]. split.
  - apply NoDup_cons. done.
  - rewrite H3. intros q [->|Hq]%elem_of_cons; [lia|]. specialize (Hb q Hq). lia.
  - by rewrite H5.
  - intros q Hq%elem_of_dom. rewrite H4, elem_of_union, elem_of_singleton, elem_of_dom in Hq.
    rewrite elem_of_cons. destruct Hq as [->|Hq]; [auto|]. destruct (Hd q Hq); auto.
  - rewrite H3. lia.
Qed.

(** *** The first and the last node *)

Lemma firstp_left h par t :
  rep h par t → t ≠ Lf → ∃ n, h !! firstp t = Some n ∧ left n = nil_ptr.
Proof.
  revert par. induction t as [|p c l IHl k r _]; [done|]. intros par (Hp&Hl&_) _.
  unfold firstp. rewrite ptrs_Nd. destruct l as [|p' c' l' k' r'].
  - simpl. eauto.
  - destruct (IHl p Hl) as (n&Hn&Hln); [done|]. exists n. split; [|done].
    rewrite <-Hn. f_equal. unfold firstp. rewrite !ptrs_Nd.
    by destruct (ptrs l').
Qed.

Lemma lastp_right h par t :
  rep h par t → t ≠ Lf → ∃ n, h !! lastp t = Some n ∧ right n = nil_ptr.
Proof.
  revert par. induction t as [|p c l _ k r IHr]; [done|]. intros par (Hp&_&Hr) _.
  unfold lastp. rewrite ptrs_Nd, last_app, last_cons. destruct r as [|p' c' l' k' r'].
  - simpl. eauto.
  - destruct (IHr p Hr) as (n&Hn&Hln); [done|]. exists n. split; [|done].
    rewrite <-Hn. f_equal. unfold lastp. rewrite !ptrs_Nd, !last_app, !last_cons.
    by destruct (list.last (ptrs r')).
Qed.
End attach.

Section ends.
Context {T : Type}.
Implicit Types (t l r : ptree T) (C : list (frame T)) (tr : rbtree T) (v : T).

Lemma Pos_ext tr tr' C t :
  nodes tr' = nodes tr → next_addr tr' = next_addr tr → root tr' = root tr →
  Pos tr C t → Pos tr' C t.
Proof.
  intros Hn Hx Hr [HC Ht [Hnd Hb Hnil Hd Hnx] Hroot].
  split; rewrite ?Hn, ?Hr; try done. split; rewrite ?Hn, ?Hx; done.
Qed.

Lemma ptrs_plug_split C t : ptrs (plug C t) = (citems_l C).*1 ++ ptrs t ++ (citems_r C).*1.
Proof. unfold ptrs. by rewrite items_plug, !fmap_app. Qed.

Lemma insert_first {B} (k : unit → M (rbtree T) B) tr C new v :
  Pos tr C (Nd new false Lf v Lf) →
  first_ptr tr = match C with [] => new | _ => firstp (plug C Lf) end →
  (f ← gets first_ptr; fl ← get_left f;
   (whenM (bool_decide (fl ≠ nil_ptr)) (set_first fl)) ≫= k) tr
  = k tt (with_first (firstp (plug C (Nd new false Lf v Lf))) tr).
Proof.
  intros HP Hf. rewrite bind_gets. set (t1 := plug C (Nd new false Lf v Lf)).
  assert (∃ n, nodes tr !! first_ptr tr = Some n ∧
    ((left n = nil_ptr ∧ first_ptr tr = firstp t1) ∨ (left n ≠ nil_ptr ∧ left n = firstp t1)))
    as (n&Hn&Hor).
  { pose proof (Pos_ptr_ne _ _ _ _ _ _ _ HP) as [Hnew _].
    assert (firstp t1 = first_ptr tr → ∃ n, nodes tr !! first_ptr tr = Some n ∧
      ((left n = nil_ptr ∧ first_ptr tr = firstp t1) ∨ (left n ≠ nil_ptr ∧ left n = firstp t1)))
      as Hsame.
    { intros <-. destruct (firstp_left (nodes tr) nil_ptr t1) as (n&Hn&Hl); [|..|eauto].
      - apply rep_plug. split; apply HP.
      - intros Ht1. assert (new ∈ ptrs t1) as Hin; [|by rewrite Ht1 in Hin; apply elem_of_nil in Hin].
        unfold t1. rewrite ptrs_plug, elem_of_app, elem_of_Nd. auto. }
    destruct C as [|f C]; [by apply Hsame|]. unfold firstp at 1 in Hf.
    unfold firstp in Hsame |- *. unfold t1 in *. rewrite ptrs_plug_split in Hf, Hsame |- *.
    destruct (citems_l (f :: C)) as [|x Lp] eqn:HL; simpl in Hf, Hsame |- *; [|by apply Hsame].
    destruct f as [p c k' r|p c l k']; simpl in HL, Hf.
    - rewrite Hf. destruct (pos_ctx _ _ _ HP) as [Hp _]. eauto.
    - exfalso. by destruct (citems_l C), (items l). }
  get_step. unfold whenM. destruct Hor as [[Hl Hs]|[Hl Hs]].
  - rewrite bool_decide_false by tauto. rewrite bind_ret, <-Hs. by destruct tr.
  - rewrite bool_decide_true by done. by rewrite <-Hs.
Qed.

Lemma insert_last {B} (k : unit → M (rbtree T) B) tr C new v :
  Pos tr C (Nd new false Lf v Lf) →
  last_ptr tr = match C with [] => new | _ => lastp (plug C Lf) end →
  (l ← gets last_ptr; lr ← get_right l;
   (whenM (bool_decide (lr ≠ nil_ptr)) (set_last lr)) ≫= k) tr
  = k tt (with_last (lastp (plug C (Nd new false Lf v Lf))) tr).
Proof.
  intros HP Hf. rewrite bind_gets. set (t1 := plug C (Nd new false Lf v Lf)).
  assert (∃ n, nodes tr !! last_ptr tr = Some n ∧
    ((right n = nil_ptr ∧ last_ptr tr = lastp t1) ∨ (right n ≠ nil_ptr ∧ right n = lastp t1)))
    as (n&Hn&Hor).
  { pose proof (Pos_ptr_ne _ _ _ _ _ _ _ HP) as [Hnew _].
    assert (lastp t1 = last_ptr tr → ∃ n, nodes tr !! last_ptr tr = Some n ∧
      ((right n = nil_ptr ∧ last_ptr tr = lastp t1) ∨ (right n ≠ nil_ptr ∧ right n = lastp t1)))
      as Hsame.
    { intros <-. destruct (lastp_right (nodes tr) nil_ptr t1) as (n&Hn&Hl); [|..|eauto].
      - apply rep_plug. split; apply HP.
      - intros Ht1. assert (new ∈ ptrs t1) as Hin; [|by rewrite Ht1 in Hin; apply elem_of_nil in Hin].
        unfold t1. rewrite ptrs_plug, elem_of_app, elem_of_Nd. auto. }
    destruct C as [|f C]; [by apply Hsame|]. unfold lastp at 1 in Hf.
    unfold lastp in Hsame |- *. unfold t1 in *. rewrite ptrs_plug_split in Hf, Hsame |- *.
    destruct (citems_r (f :: C)) as [|x Lp _] eqn:HL using rev_ind.
    - simpl in Hf, Hsame |- *. rewrite last_app in Hsame |- *. simpl in Hsame |- *.
      rewrite app_nil_r in Hf.
      destruct f as [p c k' r|p c l k']; simpl in HL, Hf; [done|].
      rewrite !fmap_app, !last_app in Hf. simpl in Hf. rewrite Hf.
      destruct (pos_ctx _ _ _ HP) as [Hp _]. eauto.
    - rewrite fmap_app, !last_app in Hf. simpl in Hf.
      rewrite fmap_app, !last_app in Hsame |- *. simpl in Hsame |- *.
      by apply Hsame. }
  get_step. unfold whenM. destruct Hor as [[Hl Hs]|[Hl Hs]].
  - rewrite bool_decide_false by tauto. rewrite bind_ret, <-Hs. by destruct tr.
  - rewrite bool_decide_true by done. by rewrite <-Hs.
Qed.
End ends.

(** ** What a tree promises

    [tree_rep less tr its]: the store is a well-formed red-black tree whose items in order, as
    pairs of a node address and its key, are [its].  The last-element pointer of an empty tree is
    arbitrary: removing the only element leaves it dangling. *)
Section tree_rep.
Context {T : Type} (less : T → T → bool).

Record tree_of (tr : rbtree T) (t : ptree T) : Prop := {
  to_rep : Rep tr t;
  to_rb : rb_tree t;
  to_first : first_ptr tr = firstp t;
  to_last : t ≠ Lf → last_ptr tr = lastp t;
  to_size : tree_size tr = u64 (Z.of_nat (length (items t)));
  to_sorted : sorted less (keys t)
}.
Definition tree_rep (tr : rbtree T) (its : list (ptr * T)) : Prop :=
  ∃ t, tree_of tr t ∧ items t = its.
End tree_rep.

Lemma rbc_last_black {T} a n (C : list (frame T)) : rbc a n C → last_black C.
Proof.
  induction 1 as [| ? ? ? ? C Hr HC IH| ? ? ? ? ? ? C Hr HC IH| ? ? ? ? C Hr HC IH| ? ? ? ? ? ? C Hr HC IH];
    intros f Hf; try done; rewrite last_cons in Hf.
  all: destruct (list.last C) as [g|] eqn:HlC; simplify_eq/=; auto.
  all: apply last_None in HlC as ->; inversion HC.
Qed.

Lemma rb_rekey {T} (C : list (frame T)) q c l k v r :
  rb_tree (plug C (Nd q c l k r)) → rb_tree (plug C (Nd q c l v r)).
Proof.
  intros (a&n&c'&HC&Ht&Hca)%unplug_rb. eapply plug_rb; [exact HC| |exact Hca].
  inversion Ht; subst; eauto with lob.
Qed.

Section insert.
Context {T : Type} (P : T → Prop) (less : T → T → bool) `{!StrictWeak P less} (d : T).
Implicit Types (t : ptree T) (C : list (frame T)) (tr : rbtree T) (v : T).

Lemma empty_tree_rep : tree_rep less (empty_tree d) [].
Proof.
  exists Lf. split; [|done]. split; try done; [|by exists 0; constructor|constructor].
  split; try done. split; simpl; try done.
  - constructor.
  - intros q ?%elem_of_nil. done.
  - rewrite lookup_singleton_eq. eauto.
  - intros q [? [<- _]%lookup_singleton_Some]. auto.
  - lia.
Qed.

(** The new node: linked, rebalanced, with the first and last pointers moved. *)
Lemma insert_new_ok tr C v lt :
  Pos tr C Lf → rb_tree (plug C Lf) → side C lt →
  first_ptr tr = firstp (plug C Lf) → (plug C Lf ≠ Lf → last_ptr tr = lastp (plug C Lf)) →
  ∃ tr' t', (new ← new_node (Node v false (cptr C) nil_ptr nil_ptr);
      (if decide (cptr C = nil_ptr) then set_root new;; set_first new;; set_last new
       else if lt : bool then set_left (cptr C) new else set_right (cptr C) new);;
      f ← gets first_ptr; fl ← get_left f;
      whenM (bool_decide (fl ≠ nil_ptr)) (set_first fl);;
      l ← gets last_ptr; lr ← get_right l;
      whenM (bool_decide (lr ≠ nil_ptr)) (set_last lr);;
      rebalance_insert new;;
      modify (λ s, with_size (u64 (tree_size s + 1)) s)) tr = (tr', Ret tt) ∧
    Rep tr' t' ∧ rb_tree t' ∧ items t' = citems_l C ++ (next_addr tr, v) :: citems_r C ∧
    first_ptr tr' = firstp t' ∧ last_ptr tr' = lastp t' ∧
    tree_size tr' = u64 (tree_size tr + 1).
Proof.
  intros HP Hrb Hlt Hf Hl. pose proof (attach_run _ _ v _ HP Hlt) as Hrun.
  pose proof (attached_Pos _ _ v HP) as HP1.
  set (new := next_addr tr) in *. set (tr1 := attached C v tr) in *.
  set (t1 := plug C (Nd new false Lf v Lf)).
  assert (first_ptr tr1 = match C with [] => new | _ => firstp (plug C Lf) end) as Hf1.
  { unfold tr1, attached. destruct C as [|[] ?]; [done|by rewrite <-Hf..]. }
  assert (last_ptr tr1 = match C with [] => new | _ => lastp (plug C Lf) end) as Hl1.
  { unfold tr1, attached. destruct C as [|f C]; [done|]. rewrite <-Hl; [by destruct f|].
    intros He. apply (f_equal (λ t, length (items t))) in He. rewrite items_plug in He.
    destruct f; simpl in He; rewrite !length_app in He; simpl in He; lia. }
  assert (tree_size tr1 = tree_size tr) as Hs1 by (unfold tr1, attached; by destruct C as [|[]]).
  set (tr2 := with_last (lastp t1) (with_first (firstp t1) tr1)).
  assert (Pos tr2 C (Nd new false Lf v Lf)) as HP2 by (by eapply Pos_ext, HP1).
  destruct (unplug_rb _ _ Hrb) as (a&n&c&HC&HLf&_). inversion HLf; subst.
  destruct (rebalance_insert_loop_ok (fuel_of tr2) tr2 C new Lf v Lf) as (tr3&E3&HP3&Hm3).
  { pose proof (Pos_fuel _ _ _ HP2). lia. }
  { done. }
  { by eapply rbc_last_black. }
  destruct (set_black_rp _ _ _ HP3) as (tr4&E4&HP4&Hm4).
  assert (items (blk (fix_ins C (Nd new false Lf v Lf))) =
            citems_l C ++ (new, v) :: citems_r C) as Hits.
  { rewrite items_recolor, fix_ins_items by done. by rewrite items_plug. }
  assert (items t1 = citems_l C ++ (new, v) :: citems_r C) as Hits1.
  { unfold t1. by rewrite items_plug. }
  pose proof (same_meta_trans _ _ _ Hm3 Hm4) as Hm.
  eexists _, (blk (fix_ins C (Nd new false Lf v Lf))). split_and!.
  - rewrite (bind_ok _ _ _ _ _ (new_node_run tr C v)). fold new.
    rewrite (bind_ok _ _ _ _ _ Hrun). cbn beta.
    rewrite (insert_first _ _ _ _ _ HP1 Hf1). fold t1.
    erewrite insert_last; [|eapply Pos_ext; [..|exact HP1]; done|exact Hl1]. fold t1 tr2.
    unfold rebalance_insert. rewrite !bind_assoc, bind_gets, bind_assoc.
    rewrite (bind_ok _ _ _ _ _ E3), bind_assoc, bind_gets.
    rewrite (pos_root _ _ _ HP3). simpl plug. rewrite (bind_ok _ _ _ _ _ E4). done.
  - by eapply Pos_ext, HP4.
  - eapply fix_ins_rb; [exact HC|]. repeat constructor.
  - exact Hits.
  - simpl. rewrite (sm_first _ _ Hm). unfold tr2, firstp, ptrs. simpl. by rewrite Hits, Hits1.
  - simpl. rewrite (sm_last _ _ Hm). unfold tr2, lastp, ptrs. simpl. by rewrite Hits, Hits1.
  - simpl. rewrite (sm_size _ _ Hm). unfold tr2. simpl. by rewrite Hs1.
Qed.

(** How the items change: a new node at its sorted place, or the key of an equivalent node
    replaced. *)
Definition inserted (v : T) (its its' : list (ptr * T)) : Prop :=
  (∃ l1 l2 new, its = l1 ++ l2 ∧ its' = l1 ++ (new, v) :: l2 ∧ (new ∉ its.*1) ∧
     (∀ k, k ∈ l1.*2 → less k v = true) ∧ (∀ k, k ∈ l2.*2 → less v k = true)) ∨
  (∃ l1 l2 q k, its = l1 ++ (q, k) :: l2 ∧ its' = l1 ++ (q, v) :: l2 ∧
     less v k = false ∧ less k v = false).

Lemma inserted_keys v its its' :
  P v → Forall P its.*2 → sorted less its.*2 → inserted v its its' →
  its'.*2 = sinsert less v its.*2.
Proof.
  intros Hv HP Hs [(l1&l2&new&->&->&_&H1&H2)|(l1&l2&q&k&->&->&Hvk&Hkv)];
    rewrite !fmap_app in *; simpl in *; symmetry.
  - by apply (sinsert_mid P less).
  - by apply (sinsert_replace P less).
Qed.

Lemma sinsert_sorted v l1 l2 :
  sorted less (l1 ++ l2) → (∀ k, k ∈ l1 → less k v = true) →
  (∀ k, k ∈ l2 → less v k = true) → sorted less (l1 ++ v :: l2).
Proof.
  rewrite !sorted_app, sorted_cons. intros (Hs1&Hs2&H12) H1 H2. split_and!; auto.
  intros a b Ha [->|Hb]%elem_of_cons; auto.
Qed.

Lemma replace_sorted v k l1 l2 :
  P v → Forall P (l1 ++ k :: l2) → less v k = false → less k v = false →
  sorted less (l1 ++ k :: l2) → sorted less (l1 ++ v :: l2).
Proof.
  rewrite Forall_app, Forall_cons, !Forall_forall. intros Hv (H1&Hk&H2) Hvk Hkv.
  rewrite !sorted_app, !sorted_cons. setoid_rewrite elem_of_cons.
  intros (Hs1&(Hs2&Hk2)&H12). split_and!; auto.
  - intros b Hb. destruct (sw_split k b v) as [?|?]; auto; congruence.
  - intros a b Ha [->|Hb]; auto.
    destruct (sw_split a k v) as [?|?]; auto; congruence.
Qed.

(** The key of an equivalent node is replaced. *)
Lemma insert_replace v tr t C q c l k r :
  P v → Forall P (keys t) → tree_of less tr t → plug C (Nd q c l k r) = t →
  less v k = false → less k v = false →
  ∃ tr' its', set_key q v tr = (tr', Ret tt) ∧ tree_rep less tr' its' ∧ inserted v (items t) its'.
Proof.
  intros Hv HPs [HP Hrb Hf Hl Hsz Hso] Hpl Hvk Hkv.
  assert (Pos tr C (Nd q c l k r)) as HPl by (by rewrite Pos_plug, Hpl).
  assert (items t = citems_l C ++ items l ++ (q, k) :: items r ++ citems_r C) as Hits.
  { rewrite <-Hpl, items_plug. simpl. by rewrite <-app_assoc. }
  destruct (set_key_at tr C q c l k r v HPl) as (tr'&E&HP'&Hm).
  assert (items (plug C (Nd q c l v r)) =
            citems_l C ++ items l ++ (q, v) :: items r ++ citems_r C) as Hits'.
  { rewrite items_plug. simpl. by rewrite <-app_assoc. }
  assert (ptrs (plug C (Nd q c l v r)) = ptrs t) as Hptrs.
  { unfold ptrs. by rewrite Hits', Hits, !fmap_app. }
  exists tr', (items (plug C (Nd q c l v r))). split; [exact E|]. split.
  - exists (plug C (Nd q c l v r)). split; [|done]. split.
    + by apply (Pos_plug tr' C).
    + eapply rb_rekey. by rewrite Hpl.
    + rewrite (sm_first _ _ Hm), Hf. unfold firstp. by rewrite Hptrs.
    + intros _. rewrite (sm_last _ _ Hm), Hl; [unfold lastp; by rewrite Hptrs|].
      intros ->. by destruct (citems_l C), (items l).
    + rewrite (sm_size _ _ Hm), Hsz. do 2 f_equal.
      rewrite <-(length_fmap fst (items t)), <-(length_fmap fst (items (plug _ _))).
      unfold ptrs in Hptrs. by rewrite Hptrs.
    + unfold keys in *. rewrite Hits'. rewrite Hits in Hso, HPs.
      rewrite !fmap_app in *. simpl in *. rewrite !app_assoc in *.
      by eapply replace_sorted.
  - right. exists (citems_l C ++ items l), (items r ++ citems_r C), q, k.
    split_and!; [by rewrite Hits, <-app_assoc|by rewrite Hits', <-app_assoc|done|done].
Qed.

Theorem insert_ok v tr its :
  P v → Forall P its.*2 → tree_rep less tr its →
  ∃ tr' its', insert less v tr = (tr', Ret tt) ∧ tree_rep less tr' its' ∧ inserted v its its'.
Proof.
  intros Hv HPs (t&Ht&<-). pose proof Ht as [HP Hrb Hf Hl Hsz Hso].
  unfold insert. rewrite bind_gets, bind_gets.
  pose proof (pos_root _ _ _ HP) as Hroot. simpl in Hroot. rewrite Hroot.
  pose proof (Pos_fuel _ _ _ HP) as Hfuel.
  pose proof (locate_plug less v [] t) as Hpl. pose proof (locate_Pos less _ v _ _ HP) as HPl.
  assert (Forall P (keys (plug [] t))) as HPk by done.
  pose proof (locate_split P less v [] t Hv HPk Hso) as Hsp.
  pose proof (insert_loop_ok less (fuel_of tr) v tr [] t true ltac:(lia) HP I) as Hins.
  destruct (locate less v [] t) as [C [|q c l k r]]; simpl in *.
  - destruct Hins as (lt&Hlt&Hins). rewrite (bind_ok _ _ _ _ _ Hins). cbn beta iota.
    assert (rb_tree (plug C Lf)) as Hrb' by (by rewrite Hpl).
    destruct (insert_new_ok tr C v lt) as (tr'&t'&E&HP'&Hrb''&Hit&Hf'&Hl'&Hs'); try done.
    { by rewrite Hpl. } { by rewrite Hpl. }
    destruct Hsp as [H1 H2]; [by split; intros ? ?%elem_of_nil|].
    assert (items t = citems_l C ++ citems_r C) as Hits by (by rewrite <-Hpl, items_plug).
    exists tr', (items t'). split; [exact E|]. split.
    + exists t'. split; [|done]. split; try done.
      * rewrite Hs', Hsz, Hit, Hits, !length_app. simpl. unfold u64.
        rewrite Zplus_mod_idemp_l. f_equal. lia.
      * unfold keys in *. rewrite Hit, fmap_app. simpl.
        apply sinsert_sorted; [by rewrite <-fmap_app, <-Hits|done|done].
    + left. exists (citems_l C), (citems_r C), (next_addr tr). split_and!; try done.
      destruct (store_fresh _ _ (pos_store _ _ _ HP)) as [Hfr _].
      rewrite elem_of_app in Hfr. naive_solver.
  - rewrite (bind_ok _ _ _ _ _ Hins). cbn beta iota.
    destruct Hsp as [Hvk Hkv]; [by split; intros ? ?%elem_of_nil|].
    by eapply insert_replace.
Qed.
End insert.
