(* ===== verification/RBIter.v ===== *)
(** * Lookups, iterators and range searches

    On a well-formed tree, [find] is the lookup of the sorted sequence, [first] and [last] are its
    ends, an iterator visits the items one after the other in both directions, and [lower_bound]
    and [upper_bound] find the partition points, or the last element when there is none. *)

From S2P Require Import Prelude RBTree RBSpec RBRep RBInsert.

Section walk.
Context {T : Type}.
Implicit Types (t : ptree T) (C : list (frame T)) (tr : rbtree T).

(** The address of the first item of a list, the sentinel when there is none. *)
Definition head_ptr (its : list (ptr * T)) : ptr := default nil_ptr (head its.*1).
Definition last_addr (its : list (ptr * T)) : ptr := default nil_ptr (list.last its.*1).

Lemma items_at t q k :
  (q, k) ∈ items t → ∃ C c l r, t = plug C (Nd q c l k r).
Proof.
  enough (∀ C t, (q, k) ∈ items t → ∃ D c l r, plug C t = plug D (Nd q c l k r)) as H.
  { intros Hin. by apply (H [] t). }
  clear t. intros C t. revert C. induction t as [|p c l IHl k' r IHr]; intros C; simpl.
  - by intros ?%elem_of_nil.
  - rewrite elem_of_app, elem_of_cons. intros [Hin|[[= <- <-]|Hin]].
    + by apply (IHl (FL p c k' r :: C)).
    + eauto.
    + by apply (IHr (FR p c l k' :: C)).
Qed.

Lemma NoDup_fst_split (l1 l2 l1' l2' : list (ptr * T)) q k k' :
  NoDup (l1 ++ (q, k) :: l2).*1 → l1 ++ (q, k) :: l2 = l1' ++ (q, k') :: l2' →
  l1 = l1' ∧ l2 = l2'.
Proof.
  revert l1'. induction l1 as [|x l1 IH]; intros [|y l1'] Hnd Heq; simpl in *;
    apply NoDup_cons in Hnd as [Hq Hnd].
  - by injection Heq as _ ->.
  - injection Heq as <- ->. exfalso. apply Hq. rewrite fmap_app, elem_of_app. simpl.
    rewrite elem_of_cons. auto.
  - injection Heq as -> <-. exfalso. apply Hq. rewrite fmap_app, elem_of_app. simpl.
    rewrite elem_of_cons. auto.
  - injection Heq as <- Heq. by destruct (IH _ Hnd Heq) as [-> ->].
Qed.

(** The position of an item, with the items before and after it. *)
Lemma Rep_at tr t l1 q k l2 :
  Rep tr t → items t = l1 ++ (q, k) :: l2 →
  ∃ C c l r, t = plug C (Nd q c l k r) ∧ Pos tr C (Nd q c l k r) ∧
    l1 = citems_l C ++ items l ∧ l2 = items r ++ citems_r C.
Proof.
  intros HP Hit. destruct (items_at t q k) as (C&c&l&r&->).
  { rewrite Hit, elem_of_app, elem_of_cons. auto. }
  exists C, c, l, r. split; [done|]. split; [by apply (Pos_plug tr C)|].
  rewrite items_plug in Hit. simpl in Hit.
  rewrite <-app_assoc, app_assoc in Hit. simpl in Hit.
  apply NoDup_fst_split in Hit as [-> ->]; [done|].
  rewrite <-app_assoc. simpl. pose proof (so_nodup _ _ (pos_store _ _ _ HP)) as Hnd.
  rewrite app_nil_r in Hnd. unfold ptrs in Hnd. rewrite items_plug in Hnd. simpl in Hnd.
  by rewrite <-app_assoc in Hnd.
Qed.

Lemma most_left_loop_ok fuel tr C t :
  t ≠ Lf → length (ptrs t) < S fuel → Pos tr C t →
  most_left_loop fuel (rp t) tr = (tr, Ret (firstp t)).
Proof.
  revert fuel C. induction t as [|p c l IHl k r _]; [done|]; intros fuel C _ Hf HP.
  rewrite ptrs_Nd, length_app in Hf. simpl in Hf. destruct fuel as [|fuel]; [lia|].
  cbn [most_left_loop rp]. pose proof (Pos_here _ _ _ _ _ _ _ HP) as Hp. get_step.
  unfold firstp. rewrite ptrs_Nd. destruct l as [|p' c' l' k' r'] eqn:Hl; [done|].
  rewrite decide_False by (eapply Pos_ptr_ne, Pos_left, HP).
  rewrite (IHl fuel (FL p c k r :: C)); [|done|lia|by apply Pos_left].
  unfold firstp. do 2 f_equal. rewrite ptrs_Nd. by destruct (ptrs l').
Qed.

Lemma most_right_loop_ok fuel tr C t :
  t ≠ Lf → length (ptrs t) < S fuel → Pos tr C t →
  most_right_loop fuel (rp t) tr = (tr, Ret (lastp t)).
Proof.
  revert fuel C. induction t as [|p c l _ k r IHr]; [done|]; intros fuel C _ Hf HP.
  rewrite ptrs_Nd, length_app in Hf. simpl in Hf. destruct fuel as [|fuel]; [lia|].
  cbn [most_right_loop rp]. pose proof (Pos_here _ _ _ _ _ _ _ HP) as Hp. get_step.
  unfold lastp. rewrite ptrs_Nd, last_app, last_cons.
  destruct r as [|p' c' l' k' r'] eqn:Hr; [done|].
  rewrite decide_False by (eapply Pos_ptr_ne, Pos_right, HP).
  rewrite (IHr fuel (FR p c l k :: C)); [|done|lia|by apply Pos_right].
  unfold lastp. do 2 f_equal. rewrite ptrs_Nd, last_app, last_cons.
  by destruct (list.last (ptrs r')).
Qed.

Lemma successor_loop_ok fuel tr C p c l k r :
  length C < fuel → Pos tr C (Nd p c l k r) →
  successor_loop fuel p (cptr C) tr = (tr, Ret (head_ptr (citems_r C))).
Proof.
  revert fuel p c l k r. induction C as [|f C IH]; intros fuel p c l k r Hf HP;
    (destruct fuel as [|fuel]; [simpl in Hf; lia|]); [done|].
  simpl in Hf. cbn [successor_loop cptr]. pose proof (Pos_up _ _ _ _ HP) as HPu.
  destruct f as [fp fc fk fr|fp fc fl fk]; cbn [plug1 fptr] in *;
    destruct (Pos_ptr_ne _ _ _ _ _ _ _ HPu) as [Hn1 Hn0]; rewrite !decide_False by done;
    pose proof (Pos_here _ _ _ _ _ _ _ HPu) as Hp; get_step.
  - rewrite decide_False; [done|].
    eapply (Pos_rp_ne _ _ _ _ (Nd p _ _ _ _)); [exact HPu|by left].
  - rewrite decide_True by done. get_step. erewrite IH; [done|lia|exact HPu].
Qed.

Lemma predecessor_loop_ok fuel tr C p c l k r :
  length C < fuel → Pos tr C (Nd p c l k r) →
  predecessor_loop fuel p (cptr C) tr = (tr, Ret (last_addr (citems_l C))).
Proof.
  revert fuel p c l k r. induction C as [|f C IH]; intros fuel p c l k r Hf HP;
    (destruct fuel as [|fuel]; [simpl in Hf; lia|]); [done|].
  simpl in Hf. cbn [predecessor_loop cptr]. pose proof (Pos_up _ _ _ _ HP) as HPu.
  destruct f as [fp fc fk fr|fp fc fl fk]; cbn [plug1 fptr] in *;
    destruct (Pos_ptr_ne _ _ _ _ _ _ _ HPu) as [Hn1 Hn0]; rewrite !decide_False by done;
    pose proof (Pos_here _ _ _ _ _ _ _ HPu) as Hp; get_step.
  - rewrite decide_True by done. get_step. erewrite IH; [done|lia|exact HPu].
  - rewrite decide_False.
    + unfold last_addr. simpl. by rewrite !fmap_app, !last_app.
    + intros He. eapply (Pos_rp_ne _ _ _ _ _ _ (Nd p _ _ _ _)); [exact HPu|by right|done].
Qed.
End walk.

Section iterators.
Context {T : Type} (less : T → T → bool).
Implicit Types (tr : rbtree T) (its : list (ptr * T)).

Lemma tree_rep_fuel tr its : tree_rep less tr its → 2 * length its + 2 ≤ fuel_of tr.
Proof.
  intros (t&Ht&<-). pose proof (Pos_fuel _ _ _ (to_rep _ _ _ Ht)). unfold ptrs in *.
  rewrite length_fmap in *. simpl in *. lia.
Qed.

Lemma tree_rep_nodup tr its : tree_rep less tr its → NoDup its.*1.
Proof.
  intros (t&Ht&<-). pose proof (so_nodup _ _ (pos_store _ _ _ (to_rep _ _ _ Ht))) as Hnd.
  by rewrite app_nil_r in Hnd.
Qed.

Lemma tree_rep_not_nil tr its q : tree_rep less tr its → q ∈ its.*1 → q ≠ nil_ptr.
Proof.
  intros (t&Ht&<-) Hq. eapply store_ok_not_nil; [exact (pos_store _ _ _ (to_rep _ _ _ Ht))|].
  by rewrite app_nil_r.
Qed.

Lemma tree_rep_key tr its q k :
  tree_rep less tr its → (q, k) ∈ its → get_key q tr = (tr, Ret k).
Proof.
  intros (t&Ht&<-) (l1&l2&Hs)%list_elem_of_split.
  destruct (Rep_at _ _ _ _ _ _ (to_rep _ _ _ Ht) Hs) as (C&c&l&r&_&HP&_).
  by apply (get_key_ok _ _ _ (Pos_here _ _ _ _ _ _ _ HP)).
Qed.

Lemma tree_rep_first tr its : tree_rep less tr its → first_ptr tr = head_ptr its.
Proof. intros (t&Ht&<-). apply (to_first _ _ _ Ht). Qed.

Lemma tree_rep_last tr its : tree_rep less tr its → its ≠ [] → last_ptr tr = last_addr its.
Proof. intros (t&Ht&<-) Hne. apply (to_last _ _ _ Ht). intros ->. done. Qed.

Theorem successor_ok tr l1 q k l2 :
  tree_rep less tr (l1 ++ (q, k) :: l2) → successor q tr = (tr, Ret (head_ptr l2)).
Proof.
  intros (t&Ht&Hit). pose proof (to_rep _ _ _ Ht) as HP0.
  destruct (Rep_at _ _ _ _ _ _ HP0 Hit) as (C&c&l&r&_&HP&->&->).
  unfold successor. pose proof (Pos_here _ _ _ _ _ _ _ HP) as Hq. get_step.
  pose proof (Pos_fuel _ _ _ HP) as Hfuel. destruct r as [|p' c' l' k' r'] eqn:Hr.
  - rewrite decide_True by done. get_step. rewrite bind_gets.
    erewrite successor_loop_ok; [done|lia|exact HP].
  - rewrite decide_False by (eapply Pos_ptr_ne, Pos_right, HP).
    unfold most_left. rewrite bind_gets.
    pose proof (Pos_fuel _ _ _ (Pos_right _ _ _ _ _ _ _ HP)).
    rewrite <-Hr in *. erewrite (most_left_loop_ok _ _ _ r);
      [|by rewrite Hr|lia|by eapply Pos_right, HP].
    do 2 f_equal. unfold firstp, head_ptr, ptrs. rewrite fmap_app, Hr. simpl.
    rewrite fmap_app. by destruct (items l').
Qed.

Theorem predecessor_ok tr l1 q k l2 :
  tree_rep less tr (l1 ++ (q, k) :: l2) → predecessor q tr = (tr, Ret (last_addr l1)).
Proof.
  intros (t&Ht&Hit). pose proof (to_rep _ _ _ Ht) as HP0.
  destruct (Rep_at _ _ _ _ _ _ HP0 Hit) as (C&c&l&r&_&HP&->&->).
  unfold predecessor. pose proof (Pos_here _ _ _ _ _ _ _ HP) as Hq. get_step.
  pose proof (Pos_fuel _ _ _ HP) as Hfuel. destruct l as [|p' c' l' k' r'] eqn:Hl.
  - rewrite decide_True by done. get_step. rewrite bind_gets.
    erewrite predecessor_loop_ok; [by rewrite app_nil_r|lia|exact HP].
  - rewrite decide_False by (eapply Pos_ptr_ne, Pos_left, HP).
    unfold most_right. rewrite bind_gets.
    pose proof (Pos_fuel _ _ _ (Pos_left _ _ _ _ _ _ _ HP)).
    rewrite <-Hl in *. erewrite (most_right_loop_ok _ _ _ l);
      [|by rewrite Hl|lia|by eapply Pos_left, HP].
    do 2 f_equal. unfold lastp, last_addr, ptrs. rewrite fmap_app, last_app, Hl. simpl.
    rewrite fmap_app, last_app. simpl. rewrite last_cons. by destruct (list.last _).
Qed.
End iterators.

Section queries.
Context {T : Type} (P : T → Prop) (less : T → T → bool) `{!StrictWeak P less}.
Implicit Types (tr : rbtree T) (its : list (ptr * T)) (v : T).

Theorem first_ok tr its :
  tree_rep less tr its → first tr = (tr, Ret (head its.*2)).
Proof.
  intros Ht. unfold first. rewrite bind_gets, (tree_rep_first _ _ _ Ht).
  destruct its as [|[q k] its]; [done|]. unfold head_ptr. simpl.
  rewrite decide_False by (eapply tree_rep_not_nil; [exact Ht|left]).
  unfold fmap, M_fmap. erewrite tree_rep_key; [done|exact Ht|left].
Qed.

Theorem last_ok tr its :
  tree_rep less tr its → its ≠ [] → last tr = (tr, Ret (list.last its.*2)).
Proof.
  intros Ht Hne. unfold last. rewrite bind_gets, (tree_rep_last _ _ _ Ht Hne).
  destruct its as [|[q k] its _] using rev_ind; [done|]. unfold last_addr.
  rewrite !fmap_app, !last_app. simpl.
  rewrite decide_False.
  - unfold fmap, M_fmap. erewrite tree_rep_key; [done|exact Ht|].
    rewrite elem_of_app, list_elem_of_singleton. auto.
  - eapply tree_rep_not_nil; [exact Ht|]. rewrite fmap_app, elem_of_app. right. left.
Qed.

(** A search ends at the node of the equivalent key, or at the null pointer when there is none. *)
Lemma search_tree_found v tr its :
  P v → Forall P its.*2 → tree_rep less tr its →
  ∃ p, search_tree less (root tr) v tr = (tr, Ret p) ∧
    match sfind less v its.*2 with Some k => (p, k) ∈ its | None => p = nil_ptr end.
Proof.
  intros Hv HPs (t&Ht&<-). pose proof (to_rep _ _ _ Ht) as HP.
  eexists. split; [exact (search_tree_ok less v _ _ HP)|].
  pose proof (locate_plug less v [] t) as Hpl.
  assert (Forall P (keys (plug [] t))) as HPk by done.
  pose proof (locate_split P less v [] t Hv HPk (to_sorted _ _ _ Ht)) as Hsp.
  destruct (locate less v [] t) as [C [|q c l k r]]; simpl in *.
  - destruct Hsp as [H1 H2]; [by split; intros ? ?%elem_of_nil|].
    unfold keys in HPk. rewrite <-Hpl, items_plug in HPk |- *. simpl in *.
    rewrite fmap_app in HPk |- *.
    by destruct (sfind_miss P less v _ _ Hv HPk H1 H2) as [-> _].
  - destruct Hsp as [Hvk Hkv]; [by split; intros ? ?%elem_of_nil|].
    pose proof (to_sorted _ _ _ Ht) as Hso. unfold keys in *.
    assert (items t = (citems_l C ++ items l) ++ (q, k) :: items r ++ citems_r C) as Hits.
    { rewrite <-Hpl, items_plug. simpl. by rewrite <-!app_assoc. }
    rewrite Hits, fmap_app in HPk, Hso |- *. csimpl. csimpl in HPk. csimpl in Hso.
    rewrite (sfind_hit P less v k) by done. apply elem_of_app. right. left.
Qed.

Theorem find_ok v tr its :
  P v → Forall P its.*2 → tree_rep less tr its →
  find less v tr = (tr, Ret (sfind less v its.*2)).
Proof.
  intros Hv HPs Ht. destruct (search_tree_found v tr its Hv HPs Ht) as (p&E&Hp). unfold find.
  rewrite bind_gets, (bind_ok _ _ _ _ _ E). destruct (sfind less v its.*2) as [k|].
  - rewrite decide_False by (eapply tree_rep_not_nil; [exact Ht|]; apply list_elem_of_fmap; by exists (p, k)).
    unfold fmap at 1, M_fmap. by rewrite (tree_rep_key _ _ _ _ _ Ht Hp).
  - by rewrite decide_True.
Qed.

Theorem contains_ok v tr its :
  P v → Forall P its.*2 → tree_rep less tr its →
  contains less v tr = (tr, Ret (bool_decide (is_Some (sfind less v its.*2)))).
Proof.
  intros. unfold contains. by rewrite (bind_ok _ _ _ _ _ (find_ok _ _ _ ltac:(done) ltac:(done) ltac:(done))).
Qed.

(** The iterator loops of the order book. *)
Lemma collect_forward fuel tr l1 l2 :
  tree_rep less tr (l1 ++ l2) → length l2 < fuel →
  collect_loop fuel successor (head_ptr l2) tr = (tr, Ret l2.*2).
Proof.
  revert fuel l1. induction l2 as [|[q k] l2 IH]; intros fuel l1 Ht Hf;
    (destruct fuel as [|fuel]; [simpl in Hf; lia|]); [done|].
  unfold head_ptr. cbn [collect_loop head fmap list_fmap default fst]. unfold valid.
  rewrite bool_decide_true.
  2: { eapply tree_rep_not_nil; [exact Ht|]. rewrite fmap_app, elem_of_app. right. left. }
  erewrite bind_ok by (eapply tree_rep_key; [exact Ht|]; rewrite elem_of_app; right; left).
  rewrite (bind_ok _ _ _ _ _ (successor_ok _ _ _ _ _ _ Ht)).
  rewrite (cons_middle (q, k) l1 l2), app_assoc in Ht. simpl in Hf.
  by rewrite (bind_ok _ _ _ _ _ (IH fuel (l1 ++ [(q, k)]) Ht ltac:(lia))).
Qed.

Theorem iterate_ok tr its fuel :
  tree_rep less tr its → length its < fuel →
  (it ← begin; collect_loop fuel successor it) tr = (tr, Ret its.*2).
Proof.
  intros Ht Hf. unfold begin. rewrite bind_gets, (tree_rep_first _ _ _ Ht).
  by apply (collect_forward _ _ []).
Qed.

Lemma collect_backward fuel tr l1 l2 :
  tree_rep less tr (l1 ++ l2) → length l1 < fuel →
  collect_loop fuel predecessor (last_addr l1) tr = (tr, Ret (reverse l1.*2)).
Proof.
  revert fuel l2. induction l1 as [|[q k] l1 IH] using rev_ind; intros fuel l2 Ht Hf;
    (destruct fuel as [|fuel]; [lia|]); [done|].
  rewrite length_app in Hf. simpl in Hf. rewrite <-app_assoc in Ht. simpl in Ht.
  unfold last_addr. rewrite fmap_app, last_app. cbn [collect_loop list.last fmap list_fmap fst default].
  unfold valid. rewrite bool_decide_true.
  2: { eapply tree_rep_not_nil; [exact Ht|]. rewrite fmap_app, elem_of_app. right. left. }
  erewrite bind_ok by (eapply tree_rep_key; [exact Ht|]; rewrite elem_of_app; right; left).
  rewrite (bind_ok _ _ _ _ _ (predecessor_ok _ _ _ _ _ _ Ht)).
  rewrite (bind_ok _ _ _ _ _ (IH fuel _ Ht ltac:(lia))).
  rewrite fmap_app, reverse_app. done.
Qed.

(** *** Range searches *)

Lemma lower_bound_loop_ok fuel v tr C t :
  P v → Forall P (keys (plug C t)) → sorted less (keys (plug C t)) →
  length (ptrs t) < fuel → Pos tr C t →
  (∀ k, k ∈ (citems_l C).*2 → less k v = true) →
  (∀ k, k ∈ (citems_r C).*2 → less k v = false) →
  ∃ l1 l2, items (plug C t) = l1 ++ l2 ∧
    (∀ k, k ∈ l1.*2 → less k v = true) ∧ (∀ k, k ∈ l2.*2 → less k v = false) ∧
    lower_bound_loop less fuel v (default (last_ptr tr) (head (citems_r C).*1)) (rp t) tr
    = (tr, Ret (default (last_ptr tr) (head l2.*1))).
Proof.
  intros Hv. revert fuel C. induction t as [|p c l IHl k r IHr]; intros fuel C HPk Hs Hf HP Hl Hr;
    (destruct fuel as [|fuel]; [simpl in Hf; lia|]).
  { exists (citems_l C), (citems_r C). rewrite items_plug. done. }
  rewrite ptrs_Nd, length_app in Hf. simpl in Hf. cbn [lower_bound_loop rp].
  rewrite decide_False by (eapply Pos_ptr_ne, HP). pose proof (Pos_here _ _ _ _ _ _ _ HP) as Hp.
  pose proof HPk as HPk0. pose proof Hs as Hs0. rewrite keys_plug, keys_Nd in HPk0, Hs0.
  rewrite !Forall_app, Forall_cons, !Forall_forall in HPk0. destruct HPk0 as (_&(Hpl&Hk&Hpr)&_).
  apply sorted_app in Hs0 as (_&Hs0&_). apply sorted_app in Hs0 as (Hs0&_&_).
  apply sorted_app in Hs0 as (_&Hs0&Hlk). apply sorted_cons in Hs0 as [_ Hkr].
  get_step. destruct (less k v) eqn:Hkv; get_step.
  - destruct (IHr fuel (FR p c l k :: C)) as (l1&l2&Hit&H1&H2&E); auto; [lia|by apply Pos_right|..].
    + simpl. intros j. rewrite !fmap_app, !elem_of_app.
      intros [Hj|[Hj|Hj]]; [by apply Hl| |].
      * apply (sw_trans j k v); auto. apply Hlk; [done|]. apply elem_of_cons. auto.
      * apply list_elem_of_singleton in Hj as ->. exact Hkv.
    + exists l1, l2. split_and!; auto.
  - destruct (IHl fuel (FL p c k r :: C)) as (l1&l2&Hit&H1&H2&E); auto; [lia|by apply Pos_left|..].
    + simpl. intros j. rewrite fmap_app, elem_of_cons, elem_of_app.
      intros [->|[Hj|Hj]]; [done| |by apply Hr].
      destruct (less j v) eqn:Hjv; [|done]. rewrite <-Hkv. symmetry.
      apply (sw_trans k j v); auto.
    + exists l1, l2. split_and!; auto.
Qed.

(** [lower_bound] splits the items in those below the value and the rest; its result is the
    first of the rest, or the last item when there is none. *)
Theorem lower_bound_ok v tr its :
  P v → Forall P its.*2 → tree_rep less tr its →
  ∃ l1 l2, its = l1 ++ l2 ∧
    (∀ k, k ∈ l1.*2 → less k v = true) ∧ (∀ k, k ∈ l2.*2 → less k v = false) ∧
    lower_bound less v tr = (tr, Ret (default (last_ptr tr) (head l2.*1))).
Proof.
  intros Hv HPs (t&Ht&<-). pose proof (to_rep _ _ _ Ht) as HP.
  pose proof (Pos_fuel _ _ _ HP). pose proof (pos_root _ _ _ HP) as Hr. simpl in Hr.
  unfold lower_bound. rewrite !bind_gets, Hr.
  destruct (lower_bound_loop_ok (fuel_of tr) v tr [] t) as (l1&l2&Hit&H1&H2&E);
    try done; [apply Ht|lia|by intros ? ?%elem_of_nil..|].
  exists l1, l2. split_and!; auto.
Qed.

Lemma upper_bound_loop_ok fuel v tr C t :
  P v → Forall P (keys (plug C t)) → sorted less (keys (plug C t)) →
  length (ptrs t) < fuel → Pos tr C t →
  (∀ k, k ∈ (citems_l C).*2 → less v k = false) →
  (∀ k, k ∈ (citems_r C).*2 → less v k = true) →
  ∃ l1 l2, items (plug C t) = l1 ++ l2 ∧
    (∀ k, k ∈ l1.*2 → less v k = false) ∧ (∀ k, k ∈ l2.*2 → less v k = true) ∧
    upper_bound_loop less fuel v (default (last_ptr tr) (head (citems_r C).*1)) (rp t) tr
    = (tr, Ret (default (last_ptr tr) (head l2.*1))).
Proof.
  intros Hv. revert fuel C. induction t as [|p c l IHl k r IHr]; intros fuel C HPk Hs Hf HP Hl Hr;
    (destruct fuel as [|fuel]; [simpl in Hf; lia|]).
  { exists (citems_l C), (citems_r C). rewrite items_plug. done. }
  rewrite ptrs_Nd, length_app in Hf. simpl in Hf. cbn [upper_bound_loop rp].
  rewrite decide_False by (eapply Pos_ptr_ne, HP). pose proof (Pos_here _ _ _ _ _ _ _ HP) as Hp.
  pose proof HPk as HPk0. pose proof Hs as Hs0. rewrite keys_plug, keys_Nd in HPk0, Hs0.
  rewrite !Forall_app, Forall_cons, !Forall_forall in HPk0. destruct HPk0 as (_&(Hpl&Hk&Hpr)&_).
  apply sorted_app in Hs0 as (_&Hs0&_). apply sorted_app in Hs0 as (Hs0&_&_).
  apply sorted_app in Hs0 as (_&Hs0&Hlk). apply sorted_cons in Hs0 as [_ Hkr].
  get_step. destruct (less v k) eqn:Hvk; cbn [negb]; get_step.
  - destruct (IHl fuel (FL p c k r :: C)) as (l1&l2&Hit&H1&H2&E); auto; [lia|by apply Pos_left|..].
    + simpl. intros j. rewrite fmap_app, elem_of_cons, elem_of_app.
      intros [->|[Hj|Hj]]; [done| |by apply Hr]. apply (sw_trans v k j); auto.
    + exists l1, l2. split_and!; auto.
  - destruct (IHr fuel (FR p c l k :: C)) as (l1&l2&Hit&H1&H2&E); auto; [lia|by apply Pos_right|..].
    + simpl. intros j. rewrite !fmap_app, !elem_of_app.
      intros [Hj|[Hj|Hj]]; [by apply Hl| |].
      * destruct (less v j) eqn:Hvj; [|done]. rewrite <-Hvk. symmetry.
        apply (sw_trans v j k); auto. apply Hlk; [done|]. apply elem_of_cons. auto.
      * apply list_elem_of_singleton in Hj as ->. exact Hvk.
    + exists l1, l2. split_and!; auto.
Qed.

Theorem upper_bound_ok v tr its :
  P v → Forall P its.*2 → tree_rep less tr its →
  ∃ l1 l2, its = l1 ++ l2 ∧
    (∀ k, k ∈ l1.*2 → less v k = false) ∧ (∀ k, k ∈ l2.*2 → less v k = true) ∧
    upper_bound less v tr = (tr, Ret (default (last_ptr tr) (head l2.*1))).
Proof.
  intros Hv HPs (t&Ht&<-). pose proof (to_rep _ _ _ Ht) as HP.
  pose proof (Pos_fuel _ _ _ HP). pose proof (pos_root _ _ _ HP) as Hr. simpl in Hr.
  unfold upper_bound. rewrite !bind_gets, Hr.
  destruct (upper_bound_loop_ok (fuel_of tr) v tr [] t) as (l1&l2&Hit&H1&H2&E);
    try done; [apply Ht|lia|by intros ? ?%elem_of_nil..|].
  exists l1, l2. split_and!; auto.
Qed.
End queries.
