(* ===== verification/RBDelete.v ===== *)
(** * Removing and clearing

    The pointer-level [remove] unlinks the node, keeps the ends, rebalances and returns whether
    there was one; [clear] frees every node.  The sentinel's [parent] field carries the position
    of an empty subtree through the rebalancing. *)

From S2P Require Import Prelude RBTree RBSpec RBRep RBInsert RBIter.

(** ** The rebalancing loop *)

Section rebalance_delete.
Context {T : Type}.
Implicit Types (t x w : ptree T) (C : list (frame T)) (tr : rbtree T).

(** The sentinel's parent, when the position is an empty subtree. *)
Definition nil_parent tr x (q : ptr) : Prop :=
  x = Lf → ∃ n, nodes tr !! nil_ptr = Some n ∧ parent n = q.

Lemma nil_parent_meta tr tr' x q : same_meta tr tr' → nil_parent tr x q → nil_parent tr' x q.
Proof. unfold nil_parent. by intros [_ _ _ _ -> _]. Qed.

Lemma nil_parent_Nd tr p c l (k : T) r q : nil_parent tr (Nd p c l k r) q.
Proof. done. Qed.

Lemma get_parent_rp tr C x :
  Pos tr C x → nil_parent tr x (cptr C) → get_parent (rp x) tr = (tr, Ret (cptr C)).
Proof.
  intros HP Hn. destruct x as [|p c l k r].
  - destruct (Hn eq_refl) as (n&Hn'&<-). by apply get_parent_ok.
  - simpl. by rewrite (get_parent_ok _ _ _ (Pos_here _ _ _ _ _ _ _ HP)).
Qed.

Lemma Pos_root_ne_rp tr f C x : Pos tr (f :: C) x → rp x ≠ root tr.
Proof.
  intros HP. destruct x as [|p c l k r]; [|by eapply Pos_root_ne].
  pose proof (Pos_up _ _ _ _ HP) as HP'.
  assert (∃ p c l k r, plug (f :: C) Lf = Nd p c l k r) as (p&c&l&k&r&Hp).
  { destruct (plug (f :: C) Lf) eqn:Hp; [|eauto 6].
    apply (f_equal (λ t, length (items t))) in Hp. rewrite items_plug in Hp.
    destruct f; simpl in Hp; rewrite !length_app in Hp; simpl in Hp; lia. }
  rewrite Pos_plug, Hp in HP. rewrite (pos_root _ _ _ HP). simpl.
  intros He. by destruct (Pos_ptr_ne _ _ _ _ _ _ _ HP).
Qed.

(** The loop's body once the sibling [w] is black, on either side. *)
Definition left_round (fuel : nat) (node parent_right : ptr) : M (rbtree T) ptr :=
  prl ← get_left parent_right;
  prlb ← get_black prl;
  prr ← get_right parent_right;
  prrb ← get_black prr;
  if prlb && prrb then
    set_black parent_right false;;
    np ← get_parent node;
    rebalance_delete_loop fuel np
  else
    parent_right ← (if prrb : bool then
        set_black prl true;;
        set_black parent_right false;;
        rotate_right parent_right;;
        np ← get_parent node;
        get_right np
      else mret parent_right);
    np ← get_parent node;
    npb ← get_black np;
    set_black parent_right npb;;
    set_black np true;;
    prr ← get_right parent_right;
    set_black prr true;;
    rotate_left np;;
    r ← gets root;
    rebalance_delete_loop fuel r.
Definition right_round (fuel : nat) (node parent_left : ptr) : M (rbtree T) ptr :=
  plr ← get_right parent_left;
  plrb ← get_black plr;
  pll ← get_left parent_left;
  pllb ← get_black pll;
  if plrb && pllb then
    set_black parent_left false;;
    np ← get_parent node;
    rebalance_delete_loop fuel np
  else
    parent_left ← (if pllb : bool then
        set_black plr true;;
        set_black parent_left false;;
        rotate_left parent_left;;
        np ← get_parent node;
        get_left np
      else mret parent_left);
    np ← get_parent node;
    npb ← get_black np;
    set_black parent_left npb;;
    set_black np true;;
    pll ← get_left parent_left;
    set_black pll true;;
    rotate_right np;;
    r ← gets root;
    rebalance_delete_loop fuel r.

(** The loop stops at the root and at a red node. *)
Lemma rebalance_delete_root fuel tr t :
  Rep tr t → rebalance_delete_loop (S fuel) (root tr) tr = (tr, Ret (rp t)).
Proof.
  intros HP. cbn [rebalance_delete_loop]. rewrite bind_gets, decide_True by done.
  by rewrite (pos_root _ _ _ HP).
Qed.

Lemma rebalance_delete_red fuel tr C x :
  Pos tr C x → col x = false → rebalance_delete_loop (S fuel) (rp x) tr = (tr, Ret (rp x)).
Proof.
  intros HP Hx. cbn [rebalance_delete_loop]. rewrite bind_gets. case_decide; [done|].
  rewrite (bind_ok _ _ _ _ _ (get_black_rp _ _ _ HP)), Hx. done.
Qed.

(** The end of a round: a rotation at the parent, then the loop stops at the root. *)
Lemma left_round_last fuel tr C p c x k wp wc wl wk wr :
  Pos tr C (Nd p c x k (Nd wp wc wl wk wr)) → nil_parent tr x p → wr ≠ Lf →
  ∃ tr' t, (np ← get_parent (rp x); npb ← get_black np; set_black wp npb;; set_black np true;;
    prr ← get_right wp; set_black prr true;; rotate_left np;;
    r ← gets root; rebalance_delete_loop (S fuel) r) tr = (tr', Ret (rp t)) ∧
    Rep tr' t ∧ same_meta tr tr' ∧ t = plug C (Nd wp c (Nd p true x k wl) wk (blk wr)).
Proof.
  intros HP Hx Hwr. destruct wr as [|q qc ql qk qr]; [done|].
  rewrite (bind_ok _ _ _ _ _ (get_parent_rp _ _ _ (Pos_left _ _ _ _ _ _ _ HP) Hx)). cbn [cptr fptr].
  pose proof (Pos_here _ _ _ _ _ _ _ HP) as Hp. get_step. apply Pos_right in HP.
  at_op (set_black_at _ _ _ _ _ _ _ c HP) HP. apply Pos_up in HP. cbn [plug1] in HP.
  at_op (set_black_at _ _ _ _ _ _ _ true HP) HP. apply Pos_right in HP.
  pose proof (Pos_here _ _ _ _ _ _ _ HP) as Hw. get_step. apply Pos_right in HP. cbn [rp].
  at_op (set_black_at _ _ _ _ _ _ _ true HP) HP. do 2 (apply Pos_up in HP; cbn [plug1] in HP).
  at_op (rotate_left_ok _ _ _ _ _ _ _ _ _ _ _ HP) HP.
  rewrite Pos_plug in HP. rewrite bind_gets, (rebalance_delete_root _ _ _ HP).
  eexists _, _. split_and!; [done|exact HP|eauto 8 using same_meta_trans|done].
Qed.

Lemma right_round_last fuel tr C p c x k wp wc wl wk wr :
  Pos tr C (Nd p c (Nd wp wc wl wk wr) k x) → nil_parent tr x p → wl ≠ Lf →
  ∃ tr' t, (np ← get_parent (rp x); npb ← get_black np; set_black wp npb;; set_black np true;;
    pll ← get_left wp; set_black pll true;; rotate_right np;;
    r ← gets root; rebalance_delete_loop (S fuel) r) tr = (tr', Ret (rp t)) ∧
    Rep tr' t ∧ same_meta tr tr' ∧ t = plug C (Nd wp c (blk wl) wk (Nd p true wr k x)).
Proof.
  intros HP Hx Hwl. destruct wl as [|q qc ql qk qr]; [done|].
  rewrite (bind_ok _ _ _ _ _ (get_parent_rp _ _ _ (Pos_right _ _ _ _ _ _ _ HP) Hx)). cbn [cptr fptr].
  pose proof (Pos_here _ _ _ _ _ _ _ HP) as Hp. get_step. apply Pos_left in HP.
  at_op (set_black_at _ _ _ _ _ _ _ c HP) HP. apply Pos_up in HP. cbn [plug1] in HP.
  at_op (set_black_at _ _ _ _ _ _ _ true HP) HP. apply Pos_left in HP.
  pose proof (Pos_here _ _ _ _ _ _ _ HP) as Hw. get_step. apply Pos_left in HP. cbn [rp].
  at_op (set_black_at _ _ _ _ _ _ _ true HP) HP. do 2 (apply Pos_up in HP; cbn [plug1] in HP).
  at_op (rotate_right_ok _ _ _ _ _ _ _ _ _ _ _ HP) HP.
  rewrite Pos_plug in HP. rewrite bind_gets, (rebalance_delete_root _ _ _ HP).
  eexists _, _. split_and!; [done|exact HP|eauto 8 using same_meta_trans|done].
Qed.

(** A round: either the deficit moves to the parent, or the tree is repaired. *)
Lemma left_round_ok fuel tr C p c x k wp wl wk wr :
  Pos tr C (Nd p c x k (Nd wp true wl wk wr)) → nil_parent tr x p →
  if col wl && col wr then
    ∃ tr', left_round (S fuel) (rp x) wp tr = rebalance_delete_loop (S fuel) p tr' ∧
      Pos tr' C (Nd p c x k (Nd wp false wl wk wr)) ∧ same_meta tr tr'
  else ∃ tr' t, left_round (S fuel) (rp x) wp tr = (tr', Ret (rp t)) ∧
      Rep tr' t ∧ same_meta tr tr' ∧
      ∀ up, blk t = del_left up C p c x k (Nd wp true wl wk wr).
Proof.
  intros HP Hx. unfold left_round. pose proof (Pos_right _ _ _ _ _ _ _ HP) as HPw.
  pose proof (Pos_here _ _ _ _ _ _ _ HPw) as Hw. get_step.
  rewrite (bind_ok _ _ _ _ _ (get_black_rp _ _ _ (Pos_left _ _ _ _ _ _ _ HPw))).
  get_step. rewrite (bind_ok _ _ _ _ _ (get_black_rp _ _ _ (Pos_right _ _ _ _ _ _ _ HPw))).
  simpl del_left. destruct (col wl && col wr) eqn:Hlr; [|destruct (col wr) eqn:Hr].
  - at_op (set_black_at _ _ _ _ _ _ _ false HPw) HPw.
    apply Pos_up in HPw. cbn [plug1] in HPw.
    rewrite (bind_ok _ _ _ _ _ (get_parent_rp _ _ _ (Pos_left _ _ _ _ _ _ _ HPw)
      (nil_parent_meta _ _ _ _ Hm Hx))). eauto.
  - rewrite andb_true_r in Hlr. destruct wl as [|q qc a qk b]; [done|]. cbn [rp].
    clear HP. apply Pos_left in HPw. rewrite bind_assoc.
    at_op (set_black_at _ _ _ _ _ _ _ true HPw) HPw. apply Pos_up in HPw. cbn [plug1] in HPw.
    rewrite bind_assoc. at_op (set_black_at _ _ _ _ _ _ _ false HPw) HPw.
    rewrite bind_assoc. at_op (rotate_right_ok _ _ _ _ _ _ _ _ _ _ _ HPw) HPw.
    apply Pos_up in HPw. cbn [plug1] in HPw.
    match goal with H1 : same_meta tr ?t1, H2 : same_meta ?t1 ?t2, H3 : same_meta ?t2 ?t3 |- _ =>
      pose proof (same_meta_trans _ _ _ (same_meta_trans _ _ _ H1 H2) H3) as Hm' end.
    pose proof (nil_parent_meta _ _ _ _ Hm' Hx) as Hx'.
    rewrite bind_assoc, (bind_ok _ _ _ _ _ (get_parent_rp _ _ _ (Pos_left _ _ _ _ _ _ _ HPw) Hx')).
    cbn [cptr fptr]. pose proof (Pos_here _ _ _ _ _ _ _ HPw) as Hp. get_step. cbn [rp].
    destruct (left_round_last fuel _ _ _ _ _ _ _ _ _ _ _ HPw Hx') as (tr'&t&E'&HP'&Hm''&->); [done|].
    eexists _, _. split_and!; [exact E'|exact HP'|eauto using same_meta_trans|done].
  - rewrite bind_ret.
    destruct (left_round_last fuel _ _ _ _ _ _ _ _ _ _ _ HP Hx) as (tr'&t&E'&HP'&Hm''&->);
      [by destruct wr|].
    eexists _, _. split_and!; [exact E'|exact HP'|done|done].
Qed.

Lemma right_round_ok fuel tr C p c x k wp wl wk wr :
  Pos tr C (Nd p c (Nd wp true wl wk wr) k x) → nil_parent tr x p →
  if col wr && col wl then
    ∃ tr', right_round (S fuel) (rp x) wp tr = rebalance_delete_loop (S fuel) p tr' ∧
      Pos tr' C (Nd p c (Nd wp false wl wk wr) k x) ∧ same_meta tr tr'
  else ∃ tr' t, right_round (S fuel) (rp x) wp tr = (tr', Ret (rp t)) ∧
      Rep tr' t ∧ same_meta tr tr' ∧
      ∀ up, blk t = del_right up C p c (Nd wp true wl wk wr) k x.
Proof.
  intros HP Hx. unfold right_round. pose proof (Pos_left _ _ _ _ _ _ _ HP) as HPw.
  pose proof (Pos_here _ _ _ _ _ _ _ HPw) as Hw. get_step.
  rewrite (bind_ok _ _ _ _ _ (get_black_rp _ _ _ (Pos_right _ _ _ _ _ _ _ HPw))).
  get_step. rewrite (bind_ok _ _ _ _ _ (get_black_rp _ _ _ (Pos_left _ _ _ _ _ _ _ HPw))).
  simpl del_right. destruct (col wr && col wl) eqn:Hlr; [|destruct (col wl) eqn:Hr].
  - at_op (set_black_at _ _ _ _ _ _ _ false HPw) HPw.
    apply Pos_up in HPw. cbn [plug1] in HPw.
    rewrite (bind_ok _ _ _ _ _ (get_parent_rp _ _ _ (Pos_right _ _ _ _ _ _ _ HPw)
      (nil_parent_meta _ _ _ _ Hm Hx))). eauto.
  - rewrite andb_true_r in Hlr. destruct wr as [|q qc a qk b]; [done|]. cbn [rp].
    clear HP. apply Pos_right in HPw. rewrite bind_assoc.
    at_op (set_black_at _ _ _ _ _ _ _ true HPw) HPw. apply Pos_up in HPw. cbn [plug1] in HPw.
    rewrite bind_assoc. at_op (set_black_at _ _ _ _ _ _ _ false HPw) HPw.
    rewrite bind_assoc. at_op (rotate_left_ok _ _ _ _ _ _ _ _ _ _ _ HPw) HPw.
    apply Pos_up in HPw. cbn [plug1] in HPw.
    match goal with H1 : same_meta tr ?t1, H2 : same_meta ?t1 ?t2, H3 : same_meta ?t2 ?t3 |- _ =>
      pose proof (same_meta_trans _ _ _ (same_meta_trans _ _ _ H1 H2) H3) as Hm' end.
    pose proof (nil_parent_meta _ _ _ _ Hm' Hx) as Hx'.
    rewrite bind_assoc, (bind_ok _ _ _ _ _ (get_parent_rp _ _ _ (Pos_right _ _ _ _ _ _ _ HPw) Hx')).
    cbn [cptr fptr]. pose proof (Pos_here _ _ _ _ _ _ _ HPw) as Hp. get_step. cbn [rp].
    destruct (right_round_last fuel _ _ _ _ _ _ _ _ _ _ _ HPw Hx') as (tr'&t&E'&HP'&Hm''&->); [done|].
    eexists _, _. split_and!; [exact E'|exact HP'|eauto using same_meta_trans|done].
  - rewrite bind_ret.
    destruct (right_round_last fuel _ _ _ _ _ _ _ _ _ _ _ HP Hx) as (tr'&t&E'&HP'&Hm''&->);
      [by destruct wl|].
    eexists _, _. split_and!; [exact E'|exact HP'|done|done].
Qed.

(** Move the rest of the loop's body into the branch that recolours. *)
Lemma bind_loop_tail {A B} (m1 m2 m3 : M (rbtree T) unit) (m4 : M (rbtree T) A)
    (m5 : A → M (rbtree T) ptr) (k : ptr → M (rbtree T) B) tr :
  ((m1;; m2;; m3;; np ← m4; m5 np) ≫= k) tr = (m1;; m2;; m3;; np ← m4; w ← m5 np; k w) tr.
Proof.
  rewrite bind_assoc. unfold mbind, M_bind. destruct (m1 tr) as [? []]; [|done].
  destruct (m2 _) as [? []]; [|done]. destruct (m3 _) as [? []]; [|done].
  by destruct (m4 _) as [? []].
Qed.

(** One iteration at a black node other than the root. *)
Lemma rebalance_delete_step_left fuel tr C p c x k w :
  Pos tr (FL p c k w :: C) x → nil_parent tr x p → col x = true →
  rebalance_delete_loop (S fuel) (rp x) tr =
  (if col w then left_round fuel (rp x) (rp w) tr
   else (set_black (rp w) true;; set_black p false;; rotate_left p;;
         np ← get_parent (rp x); w ← get_right np; left_round fuel (rp x) w) tr).
Proof.
  intros HP Hx Hc. cbn [rebalance_delete_loop]. rewrite bind_gets.
  rewrite decide_False by (by eapply Pos_root_ne_rp).
  rewrite (bind_ok _ _ _ _ _ (get_black_rp _ _ _ HP)), Hc. cbn [negb].
  rewrite (bind_ok _ _ _ _ _ (get_parent_rp _ _ _ HP Hx)). cbn [cptr fptr].
  apply Pos_up in HP. cbn [plug1] in HP. pose proof (Pos_here _ _ _ _ _ _ _ HP) as Hp.
  get_step. rewrite decide_True by done. get_step.
  rewrite (bind_ok _ _ _ _ _ (get_black_rp _ _ _ (Pos_right _ _ _ _ _ _ _ HP))).
  destruct (col w); cbn [negb]; [by rewrite bind_ret|].
  by rewrite bind_loop_tail.
Qed.

Lemma rebalance_delete_step_right fuel tr C p c x k w :
  Pos tr (FR p c w k :: C) x → nil_parent tr x p → col x = true → w ≠ Lf →
  rebalance_delete_loop (S fuel) (rp x) tr =
  (if col w then right_round fuel (rp x) (rp w) tr
   else (set_black (rp w) true;; set_black p false;; rotate_right p;;
         np ← get_parent (rp x); w ← get_left np; right_round fuel (rp x) w) tr).
Proof.
  intros HP Hx Hc Hw. cbn [rebalance_delete_loop]. rewrite bind_gets.
  rewrite decide_False by (by eapply Pos_root_ne_rp).
  rewrite (bind_ok _ _ _ _ _ (get_black_rp _ _ _ HP)), Hc. cbn [negb].
  rewrite (bind_ok _ _ _ _ _ (get_parent_rp _ _ _ HP Hx)). cbn [cptr fptr].
  apply Pos_up in HP. cbn [plug1] in HP. pose proof (Pos_here _ _ _ _ _ _ _ HP) as Hp.
  get_step. rewrite decide_False.
  2: { intros He. eapply (Pos_rp_ne _ _ _ _ w); [exact HP|by left|done]. }
  get_step. rewrite (bind_ok _ _ _ _ _ (get_black_rp _ _ _ (Pos_left _ _ _ _ _ _ _ HP))).
  destruct (col w); cbn [negb]; [by rewrite bind_ret|].
  by rewrite bind_loop_tail.
Qed.

(** The recolouring and rotation that make a red sibling's child the sibling. *)
Lemma left_red_sibling {B} (K : ptr → M (rbtree T) B) tr C p c x k wp wl wk wr :
  Pos tr C (Nd p c x k (Nd wp false wl wk wr)) → nil_parent tr x p →
  ∃ tr', (set_black wp true;; set_black p false;; rotate_left p;;
          np ← get_parent (rp x); w ← get_right np; K w) tr = K (rp wl) tr' ∧
    Pos tr' (FL wp true wk wr :: C) (Nd p false x k wl) ∧ same_meta tr tr'.
Proof.
  intros HP Hx. apply Pos_right in HP.
  at_op (set_black_at _ _ _ _ _ _ _ true HP) HP. apply Pos_up in HP. cbn [plug1] in HP.
  at_op (set_black_at _ _ _ _ _ _ _ false HP) HP.
  at_op (rotate_left_ok _ _ _ _ _ _ _ _ _ _ _ HP) HP. apply Pos_left in HP.
  match goal with H1 : same_meta tr ?t1, H2 : same_meta ?t1 ?t2, H3 : same_meta ?t2 ?t3 |- _ =>
    pose proof (same_meta_trans _ _ _ (same_meta_trans _ _ _ H1 H2) H3) as Hm' end.
  rewrite (bind_ok _ _ _ _ _ (get_parent_rp _ _ _ (Pos_left _ _ _ _ _ _ _ HP)
    (nil_parent_meta _ _ _ _ Hm' Hx))). cbn [cptr fptr].
  pose proof (Pos_here _ _ _ _ _ _ _ HP) as Hp. get_step. eauto.
Qed.

Lemma right_red_sibling {B} (K : ptr → M (rbtree T) B) tr C p c x k wp wl wk wr :
  Pos tr C (Nd p c (Nd wp false wl wk wr) k x) → nil_parent tr x p →
  ∃ tr', (set_black wp true;; set_black p false;; rotate_right p;;
          np ← get_parent (rp x); w ← get_left np; K w) tr = K (rp wr) tr' ∧
    Pos tr' (FR wp true wl wk :: C) (Nd p false wr k x) ∧ same_meta tr tr'.
Proof.
  intros HP Hx. apply Pos_left in HP.
  at_op (set_black_at _ _ _ _ _ _ _ true HP) HP. apply Pos_up in HP. cbn [plug1] in HP.
  at_op (set_black_at _ _ _ _ _ _ _ false HP) HP.
  at_op (rotate_right_ok _ _ _ _ _ _ _ _ _ _ _ HP) HP. apply Pos_right in HP.
  match goal with H1 : same_meta tr ?t1, H2 : same_meta ?t1 ?t2, H3 : same_meta ?t2 ?t3 |- _ =>
    pose proof (same_meta_trans _ _ _ (same_meta_trans _ _ _ H1 H2) H3) as Hm' end.
  rewrite (bind_ok _ _ _ _ _ (get_parent_rp _ _ _ (Pos_right _ _ _ _ _ _ _ HP)
    (nil_parent_meta _ _ _ _ Hm' Hx))). cbn [cptr fptr].
  pose proof (Pos_here _ _ _ _ _ _ _ HP) as Hp. get_step. eauto.
Qed.

(** The loop ends, at a position whose blackening is [fix_del]. *)
Definition deleted (fuel : nat) tr C x : Prop :=
  ∃ tr' D y, rebalance_delete_loop fuel (rp x) tr = (tr', Ret (rp y)) ∧
    Pos tr' D y ∧ plug D (blk y) = fix_del C x ∧ same_meta tr tr'.

Lemma fix_del_FL_black C p c x k w :
  col x = true → col w = true → fix_del (FL p c k w :: C) x = del_left (fix_del C) C p c x k w.
Proof. intros Hx Hw. cbn [fix_del]. rewrite Hx. by destruct w as [|? []]. Qed.
Lemma fix_del_FR_black C p c x k w :
  col x = true → col w = true → fix_del (FR p c w k :: C) x = del_right (fix_del C) C p c w k x.
Proof. intros Hx Hw. cbn [fix_del]. rewrite Hx. by destruct w as [|? []]. Qed.

(** Case analysis on the sibling tree of the innermost frame. *)
Local Ltac rbc_sibling :=
  match goal with
  | _ : rbc _ _ (FL _ _ _ ?u :: _), H : rb _ _ ?u |- _ => inversion H; subst
  | _ : rbc _ _ (FR _ _ ?u _ :: _), H : rb _ _ ?u |- _ => inversion H; subst
  end.

Lemma rb_black c n (t : ptree T) : rb c n t → col t = true → rb true n t.
Proof. destruct 1; intros ?; try done; eauto with lob. Qed.

Lemma deleted_red fuel tr C x :
  1 ≤ fuel → Pos tr C x → col x = false → deleted fuel tr C x.
Proof.
  intros Hf HP Hx. destruct fuel as [|fuel]; [lia|]. exists tr, C, x.
  split_and!; [by eapply rebalance_delete_red|done| |apply same_meta_refl]. by rewrite fix_del_red.
Qed.

(** What the loop does when it goes on with a deficit at the parent. *)
Definition goes_on (fuel n : nat) C : Prop := ∀ tr t,
  Pos tr C t → t ≠ Lf → (col t = false ∨ ∃ a, rbc a (S (S n)) C ∧ rb true (S n) t) →
  deleted fuel tr C t.

Lemma deleted_left_black fuel tr C x p fc k wp wl wk wr a n c :
  goes_on (S fuel) n C → Pos tr (FL p fc k (Nd wp true wl wk wr) :: C) x → nil_parent tr x p →
  col x = true → rbc a (S n) (FL p fc k (Nd wp true wl wk wr) :: C) → rb c n x →
  deleted (S (S fuel)) tr (FL p fc k (Nd wp true wl wk wr) :: C) x.
Proof.
  intros Hon HP Hx Hc HC Hrb. pose proof (Pos_up _ _ _ _ HP) as HPp. cbn [plug1] in HPp.
  unfold deleted. rewrite (rebalance_delete_step_left _ _ _ _ _ _ _ _ HP Hx Hc). cbn [col rp].
  rewrite fix_del_FL_black by done. cbn [del_left].
  pose proof (left_round_ok fuel _ _ _ _ _ _ _ _ _ _ HPp Hx) as Hround.
  destruct (col wl && col wr) eqn:Hlr.
  - destruct Hround as (tr'&Er&HP'&Hm). rewrite Er.
    destruct (Hon tr' _ HP') as (tr''&D&y&E&HP''&Hy&Hm'); [done| |].
    { inversion HC; subst; [auto|]. rbc_sibling. right.
      match goal with H : rb _ _ (Nd wp _ _ _ _) |- _ => inversion H; subst end.
      apply andb_true_iff in Hlr as [Hl Hr]. eauto 8 using rb_black with lob. }
    exists tr'', D, y. eauto using same_meta_trans.
  - destruct Hround as (tr'&t&Er&HP'&Hm&Ht). rewrite Er. exists tr', [], t. split_and!; try done.
    specialize (Ht (fix_del C)). cbn [del_left] in Ht. by rewrite Hlr in Ht.
Qed.

Lemma deleted_left_red fuel tr C x p fc k wp wl wk wr a n c :
  Pos tr (FL p fc k (Nd wp false wl wk wr) :: C) x → nil_parent tr x p →
  col x = true → rbc a (S n) (FL p fc k (Nd wp false wl wk wr) :: C) → rb c n x →
  deleted (S (S fuel)) tr (FL p fc k (Nd wp false wl wk wr) :: C) x.
Proof.
  intros HP Hx Hc HC Hrb. pose proof (Pos_up _ _ _ _ HP) as HPp. cbn [plug1] in HPp.
  unfold deleted. rewrite (rebalance_delete_step_left _ _ _ _ _ _ _ _ HP Hx Hc). cbn [col rp].
  destruct (left_red_sibling (left_round (S fuel) (rp x)) _ _ _ _ _ _ _ _ _ _ HPp Hx)
    as (tr1&E1&HP1&Hm1). rewrite E1. clear E1.
  assert (∃ vp vl vk vr, wl = Nd vp true vl vk vr) as (vp&vl&vk&vr&->).
  { inversion HC; subst; rbc_sibling.
    match goal with H : rb true (S _) wl |- _ => inversion H; eauto end. }
  replace (fix_del _ x) with (del_left (λ t, plug (FL wp true wk wr :: C) (blk t))
    (FL wp true wk wr :: C) p false x k (Nd vp true vl vk vr)) by (cbn [fix_del]; by rewrite Hc).
  pose proof (left_round_ok fuel _ _ _ _ _ _ _ _ _ _ HP1 (nil_parent_meta _ _ _ _ Hm1 Hx))
    as Hround. cbn [rp del_left]. destruct (col vl && col vr) eqn:Hlr.
  - destruct Hround as (tr'&Er&HP'&Hm). rewrite Er.
    destruct (deleted_red (S fuel) tr' _ _ ltac:(lia) HP') as (tr''&D&y&E&HP''&Hy&Hm'); [done|].
    rewrite fix_del_red in Hy by done. exists tr'', D, y. eauto 8 using same_meta_trans.
  - destruct Hround as (tr'&t&Er&HP'&Hm&Ht). rewrite Er. exists tr', [], t.
    specialize (Ht Datatypes.id). cbn [del_left] in Ht. rewrite Hlr in Ht.
    split_and!; [done|exact HP'|exact Ht|eauto using same_meta_trans].
Qed.

Lemma deleted_right_black fuel tr C x p fc k wp wl wk wr a n c :
  goes_on (S fuel) n C → Pos tr (FR p fc (Nd wp true wl wk wr) k :: C) x → nil_parent tr x p →
  col x = true → rbc a (S n) (FR p fc (Nd wp true wl wk wr) k :: C) → rb c n x →
  deleted (S (S fuel)) tr (FR p fc (Nd wp true wl wk wr) k :: C) x.
Proof.
  intros Hon HP Hx Hc HC Hrb. pose proof (Pos_up _ _ _ _ HP) as HPp. cbn [plug1] in HPp.
  unfold deleted. rewrite (rebalance_delete_step_right _ _ _ _ _ _ _ _ HP Hx Hc) by done. cbn [col rp].
  rewrite fix_del_FR_black by done. cbn [del_right].
  pose proof (right_round_ok fuel _ _ _ _ _ _ _ _ _ _ HPp Hx) as Hround.
  destruct (col wr && col wl) eqn:Hlr.
  - destruct Hround as (tr'&Er&HP'&Hm). rewrite Er.
    destruct (Hon tr' _ HP') as (tr''&D&y&E&HP''&Hy&Hm'); [done| |].
    { inversion HC; subst; [auto|]. rbc_sibling. right.
      match goal with H : rb _ _ (Nd wp _ _ _ _) |- _ => inversion H; subst end.
      apply andb_true_iff in Hlr as [Hr Hl]. eauto 8 using rb_black with lob. }
    exists tr'', D, y. eauto using same_meta_trans.
  - destruct Hround as (tr'&t&Er&HP'&Hm&Ht). rewrite Er. exists tr', [], t. split_and!; try done.
    specialize (Ht (fix_del C)). cbn [del_right] in Ht. by rewrite Hlr in Ht.
Qed.

Lemma deleted_right_red fuel tr C x p fc k wp wl wk wr a n c :
  Pos tr (FR p fc (Nd wp false wl wk wr) k :: C) x → nil_parent tr x p →
  col x = true → rbc a (S n) (FR p fc (Nd wp false wl wk wr) k :: C) → rb c n x →
  deleted (S (S fuel)) tr (FR p fc (Nd wp false wl wk wr) k :: C) x.
Proof.
  intros HP Hx Hc HC Hrb. pose proof (Pos_up _ _ _ _ HP) as HPp. cbn [plug1] in HPp.
  unfold deleted. rewrite (rebalance_delete_step_right _ _ _ _ _ _ _ _ HP Hx Hc) by done. cbn [col rp].
  destruct (right_red_sibling (right_round (S fuel) (rp x)) _ _ _ _ _ _ _ _ _ _ HPp Hx)
    as (tr1&E1&HP1&Hm1). rewrite E1. clear E1.
  assert (∃ vp vl vk vr, wr = Nd vp true vl vk vr) as (vp&vl&vk&vr&->).
  { inversion HC; subst; rbc_sibling.
    match goal with H : rb true (S _) wr |- _ => inversion H; eauto end. }
  replace (fix_del _ x) with (del_right (λ t, plug (FR wp true wl wk :: C) (blk t))
    (FR wp true wl wk :: C) p false (Nd vp true vl vk vr) k x) by (cbn [fix_del]; by rewrite Hc).
  pose proof (right_round_ok fuel _ _ _ _ _ _ _ _ _ _ HP1 (nil_parent_meta _ _ _ _ Hm1 Hx))
    as Hround. cbn [rp del_right]. destruct (col vr && col vl) eqn:Hlr.
  - destruct Hround as (tr'&Er&HP'&Hm). rewrite Er.
    destruct (deleted_red (S fuel) tr' _ _ ltac:(lia) HP') as (tr''&D&y&E&HP''&Hy&Hm'); [done|].
    rewrite fix_del_red in Hy by done. exists tr'', D, y. eauto 8 using same_meta_trans.
  - destruct Hround as (tr'&t&Er&HP'&Hm&Ht). rewrite Er. exists tr', [], t.
    specialize (Ht Datatypes.id). cbn [del_right] in Ht. rewrite Hlr in Ht.
    split_and!; [done|exact HP'|exact Ht|eauto using same_meta_trans].
Qed.

Lemma rbc_sibling_node a n f C : rbc a (S n) (f :: C) →
  match f with FL _ _ _ w | FR _ _ w _ => w ≠ Lf end.
Proof. destruct f as [p fc k [|]|p fc [|] k]; intros HC; try done; inversion HC; subst; rbc_sibling. Qed.

Lemma rebalance_delete_loop_ok fuel tr C x a n c :
  length C + 2 ≤ fuel → Pos tr C x → (C ≠ [] → nil_parent tr x (cptr C)) →
  rbc a (S n) C → rb c n x → deleted fuel tr C x.
Proof.
  revert fuel tr x a n c. induction C as [|f C IH]; intros fuel tr x a n c Hf HP Hx HC Hrb;
    (destruct fuel as [|[|fuel]]; [simpl in Hf; lia..|]); simpl in Hf.
  { exists tr, [], x. split_and!; [|done| |apply same_meta_refl].
    - pose proof (rebalance_delete_root (S fuel) tr x HP) as E.
      by rewrite (pos_root _ _ _ HP) in E.
    - simpl. by destruct (negb _). }
  destruct (col x) eqn:Hc; [|apply deleted_red; auto; lia]. specialize (Hx ltac:(done)).
  assert (goes_on (S fuel) n C) as Hon.
  { intros tr' t HP' Hne [Ht|(a'&HC'&Ht)]; [apply deleted_red; [lia|done..]|].
    eapply IH; eauto; [lia|]. by intros _ ->. }
  pose proof (rbc_sibling_node _ _ _ _ HC) as Hw.
  destruct f as [p fc k [|wp [] wl wk wr]|p fc [|wp [] wl wk wr] k]; try done.
  - by eapply deleted_left_black.
  - by eapply deleted_left_red.
  - by eapply deleted_right_black.
  - by eapply deleted_right_red.
Qed.
End rebalance_delete.

(** ** Unlinking *)

Section splice.
Context {T : Type}.
Implicit Types (t l r : ptree T) (C E : list (frame T)) (tr : rbtree T) (g : list ptr).

(** [PosG g tr C t]: as [Pos], with the unlinked nodes [g] still in the store. *)
Record PosG g tr C t : Prop := {
  pg_ctx : repc (nodes tr) C (rp t);
  pg_sub : rep (nodes tr) (cptr C) t;
  pg_store : store_ok tr (g ++ ptrs t ++ cptrs C);
  pg_root : root tr = rp (plug C t)
}.

Lemma PosG_cons g tr f C t : PosG g tr (f :: C) t ↔ PosG g tr C (plug1 f t).
Proof.
  split; intros [Hc Hs Hst Hr]; split.
  1,2,5,6: destruct f; simpl in *; tauto.
  1,3: eapply store_ok_perm; [|done]; by rewrite ptrs_plug_cons.
  all: done.
Qed.

Lemma PosG_app g tr E C t : PosG g tr (E ++ C) t ↔ PosG g tr C (plug E t).
Proof. revert t. induction E as [|f E IH]; intros t; [done|]. simpl. by rewrite PosG_cons, IH. Qed.

(** The fields that unlinking leaves alone. *)
Definition same_fields tr tr' : Prop :=
  first_ptr tr' = first_ptr tr ∧ last_ptr tr' = last_ptr tr ∧ tree_size tr' = tree_size tr ∧
  next_addr tr' = next_addr tr.

Lemma same_fields_trans tr1 tr2 tr3 :
  same_fields tr1 tr2 → same_fields tr2 tr3 → same_fields tr1 tr3.
Proof. unfold same_fields. intuition congruence. Qed.
Lemma same_fields_refl tr : same_fields tr tr.
Proof. done. Qed.
Lemma same_meta_fields tr tr' : same_meta tr tr' → same_fields tr tr'.
Proof. by intros []. Qed.

(** Setting the parent of a subtree's root, or of the sentinel. *)
Definition set_par (n : node T) (q : ptr) : node T :=
  Node (key n) (is_black n) q (left n) (right n).

Lemma set_parent_rp tr t q ps par :
  store_ok tr ps → rep (nodes tr) par t →
  ∃ n, nodes tr !! rp t = Some n ∧
    set_parent (rp t) q tr = (with_nodes (<[rp t := set_par n q]> (nodes tr)) tr, Ret tt).
Proof.
  intros Hst Ht. destruct t as [|p c l k r].
  - destruct (so_nil _ _ Hst) as (n&Hn&_). exists n. split; [done|]. by apply set_parent_ok.
  - destruct Ht as (Hp&_). eexists. split; [exact Hp|]. by apply set_parent_ok.
Qed.

Lemma store_ok_set_par tr ps p n q :
  nodes tr !! p = Some n → store_ok tr ps →
  store_ok (with_nodes (<[p := set_par n q]> (nodes tr)) tr) ps.
Proof.
  intros Hp [Hnd Hb (m&Hm&Hmb) Hd Hx]. split; try done; simpl.
  - destruct (decide (p = nil_ptr)) as [->|Hne].
    + rewrite lookup_insert_eq. eexists. split; [done|]. simpl. by simplify_eq.
    + rewrite lookup_insert_ne by done. eauto.
  - intros r Hr%elem_of_dom. rewrite dom_insert_L in Hr. apply Hd, elem_of_dom.
    apply elem_of_dom_2 in Hp. set_solver.
Qed.

Lemma rep_set_par h par t q n :
  NoDup (ptrs t) → nil_ptr ∉ ptrs t → rep h par t → h !! rp t = Some n →
  rep (<[rp t := set_par n q]> h) q t.
Proof.
  intros Hnd Hn Ht Hp. destruct t as [|p c l k r]; [done|].
  pose proof (reparent_rep _ _ q _ Hnd Ht) as Hr. simpl in Hp, Hr, Ht |- *.
  destruct Ht as (Hp'&_). by simplify_eq.
Qed.

(** [transplant u v] for the root [v] of a subtree [t] of the unlinked node [u]. *)
Lemma transplant_ok g tr C u n t par v0 :
  repc (nodes tr) C u → nodes tr !! u = Some n → parent n = cptr C →
  rep (nodes tr) par t → store_ok tr (g ++ u :: ptrs t ++ cptrs C) →
  root tr = rp (plug C v0) → rp v0 = u →
  ∃ tr', transplant u (rp t) tr = (tr', Ret tt) ∧ PosG (g ++ [u]) tr' C t ∧
    nil_parent tr' t (cptr C) ∧ same_fields tr tr' ∧
    (∀ q, q ∈ g ++ [u] → nodes tr' !! q = nodes tr !! q) ∧
    (t ≠ Lf → nodes tr' !! nil_ptr = nodes tr !! nil_ptr).
Proof.
  intros HC Hu Hpar Ht Hst Hroot Hv0.
  assert (nil_ptr ∉ g ++ u :: ptrs t ++ cptrs C) as Hnil.
  { intros Hn. by destruct (store_ok_not_nil _ _ _ Hst Hn). }
  pose proof (so_nodup _ _ Hst) as Hnd.
  rewrite NoDup_app, NoDup_cons, NoDup_app in Hnd. destruct Hnd as (Hndg&Hdg&Hdu&Hndt&Hdt&HndC).
  rewrite !elem_of_app, elem_of_cons, elem_of_app in Hnil. rewrite elem_of_app in Hdu.
  unfold transplant. rewrite (bind_ok _ _ _ _ _ (get_parent_ok _ _ _ Hu)), Hpar.
  assert (u ≠ nil_ptr) as Hun by naive_solver.
  erewrite bind_ok by (apply link_run_left; naive_solver). cbn beta.
  set (tr1 := link C (rp t) tr).
  assert (same_meta tr tr1) as Hm by (eapply link_meta; [naive_solver|exact HC]).
  assert (∀ q, q ∉ cptrs C → nodes tr1 !! q = nodes tr !! q) as Hlk by (intros; by apply link_lookup).
  assert (repc (nodes tr1) C (rp t)) as HC1 by (by eapply link_repc).
  assert (root tr1 = rp (plug C t)) as Hr1 by (eapply link_root; [done|exact Hroot]).
  pose proof (store_ok_meta _ _ _ Hm Hst) as Hst1. clearbody tr1.
  assert (rep (nodes tr1) par t) as Ht1.
  { eapply rep_frame; [|exact Ht]. intros q Hq. apply Hlk. by apply Hdt. }
  assert (nodes tr1 !! u = Some n) as Hu1 by (rewrite Hlk; naive_solver).
  rewrite (bind_ok _ _ _ _ _ (get_parent_ok _ _ _ Hu1)), Hpar.
  destruct (set_parent_rp tr1 t (cptr C) _ par Hst1 Ht1) as (m&Hm1&E).
  assert (rp t = nil_ptr ∨ rp t ∈ ptrs t) as Hrpt.
  { destruct (decide (rp t = nil_ptr)); [auto|]. right. apply rp_in. intros ->. done. }
  assert (∀ q, q ∈ g ++ [u] → q ≠ rp t ∧ q ∉ cptrs C) as Hgu.
  { assert (∀ q, q ∈ g ++ [u] → q ≠ nil_ptr ∧ (q ∉ ptrs t) ∧ q ∉ cptrs C) as Hq.
    { intros q [Hq| ->%list_elem_of_singleton]%elem_of_app; [|tauto].
      split_and!; [intros ->; tauto|intros ?..]; apply (Hdg q Hq), elem_of_cons;
        rewrite elem_of_app; auto. }
    intros q (?&?&?)%Hq. split; [|done]. intros ->. by destruct Hrpt. }
  eexists. split; [exact E|]. split_and!.
  - split; simpl.
    + eapply repc_frame; [|exact HC1]. intros q Hq. apply lookup_insert_ne.
      intros <-. destruct Hrpt as [Hrpt|Hrpt]; [rewrite Hrpt in Hq; naive_solver|by eapply Hdt].
    + eapply rep_set_par; [done|naive_solver|exact Ht1|done].
    + rewrite <-app_assoc. by apply store_ok_set_par.
    + done.
  - intros ->. simpl. rewrite lookup_insert_eq. by eexists.
  - by apply same_meta_fields in Hm.
  - intros q Hq. destruct (Hgu q Hq). simpl. rewrite lookup_insert_ne by congruence. by apply Hlk.
  - intros Hne. simpl. rewrite lookup_insert_ne; [apply Hm|].
    intros He. pose proof (rp_in _ Hne) as Hin. rewrite He in Hin. apply Hnil. auto.
Qed.

Lemma set_parent_reparent t par x tr :
  t ≠ Lf → rep (nodes tr) par t →
  set_parent (rp t) x tr = (with_nodes (reparent t x (nodes tr)) tr, Ret tt).
Proof.
  destruct t as [|p c l k r]; [done|]. intros _ (Hp&_). simpl.
  by rewrite (set_parent_ok _ _ _ _ Hp).
Qed.

(** The node [q], unlinked from below, takes the place of [p]: [transplant], then [p]'s left
    subtree and colour. *)
Lemma adopt_ok {A} (a : A) tr C p c l k rr q qc qk t par v0 :
  repc (nodes tr) C p → nodes tr !! p = Some (Node k c (cptr C) (rp l) rr) →
  rep (nodes tr) p l → l ≠ Lf → rep (nodes tr) par (Nd q qc Lf qk t) →
  store_ok tr (ptrs l ++ p :: q :: ptrs t ++ cptrs C) →
  root tr = rp (plug C v0) → rp v0 = p →
  ∃ tr', (transplant p q;; nl ← get_left p; set_left q nl;; set_parent nl q;;
          nb ← get_black p; set_black q nb;; mret a) tr = (tr', Ret a) ∧
    PosG [p] tr' C (Nd q c l qk t) ∧ same_fields tr tr' ∧
    nodes tr' !! nil_ptr = nodes tr !! nil_ptr.
Proof.
  intros HC Hp Hl Hne Ht Hst Hroot Hv0.
  destruct (transplant_ok (ptrs l) tr C p _ (Nd q qc Lf qk t) par v0 HC Hp eq_refl Ht)
    as (tr1&E1&HP1&_&Hf1&Hk1&Hn1); [done..|]. simpl rp in E1.
  rewrite (bind_ok _ _ _ _ _ E1). clear E1. specialize (Hn1 ltac:(done)).
  assert (nodes tr1 !! p = Some (Node k c (cptr C) (rp l) rr)) as Hp1.
  { rewrite Hk1; [done|]. rewrite elem_of_app, list_elem_of_singleton. auto. }
  assert (rep (nodes tr1) p l) as Hl1.
  { eapply rep_frame; [|exact Hl]. intros s Hs. apply Hk1, elem_of_app. auto. }
  destruct HP1 as [HC1 (Hq1&_&Ht1) Hst1 Hr1]. rewrite <-app_assoc in Hst1. simpl in Hst1, Hq1, HC1.
  store_segments Hst1 [[nil_ptr]; ptrs l; [p]; [q]; ptrs t; cptrs C].
  do 2 get_step. erewrite bind_ok by (apply (set_parent_reparent l p); [done|untouched]).
  after_reparent. do 2 get_step. eexists. split; [reflexivity|].
  match goal with |- PosG _ ?S _ _ ∧ _ => assert (same_meta tr1 S) as Hm by meta end.
  split_and!; [|by eapply same_fields_trans, same_meta_fields|by rewrite <-Hn1, (sm_nil _ _ Hm)].
  split.
  - simpl in *. untouched.
  - simpl. split_and!; first [node_at|untouched].
  - eapply store_ok_meta; [exact Hm|]. eapply store_ok_perm; [|exact Hst1].
    rewrite ptrs_Nd, <-!app_assoc. simpl. by rewrite <-Permutation_middle.
  - simpl in *. rewrite Hr1. by rewrite !rp_plug.
Qed.

Lemma cptrs_app E C : cptrs (E ++ C) ≡ₚ cptrs E ++ cptrs C.
Proof.
  pose proof (ptrs_plug (E ++ C) Lf) as H. rewrite plug_app, ptrs_plug in H. simpl in H.
  by rewrite <-H, (ptrs_plug E Lf).
Qed.

(** The parent of a node two or more levels below [p] is not [p]. *)
Lemma cptr_deep_ne tr f E p c l k C t :
  Pos tr (f :: E ++ FR p c l k :: C) t → fptr f ≠ p.
Proof.
  intros HP%Pos_up He. pose proof (so_nodup _ _ (pos_store _ _ _ HP)) as Hnd.
  apply NoDup_app in Hnd as (_&Hd&_). apply (Hd p).
  - rewrite <-He. destruct f; simpl; apply elem_of_Nd; auto.
  - rewrite cptrs_app, elem_of_app, elem_of_FR. auto.
Qed.

(** The case of two children when the in-order successor [q] is the right child ... *)
Lemma splice_child_ok tr C p c l k q qc qk qr :
  Pos tr C (Nd p c l k (Nd q qc Lf qk qr)) → l ≠ Lf →
  ∃ tr', (set_parent (rp qr) q;; transplant p q;; nl ← get_left p; set_left q nl;;
          set_parent nl q;; nb ← get_black p; set_black q nb;; mret (rp qr, qc)) tr
          = (tr', Ret (rp qr, qc)) ∧
    PosG [p] tr' (FR q c l qk :: C) qr ∧ nil_parent tr' qr q ∧ same_fields tr tr'.
Proof.
  intros HP Hne. segments HP [[nil_ptr]; ptrs l; [p]; [q]; ptrs qr; cptrs C].
  destruct HP as [HC (Hp&Hl&(Hq&_&Hqr)) Hst Hroot]. simpl rp in *.
  destruct (set_parent_rp tr qr q _ q Hst Hqr) as (n&Hn&E). rewrite (bind_ok _ _ _ _ _ E).
  clear E. assert (rep (<[rp qr:=set_par n q]> (nodes tr)) q qr) as Hqr'.
  { eapply rep_set_par; [done|not_in|done..]. }
  pose proof (store_ok_set_par _ _ _ _ q Hn Hst) as Hst'.
  assert (lab (rp qr) = 0 ∨ lab (rp qr) = 4) as Hlab.
  { destruct qr; [by left|right]. apply Seg3. by apply rp_in. }
  match goal with |- ∃ _, _ ?S = _ ∧ _ => edestruct (adopt_ok (rp qr, qc) S C p c l k q q qc qk
    qr p (Nd p c l k (Nd q qc Lf qk qr))) as (tr'&E&HP'&Hf'&Hn') end; [..|done|].
  8: { exists tr'. split; [exact E|]. apply (PosG_cons _ _ (FR q c l qk)) in HP'. split_and!; [done| |exact Hf'].
    intros ->. rewrite Hn'. simpl. rewrite lookup_insert_eq. by eexists. }
  all: simpl.
  - destruct Hlab; simpl in *; untouched.
  - destruct Hlab; node_at.
  - destruct Hlab; untouched.
  - done.
  - destruct Hlab; split_and!; first [node_at|done].
  - eapply store_ok_perm; [|exact Hst']. rewrite !ptrs_Nd, <-app_assoc. done.
  - by rewrite Hroot, !rp_plug.
Qed.

(** ... and when it is deeper. *)
Lemma splice_deep_ok tr C p c l k f E q qc qk qr :
  Pos tr ((f :: E) ++ FR p c l k :: C) (Nd q qc Lf qk qr) → l ≠ Lf →
  ∃ tr', ((transplant q (rp qr);; nr ← get_right p; set_right q nr;; set_parent nr q);;
          transplant p q;; nl ← get_left p; set_left q nl;;
          set_parent nl q;; nb ← get_black p; set_black q nb;; mret (rp qr, qc)) tr
          = (tr', Ret (rp qr, qc)) ∧
    PosG [p] tr' ((f :: E) ++ FR q c l qk :: C) qr ∧
    nil_parent tr' qr (fptr f) ∧ same_fields tr tr'.
Proof.
  intros HP Hne.
  assert (∀ t, plug (f :: E) t ≠ Lf) as Hr'.
  { intros t He. apply (f_equal (λ t, length (items t))) in He. rewrite items_plug in He.
    destruct f; simpl in He; rewrite !length_app in He; simpl in He; lia. }
  destruct HP as [HC (Hq&_&Hqr) Hst Hroot].
  destruct (transplant_ok [] tr _ q _ qr q (Nd q qc Lf qk qr) HC Hq eq_refl Hqr) as (tr1&E1&HP1&Hx1&Hf1&Hk1&_);
    [exact Hst|exact Hroot|done|].
  specialize (Hk1 q ltac:(by apply list_elem_of_singleton)). rewrite Hq in Hk1.
  rewrite bind_assoc, (bind_ok _ _ _ _ _ E1). clear E1 HC Hst Hroot Hqr.
  pose proof HP1 as HP2. rewrite PosG_app, PosG_cons in HP2. clear HP1.
  cbn [plug1] in HP2. pose proof (Hr' qr) as Hne'. set (r' := plug (f :: E) qr) in *.
  destruct HP2 as [HC (Hp&Hl&Hr) Hst Hroot]. simpl in HC.
  store_segments Hst [[nil_ptr]; [q]; ptrs l; [p]; ptrs r'; cptrs C].
  rewrite bind_assoc. get_step. rewrite bind_assoc. get_step.
  erewrite bind_ok by (apply (set_parent_reparent r' p); [done|untouched]).
  after_reparent.
  match goal with |- ∃ _, _ ?S = _ ∧ _ => assert (same_meta tr1 S) as Hm by meta end.
  match goal with |- ∃ _, _ ?S = _ ∧ _ => edestruct (adopt_ok (rp qr, qc) S C p c l k (rp r') q qc
    qk r' (fptr f) (Nd p c l k r')) as (tr'&E'&HP'&Hf'&Hn') end; [..|done|].
  8: { exists tr'. split; [exact E'|]. rewrite PosG_app, PosG_cons. split_and!; [exact HP'| |].
    - intros Hqr. destruct (Hx1 Hqr) as (n&Hn&Hn2). exists n. split; [|done].
      by rewrite Hn', (sm_nil _ _ Hm).
    - eauto using same_fields_trans, same_meta_fields. }
  - simpl in *. untouched.
  - node_at.
  - untouched.
  - done.
  - simpl. split_and!; first [node_at|untouched].
  - eapply store_ok_meta; [exact Hm|]. eapply store_ok_perm; [|exact Hst].
    rewrite !ptrs_Nd, <-!app_assoc. simpl. rewrite Permutation_middle.
    apply Permutation_app_head, perm_swap.
  - simpl. rewrite Hroot, !rp_plug. done.
Qed.
End splice.

Section unlink.
Context {T : Type} (less : T → T → bool).
Implicit Types (t x l r : ptree T) (C E : list (frame T)) (tr : rbtree T).

(** [remove_splice] is [splice]. *)
Lemma remove_splice_ok tr C p c l k r C' x oc :
  Pos tr C (Nd p c l k r) → splice C c l r = Some (C', x, oc) →
  ∃ tr', remove_splice p tr = (tr', Ret (rp x, oc)) ∧ PosG [p] tr' C' x ∧
    nil_parent tr' x (cptr C') ∧ same_fields tr tr'.
Proof.
  intros HP Hs. pose proof (Pos_here _ _ _ _ _ _ _ HP) as Hp.
  assert (∀ t, rep (nodes tr) p t → ptrs (Nd p c l k r) ≡ₚ p :: ptrs t →
    ∃ tr', transplant p (rp t) tr = (tr', Ret tt) ∧ PosG [p] tr' C t ∧
      nil_parent tr' t (cptr C) ∧ same_fields tr tr') as Hone.
  { intros t Ht Hperm. destruct (transplant_ok [] tr C p _ t p (Nd p c l k r) (pos_ctx _ _ _ HP)
      Hp eq_refl Ht) as (tr'&?&?&?&?&_); [|by apply HP|done|by exists tr'].
    eapply store_ok_perm; [|apply HP]. simpl. by rewrite Hperm. }
  pose proof (pos_sub _ _ _ HP) as (_&Hl&Hr). unfold remove_splice. do 2 get_step.
  destruct l as [|lp lc ll lk lr].
  { simpl in Hs. simplify_eq. rewrite decide_True by done. get_step.
    destruct (Hone x Hr) as (tr'&E&HP'&Hn&Hf); [by rewrite ptrs_Nd|].
    rewrite (bind_ok _ _ _ _ _ E). by exists tr'. }
  rewrite decide_False by (eapply Pos_ptr_ne, Pos_left, HP). get_step.
  destruct r as [|rpp rc rl rk rr].
  { simpl in Hs. simplify_eq. rewrite decide_True by done.
    destruct (Hone (Nd lp lc ll lk lr) Hl) as (tr'&E&HP'&Hn&Hf).
    { by rewrite ptrs_Nd, <-Permutation_middle, app_nil_r. }
    rewrite (bind_ok _ _ _ _ _ E). by exists tr'. }
  rewrite decide_False by (eapply Pos_ptr_ne, Pos_right, HP).
  set (l := Nd lp lc ll lk lr) in *. set (r := Nd rpp rc rl rk rr) in *.
  destruct (split_min_spec [] r) as (E&q&qc&qk&qr&HE&Hrq&Hi&HFL); [done|].
  assert (splice C c l r = '(D, q, qc, qk, qr) ← split_min [] r; Some (D ++ FR q c l qk :: C, qr, qc))
    as Heq by done. rewrite Heq, HE in Hs. simpl in Hs. rewrite app_nil_r in Hs.
  injection Hs as <- <- <-.
  unfold most_left. rewrite bind_assoc, bind_gets.
  pose proof (Pos_fuel _ _ _ (Pos_right _ _ _ _ _ _ _ HP)) as Hfuel.
  assert (r ≠ Lf) as Hne by done.
  rewrite (bind_ok _ _ _ _ _ (most_left_loop_ok (fuel_of tr) tr _ r Hne ltac:(lia)
    (Pos_right _ _ _ _ _ _ _ HP))).
  assert (firstp r = q) as ->.
  { rewrite Hrq. unfold firstp, ptrs. rewrite items_plug, Hi. done. }
  clearbody r. subst r. pose proof HP as HPq. apply Pos_right in HPq.
  rewrite (Pos_plug _ _ (plug E _)), <-plug_app, <-Pos_plug in HPq.
  pose proof (Pos_here _ _ _ _ _ _ _ HPq) as Hq. do 3 get_step.
  destruct E as [|f E].
  - simpl. rewrite decide_True by done. by apply (splice_child_ok tr C p c l k).
  - rewrite decide_False by (by eapply cptr_deep_ne).
    by apply (splice_deep_ok _ _ _ _ _ _ _ _ _ _ _ _ HPq).
Qed.

(** The unlinked node is freed. *)
Lemma delete_node_ok tr C p x :
  PosG [p] tr C x → ∃ tr', delete_node p tr = (tr', Ret tt) ∧ Pos tr' C x ∧
    same_fields tr tr' ∧ nodes tr' !! nil_ptr = nodes tr !! nil_ptr.
Proof.
  intros [HC Hx Hst Hr]. eexists. split; [done|]. simpl in Hst.
  pose proof (so_nodup _ _ Hst) as [Hp Hnd]%NoDup_cons.
  rewrite elem_of_app in Hp.
  assert (p ≠ nil_ptr) as Hpn.
  { eapply store_ok_not_nil; [exact Hst|]. apply elem_of_cons. auto. }
  split_and!; [|done|by apply lookup_delete_ne].
  split; simpl; [| | |done].
  - eapply repc_frame; [|exact HC]. intros q Hq. apply lookup_delete_ne. intros ->. tauto.
  - eapply rep_frame; [|exact Hx]. intros q Hq. apply lookup_delete_ne. intros ->. tauto.
  - destruct Hst as [_ Hb Hn Hd Hnx]. split; simpl; [done| | | |done].
    + intros q Hq. apply Hb, elem_of_cons. auto.
    + by rewrite lookup_delete_ne.
    + intros q [n [Hne Hq]%lookup_delete_Some]. destruct (Hd q ltac:(by eexists)) as [?|Hq'];
        [auto|]. apply elem_of_cons in Hq' as [->|?]; [done|auto].
Qed.

Lemma rebalance_delete_ok tr C x a n c :
  Pos tr C x → nil_parent tr x (cptr C) → rbc a (S n) C → rb c n x →
  ∃ tr', rebalance_delete (rp x) tr = (tr', Ret tt) ∧ Rep tr' (fix_del C x) ∧ same_meta tr tr'.
Proof.
  intros HP Hx HC Hrb. unfold rebalance_delete. rewrite bind_gets.
  pose proof (Pos_fuel _ _ _ HP) as Hfuel.
  destruct (rebalance_delete_loop_ok (fuel_of tr) tr C x a n c) as (tr1&D&y&E&HP1&Hy&Hm1); auto.
  { destruct C as [|f C]; [simpl in *; lia|]. simpl in Hfuel |- *.
    lia. }
  rewrite (bind_ok _ _ _ _ _ E). destruct (set_black_rp _ _ _ HP1) as (tr'&E'&HP'&Hm').
  exists tr'. rewrite <-Hy, <-Pos_plug. split_and!; [done|done|by eapply same_meta_trans].
Qed.

(** [remove(node)] after its update of the ends. *)
Lemma unlink_node_ok tr C p c l k r :
  Pos tr C (Nd p c l k r) → rb_tree (plug C (Nd p c l k r)) →
  ∃ tr' t', (fc ← remove_splice p; delete_node p;; whenM fc.2 (rebalance_delete fc.1)) tr
            = (tr', Ret tt) ∧
    Rep tr' t' ∧ rb_tree t' ∧ items t' = citems_l C ++ items l ++ items r ++ citems_r C ∧
    first_ptr tr' = first_ptr tr ∧ last_ptr tr' = last_ptr tr ∧ tree_size tr' = tree_size tr.
Proof.
  intros HP Hrb. destruct (splice_is_Some C c l r) as [[[C' x] oc] Hs].
  destruct (unlink_ok _ _ _ _ _ _ Hrb) as (t'&Hu&Hrb'&Hit). unfold unlink in Hu.
  rewrite Hs in Hu. simplify_eq/=.
  destruct (remove_splice_ok _ _ _ _ _ _ _ _ _ _ HP Hs) as (tr1&E1&HP1&Hn1&Hf1).
  rewrite (bind_ok _ _ _ _ _ E1). destruct (delete_node_ok _ _ _ _ HP1) as (tr2&E2&HP2&Hf2&Hn2).
  rewrite (bind_ok _ _ _ _ _ E2). cbn [fst snd].
  pose proof (same_fields_trans _ _ _ Hf1 Hf2) as (?&?&?&_).
  pose proof (splice_rb _ _ _ _ _ _ _ _ _ Hrb Hs) as Hrbs. destruct oc; simpl.
  - destruct Hrbs as (a&n&c'&HC&Hx).
    destruct (rebalance_delete_ok tr2 C' x a n c') as (tr3&E3&HP3&Hm3); auto.
    { unfold nil_parent in *. by rewrite Hn2. }
    pose proof (same_meta_fields _ _ Hm3) as (?&?&?&_).
    exists tr3, (fix_del C' x). split_and!; auto; congruence.
  - exists tr2, (plug C' x). rewrite <-Pos_plug. split_and!; auto.
Qed.
End unlink.

(** ** The ends *)

Section ends.
Context {T : Type} (less : T → T → bool).
Implicit Types (t x l r : ptree T) (C E : list (frame T)) (tr : rbtree T).

Lemma citems_l_nil C : citems_l C = [] → head_ptr (citems_r C) = cptr C.
Proof.
  destruct C as [|[] C]; simpl; try done.
  intros H. by apply app_eq_nil in H as [_ [_ ?]%app_eq_nil].
Qed.
Lemma citems_r_nil C : citems_r C = [] → last_addr (citems_l C) = cptr C.
Proof.
  destruct C as [|[] C]; simpl; try done.
  intros _. unfold last_addr. by rewrite !fmap_app, !last_app.
Qed.

Lemma items_nil t : items t = [] → t = Lf.
Proof. destruct t; [done|]. simpl. by intros [_ ?]%app_eq_nil. Qed.

(** The neighbour of the first element, and of the last one. *)
Lemma after_first tr C p c k r :
  Pos tr C (Nd p c Lf k r) → rb_tree (plug C (Nd p c Lf k r)) → citems_l C = [] →
  head_ptr (items r ++ citems_r C) = if decide (rp r = nil_ptr) then cptr C else rp r.
Proof.
  intros HP Hrb HC. destruct (rb_tree_only_right C p c k r Hrb) as [->|(q&qk&->)]; simpl.
  - by apply citems_l_nil.
  - by rewrite decide_False by (eapply Pos_ptr_ne, Pos_right, HP).
Qed.
Lemma before_last tr C p c k l :
  Pos tr C (Nd p c l k Lf) → rb_tree (plug C (Nd p c l k Lf)) → citems_r C = [] →
  last_addr (citems_l C ++ items l) = if decide (rp l = nil_ptr) then cptr C else rp l.
Proof.
  intros HP Hrb HC. destruct (rb_tree_only_left C p c k l Hrb) as [->|(q&qk&->)]; simpl.
  - rewrite app_nil_r. by apply citems_r_nil.
  - rewrite decide_False by (eapply Pos_ptr_ne, Pos_left, HP).
    unfold last_addr. by rewrite fmap_app, last_app.
Qed.

(** The first and the last pointer, seen from a node with [l1] before it and [l2] behind it. *)
Lemma ends_around tr C p c l k r (l1 l2 : list (ptr * T)) :
  tree_of less tr (plug C (Nd p c l k r)) →
  l1 = citems_l C ++ items l → l2 = items r ++ citems_r C →
  (first_ptr tr = p ↔ l1 = []) ∧ (last_ptr tr = p ↔ l2 = []) ∧
  (l1 ≠ [] → first_ptr tr = head_ptr (l1 ++ l2)) ∧ (l2 ≠ [] → last_ptr tr = last_addr (l1 ++ l2)).
Proof.
  intros Ht Hl1 Hl2.
  assert (items (plug C (Nd p c l k r)) = l1 ++ (p, k) :: l2) as Hits.
  { rewrite items_plug, Hl1, Hl2. simpl. by rewrite <-!app_assoc. }
  pose proof (to_first _ _ _ Ht) as Hf. pose proof (to_last _ _ _ Ht) as Hla.
  assert (NoDup (l1 ++ (p, k) :: l2).*1) as Hnd.
  { rewrite <-Hits. by eapply tree_rep_nodup; eexists. }
  unfold firstp, lastp, ptrs in Hf, Hla. rewrite Hits in Hf, Hla.
  rewrite fmap_app, fmap_cons in Hf, Hla, Hnd. cbn [fst] in Hf, Hla, Hnd.
  apply NoDup_app in Hnd as (_&Hd1&[Hd2 _]%NoDup_cons).
  rewrite last_app, last_cons in Hla.
  specialize (Hla ltac:(intros He; rewrite He in Hits; by destruct l1)).
  split_and!.
  - split; [|by intros ->]. intros Hp. destruct l1 as [|[q k'] l1]; [done|]. simpl in Hf. exfalso.
    apply (Hd1 q); [left|]. rewrite <-Hf, Hp. left.
  - split; [|by intros ->]. intros Hp. destruct l2 as [|[q k'] l2 _] using rev_ind; [done|]. exfalso.
    apply Hd2. rewrite fmap_app, last_app in Hla. simpl in Hla. rewrite <-Hp, Hla.
    rewrite fmap_app, elem_of_app. right. left.
  - intros Hne. rewrite Hf. unfold head_ptr. rewrite fmap_app. by destruct l1.
  - intros Hne. rewrite Hla. unfold last_addr. rewrite fmap_app, last_app.
    destruct (list.last l2.*1) eqn:E; [done|]. by apply last_None, fmap_nil_inv in E.
Qed.

Lemma remove_ends_ok tr C p c l k r (l1 l2 : list (ptr * T)) :
  tree_of less tr (plug C (Nd p c l k r)) →
  l1 = citems_l C ++ items l → l2 = items r ++ citems_r C →
  ∃ fp lp, remove_ends p tr = (with_last lp (with_first fp tr), Ret tt) ∧
    fp = head_ptr (l1 ++ l2) ∧ (l1 ++ l2 ≠ [] → lp = last_addr (l1 ++ l2)) ∧
    (l1 ++ l2 = [] → lp = last_ptr tr).
Proof.
  intros Ht Hl1 Hl2. pose proof (to_rep _ _ _ Ht) as HP.
  apply (Pos_plug tr C) in HP. pose proof (Pos_here _ _ _ _ _ _ _ HP) as Hp.
  destruct (ends_around _ _ _ _ _ _ _ _ _ Ht Hl1 Hl2) as (Hf&Hla&Hf'&Hla').
  unfold remove_ends. rewrite !bind_gets.
  assert (with_first (first_ptr tr) tr = tr) as Hwf by (by destruct tr).
  assert (∀ q, with_last (last_ptr (with_first q tr)) (with_first q tr) = with_first q tr) as Hwl
    by (by destruct tr).
  case_decide as Hpf.
  - assert (l1 = []) as -> by (apply Hf; congruence).
    symmetry in Hl1. apply app_eq_nil in Hl1 as [HCl ->%items_nil].
    exists (head_ptr l2), (last_ptr tr). split_and!; [|done|exact Hla'|done].
    get_step. rewrite Hl2, (after_first _ _ _ _ _ _ HP (to_rb _ _ _ Ht) HCl).
    case_decide; [get_step|]; by destruct tr.
  - assert (l1 ≠ []) as Hne1 by (intros E; apply Hpf; symmetry; by apply Hf).
    case_decide as Hpl.
    + assert (l2 = []) as -> by (apply Hla; congruence).
      symmetry in Hl2. apply app_eq_nil in Hl2 as [->%items_nil HCr].
      rewrite app_nil_r in *. exists (first_ptr tr), (last_addr l1). rewrite Hwf.
      split_and!; [|by apply Hf'|done|done]. get_step.
      rewrite Hl1, (before_last _ _ _ _ _ _ HP (to_rb _ _ _ Ht) HCr).
      case_decide; [by get_step|done].
    + exists (first_ptr tr), (last_ptr tr). rewrite Hwf. split_and!; [by destruct tr|by apply Hf'| |].
      * intros _. apply Hla'. intros E. apply Hpl. symmetry. by apply Hla.
      * by intros [? _]%app_eq_nil.
Qed.
End ends.

(** ** [remove] *)

Section remove.
Context {T : Type} (P : T → Prop) (less : T → T → bool) `{!StrictWeak P less}.
Implicit Types (t : ptree T) (C : list (frame T)) (tr : rbtree T) (v : T).

Lemma with_ends_Pos tr C t fp lp : Pos tr C t → Pos (with_last lp (with_first fp tr)) C t.
Proof. by apply Pos_ext. Qed.

Lemma sorted_drop (a : T) l1 l2 : sorted less (l1 ++ a :: l2) → sorted less (l1 ++ l2).
Proof.
  rewrite !sorted_app, sorted_cons. intros (H1&[H2 _]&H12). split_and!; auto.
  intros b d Hb Hd. apply H12; [done|]. apply elem_of_cons. auto.
Qed.

(** [remove(node)] of the item at [p]. *)
Lemma remove_node_ok tr p k l1 l2 :
  tree_rep less tr (l1 ++ (p, k) :: l2) →
  ∃ tr', remove_node p tr = (tr', Ret tt) ∧ tree_size tr' = tree_size tr ∧
    tree_rep less (with_size (u64 (Z.of_nat (length (l1 ++ l2)))) tr') (l1 ++ l2) ∧
    (l1 ++ l2 = [] → last_ptr tr' = last_ptr tr).
Proof.
  intros (t&Ht&Hit). destruct (Rep_at _ _ _ _ _ _ (to_rep _ _ _ Ht) Hit) as (C&c&l&r&->&HP&Hl1&Hl2).
  destruct (remove_ends_ok _ _ _ _ _ _ _ _ _ _ Ht Hl1 Hl2) as (fp&lp&E1&Hf'&Hl'&Hl0).
  unfold remove_node. rewrite (bind_ok _ _ _ _ _ E1).
  destruct (unlink_node_ok _ C p c l k r (with_ends_Pos _ _ _ fp lp HP) (to_rb _ _ _ Ht))
    as (tr'&t'&E&HP'&Hrb'&Hit'&Hf&Hla&Hsz).
  rewrite E. exists tr'. split_and!; [done|done| |by intros Hn; rewrite Hla; apply Hl0].
  assert (items t' = l1 ++ l2) as Hits by (by rewrite Hit', Hl1, Hl2, <-!app_assoc).
  exists t'. split; [|done]. split; simpl.
  - by eapply Pos_ext, HP'.
  - done.
  - rewrite Hf. simpl. unfold firstp, ptrs. by rewrite Hits.
  - intros Hne. rewrite Hla. simpl. rewrite Hl'; [unfold lastp, ptrs; by rewrite Hits|].
    rewrite <-Hits. by intros ?%items_nil.
  - by rewrite Hits.
  - pose proof (to_sorted _ _ _ Ht) as Hs. unfold keys in *. rewrite Hits.
    rewrite Hit in Hs. rewrite fmap_app in *. simpl in Hs. by eapply sorted_drop.
Qed.

(** How the items change: the item equivalent to the value goes, when there is one. *)
Definition removed (v : T) (its its' : list (ptr * T)) (b : bool) : Prop :=
  (b = true ∧ ∃ l1 l2 q k, its = l1 ++ (q, k) :: l2 ∧ its' = l1 ++ l2 ∧
     less v k = false ∧ less k v = false) ∨
  (b = false ∧ its' = its ∧ sfind less v its.*2 = None).

Lemma removed_keys v its its' b :
  P v → Forall P its.*2 → sorted less its.*2 → removed v its its' b →
  its'.*2 = sremove less v its.*2 ∧ b = bool_decide (is_Some (sfind less v its.*2)).
Proof.
  intros Hv HP Hs [(->&l1&l2&q&k&->&->&Hvk&Hkv)|(->&->&Hf)].
  - rewrite !fmap_app, fmap_cons in *. cbn [snd] in *.
    rewrite (sremove_mid P less), (sfind_hit P less v k) by done. by rewrite bool_decide_true by eauto.
  - rewrite Hf. split; [|by rewrite bool_decide_false by (by intros [])].
    clear Hs. revert HP Hf. induction its.*2 as [|k ks IH]; intros HP; simpl; [done|].
    destruct (less v k); [done|]. destruct (less k v); [|done]. intros Hf.
    apply Forall_cons in HP as [_ HP]. by rewrite <-IH.
Qed.

Lemma remove_spec v tr its :
  P v → Forall P its.*2 → tree_rep less tr its →
  ∃ tr' its' b, remove less v tr = (tr', Ret b) ∧ tree_rep less tr' its' ∧
    removed v its its' b ∧ (its' = [] → last_ptr tr' = last_ptr tr).
Proof.
  intros Hv HPs (t&Ht&<-). pose proof (to_rep _ _ _ Ht) as HP. unfold remove.
  rewrite bind_gets. rewrite (bind_ok _ _ _ _ _ (search_tree_ok less v _ _ HP)).
  pose proof (locate_plug less v [] t) as Hpl. pose proof (locate_Pos less _ v _ _ HP) as HPl.
  assert (Forall P (keys (plug [] t))) as HPk by done.
  pose proof (locate_split P less v [] t Hv HPk (to_sorted _ _ _ Ht)) as Hsp.
  destruct (locate less v [] t) as [C [|q c l k r]]; simpl in Hpl, HPl, Hsp |- *.
  - destruct Hsp as [H1 H2]; [by split; intros ? ?%elem_of_nil|].
    exists tr, (items t), false. split; [done|]. split; [by exists t|]. split; [|done]. right. split_and!; try done.
    unfold keys in HPk. simpl in HPk.
    rewrite <-Hpl, items_plug in HPk |- *. simpl in *. rewrite fmap_app in HPk |- *.
    by destruct (sfind_miss P less v _ _ Hv HPk H1 H2) as [-> _].
  - destruct Hsp as [Hvk Hkv]; [by split; intros ? ?%elem_of_nil|].
    rewrite decide_False by (eapply Pos_ptr_ne, HPl).
    assert (items t = (citems_l C ++ items l) ++ (q, k) :: items r ++ citems_r C) as Hits.
    { rewrite <-Hpl, items_plug. simpl. by rewrite <-!app_assoc. }
    destruct (remove_node_ok tr q k _ _ (ex_intro _ t (conj Ht Hits))) as (tr'&E&Hsz&Ht'&Hl0).
    rewrite (bind_ok _ _ _ _ _ E), bind_modify. eexists _, _, true. split; [done|].
    split; [|split; [left; split; [done|]; eexists _, _, q, k; eauto|exact Hl0]].
    rewrite Hsz, (to_size _ _ _ Ht), Hits, u64_sub, !length_app in *. simpl. rewrite length_app.
    replace (_ - 1)%Z with (Z.of_nat (length (citems_l C) + length (items l) +
      (length (items r) + length (citems_r C)))) by lia. exact Ht'.
Qed.
End remove.

(** ** [clear] *)

Section clear.
Context {T : Type} (less : T → T → bool).
Implicit Types (t : ptree T) (tr : rbtree T).

(** The nodes [ps] are freed, and counted. *)
Record freed tr tr' (ps : list ptr) : Prop := {
  fr_in : ∀ q, q ∈ ps → nodes tr' !! q = None;
  fr_out : ∀ q, q ∉ ps → nodes tr' !! q = nodes tr !! q;
  fr_size : tree_size tr' = u64 (tree_size tr - Z.of_nat (length ps));
  fr_first : first_ptr tr' = first_ptr tr;
  fr_last : last_ptr tr' = last_ptr tr;
  fr_root : root tr' = root tr
}.

Lemma clear_loop_ok fuel par t tr :
  length (ptrs t) < fuel → rep (nodes tr) par t → NoDup (ptrs t) → nil_ptr ∉ ptrs t →
  u64 (tree_size tr) = tree_size tr →
  ∃ tr', clear_loop fuel (rp t) tr = (tr', Ret tt) ∧ freed tr tr' (ptrs t).
Proof.
  revert fuel par tr. induction t as [|p c l IHl k r IHr]; intros fuel par tr Hf Ht Hnd Hn Hsz;
    (destruct fuel as [|fuel]; [simpl in Hf; lia|]).
  { exists tr. split; [done|]. split; try done; [by intros q ?%elem_of_nil|].
    simpl. by rewrite Z.sub_0_r. }
  destruct Ht as (Hp&Hl&Hr). rewrite ptrs_Nd in *. rewrite length_app in Hf. simpl in Hf.
  apply NoDup_app in Hnd as (Hndl&Hdl&Hndr). apply NoDup_cons in Hndr as [Hpr Hndr].
  rewrite elem_of_app, elem_of_cons in Hn.
  assert (p ∉ ptrs l) as Hpl by (intros Hq; apply (Hdl p Hq); left).
  assert (∀ q, q ∈ ptrs r → q ∉ ptrs l) as Hrl by (intros q Hq Hq'; apply (Hdl q Hq'); by right).
  cbn [clear_loop rp]. rewrite decide_False by (intros ->; tauto). get_step.
  destruct (IHl fuel p tr) as (tr1&E1&[Hi1 Ho1 Hs1 Hf1 Hla1 Hr1]); auto; [lia|].
  rewrite (bind_ok _ _ _ _ _ E1).
  assert (nodes tr1 !! p = nodes tr !! p) as Hp1 by auto. rewrite <-Hp1 in Hp. get_step.
  destruct (IHr fuel p tr1) as (tr2&E2&[Hi2 Ho2 Hs2 Hf2 Hla2 Hr2]); auto; [lia| |..].
  { eapply rep_frame; [|exact Hr]. intros q Hq. auto. }
  { rewrite Hs1. unfold u64. by rewrite Zmod_mod. }
  rewrite (bind_ok _ _ _ _ _ E2). eexists. split; [done|]. split; simpl; try congruence.
  - intros q Hq. destruct (decide (q = p)) as [->|Hne]; [by rewrite lookup_delete_eq|].
    rewrite lookup_delete_ne by done. destruct (decide (q ∈ ptrs r)); [auto|].
    rewrite Ho2 by done. apply Hi1. apply elem_of_app in Hq as [|[|]%elem_of_cons]; done.
  - intros q Hq. rewrite elem_of_app, elem_of_cons in Hq.
    rewrite lookup_delete_ne by (intros ->; tauto). rewrite Ho2, Ho1 by tauto. done.
  - rewrite Hs2, u64_sub, Hs1, <-Z.sub_add_distr, u64_sub, length_app. simpl. f_equal. lia.
Qed.

(** [clear] frees every node and resets the root and the count; the ends keep the addresses of
    the nodes that were freed. *)
Lemma clear_spec tr its :
  tree_rep less tr its →
  ∃ tr' n, clear tr = (tr', Ret tt) ∧ nodes tr' = {[nil_ptr := n]} ∧ is_black n = true ∧
    root tr' = nil_ptr ∧ tree_size tr' = 0%Z ∧
    first_ptr tr' = first_ptr tr ∧ last_ptr tr' = last_ptr tr.
Proof.
  intros (t&Ht&<-). pose proof (to_rep _ _ _ Ht) as HP. pose proof (Pos_fuel _ _ _ HP) as Hfuel.
  destruct HP as [_ Hrep Hst Hroot]. rewrite app_nil_r in Hst.
  destruct (clear_loop_ok (fuel_of tr) nil_ptr t tr) as (tr'&E&[Hi Ho Hs Hf Hl Hr]); [simpl in Hfuel; lia|exact Hrep|apply Hst|..].
  { intros Hn. by destruct (store_ok_not_nil _ _ _ Hst Hn). }
  { rewrite (to_size _ _ _ Ht). unfold u64. by rewrite Zmod_mod. }
  destruct (so_nil _ _ Hst) as (n&Hn&Hb).
  assert (nil_ptr ∉ ptrs t) as Hnt by (intros Hq; by destruct (store_ok_not_nil _ _ _ Hst Hq)).
  exists (with_root nil_ptr tr'), n. unfold clear. rewrite !bind_gets, Hroot. simpl plug.
  rewrite (bind_ok _ _ _ _ _ E). split_and!; try done.
  - simpl. apply map_eq. intros q. destruct (decide (q = nil_ptr)) as [->|Hne].
    + by rewrite lookup_singleton_eq, Ho.
    + rewrite lookup_singleton_ne by done. destruct (decide (q ∈ ptrs t)) as [Hq|Hq]; [auto|].
      rewrite Ho by done. destruct (nodes tr !! q) as [m|] eqn:Hm; [|done].
      destruct (so_dom _ _ Hst q ltac:(by eexists)); done.
  - simpl. rewrite Hs, (to_size _ _ _ Ht), u64_sub. unfold ptrs. rewrite length_fmap.
    by rewrite Z.sub_diag.
Qed.
End clear.
