(* ===== verification/RBTraverse.v ===== *)
(** * Iterators, printing and destruction of the tree

    The operators of the two iterator classes, the three recursive printing functions and the
    destructor of storage/rbtree.hpp.  An iterator is the pointer it holds; printing returns the
    keys in the order in which they are written. *)

From S2P Require Import Prelude RBTree RBSpec RBRep RBInsert RBIter RBDelete.

Section operators.
Context {T : Type}.
Variable less : T → T → bool.
Local Abbreviation op := (M (rbtree T)).

(** [ForwardRBTreeIterator]: the prefix operators return the new position, the postfix ones the
    old position next to the new one. *)
Definition forward_next (it : ptr) : op ptr := successor it.
Definition forward_next_post (it : ptr) : op (ptr * ptr) :=
  it' ← forward_next it; mret (it, it').
Definition forward_prev (it : ptr) : op ptr := predecessor it.
Definition forward_prev_post (it : ptr) : op (ptr * ptr) :=
  it' ← forward_prev it; mret (it, it').

(** [ReverseRBTreeIterator] *)
Definition reverse_next (it : ptr) : op ptr := predecessor it.
Definition reverse_next_post (it : ptr) : op (ptr * ptr) :=
  it' ← reverse_next it; mret (it, it').
Definition reverse_prev (it : ptr) : op ptr := successor it.
Definition reverse_prev_post (it : ptr) : op (ptr * ptr) :=
  it' ← reverse_prev it; mret (it, it').

Definition iterator_eqb (it other : ptr) : bool := bool_decide (it = other).
Definition iterator_neqb (it other : ptr) : bool := bool_decide (it ≠ other).
Definition reverse_get_key (it : ptr) : op T := get_key it.
Definition reverse_valid (it : ptr) : bool := bool_decide (it ≠ nil_ptr).
Definition reverse_iterator_eqb (it other : ptr) : bool := bool_decide (it = other).
Definition reverse_iterator_neqb (it other : ptr) : bool := bool_decide (it ≠ other).

(** The address of the key, which [->] follows: the key is a member of the node. *)
Definition forward_arrow (it : ptr) : op T := get_key it.
Definition reverse_arrow (it : ptr) : op T := get_key it.

(** The comparison of iterators uses the [>] of the elements' type. *)
Definition iterator_gtb (greater : T → T → bool) (it other : ptr) : op bool :=
  k ← get_key it; k' ← get_key other; mret (greater k k').
Definition reverse_iterator_gtb (greater : T → T → bool) (it other : ptr) : op bool :=
  k ← get_key it; k' ← get_key other; mret (greater k k').

Definition get_root : op ptr :=
  r ← gets root; if decide (r = nil_ptr) then mret nil_ptr else mret r.
Definition tree_count : op Z := gets tree_size.

(** The printing functions *)
Fixpoint pre_order_loop (fuel : nat) (node : ptr) : op (list T) :=
  match fuel with
  | 0 => fail OutOfFuel
  | S fuel =>
      if decide (node = nil_ptr) then mret [] else
      k ← get_key node;
      l ← get_left node;
      ls ← pre_order_loop fuel l;
      r ← get_right node;
      rs ← pre_order_loop fuel r;
      mret (k :: ls ++ rs)
  end.
Fixpoint in_order_loop (fuel : nat) (node : ptr) : op (list T) :=
  match fuel with
  | 0 => fail OutOfFuel
  | S fuel =>
      if decide (node = nil_ptr) then mret [] else
      l ← get_left node;
      ls ← in_order_loop fuel l;
      k ← get_key node;
      r ← get_right node;
      rs ← in_order_loop fuel r;
      mret (ls ++ k :: rs)
  end.
Fixpoint post_order_loop (fuel : nat) (node : ptr) : op (list T) :=
  match fuel with
  | 0 => fail OutOfFuel
  | S fuel =>
      if decide (node = nil_ptr) then mret [] else
      l ← get_left node;
      ls ← post_order_loop fuel l;
      r ← get_right node;
      rs ← post_order_loop fuel r;
      k ← get_key node;
      mret (ls ++ rs ++ [k])
  end.
Definition pre_order_print : op (list T) :=
  r ← gets root; n ← gets fuel_of; pre_order_loop n r.
Definition in_order_print : op (list T) :=
  r ← gets root; n ← gets fuel_of; in_order_loop n r.
Definition post_order_print : op (list T) :=
  r ← gets root; n ← gets fuel_of; post_order_loop n r.

(** The destructor deletes the sentinel only when the pointer to it is null. *)
Definition destroy : op unit :=
  r ← gets root;
  n ← gets fuel_of;
  clear_loop n r;;
  whenM (bool_decide (nil_ptr = null)) (delete_node nil_ptr).

(** ** What they compute *)

Fixpoint pre_order (t : ptree T) : list T :=
  match t with Lf => [] | Nd _ _ l k r => k :: pre_order l ++ pre_order r end.
Fixpoint post_order (t : ptree T) : list T :=
  match t with Lf => [] | Nd _ _ l k r => post_order l ++ post_order r ++ [k] end.

Lemma pre_order_keys (t : ptree T) : pre_order t ≡ₚ keys t.
Proof.
  induction t as [|p c l IHl k r IHr]; [done|]. rewrite keys_Nd. simpl. rewrite IHl, IHr.
  by rewrite Permutation_middle.
Qed.
Lemma post_order_keys (t : ptree T) : post_order t ≡ₚ keys t.
Proof.
  induction t as [|p c l IHl k r IHr]; [done|]. rewrite keys_Nd. simpl. rewrite IHl, IHr.
  by rewrite (Permutation_app_comm (keys r)).
Qed.

(** A recursive function that visits the subtrees reads the tree as it is. *)
Lemma Nd_lookup (tr : rbtree T) par p c l k r :
  rep (nodes tr) par (Nd p c l k r) → nil_ptr ∉ ptrs (Nd p c l k r) →
  p ≠ nil_ptr ∧ nodes tr !! p = Some (Node k c par (rp l) (rp r)) ∧
  rep (nodes tr) p l ∧ rep (nodes tr) p r ∧ (nil_ptr ∉ ptrs l) ∧ (nil_ptr ∉ ptrs r).
Proof.
  rewrite ptrs_Nd, elem_of_app, elem_of_cons. intros (Hp&Hl&Hr) Hn. split_and!; try done; auto.
Qed.

Lemma traverse_ok fuel par (t : ptree T) (tr : rbtree T) :
  length (ptrs t) < fuel → rep (nodes tr) par t → nil_ptr ∉ ptrs t →
  pre_order_loop fuel (rp t) tr = (tr, Ret (pre_order t)) ∧
  in_order_loop fuel (rp t) tr = (tr, Ret (keys t)) ∧
  post_order_loop fuel (rp t) tr = (tr, Ret (post_order t)).
Proof.
  revert fuel par. induction t as [|p c l IHl k r IHr]; intros fuel par Hf Ht Hn;
    (destruct fuel as [|fuel]; [simpl in Hf; lia|]); [done|].
  destruct (Nd_lookup _ _ _ _ _ _ _ Ht Hn) as (Hne&Hp&Hl&Hr&Hnl&Hnr).
  rewrite ptrs_Nd, length_app in Hf. simpl in Hf.
  destruct (IHl fuel p ltac:(lia) Hl Hnl) as (L1&L2&L3).
  destruct (IHr fuel p ltac:(lia) Hr Hnr) as (R1&R2&R3).
  cbn [pre_order_loop in_order_loop post_order_loop rp]. rewrite !decide_False by done.
  split; [|split]; repeat get_step.
  - rewrite (bind_ok _ _ _ _ _ L1). get_step. by rewrite (bind_ok _ _ _ _ _ R1).
  - rewrite (bind_ok _ _ _ _ _ L2). repeat get_step. rewrite (bind_ok _ _ _ _ _ R2). by rewrite keys_Nd.
  - rewrite (bind_ok _ _ _ _ _ L3). get_step. rewrite (bind_ok _ _ _ _ _ R3). by get_step.
Qed.

Lemma tree_rep_rep tr its :
  tree_rep less tr its →
  ∃ t : ptree T, keys t = its.*2 ∧ rep (nodes tr) nil_ptr t ∧ root tr = rp t ∧ (nil_ptr ∉ ptrs t) ∧
    length (ptrs t) < fuel_of tr.
Proof.
  intros (t&Ht&<-). pose proof (to_rep _ _ _ Ht) as HP. pose proof (Pos_fuel _ _ _ HP) as Hfuel.
  destruct HP as [_ Hrep Hst Hroot]. rewrite app_nil_r in Hst. exists t. split; [done|].
  split; [exact Hrep|]. split; [exact Hroot|]. split; [|simpl in Hfuel; lia].
  intros Hn. by destruct (store_ok_not_nil _ _ _ Hst Hn).
Qed.

(** Iterators that stand in the tree compare as the elements they stand at. *)
Lemma iterator_gtb_ok (greater : T → T → bool) tr its q k q' k' :
  tree_rep less tr its → (q, k) ∈ its → (q', k') ∈ its →
  iterator_gtb greater q q' tr = (tr, Ret (greater k k')) ∧
  reverse_iterator_gtb greater q q' tr = (tr, Ret (greater k k')).
Proof.
  intros Ht Hq Hq'. unfold iterator_gtb, reverse_iterator_gtb.
  by rewrite !(bind_ok _ _ _ _ _ (tree_rep_key _ _ _ _ _ Ht Hq)), !(bind_ok _ _ _ _ _ (tree_rep_key _ _ _ _ _ Ht Hq')).
Qed.

Lemma prints_ok tr its :
  tree_rep less tr its →
  ∃ pre post, in_order_print tr = (tr, Ret its.*2) ∧
    pre_order_print tr = (tr, Ret pre) ∧ post_order_print tr = (tr, Ret post) ∧
    pre ≡ₚ its.*2 ∧ post ≡ₚ its.*2.
Proof.
  intros (t&Hk&Hrep&Hroot&Hn&Hf)%tree_rep_rep. exists (pre_order t), (post_order t).
  destruct (traverse_ok _ _ _ _ Hf Hrep Hn) as (E1&E2&E3).
  unfold in_order_print, pre_order_print, post_order_print. rewrite !bind_gets, Hroot, <-Hk.
  split_and!; [done..|apply pre_order_keys|apply post_order_keys].
Qed.

Lemma destroy_ok tr its :
  tree_rep less tr its →
  ∃ tr' n, destroy tr = (tr', Ret tt) ∧ nodes tr' = {[nil_ptr := n]} ∧ tree_size tr' = 0%Z.
Proof.
  intros Ht. destruct (clear_spec less _ _ Ht) as (tr'&n&E&Hn&_&_&Hs&_).
  unfold clear in E. unfold destroy. rewrite !bind_gets in *.
  destruct (clear_loop (fuel_of tr) (root tr) tr) as [tr1 [[]|e]] eqn:Hc;
    [|by rewrite (bind_err _ _ _ _ _ Hc) in E].
  rewrite (bind_ok _ _ _ _ _ Hc) in E. pose proof (f_equal fst E : with_root nil_ptr tr1 = tr') as <-.
  rewrite (bind_ok _ _ _ _ _ Hc). exists tr1, n. split; [done|]. by split.
Qed.
End operators.
