(* ===== verification/RBProps.v ===== *)
(** * What the red-black tree does

    The properties of storage/rbtree.hpp, from the lemmas of the preceding files.  [sinsert],
    [sremove] and [sfind] of the prelude are the abstract operations, on a sorted list of keys in
    which no two are equivalent. *)

From S2P Require Import Prelude RBTree RBSpec RBRep RBInsert RBIter RBDelete RBTraverse.

(** ** Sequences of operations *)

Section sessions.
Context {T : Type} (P : T → Prop) (less : T → T → bool) `{!StrictWeak P less}.
Implicit Types (tr : rbtree T) (its : list (ptr * T)) (ks : list T).

Inductive request := RInsert (v : T) | RRemove (v : T) | RFind (v : T).
Inductive answer := ADone | ARemoved (b : bool) | AFound (o : option T).

Definition request_key (q : request) : T :=
  match q with RInsert v | RRemove v | RFind v => v end.

Definition serve (q : request) : M (rbtree T) answer :=
  match q with
  | RInsert v => insert less v;; mret ADone
  | RRemove v => b ← remove less v; mret (ARemoved b)
  | RFind v => o ← find less v; mret (AFound o)
  end.
Fixpoint serve_all (qs : list request) : M (rbtree T) (list answer) :=
  match qs with
  | [] => mret []
  | q :: qs => a ← serve q; rest ← serve_all qs; mret (a :: rest)
  end.

(** The abstract tree. *)
Definition serve_abs (q : request) ks : list T * answer :=
  match q with
  | RInsert v => (sinsert less v ks, ADone)
  | RRemove v => (sremove less v ks, ARemoved (bool_decide (is_Some (sfind less v ks))))
  | RFind v => (ks, AFound (sfind less v ks))
  end.
Fixpoint serve_all_abs (qs : list request) ks : list T * list answer :=
  match qs with
  | [] => (ks, [])
  | q :: qs =>
      let '(ks, a) := serve_abs q ks in let '(ks, rest) := serve_all_abs qs ks in (ks, a :: rest)
  end.

Definition tree_with tr ks : Prop :=
  ∃ its, tree_rep less tr its ∧ its.*2 = ks ∧ Forall P ks.

Lemma insert_with tr ks v :
  P v → tree_with tr ks →
  ∃ tr', insert less v tr = (tr', Ret tt) ∧ tree_with tr' (sinsert less v ks).
Proof.
  intros Hv (its&Ht&<-&HP). destruct (insert_ok P less v _ _ Hv HP Ht) as (tr'&its'&E&Ht'&Hins).
  exists tr'. split; [done|]. exists its'. split; [done|].
  assert (sorted less its.*2) as Hs by (destruct Ht as (t&Ht&<-); apply Ht).
  pose proof (inserted_keys P less _ _ _ Hv HP Hs Hins) as Hk. split; [done|]. rewrite <-Hk.
  destruct Hins as [(l1&l2&new&->&->&_)|(l1&l2&q&k&->&->&_)];
    rewrite !fmap_app in *; csimpl in *; rewrite ?Forall_app, ?Forall_cons in *; naive_solver.
Qed.

Lemma remove_with tr ks v :
  P v → tree_with tr ks →
  ∃ tr', remove less v tr = (tr', Ret (bool_decide (is_Some (sfind less v ks)))) ∧
    tree_with tr' (sremove less v ks).
Proof.
  intros Hv (its&Ht&<-&HP). destruct (remove_spec P less v _ _ Hv HP Ht) as (tr'&its'&b&E&Ht'&Hr&_).
  assert (sorted less its.*2) as Hs by (destruct Ht as (t&Ht&<-); apply Ht).
  destruct (removed_keys P less _ _ _ _ Hv HP Hs Hr) as [Hk Hb].
  exists tr'. rewrite <-Hb. split; [done|]. exists its'. split; [done|]. split; [done|]. rewrite <-Hk.
  destruct Hr as [(_&l1&l2&q&k&->&->&_)|(_&->&_)]; [|done].
  rewrite !fmap_app in *; csimpl in *; rewrite ?Forall_app, ?Forall_cons in *; naive_solver.
Qed.

Lemma empty_with d : tree_with (empty_tree d) [].
Proof. exists []. split; [apply empty_tree_rep|by split]. Qed.

Lemma serve_ok tr ks q :
  P (request_key q) → tree_with tr ks →
  ∃ tr', serve q tr = (tr', Ret (serve_abs q ks).2) ∧ tree_with tr' (serve_abs q ks).1.
Proof.
  intros Hq Ht. destruct q as [v|v|v]; simpl in *.
  - destruct (insert_with _ _ _ Hq Ht) as (tr'&E&Ht'). exists tr'. by rewrite (bind_ok _ _ _ _ _ E).
  - destruct (remove_with _ _ _ Hq Ht) as (tr'&E&Ht'). exists tr'. by rewrite (bind_ok _ _ _ _ _ E).
  - exists tr. split; [|done]. destruct Ht as (its&Ht&<-&HP).
    by rewrite (bind_ok _ _ _ _ _ (find_ok P less v _ _ Hq HP Ht)).
Qed.

(** C5: any sequence of insertions, removals and lookups, from the empty tree on, is answered
    as a sorted list answers it, and ends in a well-formed red-black tree with the list's keys. *)
Theorem tree_refines_sorted_list d qs :
  Forall (λ q, P (request_key q)) qs →
  ∃ tr, serve_all qs (empty_tree d) = (tr, Ret (serve_all_abs qs []).2) ∧
    tree_with tr (serve_all_abs qs []).1.
Proof.
  intros Hqs. generalize (empty_with d). generalize (empty_tree d), (@nil T).
  induction Hqs as [|q qs Hq Hqs IH]; intros tr ks Ht; simpl; [by exists tr|].
  destruct (serve_ok _ _ _ Hq Ht) as (tr1&E1&Ht1). rewrite (bind_ok _ _ _ _ _ E1).
  destruct (serve_abs q ks) as [ks1 a1]. simpl in *. destruct (IH _ _ Ht1) as (tr2&E2&Ht2).
  rewrite (bind_ok _ _ _ _ _ E2). destruct (serve_all_abs qs ks1) as [ks2 as2]. by exists tr2.
Qed.

(** C32: a removal takes out the equivalent element and keeps the nodes of the others, so
    iterators to them stay valid. *)
Theorem remove_keeps_other_nodes v tr its k :
  P v → Forall P its.*2 → tree_rep less tr its → sfind less v its.*2 = Some k →
  ∃ tr' l1 l2 p, remove less v tr = (tr', Ret true) ∧ its = l1 ++ (p, k) :: l2 ∧
    tree_rep less tr' (l1 ++ l2) ∧ less v k = false ∧ less k v = false.
Proof.
  intros Hv HP Ht Hf. destruct (remove_spec P less v _ _ Hv HP Ht) as (tr'&its'&b&E&Ht'&Hr&_).
  assert (sorted less its.*2) as Hs by (destruct Ht as (t&Ht&<-); apply Ht).
  destruct Hr as [(->&l1&l2&p&k'&Heq&->&H1&H2)|(_&_&Hn)]; [|by rewrite Hf in Hn].
  assert (k' = k) as ->.
  { rewrite Heq, fmap_app in Hf, Hs, HP. csimpl in Hf. csimpl in Hs. csimpl in HP.
    rewrite (sfind_hit P less v k') in Hf by done. by injection Hf. }
  by exists tr', l1, l2, p.
Qed.

(** ** Iteration and bounds *)

(** [begin] and [++] visit the keys in ascending order, [rbegin] and the reverse iterator in
    descending order, each key once. *)
Theorem iteration_in_order tr its :
  tree_rep less tr its → its ≠ [] →
  (it ← begin; collect_loop (fuel_of tr) successor it) tr = (tr, Ret its.*2) ∧
  (it ← rbegin; collect_loop (fuel_of tr) predecessor it) tr = (tr, Ret (reverse its.*2)) ∧
  sorted less its.*2.
Proof.
  intros Ht Hne. pose proof (tree_rep_fuel _ _ _ Ht). split; [|split].
  - apply (iterate_ok less); [done|lia].
  - unfold rbegin. rewrite bind_gets, (tree_rep_last _ _ _ Ht Hne).
    apply (collect_backward less _ _ its []); [by rewrite app_nil_r|lia].
  - destruct Ht as (t&Ht&<-). apply Ht.
Qed.

(** [lower_bound] is the first element that is not below the key and [upper_bound] the first
    one above it; where there is none, both are the last element of the tree. *)
Theorem bounds_split_the_tree v tr its :
  P v → Forall P its.*2 → tree_rep less tr its → its ≠ [] →
  ∃ lo up l1 l2 l3, range less v v tr = (tr, Ret (lo, up)) ∧ its = l1 ++ l2 ++ l3 ∧
    (∀ k, k ∈ l1.*2 → less k v = true) ∧
    (∀ k, k ∈ l2.*2 → less k v = false ∧ less v k = false) ∧
    (∀ k, k ∈ l3.*2 → less v k = true) ∧
    lo = default (last_addr its) (head (l2 ++ l3).*1) ∧ up = default (last_addr its) (head l3.*1).
Proof.
  intros Hv HP Ht Hne.
  destruct (lower_bound_ok P less v _ _ Hv HP Ht) as (l1&m&Heq1&H1&H2&E1).
  destruct (upper_bound_ok P less v _ _ Hv HP Ht) as (m'&l3&Heq2&H3&H4&E2).
  rewrite (tree_rep_last _ _ _ Ht Hne) in E1, E2.
  assert (∃ l2, m = l2 ++ l3 ∧ m' = l1 ++ l2) as (l2&->&->).
  { rewrite Heq1 in Heq2, HP. apply app_eq_inv in Heq2 as [(l&->&->)|(l&->&->)]; [|by eauto].
    exists []. destruct l as [|[p k] l]; [by rewrite !app_nil_r|].
    rewrite !fmap_app, !Forall_app in HP. csimpl in HP. rewrite Forall_cons in HP.
    assert (less k v = true) as Hk1 by (apply H1; rewrite fmap_app, elem_of_app; right; left).
    assert (less v k = true) as Hk2 by (apply H4; left).
    rewrite (less_asym P less v k) in Hk1; naive_solver. }
  eexists _, _, l1, l2, l3. split; [unfold range; by rewrite (bind_ok _ _ _ _ _ E1), (bind_ok _ _ _ _ _ E2)|].
  rewrite fmap_app in H2, H3. setoid_rewrite elem_of_app in H2. setoid_rewrite elem_of_app in H3.
  split_and!; auto.
Qed.

(** ** Balance *)

(** C31: a lookup visits at most [2 * log2 (n + 1)] nodes of a tree with [n] elements: with that
    much fuel, plus one, the loop returns what [search_tree] returns, the node of the equivalent key,
    or the null pointer when there is none. *)
Theorem search_is_logarithmic v tr its fuel :
  P v → Forall P its.*2 → tree_rep less tr its → 2 * Nat.log2 (length its + 1) < fuel →
  ∃ p, search_loop less fuel (root tr) v tr = (tr, Ret p) ∧
    search_tree less (root tr) v tr = (tr, Ret p) ∧
    match sfind less v its.*2 with Some k => (p, k) ∈ its | None => p = nil_ptr end.
Proof.
  intros Hv HPs Htr Hf. destruct (search_tree_found P less v tr its Hv HPs Htr) as (p&E&Hp).
  exists p. split; [|done]. rewrite <-E. destruct Htr as (t&Ht&<-). pose proof (to_rep _ _ _ Ht) as HP.
  rewrite (search_tree_ok less v tr t HP). pose proof (pos_root _ _ _ HP) as Hr. simpl in Hr. rewrite Hr.
  pose proof (rb_tree_height t (to_rb _ _ _ Ht)). apply search_loop_ok; [lia|done].
Qed.

(** ** Dangling pointers *)

(** Removing the only element leaves the pointer to the last element dangling: [last] reads
    a node that was deleted. *)
Theorem last_dangles_after_the_only_element v tr p k :
  P v → P k → tree_rep less tr [(p, k)] → less v k = false → less k v = false →
  ∃ tr', remove less v tr = (tr', Ret true) ∧ tree_rep less tr' [] ∧
    last tr' = (tr', Err UseAfterFree) ∧ first tr' = (tr', Ret None).
Proof.
  intros Hv Hk Ht H1 H2.
  assert (Forall P [(p, k)].*2) as HP by (csimpl; by constructor).
  destruct (remove_spec P less v _ _ Hv HP Ht) as (tr'&its'&b&E&Ht'&Hr&Hl).
  destruct Hr as [(->&l1&l2&q&k'&Heq&->&_)|(_&_&Hn)]; [|csimpl in Hn; simpl in Hn; by rewrite H1, H2 in Hn].
  destruct l1 as [|? [|]]; [|done..]. injection Heq as <- <- <-. exists tr'. split; [done|]. split; [done|].
  assert (last_ptr tr = p) as Hlp.
  { rewrite (tree_rep_last _ _ _ Ht) by done. done. }
  assert (p ≠ nil_ptr) as Hp by (eapply tree_rep_not_nil; [exact Ht|left]).
  split; [|apply (first_ok less _ _ Ht')].
  unfold last. rewrite bind_gets, Hl, Hlp, decide_False by done.
  assert (get_node p tr' = (tr', Err UseAfterFree)) as Hg; [|by unfold get_key, fmap, M_fmap; rewrite Hg].
  unfold get_node. destruct (nodes tr' !! p) as [n|] eqn:Hn.
  - destruct Ht' as (t'&Ht'&Hi). assert (is_Some (nodes tr' !! p)) as Hs by eauto.
    apply (so_dom _ _ (pos_store _ _ _ (to_rep _ _ _ Ht'))) in Hs as [?|Hs]; [done|].
    unfold ptrs in Hs. simpl in Hs. rewrite Hi, app_nil_r in Hs. by apply elem_of_nil in Hs.
  - rewrite decide_False; [done|].
    destruct Ht as (t0&Ht&Hi). assert (p ∈ ptrs t0 ++ @cptrs T []) as Hin.
    { unfold ptrs. rewrite Hi. simpl. left. }
    pose proof (so_bound _ _ (pos_store _ _ _ (to_rep _ _ _ Ht)) _ Hin). unfold null. lia.
Qed.

(** [clear] deletes every node and resets the root and the size, but not the pointers to the
    first and the last element. *)
Theorem clear_leaves_the_ends tr its :
  tree_rep less tr its → its ≠ [] →
  ∃ tr', clear tr = (tr', Ret tt) ∧ root tr' = nil_ptr ∧ tree_size tr' = 0%Z ∧
    (∀ p, p ∈ its.*1 → nodes tr' !! p = None) ∧ first_ptr tr' ∈ its.*1 ∧ last_ptr tr' ∈ its.*1.
Proof.
  intros Ht Hne. destruct (clear_spec less _ _ Ht) as (tr'&n&E&Hn&_&Hr&Hs&Hf&Hl).
  exists tr'. split_and!; [done..| | |].
  - intros p Hp. rewrite Hn. apply lookup_singleton_ne. symmetry. by eapply tree_rep_not_nil.
  - rewrite Hf, (tree_rep_first _ _ _ Ht). destruct its as [|[p k] its]; [done|]. left.
  - rewrite Hl, (tree_rep_last _ _ _ Ht Hne). destruct its as [|[p k] its _] using rev_ind; [done|].
    unfold last_addr. rewrite fmap_app, last_app. simpl. rewrite elem_of_app. right. left.
Qed.

(** ** Iterators, printing, destruction *)

(** Between two neighbours the iterators go back and forth: the forward iterator's [++] and the
    reverse iterator's [--] lead to the next key, the other two back, the postfix operators return
    where they were; past the last and before the first key every iterator is invalid. *)
Theorem iterators_step_between_neighbours tr l1 p k q k' l2 :
  tree_rep less tr (l1 ++ (p, k) :: (q, k') :: l2) →
  forward_next_post p tr = (tr, Ret (p, q)) ∧ forward_prev_post q tr = (tr, Ret (q, p)) ∧
  reverse_next_post q tr = (tr, Ret (q, p)) ∧ reverse_prev_post p tr = (tr, Ret (p, q)) ∧
  (l1 = [] → ∃ it, forward_prev p tr = (tr, Ret it) ∧ valid it = false) ∧
  (l2 = [] → ∃ it, forward_next q tr = (tr, Ret it) ∧ valid it = false).
Proof.
  intros Ht. pose proof (successor_ok less _ _ _ _ _ Ht) as Sp.
  pose proof (predecessor_ok less _ _ _ _ _ Ht) as Pp.
  rewrite cons_middle, app_assoc in Ht.
  pose proof (successor_ok less _ _ _ _ _ Ht) as Sq. pose proof (predecessor_ok less _ _ _ _ _ Ht) as Pq.
  assert (last_addr (l1 ++ [(p, k)]) = p) as Hl by (unfold last_addr; by rewrite fmap_app, last_app).
  rewrite Hl in Pq. unfold forward_next_post, forward_prev_post, reverse_next_post, reverse_prev_post.
  unfold forward_next, forward_prev, reverse_next, reverse_prev.
  rewrite (bind_ok _ _ _ _ _ Sp), (bind_ok _ _ _ _ _ Pq). split_and!; [done..| |].
  - intros ->. eexists. split; [exact Pp|done].
  - intros ->. eexists. split; [exact Sq|done].
Qed.

(** Printing in order writes the keys in ascending order; printing in pre-order and in post-order
    writes the same keys, each once. *)
Theorem prints_write_every_key tr its :
  tree_rep less tr its →
  ∃ pre post, in_order_print tr = (tr, Ret its.*2) ∧ pre_order_print tr = (tr, Ret pre) ∧
    post_order_print tr = (tr, Ret post) ∧ pre ≡ₚ its.*2 ∧ post ≡ₚ its.*2 ∧ sorted less its.*2.
Proof.
  intros Ht. destruct (prints_ok less _ _ Ht) as (pre&post&E1&E2&E3&H1&H2).
  exists pre, post. split_and!; try done. destruct Ht as (t&Ht&<-). apply Ht.
Qed.

(** The destructor deletes every node but the sentinel, which is never deleted. *)
Theorem destructor_leaks_the_sentinel tr its :
  tree_rep less tr its →
  ∃ tr' n, destroy tr = (tr', Ret tt) ∧ nodes tr' = {[nil_ptr := n]} ∧ tree_size tr' = 0%Z.
Proof. apply destroy_ok. Qed.
End sessions.
