(* ===== verification/Float.v ===== *)
(** * [float] and [double]

    A finite IEEE 754 number is an integer multiple of the format's smallest positive number, so
    [Fin n] stands for the [float] n * 2^-149 or the [double] n * 2^-1074.  Sums and differences
    are rounded to nearest, ties to even.  The two zeros are one value: the code compares and adds
    them only, which does not tell them apart. *)

From S2P Require Import Prelude.

Open Scope Z_scope.

Inductive fl := Fin (n : Z) | Inf (negative : bool) | NaN.

#[export] Instance fl_eq_dec : EqDecision fl.
Proof. solve_decision. Defined.

Record format := Format {
  fprec : Z;   (** bits of the significand *)
  ftop : Z;    (** the binary exponent, in the format's unit, at which numbers overflow *)
  funit : Z    (** the unit is 2^-funit *)
}.
Definition binary32 : format := Format 24 277 149.
Definition binary64 : format := Format 53 2098 1074.

(** [n / 2^k] rounded to the nearest integer, ties to even. *)
Definition rne (n k : Z) : Z :=
  let q := n / 2 ^ k in
  let r := n mod 2 ^ k in
  if 2 * r <? 2 ^ k then q
  else if 2 ^ k <? 2 * r then q + 1
  else if Z.even q then q else q + 1.

(** The exponent of the last bit that [n] may have set. *)
Definition grid (F : format) (n : Z) : Z := Z.max 0 (Z.log2 (Z.abs n) + 1 - fprec F).

Definition round (F : format) (n : Z) : fl :=
  let m := rne n (grid F n) * 2 ^ grid F n in
  if 2 ^ ftop F <=? Z.abs m then Inf (n <? 0) else Fin m.

(** [n] is a number of the format. *)
Definition fits (F : format) (n : Z) : Prop := Z.abs n < 2 ^ ftop F ∧ (2 ^ grid F n | n).

Definition fltb (x y : fl) : bool :=
  match x, y with
  | Fin a, Fin b => a <? b
  | Fin _, Inf s => negb s
  | Inf s, Fin _ => s
  | Inf s, Inf s' => s && negb s'
  | _, _ => false
  end.
Definition feqb (x y : fl) : bool :=
  match x, y with
  | Fin a, Fin b => a =? b
  | Inf s, Inf s' => Bool.eqb s s'
  | _, _ => false
  end.
Definition fleb (x y : fl) : bool := fltb x y || feqb x y.

Definition fneg (x : fl) : fl :=
  match x with Fin n => Fin (- n) | Inf s => Inf (negb s) | NaN => NaN end.
Definition fadd (F : format) (x y : fl) : fl :=
  match x, y with
  | Fin a, Fin b => round F (a + b)
  | Inf s, Inf s' => if Bool.eqb s s' then Inf s else NaN
  | Inf s, Fin _ | Fin _, Inf s => Inf s
  | _, _ => NaN
  end.
Definition fsub (F : format) (x y : fl) : fl := fadd F x (fneg y).

(** The conversions between the formats; to the wider one they are exact. *)
Definition widen (x : fl) : fl :=
  match x with Fin n => Fin (n * 2 ^ (funit binary64 - funit binary32)) | _ => x end.
Definition narrow (x : fl) : fl :=
  match x with
  | Fin n =>
      let s := funit binary64 - funit binary32 in
      let k := Z.max s (Z.log2 (Z.abs n) + 1 - fprec binary32) in
      let m := rne n k * 2 ^ (k - s) in
      if 2 ^ ftop binary32 <=? Z.abs m then Inf (n <? 0) else Fin m
  | _ => x
  end.

(** [std::max(a, b)] returns [a] unless [a < b]. *)
Definition fmax (a b : fl) : fl := if fltb a b then b else a.

(** The [float] and the [double] of an integer. *)
Definition float_of_Z (z : Z) : fl := round binary32 (z * 2 ^ funit binary32).
Definition double_of_Z (z : Z) : fl := round binary64 (z * 2 ^ funit binary64).

Abbreviation float := fl (only parsing).
Abbreviation double := fl (only parsing).

Definition is_finite (x : float) : bool := if x is Fin _ then true else false.

(** ** Rounding *)

Section rounding.
Implicit Types (n k : Z).

Lemma rne_bounds n k : 0 ≤ k → n / 2 ^ k ≤ rne n k ≤ n / 2 ^ k + 1.
Proof. intros. unfold rne. repeat case_match; lia. Qed.

Lemma rne_exact n k : 0 ≤ k → (2 ^ k | n) → rne n k * 2 ^ k = n.
Proof.
  intros Hk [m ->]. unfold rne. assert (0 < 2 ^ k) by (apply Z.pow_pos_nonneg; lia).
  rewrite Z.mod_mul, Z.div_mul by lia. destruct (Z.ltb_spec (2 * 0) (2 ^ k)); lia.
Qed.

(** Rounding does not cross a multiple of the grid. *)
Lemma rne_le n k m : 0 ≤ k → n ≤ m * 2 ^ k → rne n k ≤ m.
Proof.
  intros Hk Hn. assert (0 < 2 ^ k) by (apply Z.pow_pos_nonneg; lia).
  pose proof (Z.div_mod n (2 ^ k) ltac:(lia)). pose proof (Z.mod_pos_bound n (2 ^ k) ltac:(lia)).
  unfold rne. repeat case_match; nia.
Qed.
Lemma rne_ge n k m : 0 ≤ k → m * 2 ^ k ≤ n → m ≤ rne n k.
Proof.
  intros Hk Hn. assert (0 < 2 ^ k) by (apply Z.pow_pos_nonneg; lia).
  pose proof (rne_bounds n k Hk). assert (m ≤ n / 2 ^ k) by (apply Z.div_le_lower_bound; lia). lia.
Qed.

Context (F : format) (HF : 0 < fprec F ≤ ftop F).

Lemma grid_nonneg n : 0 ≤ grid F n.
Proof. unfold grid. lia. Qed.

(** The leading power of two is on the grid. *)
Lemma grid_log2 n : grid F n ≤ Z.log2 (Z.abs n).
Proof using HF. unfold grid. pose proof (Z.log2_nonneg (Z.abs n)). lia. Qed.

Lemma grid_mono a b : Z.abs a ≤ Z.abs b → grid F a ≤ grid F b.
Proof. intros H%Z.log2_le_mono. unfold grid. lia. Qed.

Lemma fits_0 : fits F 0.
Proof using HF.
  split; [simpl; apply Z.pow_pos_nonneg; lia|]. apply Z.divide_0_r.
Qed.

Lemma round_fits n : fits F n → round F n = Fin n.
Proof.
  intros [Hb Hd]. unfold round. rewrite rne_exact by (done || apply grid_nonneg).
  destruct (Z.leb_spec (2 ^ ftop F) (Z.abs n)); [lia|done].
Qed.

(** A number of the format is on the grid of every number not above it. *)
Lemma fits_grid n x : fits F x → Z.abs n ≤ Z.abs x → (2 ^ grid F n | x).
Proof.
  intros [_ [m Hd]] Hle. pose proof (grid_mono n x Hle). pose proof (grid_nonneg n).
  exists (m * 2 ^ (grid F x - grid F n)). rewrite <-Z.mul_assoc, <-Z.pow_add_r by lia.
  by replace (grid F x - grid F n + grid F n) with (grid F x) by lia.
Qed.

(** Rounding a value between 0 and a number of the format stays between them, and gives 0 only
    for 0. *)
Lemma round_between n x :
  0 ≤ n ≤ x → fits F x → ∃ m, round F n = Fin m ∧ 0 ≤ m ≤ x ∧ (m = 0 ↔ n = 0) ∧ fits F m.
Proof using HF.
  intros Hn Hx. destruct (decide (n = 0)) as [->|Hn0].
  { exists 0. rewrite round_fits by apply fits_0. split_and!; try done; [lia|apply fits_0]. }
  destruct (fits_grid n x Hx ltac:(lia)) as [c Hc]. pose proof (grid_nonneg n) as Hk.
  pose proof (grid_log2 n) as Hlog. rewrite Z.abs_eq in Hlog by lia.
  destruct (Z.log2_spec n ltac:(lia)) as [Hlo Hhi].
  unfold round. set (k := grid F n) in *. set (r := rne n k). set (e := Z.log2 n) in *.
  assert (0 < 2 ^ k) by (apply Z.pow_pos_nonneg; lia).
  assert (2 ^ (e - k) * 2 ^ k = 2 ^ e) as He by (rewrite <-Z.pow_add_r by lia; f_equal; lia).
  assert (2 ^ (e + 1 - k) * 2 ^ k = 2 ^ (e + 1)) as He1
    by (rewrite <-Z.pow_add_r by lia; f_equal; lia).
  assert (r ≤ c) as Hrc by (apply rne_le; lia).
  assert (2 ^ (e - k) ≤ r) as Hr1 by (apply rne_ge; lia).
  assert (r ≤ 2 ^ (e + 1 - k)) as Hr2 by (apply rne_le; lia).
  assert (0 < 2 ^ (e - k)) by (apply Z.pow_pos_nonneg; lia).
  assert (2 ^ e ≤ r * 2 ^ k ≤ 2 ^ (e + 1)) as Hm by nia.
  assert (0 < r * 2 ^ k ≤ x) as Hm' by nia.
  destruct Hx as [Hx _]. rewrite Z.abs_eq in Hx by lia.
  destruct (Z.leb_spec (2 ^ ftop F) (Z.abs (r * 2 ^ k))); [lia|].
  exists (r * 2 ^ k). split_and!; [done|lia..|]. split; [lia|].
  destruct (decide (r * 2 ^ k = 2 ^ (e + 1))) as [Heq|Hne].
  - rewrite Heq. pose proof (grid_log2 (2 ^ (e + 1))) as Hg.
    pose proof (grid_nonneg (2 ^ (e + 1))) as Hg0.
    rewrite Z.abs_eq, Z.log2_pow2 in Hg by (apply Z.pow_nonneg || unfold e; lia || apply Z.log2_nonneg).
    exists (2 ^ (e + 1 - grid F (2 ^ (e + 1)))). rewrite <-Z.pow_add_r by lia. f_equal. lia.
  - assert (Z.log2 (r * 2 ^ k) = e) as Hl by (apply Z.log2_unique; lia).
    assert (grid F (r * 2 ^ k) = k) as ->.
    { unfold grid at 1. rewrite Z.abs_eq, Hl by lia. unfold k, grid. by rewrite Z.abs_eq by lia. }
    apply Z.divide_factor_r.
Qed.
(** A multiple of a power of two with a significand that fits is a number of the format. *)
Lemma fits_scaled r k :
  0 ≤ k → Z.abs r ≤ 2 ^ fprec F → Z.abs (r * 2 ^ k) < 2 ^ ftop F → fits F (r * 2 ^ k).
Proof using HF.
  intros Hk Hr Hb. split; [done|]. destruct (decide (r = 0)) as [->|Hne]; [apply Z.divide_0_r|].
  assert (Z.abs (r * 2 ^ k) = Z.abs r * 2 ^ k) as Ha.
  { rewrite Z.abs_mul, (Z.abs_eq (2 ^ k)); [done|]. apply Z.pow_nonneg. lia. }
  unfold grid. rewrite Ha, Z.log2_mul_pow2 by lia.
  destruct (decide (Z.abs r = 2 ^ fprec F)) as [Heq|Hlt].
  - rewrite Heq, Z.log2_pow2 by lia.
    replace (Z.max 0 (k + fprec F + 1 - fprec F)) with (k + 1) by lia.
    exists (Z.sgn r * 2 ^ (fprec F - 1)). rewrite <-Z.mul_assoc, <-Z.pow_add_r by lia.
    replace (fprec F - 1 + (k + 1)) with (fprec F + k) by lia.
    rewrite Z.pow_add_r, <-Heq by lia. rewrite (Z.mul_assoc (Z.sgn r)). f_equal.
    by rewrite Z.mul_comm, Z.abs_sgn.
  - assert (Z.log2 (Z.abs r) < fprec F) by (apply Z.log2_lt_pow2; lia).
    set (g := Z.max 0 _). exists (r * 2 ^ (k - g)).
    rewrite <-Z.mul_assoc, <-Z.pow_add_r by (unfold g; lia). do 2 f_equal. lia.
Qed.

(** Rounding to a grid with [fprec] bits left of it gives a significand that fits. *)
Lemma rne_significand n k :
  0 ≤ k → Z.log2 (Z.abs n) + 1 - fprec F ≤ k → Z.abs (rne n k) ≤ 2 ^ fprec F.
Proof using HF.
  intros Hk Hlog.
  assert (Z.abs n ≤ 2 ^ fprec F * 2 ^ k) as Hn.
  { rewrite <-Z.pow_add_r by lia. destruct (decide (n = 0)) as [->|Hne].
    { simpl. apply Z.pow_nonneg. lia. }
    destruct (Z.log2_spec (Z.abs n)) as [_ H]; [lia|].
    assert (2 ^ Z.succ (Z.log2 (Z.abs n)) ≤ 2 ^ (fprec F + k)) by (apply Z.pow_le_mono_r; lia). lia. }
  apply Z.abs_le. split; [apply rne_ge; [done|]|apply rne_le; [done|]]; lia.
Qed.

Lemma round_fin n m : round F n = Fin m → fits F m.
Proof using HF.
  unfold round. pose proof (grid_nonneg n). case_match eqn:E; [done|]. intros [= <-].
  apply Z.leb_gt in E. apply fits_scaled; [done|apply rne_significand; [done|]|done].
  unfold grid. lia.
Qed.
End rounding.

(** ** The comparisons *)

Definition is_nan (x : fl) : bool := match x with NaN => true | _ => false end.

Ltac fl_cases :=
  repeat match goal with
  | x : fl |- _ => destruct x as [?|[]|]
  end; simpl in *; try done.

(** Away from NaN, [<] is a strict weak order, and so is [>]. *)
#[export] Instance fltb_StrictWeak : StrictWeak (λ x, is_nan x = false) fltb.
Proof.
  split.
  - intros a Ha. fl_cases. lia.
  - intros a b c Ha Hb Hc. fl_cases. rewrite !Z.ltb_lt. lia.
  - intros a b c Ha Hb Hc. fl_cases; auto. rewrite !Z.ltb_lt. lia.
Qed.

Lemma StrictWeak_flip {A} (P : A → Prop) less :
  StrictWeak P less → StrictWeak P (λ a b, less b a).
Proof.
  intros [Hi Ht Hs]. split; [auto| |].
  - intros a b c Ha Hb Hc H1 H2. by apply (Ht c b a).
  - intros a b c Ha Hb Hc H. destruct (Hs b a c); auto.
Qed.

(** A comparator that looks through [f] at a strict weak order is one. *)
Lemma StrictWeak_map {A B} (P : A → Prop) (Q : B → Prop) less (f : B → A) :
  StrictWeak P less → (∀ b, Q b → P (f b)) → StrictWeak Q (λ a b, less (f a) (f b)).
Proof.
  intros [Hi Ht Hs] HQ. split; [auto| |].
  - intros a b c Ha Hb Hc. apply Ht; auto.
  - intros a b c Ha Hb Hc. apply Hs; auto.
Qed.

Lemma feqb_spec x y :
  is_nan x = false → is_nan y = false → feqb x y = negb (fltb x y) && negb (fltb y x).
Proof.
  intros. fl_cases. apply eq_bool_prop_intro. rewrite andb_True, !negb_True, !Is_true_true.
  rewrite Z.eqb_eq, !Z.ltb_lt. lia.
Qed.

Lemma feqb_eq x y : feqb x y = true → x = y.
Proof. intros. fl_cases. apply Z.eqb_eq in H. by subst. Qed.
Lemma feqb_refl x : is_nan x = false → feqb x x = true.
Proof. intros. fl_cases. apply Z.eqb_refl. Qed.

(** ** Quantities

    A quantity that is left in the book: a positive finite [float]. *)
Definition qty_ok (x : fl) : Prop := ∃ n, x = Fin n ∧ 0 < n ∧ fits binary32 n.

Lemma fits32_0 : fits binary32 0.
Proof. apply fits_0. simpl. lia. Qed.

(** Taking a smaller quantity from a larger one leaves a quantity, or zero when they are equal. *)
Lemma fsub_between a b :
  fits binary32 a → 0 ≤ b ≤ a →
  ∃ m, fsub binary32 (Fin a) (Fin b) = Fin m ∧ 0 ≤ m ≤ a ∧ (m = 0 ↔ a = b) ∧ fits binary32 m.
Proof.
  intros Ha Hb. unfold fsub. simpl.
  destruct (round_between binary32 ltac:(simpl; lia) (a + - b) a) as (m&?&?&?&?); [lia|done|].
  exists m. split_and!; try done; lia.
Qed.

(** Whole numbers of up to 24 bits are exact, and so are their sums and differences. *)
Lemma fits_whole z : Z.abs z ≤ 2 ^ 24 → fits binary32 (z * 2 ^ 149).
Proof.
  intros Hz. destruct (decide (z = 0)) as [->|Hne]; [apply fits32_0|].
  assert (Z.abs (z * 2 ^ 149) = Z.abs z * 2 ^ 149) as Ha by (rewrite Z.abs_mul; lia).
  pose proof (Z.log2_le_mono _ _ Hz) as Hl. rewrite Z.log2_pow2 in Hl by lia.
  split.
  - rewrite Ha. simpl ftop. change (2 ^ 277) with (2 ^ 128 * 2 ^ 149). lia.
  - unfold grid. rewrite Ha, Z.log2_mul_pow2 by lia. simpl fprec.
    destruct (decide (Z.log2 (Z.abs z) = 24)) as [Hl'|Hl'].
    + rewrite Hl'. simpl Z.max.
      pose proof (Z.log2_spec (Z.abs z) ltac:(lia)) as [H _]. rewrite Hl' in H.
      exists (z / 2). assert (z = 2 ^ 24 ∨ z = - 2 ^ 24) as [-> | ->] by lia; done.
    + exists (z * 2 ^ (149 - Z.max 0 (149 + Z.log2 (Z.abs z) + 1 - 24))).
      rewrite <-Z.mul_assoc, <-Z.pow_add_r by (pose proof (Z.log2_nonneg (Z.abs z)); lia).
      do 2 f_equal. lia.
Qed.

Lemma fsub_whole a b :
  Z.abs (a - b) ≤ 2 ^ 24 →
  fsub binary32 (Fin (a * 2 ^ 149)) (Fin (b * 2 ^ 149)) = Fin ((a - b) * 2 ^ 149).
Proof.
  intros. unfold fsub. simpl. rewrite round_fits; [f_equal; lia|].
  replace (_ + _) with ((a - b) * 2 ^ 149) by lia. by apply fits_whole.
Qed.

(** ** The values of the types

    A value of the format: infinities and NaN always are. *)
Definition in_format (F : format) (x : fl) : Prop :=
  match x with Fin n => fits F n | _ => True end.
#[global] Arguments in_format : simpl never.
Abbreviation f32 := (in_format binary32).
Abbreviation f64 := (in_format binary64).

#[export] Instance in_format_dec F x : Decision (in_format F x).
Proof.
  destruct x as [n| |]; [|by left..]. unfold in_format, fits.
  assert (Decision (2 ^ grid F n | n)); [|apply _].
  refine (cast_if (decide (n mod 2 ^ grid F n = 0)));
    rewrite <-Z.mod_divide by (apply Z.pow_nonzero; [done|apply grid_nonneg]); done.
Defined.

Lemma round_in_format F n : 0 < fprec F ≤ ftop F → in_format F (round F n).
Proof. intros HF. destruct (round F n) as [m| |] eqn:E; [|done..]. by eapply round_fin. Qed.
Lemma fadd_in_format F x y : 0 < fprec F ≤ ftop F → in_format F (fadd F x y).
Proof. intros HF. destruct x as [a|[]|], y as [b|[]|]; try done. by apply round_in_format. Qed.
Lemma f32_round n : f32 (round binary32 n).
Proof. by apply round_in_format. Qed.
Lemma f32_add x y : f32 (fadd binary32 x y).
Proof. by apply fadd_in_format. Qed.
Lemma f32_sub x y : f32 (fsub binary32 x y).
Proof. by apply fadd_in_format. Qed.
Lemma f64_add x y : f64 (fadd binary64 x y).
Proof. by apply fadd_in_format. Qed.
Lemma f32_0 : f32 (Fin 0).
Proof. apply fits32_0. Qed.
Lemma f64_0 : f64 (Fin 0).
Proof. by apply fits_0. Qed.
Lemma f64_max_0 x : f64 x → f64 (fmax (Fin 0) x).
Proof. unfold fmax. case_match; [done|]. intros _. apply f64_0. Qed.
Lemma f32_narrow x : f32 (narrow x).
Proof.
  destruct x as [n| |]; [|done..]. unfold narrow. simpl funit. set (k := Z.max _ _).
  case_match eqn:E; [done|]. apply Z.leb_gt in E.
  apply (fits_scaled binary32); [done|unfold k; lia| |done].
  apply rne_significand; [done|unfold k; lia|]. unfold k, binary32. simpl. lia.
Qed.

#[export] Hint Resolve f32_round f32_add f32_sub f64_add f32_0 f64_0 f64_max_0 f32_narrow : lob.

Close Scope Z_scope.
