(* ===== verification/DataTypes.v ===== *)
(** * data_structures/: orders, limits, and their comparators

    The objects of the exchange with their methods.  A [shared_ptr] is an address, [None] the null
    pointer; the objects live in the heaps of the order book.  Enumerations that the code casts
    from integers ([OrderParams]) are their integers. *)

From S2P Require Import Prelude Float.

Open Scope Z_scope.

(** ** enums.hpp *)

Inductive Side := UNKOWN | BUY | SELL.
Inductive OrderType := MARKET | LIMIT.
Inductive OrderStatus :=
  | ACCEPTED | MATCHED | NOT_MATCHED | REJECTED | CANCELLED | MODIFIED | NOT_FOUND.

#[export] Instance Side_eq_dec : EqDecision Side.
Proof. solve_decision. Defined.
#[export] Instance OrderType_eq_dec : EqDecision OrderType.
Proof. solve_decision. Defined.
#[export] Instance OrderStatus_eq_dec : EqDecision OrderStatus.
Proof. solve_decision. Defined.

(** A 64-bit set of flags: any value, since the mapper casts the number of the request. *)
Definition OrderParams := Z.
Definition STOP : OrderParams := 1.
Definition AON : OrderParams := Z.shiftl 1 1.
Definition IOC : OrderParams := Z.shiftl 1 2.
Definition FOK : OrderParams := Z.lor AON IOC.
Definition GTC : OrderParams := Z.shiftl 1 3.
Definition GFD : OrderParams := Z.shiftl 1 4.
Definition GTD : OrderParams := Z.shiftl 1 5.
Definition STOP_GTC : OrderParams := Z.lor STOP GTC.
Definition STOP_GFD : OrderParams := Z.lor STOP GFD.
Definition STOP_GTD : OrderParams := Z.lor STOP GTD.
Definition params_and (lhs rhs : OrderParams) : OrderParams := Z.land lhs rhs.

(** ** order.hpp, order.cpp *)

Abbreviation oid := nat (only parsing).
Abbreviation lid := nat (only parsing).

Record order := Order {
  o_parent : option lid;
  o_id : string;
  o_instrument : string;
  o_user_id : string;
  o_timestamp : Z;
  o_qty : float;
  o_current_qty : float;
  o_price : float;
  o_stop_price : float;
  o_side : Side;
  o_cancelled : bool;
  o_params : OrderParams;
  o_type : OrderType;
  o_expire_time : Z;
  o_prev : option oid;
  o_next : option oid
}.

(** The constructor that takes an id and a stop price; the one without a stop price leaves the
    member's initialiser, zero.  [now] is [time(0)]. *)
Definition new_stop_order (now : Z) (id instrument user_id : string) (qty price stop_price : float)
    (side : Side) (params : OrderParams) (type : OrderType) (expire_time : Z) : order :=
  Order None id instrument user_id now qty qty price stop_price side false params type expire_time
    None None.
Definition new_order (now : Z) (id instrument user_id : string) (qty price : float)
    (side : Side) (params : OrderParams) (type : OrderType) (expire_time : Z) : order :=
  new_stop_order now id instrument user_id qty price (Fin 0) side params type expire_time.
(** The constructors without an id leave it empty. *)
Definition new_stop_order_without_id (now : Z) (instrument user_id : string)
    (qty price stop_price : float) (side : Side) (params : OrderParams) (type : OrderType)
    (expire_time : Z) : order :=
  new_stop_order now "" instrument user_id qty price stop_price side params type expire_time.
Definition new_order_without_id (now : Z) (instrument user_id : string) (qty price : float)
    (side : Side) (params : OrderParams) (type : OrderType) (expire_time : Z) : order :=
  new_order now "" instrument user_id qty price side params type expire_time.

Definition set_o_parent (v : option lid) (o : order) : order :=
  Order v (o_id o) (o_instrument o) (o_user_id o) (o_timestamp o) (o_qty o) (o_current_qty o)
    (o_price o) (o_stop_price o) (o_side o) (o_cancelled o) (o_params o) (o_type o)
    (o_expire_time o) (o_prev o) (o_next o).
Definition set_o_current_qty (v : float) (o : order) : order :=
  Order (o_parent o) (o_id o) (o_instrument o) (o_user_id o) (o_timestamp o) (o_qty o) v
    (o_price o) (o_stop_price o) (o_side o) (o_cancelled o) (o_params o) (o_type o)
    (o_expire_time o) (o_prev o) (o_next o).
Definition set_o_cancelled (v : bool) (o : order) : order :=
  Order (o_parent o) (o_id o) (o_instrument o) (o_user_id o) (o_timestamp o) (o_qty o)
    (o_current_qty o) (o_price o) (o_stop_price o) (o_side o) v (o_params o) (o_type o)
    (o_expire_time o) (o_prev o) (o_next o).
Definition set_o_links (prev next : option oid) (o : order) : order :=
  Order (o_parent o) (o_id o) (o_instrument o) (o_user_id o) (o_timestamp o) (o_qty o)
    (o_current_qty o) (o_price o) (o_stop_price o) (o_side o) (o_cancelled o) (o_params o)
    (o_type o) (o_expire_time o) prev next.

(** The methods; those that change the object are operations on it. *)
Definition set_id (v : string) (o : order) : order :=
  Order (o_parent o) v (o_instrument o) (o_user_id o) (o_timestamp o) (o_qty o)
    (o_current_qty o) (o_price o) (o_stop_price o) (o_side o) (o_cancelled o) (o_params o)
    (o_type o) (o_expire_time o) (o_prev o) (o_next o).
Definition get_id (o : order) : string := o_id o.
Definition get_price (o : order) : float := o_price o.
Definition get_stop_price (o : order) : float := o_stop_price o.
Definition get_timestamp (o : order) : Z := o_timestamp o.
Definition get_initial_qty (o : order) : float := o_qty o.
Definition get_qty (o : order) : float := o_current_qty o.
Definition get_type (o : order) : OrderType := o_type o.
Definition get_side (o : order) : Side := o_side o.
Definition get_user_id (o : order) : string := o_user_id o.
Definition get_instrument (o : order) : string := o_instrument o.
Definition get_expire_time (o : order) : Z := o_expire_time o.
Definition get_limit_parent (o : order) : option lid := o_parent o.
Definition get_type_uint8 (o : order) : Z := match o_type o with MARKET => 0 | LIMIT => 1 end.
Definition get_side_uint8 (o : order) : Z :=
  match o_side o with UNKOWN => 0 | BUY => 1 | SELL => 2 end.
Definition get_params_uint64 (o : order) : Z := o_params o.
Definition is_buy (o : order) : bool := bool_decide (o_side o = BUY).
Definition is_cancelled (o : order) : bool := o_cancelled o.
Definition is_fullfilled (o : order) : bool := feqb (o_current_qty o) (Fin 0).
Definition has_param (o : order) (param : OrderParams) : bool :=
  negb (Z.land (o_params o) param =? 0).

Definition set_price (v : float) (o : order) : order :=
  Order (o_parent o) (o_id o) (o_instrument o) (o_user_id o) (o_timestamp o) (o_qty o)
    (o_current_qty o) v (o_stop_price o) (o_side o) (o_cancelled o) (o_params o)
    (o_type o) (o_expire_time o) (o_prev o) (o_next o).
Definition set_params (v : OrderParams) (o : order) : order :=
  Order (o_parent o) (o_id o) (o_instrument o) (o_user_id o) (o_timestamp o) (o_qty o)
    (o_current_qty o) (o_price o) (o_stop_price o) (o_side o) (o_cancelled o) v
    (o_type o) (o_expire_time o) (o_prev o) (o_next o).
(** [set_expire_time(uint64_t)]: the value is converted to the signed [time_t]. *)
Definition set_expire_time (v : Z) (o : order) : order :=
  Order (o_parent o) (o_id o) (o_instrument o) (o_user_id o) (o_timestamp o) (o_qty o)
    (o_current_qty o) (o_price o) (o_stop_price o) (o_side o) (o_cancelled o) (o_params o)
    (o_type o) (i64 v) (o_prev o) (o_next o).
Definition set_limit_parent (limit : lid) (o : order) : order := set_o_parent (Some limit) o.
Definition cancel (o : order) : order := set_o_cancelled true o.
Definition fill (o : order) : order := set_o_current_qty (Fin 0) o.
Definition increase_qty (delta_qty : float) (o : order) : order :=
  set_o_current_qty (fadd binary32 (o_current_qty o) delta_qty) o.

Definition decrease_qty (delta_qty : float) : M order unit := λ o,
  if fltb (o_current_qty o) delta_qty then (o, Err InvalidArgument)
  else (set_o_current_qty (fsub binary32 (o_current_qty o) delta_qty) o, Ret tt).

(** [operator==]; [difftime] of two times is zero when they are equal. *)
Definition order_eqb (a b : order) : bool :=
  String.eqb (o_id a) (o_id b) && String.eqb (o_user_id a) (o_user_id b) &&
  Bool.eqb (o_cancelled a) (o_cancelled b) && bool_decide (o_side a = o_side b) &&
  feqb (o_price a) (o_price b) && feqb (o_qty a) (o_qty b) &&
  feqb (o_current_qty a) (o_current_qty b) && String.eqb (o_instrument a) (o_instrument b) &&
  (o_timestamp a =? o_timestamp b).
Definition order_neqb (a b : order) : bool := negb (order_eqb a b).

(** ** limit.hpp, limit.cpp *)

Record limit := Limit {
  l_head : option oid;
  l_tail : option oid;
  l_price : float;
  l_number_of_active_orders : Z;
  l_total_number_of_orders : Z;
  l_active_volume : double;
  l_total_volume : double
}.

Definition new_limit (price : float) : limit := Limit None None price 0 0 (Fin 0) (Fin 0).

Definition set_l_ends (head tail : option oid) (l : limit) : limit :=
  Limit head tail (l_price l) (l_number_of_active_orders l) (l_total_number_of_orders l)
    (l_active_volume l) (l_total_volume l).

Definition limit_get_price (l : limit) : float := l_price l.
Definition increase_number_of_orders (l : limit) : limit :=
  Limit (l_head l) (l_tail l) (l_price l) (u64 (l_number_of_active_orders l + 1))
    (u64 (l_total_number_of_orders l + 1)) (l_active_volume l) (l_total_volume l).
Definition decrease_number_of_orders (l : limit) : limit :=
  Limit (l_head l) (l_tail l) (l_price l) (u64 (l_number_of_active_orders l - 1))
    (l_total_number_of_orders l) (l_active_volume l) (l_total_volume l).
Definition get_number_of_active_orders (l : limit) : Z := l_number_of_active_orders l.
Definition get_total_number_of_orders (l : limit) : Z := l_total_number_of_orders l.
Definition increase_volume (delta_qty : float) (l : limit) : limit :=
  Limit (l_head l) (l_tail l) (l_price l) (l_number_of_active_orders l)
    (l_total_number_of_orders l)
    (fadd binary64 (l_active_volume l) (widen delta_qty))
    (fadd binary64 (l_total_volume l) (widen delta_qty)).
Definition decrease_volume (delta_qty : float) (l : limit) : limit :=
  Limit (l_head l) (l_tail l) (l_price l) (l_number_of_active_orders l)
    (l_total_number_of_orders l)
    (fmax (Fin 0) (fsub binary64 (l_active_volume l) (widen delta_qty)))
    (l_total_volume l).
(** The getters of the volumes return a [float]. *)
Definition get_active_volume (l : limit) : float := narrow (l_active_volume l).
Definition get_total_volume (l : limit) : float := narrow (l_total_volume l).
Definition limit_empty (l : limit) : bool :=
  bool_decide (l_head l = None) && bool_decide (l_tail l = None).
Definition limit_clear (l : limit) : limit := set_l_ends None None l.

(** ** The comparators

    They read the objects behind the pointers; a comparison with a pointer that has no object is
    never reached. *)
Section comparators.
Variable (oh : gmap nat order) (lh : gmap nat limit).

Definition price_of (l : lid) : float := from_option limit_get_price NaN (lh !! l).
Definition LimitComparator (asc : bool) (lhs rhs : lid) : bool :=
  if asc then fltb (price_of lhs) (price_of rhs) else fltb (price_of rhs) (price_of lhs).

Definition oprice_of (o : oid) : float := from_option get_price NaN (oh !! o).
Definition timestamp_of (o : oid) : Z := from_option get_timestamp 0 (oh !! o).
Definition OrderComparator (asc : bool) (lhs rhs : oid) : bool :=
  if feqb (oprice_of lhs) (oprice_of rhs) then timestamp_of lhs <? timestamp_of rhs
  else if asc then fltb (oprice_of lhs) (oprice_of rhs)
  else fltb (oprice_of rhs) (oprice_of lhs).

Definition expire_time_of (o : oid) : Z := from_option get_expire_time 0 (oh !! o).
Definition DateOrderComparator (asc : bool) (lhs rhs : oid) : bool :=
  if asc then expire_time_of lhs <? expire_time_of rhs
  else expire_time_of rhs <? expire_time_of lhs.
End comparators.

(** ** trade.hpp, spread.hpp, snapshot.hpp *)

Record Trade := MkTrade {
  buyer_id : string;
  seller_id : string;
  buyer_order_id : string;
  seller_order_id : string;
  t_instrument : string;
  volume : float;
  t_price : float;
  t_timestamp : Z
}.

Record Spread := MkSpread {
  best_bid_price : float;
  best_ask_price : float;
  s_market_price : float
}.

Record SnapshotLimit := MkSnapshotLimit { sl_price : float; sl_qty : float }.
Record Snapshot := MkSnapshot {
  asks : list SnapshotLimit;
  bids : list SnapshotLimit;
  spread : Spread
}.
Close Scope Z_scope.
