(* ===== verification/OrderBook.v ===== *)
(** * orderbook/: the matching engine of one instrument

    The order book with its shared objects: [b_oh] and [b_lh] are the heaps of [Order] and
    [Limit] objects behind the [shared_ptr]s, the five trees hold addresses, [_orders] is the hash
    map from identifiers.  An iterator into [_orders] is its key; reading it once the entry was
    erased is the outcome [UseAfterErase].  [order_queue] and [trade_queue] record the book's calls of
    the repositories' [enqueue], which are not the book's code: what they do with the orders and the
    trades, in the ring buffers that the repositories have for all books, is [Pipeline.enqueue] and
    [TradeRepository.enqueue].  A [Defer] whose object is a temporary runs at the end of the
    statement that creates it. *)

From S2P Require Import Prelude Float RBTree DataTypes.

Record book := Book {
  b_oh : gmap nat order;
  b_lh : gmap nat limit;
  b_next_limit : lid;
  b_instrument : string;
  b_market_price : float;
  b_ask_limits : rbtree lid;
  b_bid_limits : rbtree lid;
  b_ask_stop_orders : rbtree oid;
  b_bid_stop_orders : rbtree oid;
  b_date_orders : rbtree oid;
  b_orders : gmap string oid;
  order_queue : list oid;
  trade_queue : list Trade
}.

(** The two trees of limits and the two trees of stop orders are passed by reference. *)
Inductive book_side := Asks | Bids.
#[export] Instance book_side_eq_dec : EqDecision book_side.
Proof. solve_decision. Defined.

Section fields.
Implicit Types b : book.

Definition set_oh (v : gmap nat order) b : book :=
  Book v (b_lh b) (b_next_limit b) (b_instrument b) (b_market_price b) (b_ask_limits b)
    (b_bid_limits b) (b_ask_stop_orders b) (b_bid_stop_orders b) (b_date_orders b) (b_orders b)
    (order_queue b) (trade_queue b).
Definition set_lh (v : gmap nat limit) b : book :=
  Book (b_oh b) v (b_next_limit b) (b_instrument b) (b_market_price b) (b_ask_limits b)
    (b_bid_limits b) (b_ask_stop_orders b) (b_bid_stop_orders b) (b_date_orders b) (b_orders b)
    (order_queue b) (trade_queue b).
Definition alloc_limit (l : limit) b : book :=
  Book (b_oh b) (<[b_next_limit b := l]> (b_lh b)) (S (b_next_limit b)) (b_instrument b)
    (b_market_price b) (b_ask_limits b) (b_bid_limits b) (b_ask_stop_orders b)
    (b_bid_stop_orders b) (b_date_orders b) (b_orders b) (order_queue b) (trade_queue b).
Definition put_market_price (v : float) b : book :=
  Book (b_oh b) (b_lh b) (b_next_limit b) (b_instrument b) v (b_ask_limits b) (b_bid_limits b)
    (b_ask_stop_orders b) (b_bid_stop_orders b) (b_date_orders b) (b_orders b) (order_queue b)
    (trade_queue b).
Definition put_orders (v : gmap string oid) b : book :=
  Book (b_oh b) (b_lh b) (b_next_limit b) (b_instrument b) (b_market_price b) (b_ask_limits b)
    (b_bid_limits b) (b_ask_stop_orders b) (b_bid_stop_orders b) (b_date_orders b) v
    (order_queue b) (trade_queue b).
Definition put_queues (oq : list oid) (tq : list Trade) b : book :=
  Book (b_oh b) (b_lh b) (b_next_limit b) (b_instrument b) (b_market_price b) (b_ask_limits b)
    (b_bid_limits b) (b_ask_stop_orders b) (b_bid_stop_orders b) (b_date_orders b) (b_orders b)
    oq tq.
Definition put_date_orders (v : rbtree oid) b : book :=
  Book (b_oh b) (b_lh b) (b_next_limit b) (b_instrument b) (b_market_price b) (b_ask_limits b)
    (b_bid_limits b) (b_ask_stop_orders b) (b_bid_stop_orders b) v (b_orders b) (order_queue b)
    (trade_queue b).

Definition limits_of (s : book_side) b : rbtree lid :=
  match s with Asks => b_ask_limits b | Bids => b_bid_limits b end.
Definition put_limits (s : book_side) (v : rbtree lid) b : book :=
  let '(a, d) := match s with Asks => (v, b_bid_limits b) | Bids => (b_ask_limits b, v) end in
  Book (b_oh b) (b_lh b) (b_next_limit b) (b_instrument b) (b_market_price b) a d
    (b_ask_stop_orders b) (b_bid_stop_orders b) (b_date_orders b) (b_orders b) (order_queue b)
    (trade_queue b).
Definition stops_of (s : book_side) b : rbtree oid :=
  match s with Asks => b_ask_stop_orders b | Bids => b_bid_stop_orders b end.
Definition put_stops (s : book_side) (v : rbtree oid) b : book :=
  let '(a, d) :=
    match s with Asks => (v, b_bid_stop_orders b) | Bids => (b_ask_stop_orders b, v) end in
  Book (b_oh b) (b_lh b) (b_next_limit b) (b_instrument b) (b_market_price b) (b_ask_limits b)
    (b_bid_limits b) a d (b_date_orders b) (b_orders b) (order_queue b) (trade_queue b).

(** [LimitComparator{true}] for the asks, [OrderComparator{false}] for the ask stop orders. *)
Definition limits_asc (s : book_side) : bool := match s with Asks => true | Bids => false end.
Definition stops_asc (s : book_side) : bool := match s with Asks => false | Bids => true end.
End fields.

(** ** Access through the shared pointers *)

Definition get_order (o : oid) : M book order := λ b,
  (b, match b_oh b !! o with Some x => Ret x | None => Err NullDeref end).
Definition get_limit (l : lid) : M book limit := λ b,
  (b, match b_lh b !! l with Some x => Ret x | None => Err NullDeref end).
Definition deref {A} (p : option A) : M book A :=
  match p with Some x => mret x | None => fail NullDeref end.
(** A method of an object that changes it. *)
Definition on_order (o : oid) (m : M order unit) : M book unit := λ b,
  match b_oh b !! o with
  | Some x => match m x with (x', r) => (set_oh (<[o := x']> (b_oh b)) b, r) end
  | None => (b, Err NullDeref)
  end.
Definition upd_order (o : oid) (f : order → order) : M book unit := on_order o (modify f).
Definition upd_limit (l : lid) (f : limit → limit) : M book unit :=
  x ← get_limit l; modify (λ b, set_lh (<[l := f x]> (b_lh b)) b).
(** [std::make_shared<Limit>(price)] *)
Definition make_limit (price : float) : M book lid := λ b,
  (alloc_limit (new_limit price) b, Ret (b_next_limit b)).

(** An operation of one of the trees; its comparator reads the objects. *)
Definition in_limits {A} (s : book_side) (op : (lid → lid → bool) → M (rbtree lid) A) : M book A :=
  λ b, zoom (limits_of s) (put_limits s) (op (LimitComparator (b_lh b) (limits_asc s))) b.
Definition in_stops {A} (s : book_side) (op : (oid → oid → bool) → M (rbtree oid) A) : M book A :=
  λ b, zoom (stops_of s) (put_stops s) (op (OrderComparator (b_oh b) (stops_asc s))) b.
Definition in_dates {A} (op : (oid → oid → bool) → M (rbtree oid) A) : M book A :=
  λ b, zoom b_date_orders put_date_orders (op (DateOrderComparator (b_oh b) true)) b.

(** The calls of the repositories' [enqueue]. *)
Definition enqueue_order (o : oid) : M book unit :=
  modify (λ b, put_queues (order_queue b ++ [o]) (trade_queue b) b).
Definition enqueue_trade (t : Trade) : M book unit :=
  modify (λ b, put_queues (order_queue b) (trade_queue b ++ [t]) b).

Definition erase_order (id : string) : M book unit :=
  modify (λ b, put_orders (delete id (b_orders b)) b).
(** [orderbook_entry->second] for the iterator at [id]. *)
Definition entry_second (id : string) : M book oid := λ b,
  (b, match b_orders b !! id with Some o => Ret o | None => Err UseAfterErase end).

(** The bounds of the loops over a tree and over a linked list. *)
Definition limits_fuel (s : book_side) (b : book) : nat := fuel_of (limits_of s b).
Definition list_fuel (b : book) : nat := S (size (b_oh b)).

Definition own_side (buy : bool) : book_side := if buy then Bids else Asks.
Definition opposite_side (buy : bool) : book_side := if buy then Asks else Bids.

Section orderbook.
(** [time(0)] *)
Variable now : Z.
Implicit Types (o order : oid) (l limit : lid) (s : book_side).

Definition book_size : M book Z := gets (λ b, Z.of_nat (size (b_orders b))).

Definition add_limit_order order limit s : M book unit :=
  maybe_orderbook_limit ← in_limits s (λ less, find less limit);
  match maybe_orderbook_limit with
  | Some orderbook_limit =>
      upd_order order (set_limit_parent orderbook_limit);;
      lim ← get_limit orderbook_limit;
      match l_head lim with
      | None =>
          upd_limit orderbook_limit (λ x, set_l_ends (Some order) (l_tail x) x);;
          upd_limit orderbook_limit (λ x, set_l_ends (l_head x) (Some order) x)
      | Some _ =>
          pom ← deref (l_tail lim);
          upd_order pom (λ x, set_o_links (o_prev x) (Some order) x);;
          upd_order order (λ x, set_o_links (Some pom) (o_next x) x);;
          upd_limit orderbook_limit (λ x, set_l_ends (l_head x) (Some order) x)
      end;;
      x ← get_order order;
      upd_limit orderbook_limit (increase_volume (get_qty x))
  | None =>
      in_limits s (λ less, insert less limit);;
      upd_order order (set_limit_parent limit);;
      upd_limit limit (λ x, set_l_ends (Some order) (l_tail x) x);;
      upd_limit limit (λ x, set_l_ends (l_head x) (Some order) x);;
      x ← get_order order;
      upd_limit limit (increase_volume (get_qty x))
  end.

Definition remove_limit_order o : M book unit :=
  x ← get_order o;
  parent_limit ← deref (get_limit_parent x);
  upd_limit parent_limit (decrease_volume (get_qty x));;
  upd_limit parent_limit decrease_number_of_orders;;
  match o_next x, o_prev x with
  | Some next, Some prev =>
      upd_order next (λ y, set_o_links (Some prev) (o_next y) y);;
      x ← get_order o;
      prev ← deref (o_prev x);
      upd_order prev (λ y, set_o_links (o_prev y) (o_next x) y)
  | None, Some prev => upd_order prev (λ y, set_o_links (o_prev y) None y)
  | Some next, None => upd_order next (λ y, set_o_links None (o_next y) y)
  | None, None => mret tt
  end;;
  lim ← get_limit parent_limit;
  x ← get_order o;
  (if bool_decide (l_head lim = Some o) && bool_decide (l_tail lim = Some o) then
     upd_limit parent_limit (set_l_ends None None)
   else if bool_decide (l_head lim = Some o) then
     upd_limit parent_limit (λ y, set_l_ends (o_next x) (l_tail y) y)
   else if bool_decide (l_tail lim = Some o) then
     upd_limit parent_limit (λ y, set_l_ends (l_head y) (o_prev x) y)
   else mret tt);;
  erase_order (get_id x).

Definition set_market_price (price : float) : M book unit := modify (put_market_price price).
Definition get_market_price : M book float := gets b_market_price.
Definition get_book_instrument : M book string := gets b_instrument.

Definition handle_trade (recieved_order orderbook_entry : oid) (volume price : float)
    : M book unit :=
  r ← get_order recieved_order;
  e ← get_order orderbook_entry;
  instrument ← gets b_instrument;
  let '(buyer, seller) := if is_buy r then (r, e) else (e, r) in
  enqueue_trade (MkTrade (get_user_id buyer) (get_user_id seller) (get_id buyer) (get_id seller)
    instrument volume price now).

Definition calculate_cross_price (order_price limit_price : float) (order_type : OrderType)
    (buy : bool) : option float :=
  if (buy && fltb order_price limit_price) || (negb buy && fltb limit_price order_price) then None
  else match order_type with
       | MARKET => Some limit_price
       | LIMIT => Some (if buy then order_price else limit_price)
       end.

(** [order_qty] is compared with the copy taken before the two were changed. *)
Definition resolve_orders (curr_order order : oid) (cross_price : float)
    (changed_orders : list oid) : M book (list oid) :=
  c ← get_order curr_order;
  x ← get_order order;
  let curr_order_qty := get_qty c in
  let order_qty := get_qty x in
  let before_trade := order_qty in
  (if fleb order_qty curr_order_qty then
     on_order curr_order (decrease_qty order_qty);;
     upd_order order fill
   else if negb (has_param x AON) then
     on_order order (decrease_qty curr_order_qty);;
     upd_order curr_order fill
   else mret tt);;
  if negb (feqb order_qty before_trade) then
    handle_trade order curr_order (fsub binary32 before_trade order_qty) cross_price;;
    mret (changed_orders ++ [curr_order])
  else mret changed_orders.

Fixpoint process_loop (fuel : nat) (curr_order : option oid) (order : oid) (cross_price : float)
    (changed_orders : list oid) : M book (list oid) :=
  match fuel with
  | 0 => fail OutOfFuel
  | S fuel =>
      x ← get_order order;
      if fltb (Fin 0) (get_qty x) then
        match curr_order with
        | None => mret changed_orders
        | Some curr =>
            changed_orders ← resolve_orders curr order cross_price changed_orders;
            c ← get_order curr;
            whenM (is_fullfilled c) (remove_limit_order curr);;
            c ← get_order curr;
            process_loop fuel (o_next c) order cross_price changed_orders
        end
      else mret changed_orders
  end.

Definition process_limit_order (opposite_limit : lid) (order : oid) (cross_price : float)
    (changed_orders : list oid) : M book (list oid) :=
  lim ← get_limit opposite_limit;
  n ← gets list_fuel;
  process_loop n (l_head lim) order cross_price changed_orders.

(** The deferred function of [match_order]. *)
Definition match_order_deferred s (filled_limits : list lid) (changed_orders : list oid)
    : M book unit :=
  forM filled_limits (λ limit, (λ _, tt) <$> in_limits s (λ less, remove less limit));;
  forM changed_orders enqueue_order.

Fixpoint match_loop (fuel : nat) s order (is_aon buy : bool) (order_type : OrderType) (it : ptr)
    (filled_limits : list lid) (changed_orders : list oid) : M book bool :=
  match fuel with
  | 0 => fail OutOfFuel
  | S fuel =>
      if valid it then
        opposite_limit ← in_limits s (λ _, get_key it);
        lim ← get_limit opposite_limit;
        x ← get_order order;
        if is_aon && fltb (get_active_volume lim) (get_qty x) then
          it ← in_limits s (λ _, successor it);
          match_loop fuel s order is_aon buy order_type it filled_limits changed_orders
        else
          match calculate_cross_price (get_price x) (limit_get_price lim) order_type buy with
          | None => mret false
          | Some cross_price =>
              changed_orders ←
                process_limit_order opposite_limit order cross_price changed_orders;
              lim ← get_limit opposite_limit;
              let filled_limits :=
                if limit_empty lim then filled_limits ++ [opposite_limit] else filled_limits in
              set_market_price cross_price;;
              x ← get_order order;
              if feqb (get_qty x) (Fin 0) then mret true else
              it ← in_limits s (λ _, successor it);
              match_loop fuel s order is_aon buy order_type it filled_limits changed_orders
          end
      else mret false
  end.

Definition match_order order s : M book bool :=
  x ← get_order order;
  match_order_deferred s [] [];;
  it ← in_limits s (λ _, begin);
  n ← gets (limits_fuel s);
  match_loop n s order (has_param x AON) (is_buy x) (get_type x) it [] [].

Definition add_stop_order order s : M book unit := in_stops s (λ less, insert less order).

Definition remove_stop_order stop_order : M book unit :=
  x ← get_order stop_order;
  in_stops (own_side (is_buy x)) (λ less, remove less stop_order);;
  erase_order (get_id x).

Definition add_date_order order : M book unit :=
  x ← get_order order;
  whenM (has_param x GFD || has_param x GTD) (in_dates (λ less, insert less order)).

(** The matching of an order that is not a waiting stop order. *)
Definition place_order order : M book OrderStatus :=
  x ← get_order order;
  matched ← match_order order (opposite_side (is_buy x));
  if matched : bool then mret MATCHED else
  x ← get_order order;
  if has_param x FOK then
    upd_order order cancel;;
    mret NOT_MATCHED
  else
    limit ← make_limit (get_price x);
    add_limit_order order limit (own_side (is_buy x));;
    modify (λ b, put_orders (<[get_id x := order]> (b_orders b)) b);;
    add_date_order order;;
    mret ACCEPTED.

(** A stop order that the market price has not reached. *)
Definition stop_waits (x : DataTypes.order) (market_price : float) : bool :=
  (is_buy x && fltb (get_stop_price x) market_price) ||
  (negb (is_buy x) && fltb market_price (get_stop_price x)).

Definition add_order order : M book OrderStatus :=
  enqueue_order order;;
  x ← get_order order;
  if has_param x STOP then
    market_price ← gets b_market_price;
    if stop_waits x market_price then
      add_stop_order order (own_side (is_buy x));;
      add_date_order order;;
      mret ACCEPTED
    else
      whenM (bool_decide (get_type x = MARKET)) (upd_order order (set_params IOC));;
      place_order order
  else place_order order.

Definition modify_order order : M book OrderStatus :=
  x ← get_order order;
  entry ← gets (λ b, b_orders b !! get_id x);
  match entry with
  | None => mret NOT_FOUND
  | Some entry =>
      e ← get_order entry;
      if negb (is_cancelled e) && negb (is_fullfilled e) then
        upd_order entry cancel;;
        (if has_param e STOP then
           remove_stop_order order;;
           add_stop_order order (own_side (is_buy x))
         else
           remove_limit_order entry;;
           second ← entry_second (get_id x);
           e ← get_order second;
           parent ← deref (get_limit_parent e);
           add_limit_order order parent (own_side (is_buy x)));;
        enqueue_order order;;
        mret MODIFIED
      else mret NOT_FOUND
  end.

Definition cancel_order (order_id : string) : M book OrderStatus :=
  entry ← gets (λ b, b_orders b !! order_id);
  match entry with
  | None => mret NOT_FOUND
  | Some entry =>
      upd_order entry cancel;;
      e ← get_order entry;
      (if has_param e STOP then remove_stop_order entry else remove_limit_order entry);;
      second ← entry_second order_id;
      enqueue_order second;;
      mret CANCELLED
  end.

Definition get_spread : M book Spread :=
  best_bid ← in_limits Bids (λ _, last);
  best_ask ← in_limits Asks (λ _, first);
  ask_price ← match best_ask with
              | Some l => x ← get_limit l; mret (limit_get_price x)
              | None => mret (float_of_Z (-1))
              end;
  bid_price ← match best_bid with
              | Some l => x ← get_limit l; mret (limit_get_price x)
              | None => mret (float_of_Z (-1))
              end;
  market_price ← gets b_market_price;
  mret (MkSpread bid_price ask_price market_price).

(** The loops over the trees and the linked lists that collect what they visit. *)
Fixpoint collect_orders (fuel : nat) (order : option oid) : M book (list oid) :=
  match fuel with
  | 0 => fail OutOfFuel
  | S fuel =>
      match order with
      | None => mret []
      | Some o =>
          x ← get_order o;
          rest ← collect_orders fuel (o_next x);
          mret (o :: rest)
      end
  end.

Definition all_limits s : M book (list lid) :=
  n ← gets (limits_fuel s);
  in_limits s (λ _, it ← begin; collect_loop n successor it).

Fixpoint orders_of_limits (limits : list lid) : M book (list oid) :=
  match limits with
  | [] => mret []
  | l :: limits =>
      x ← get_limit l;
      n ← gets list_fuel;
      os ← collect_orders n (l_head x);
      rest ← orders_of_limits limits;
      mret (os ++ rest)
  end.

Definition get_bids : M book (list oid) := ls ← all_limits Bids; orders_of_limits ls.
Definition get_asks : M book (list oid) := ls ← all_limits Asks; orders_of_limits ls.

Definition all_stops s : M book (list oid) :=
  n ← gets (λ b, fuel_of (stops_of s b));
  in_stops s (λ _, it ← begin; collect_loop n successor it).
Definition get_bid_stop_orders : M book (list oid) := all_stops Bids.
Definition get_ask_stop_orders : M book (list oid) := all_stops Asks.
Definition get_orders_with_experation : M book (list oid) :=
  n ← gets (λ b, fuel_of (b_date_orders b));
  in_dates (λ _, it ← begin; collect_loop n successor it).

Fixpoint snapshot_limits (limits : list lid) : M book (list SnapshotLimit) :=
  match limits with
  | [] => mret []
  | l :: limits =>
      x ← get_limit l;
      rest ← snapshot_limits limits;
      mret (MkSnapshotLimit (limit_get_price x) (get_active_volume x) :: rest)
  end.
Definition get_snapshot_bids : M book (list SnapshotLimit) :=
  ls ← all_limits Bids; snapshot_limits ls.
Definition get_snapshot_asks : M book (list SnapshotLimit) :=
  ls ← all_limits Asks; snapshot_limits ls.
Definition get_snapshot : M book Snapshot :=
  a ← get_snapshot_asks;
  d ← get_snapshot_bids;
  sp ← get_spread;
  mret (MkSnapshot a d sp).

(** [Limit::all_active_orders] and [Limit::side]. *)
Fixpoint all_active_loop (fuel : nat) (curr : option oid) : M book (list oid) :=
  match fuel with
  | 0 => fail OutOfFuel
  | S fuel =>
      match curr with
      | None => mret []
      | Some o =>
          x ← get_order o;
          rest ← all_active_loop fuel (o_next x);
          mret (if negb (is_fullfilled x) && negb (is_cancelled x) then o :: rest else rest)
      end
  end.
Definition all_active_orders (l : lid) : M book (list oid) :=
  x ← get_limit l; n ← gets list_fuel; all_active_loop n (l_head x).
Definition limit_side (l : lid) : M book Side :=
  x ← get_limit l;
  if limit_empty x then mret UNKOWN else
  h ← deref (l_head x);
  o ← get_order h;
  mret (if is_buy o then BUY else SELL).

(** [Limit::serialize] into an output archive: the numbers, then the orders.  [auto& curr] is a
    reference to [_head], so the loop that follows the list assigns to the limit's head. *)
Fixpoint serialize_loop (fuel : nat) (l : lid) : M book (list oid) :=
  match fuel with
  | 0 => fail OutOfFuel
  | S fuel =>
      lim ← get_limit l;
      match l_head lim with
      | None => mret []
      | Some curr =>
          x ← get_order curr;
          upd_limit l (λ y, set_l_ends (o_next x) (l_tail y) y);;
          rest ← serialize_loop fuel l;
          mret (curr :: rest)
      end
  end.
Definition serialize_limit (l : lid) : M book (float * Z * Z * double * double * list oid) :=
  x ← get_limit l;
  n ← gets list_fuel;
  orders ← serialize_loop n l;
  mret (l_price x, l_number_of_active_orders x, l_total_number_of_orders x, l_active_volume x,
    l_total_volume x, orders).

(** The activation of stop orders: nothing in the code calls it. *)
Fixpoint stop_orders_loop (fuel : nat) s (next : ptr → M (rbtree oid) ptr)
    (activates : float → bool) (it : ptr) (orders_to_remove : list oid) : M book (list oid) :=
  match fuel with
  | 0 => fail OutOfFuel
  | S fuel =>
      if valid it then
        order ← in_stops s (λ _, get_key it);
        x ← get_order order;
        if activates (get_stop_price x) then
          add_order order;;
          order ← in_stops s (λ _, get_key it);
          it ← in_stops s (λ _, next it);
          stop_orders_loop fuel s next activates it (orders_to_remove ++ [order])
        else mret orders_to_remove
      else mret orders_to_remove
  end.
Definition add_stop_orders s (start : M (rbtree oid) ptr) (next : ptr → M (rbtree oid) ptr)
    (activates : float → bool) : M book unit :=
  it ← in_stops s (λ _, start);
  n ← gets (λ b, fuel_of (stops_of s b));
  orders_to_remove ← stop_orders_loop n s next activates it [];
  forM orders_to_remove (λ o, (λ _, tt) <$> in_stops s (λ less, remove less o)).
Definition add_bid_stop_orders_below (price : float) : M book unit :=
  add_stop_orders Bids rbegin predecessor (λ stop_price, fleb stop_price price).
Definition add_ask_stop_orders_above (price : float) : M book unit :=
  add_stop_orders Asks begin successor (λ stop_price, fleb price stop_price).

(** [check_date_orders], with [std::time(0) + 3600] as the horizon. *)
Fixpoint check_date_loop (fuel : nat) (horizon : Z) (it : ptr) (removed_orders : list oid)
    : M book (list oid) :=
  match fuel with
  | 0 => fail OutOfFuel
  | S fuel =>
      if valid it then
        order ← in_dates (λ _, get_key it);
        x ← get_order order;
        if has_param x GFD || (get_expire_time x <? horizon)%Z then
          cancel_order (get_id x);;
          order ← in_dates (λ _, get_key it);
          it ← in_dates (λ _, successor it);
          check_date_loop fuel horizon it (removed_orders ++ [order])
        else mret removed_orders
      else mret removed_orders
  end.
Definition check_date_orders : M book unit :=
  it ← in_dates (λ _, begin);
  n ← gets (λ b, fuel_of (b_date_orders b));
  removed_orders ← check_date_loop n (now + 3600) it [];
  forM removed_orders (λ o, (λ _, tt) <$> in_dates (λ less, remove less o)).

(** The constructor, over the orders that [order_repository->get_all()] returned. *)
Definition load_order order : M book unit :=
  x ← get_order order;
  if has_param x STOP then add_stop_order order (own_side (is_buy x))
  else
    limit ← make_limit (get_price x);
    add_limit_order order limit (own_side (is_buy x)).
Definition load_orders (orders : list oid) : M book unit := forM orders load_order.
End orderbook.

(** The book before the constructor's body, over the heap of order objects [oh].  The null
    pointer is the default key of the trees. *)
Definition new_book (instrument : string) (market_price : float) (oh : gmap nat order) : book :=
  Book oh ∅ 1 instrument market_price (empty_tree 0) (empty_tree 0) (empty_tree 0) (empty_tree 0)
    (empty_tree 0) ∅ [] [].
