(* ===== verification/Utilities.v ===== *)
(** * utils/uuid_generator.hpp, utils/defer.hpp

    The identifiers of orders and the deferred functions.  The engine of the standard library that
    is seeded with a number, the generator of identifiers that draws from it and the text of an
    identifier are one function of the seed, which is a parameter. *)

From S2P Require Import Prelude RBTree DataTypes OrderBook.

(** ** Identifiers *)

Section identifiers.
(** [uuids::to_string(uuids::uuid_random_generator{std::mt19937(seed)}())] *)
Variable uuid_of_seed : Z → string.

(** [std::random_device] gives an [unsigned int]. *)
Definition random_device (dev : Z) : Z := (dev mod 2 ^ 32)%Z.
Definition generate (dev : Z) : string := uuid_of_seed (random_device dev).

(** A list with an element twice. *)
Lemma repeated (l : list Z) :
  ¬ NoDup l → ∃ i j z, i ≠ j ∧ l !! i = Some z ∧ l !! j = Some z.
Proof.
  induction l as [|z l IH]; intros Hnd; [by destruct Hnd; constructor|].
  destruct (decide (z ∈ l)) as [[j Hj]%list_elem_of_lookup|Hz].
  - by exists 0, (S j), z.
  - destruct IH as (i&j&y&Hne&Hi&Hj); [by contradict Hnd; constructor|].
    exists (S i), (S j), y. split; [lia|done].
Qed.

(** There are no more identifiers than seeds.  Whatever the random device gives, of more than
    2^32 orders two get the same identifier, though an identifier has 122 random bits. *)
Theorem identifiers_repeat (devs : list Z) :
  (2 ^ 32 < Z.of_nat (length devs))%Z →
  ∃ i j d d', i ≠ j ∧ devs !! i = Some d ∧ devs !! j = Some d' ∧ generate d = generate d'.
Proof.
  intros Hlen. destruct (decide (NoDup (random_device <$> devs))) as [Hnd|Hnd].
  - exfalso. assert (random_device <$> devs ⊆+ seqZ 0 (2 ^ 32)) as Hsub.
    { apply NoDup_submseteq; [done|]. intros z (d&->&_)%list_elem_of_fmap. apply elem_of_seqZ.
      pose proof (Z.mod_pos_bound d (2 ^ 32)). unfold random_device. lia. }
    apply submseteq_length in Hsub. rewrite length_fmap, length_seqZ in Hsub. lia.
  - apply repeated in Hnd as (i&j&z&Hne&Hi&Hj).
    apply list_lookup_fmap_Some in Hi as (d&->&Hd). apply list_lookup_fmap_Some in Hj as (d'&Heq&Hd').
    exists i, j, d, d'. split_and!; [done..|]. unfold generate. by rewrite Heq.
Qed.
End identifiers.

(** ** Deferred functions *)

(** An object keeps the function that it is given and calls it when it is destroyed. *)
Record Defer St := MkDefer { _function : M St unit }.
Arguments MkDefer {St} _.
Arguments _function {St} _.
Definition destroy_defer {St} (d : Defer St) : M St unit := _function d.

(** A temporary is destroyed at the end of its statement, a variable at the end of its scope: after
    [body], which may have thrown. *)
Definition temporary {St} (d : Defer St) : M St unit := destroy_defer d.
Definition variable {St A} (d : Defer St) (body : M St A) : M St A := λ s,
  match body s with
  | (s1, r) =>
      match destroy_defer d s1 with
      | (s2, Ret _) => (s2, r)
      | (s2, Err e) => (s2, Err e)
      end
  end.

(** The program makes temporaries only: adding an order enqueues it before anything is matched ... *)
Lemma add_order_defers now (ord : oid) :
  add_order now ord =
    (temporary (MkDefer (enqueue_order ord));;
     x ← get_order ord;
     if has_param x STOP then
       market_price ← gets b_market_price;
       if stop_waits x market_price then
         add_stop_order ord (own_side (is_buy x));; add_date_order ord;; mret ACCEPTED
       else
         whenM (bool_decide (get_type x = MARKET)) (upd_order ord (set_params IOC));;
         place_order now ord
     else place_order now ord).
Proof. reflexivity. Qed.
(** ... and matching removes the levels and enqueues the orders that its vectors hold before the
    loop, which are none; a variable would have seen what the loop puts into them. *)
Lemma match_order_defers now (ord : oid) s :
  match_order now ord s =
    (x ← get_order ord;
     temporary (MkDefer (match_order_deferred s [] []));;
     it ← in_limits s (λ _, RBTree.begin);
     n ← gets (limits_fuel s);
     match_loop now n s ord (has_param x AON) (is_buy x) (get_type x) it [] []).
Proof. reflexivity. Qed.
Lemma deferred_matching_does_nothing s b : match_order_deferred s [] [] b = (b, Ret tt).
Proof. reflexivity. Qed.

(** A variable's function runs however the scope is left. *)
Lemma variable_runs {St A} (d : Defer St) (body : M St A) s :
  (variable d body s).1 = (destroy_defer d (body s).1).1.
Proof. unfold variable. destruct (body s) as [s1 r]. simpl. by destruct (destroy_defer d s1) as [s2 []]. Qed.
