(* ===== verification/OBRep.v ===== *)
(** * What the objects of a book represent

    A price level is a [Limit] object and the addresses of the orders in its linked list.  The
    predicates of this file say when the heaps represent a level, and the lemmas give the effect
    on them of [remove_limit_order] and [add_limit_order]. *)

From S2P Require Import Prelude Float RBTree RBInsert RBIter DataTypes OrderBook.

(** ** Linked lists *)

Section segments.
Implicit Types (oh : gmap nat order) (os : list oid) (p n : option oid).

Definition links oh (o : oid) : option (option oid * option oid) :=
  (λ x, (o_prev x, o_next x)) <$> oh !! o.
(** Everything in an order but its place in the list. *)
Definition data oh (o : oid) : option order := set_o_links None None <$> oh !! o.

Definition first_of os n : option oid := match os with [] => n | o :: _ => Some o end.
Definition last_of p os : option oid := match list.last os with Some o => Some o | None => p end.

(** The orders [os] are linked in this order, between [p] and [n]. *)
Fixpoint seg oh p os n : Prop :=
  match os with
  | [] => True
  | o :: os => links oh o = Some (p, first_of os n) ∧ seg oh (Some o) os n
  end.

Lemma first_of_app os1 os2 n : first_of (os1 ++ os2) n = first_of os1 (first_of os2 n).
Proof. by destruct os1. Qed.
Lemma last_of_cons p o os : last_of p (o :: os) = last_of (Some o) os.
Proof. unfold last_of. rewrite last_cons. by destruct (list.last os). Qed.
Lemma last_of_app p os1 os2 : last_of p (os1 ++ os2) = last_of (last_of p os1) os2.
Proof. unfold last_of. rewrite last_app. by destruct (list.last os2). Qed.
Lemma last_of_snoc p os o : last_of p (os ++ [o]) = Some o.
Proof. unfold last_of. by rewrite last_app. Qed.

Lemma seg_app oh p os1 os2 n :
  seg oh p (os1 ++ os2) n ↔ seg oh p os1 (first_of os2 n) ∧ seg oh (last_of p os1) os2 n.
Proof.
  revert p. induction os1 as [|o os1 IH]; intros p; simpl; [by unfold last_of; simpl; tauto|].
  rewrite IH, first_of_app, last_of_cons. tauto.
Qed.

Lemma seg_frame oh oh' p os n :
  (∀ o, o ∈ os → links oh' o = links oh o) → seg oh p os n → seg oh' p os n.
Proof.
  revert p. induction os as [|o os IH]; intros p Hf; simpl; [done|]. intros [Ho Hs].
  split; [rewrite Hf by (by left); done|]. apply IH; [|done]. intros. apply Hf. by right.
Qed.

Lemma links_insert oh o x : links (<[o := x]> oh) o = Some (o_prev x, o_next x).
Proof. unfold links. by rewrite lookup_insert_eq. Qed.
Lemma links_insert_ne oh o o' x : o ≠ o' → links (<[o := x]> oh) o' = links oh o'.
Proof. intros. unfold links. by rewrite lookup_insert_ne. Qed.
Lemma data_insert oh o x : data (<[o := x]> oh) o = Some (set_o_links None None x).
Proof. unfold data. by rewrite lookup_insert_eq. Qed.
Lemma data_insert_ne oh o o' x : o ≠ o' → data (<[o := x]> oh) o' = data oh o'.
Proof. intros. unfold data. by rewrite lookup_insert_ne. Qed.

Lemma data_relink oh o x p n o' :
  oh !! o = Some x → data (<[o := set_o_links p n x]> oh) o' = data oh o'.
Proof.
  intros Ho. destruct (decide (o = o')) as [<-|]; [|by apply data_insert_ne].
  rewrite data_insert. unfold data. by rewrite Ho.
Qed.

Lemma first_of_in os o : first_of os None = Some o → o ∈ os.
Proof. destruct os; [done|]. intros [= ->]. left. Qed.
Lemma last_of_in os o : last_of None os = Some o → o ∈ os.
Proof.
  destruct os as [|o' os _] using rev_ind; [done|]. rewrite last_of_snoc. intros [= ->].
  apply elem_of_app. right. left.
Qed.

Lemma alter_insert (f : order → order) o x oh : oh !! o = Some x → alter f o oh = <[o := f x]> oh.
Proof.
  intros Ho. apply map_eq. intros o'. destruct (decide (o' = o)) as [->|Hne].
  - by rewrite lookup_alter_eq, lookup_insert_eq, Ho.
  - by rewrite lookup_alter_ne, lookup_insert_ne.
Qed.

(** Writing the [prev] of the first order, or the [next] of the last one. *)
Lemma seg_set_prev oh p p' o x os n :
  oh !! o = Some x → o ∉ os → seg oh p (o :: os) n →
  seg (<[o := set_o_links p' (o_next x) x]> oh) p' (o :: os) n.
Proof.
  simpl. intros Ho Hos [Hl Hs]. unfold links in Hl. rewrite Ho in Hl. simplify_eq/=.
  split; [by rewrite links_insert; simpl; congruence|]. eapply seg_frame; [|exact Hs].
  intros o' Ho'. apply links_insert_ne. by intros ->.
Qed.

Lemma seg_set_next oh p os o x n n' :
  oh !! o = Some x → o ∉ os → seg oh p (os ++ [o]) n →
  seg (<[o := set_o_links (o_prev x) n' x]> oh) p (os ++ [o]) n'.
Proof.
  rewrite !seg_app. simpl. intros Ho Hos (Hs&Hl&_). unfold links in Hl. rewrite Ho in Hl.
  simplify_eq/=. split_and!; [|by rewrite links_insert; simpl; congruence|done].
  eapply seg_frame; [|exact Hs]. intros o' Ho'. apply links_insert_ne. by intros ->.
Qed.

(** The same when the list may be empty. *)
Definition with_first_prev (p : option oid) os oh : gmap nat order :=
  match first_of os None with
  | Some o => alter (λ y, set_o_links p (o_next y) y) o oh
  | None => oh
  end.
Definition with_last_next os (n : option oid) oh : gmap nat order :=
  match last_of None os with
  | Some o => alter (λ y, set_o_links (o_prev y) n y) o oh
  | None => oh
  end.

Lemma data_alter oh o (fp fn : order → option oid) o' :
  data (alter (λ y, set_o_links (fp y) (fn y) y) o oh) o' = data oh o'.
Proof.
  unfold data. destruct (decide (o' = o)) as [->|Hne]; [|by rewrite lookup_alter_ne].
  rewrite lookup_alter_eq. by destruct (oh !! o).
Qed.
Lemma first_prev_data p os oh o' : data (with_first_prev p os oh) o' = data oh o'.
Proof.
  unfold with_first_prev. destruct (first_of os None); [|done].
  apply (data_alter oh _ (λ _, p) o_next).
Qed.
Lemma last_next_data os n oh o' : data (with_last_next os n oh) o' = data oh o'.
Proof.
  unfold with_last_next. destruct (last_of None os); [|done].
  apply (data_alter oh _ o_prev (λ _, n)).
Qed.
Lemma first_prev_frame p os oh o' : o' ∉ os → with_first_prev p os oh !! o' = oh !! o'.
Proof.
  unfold with_first_prev. intros Hn. destruct (first_of os None) eqn:E; [|done].
  apply lookup_alter_ne. intros ->. by apply Hn, first_of_in.
Qed.
Lemma last_next_frame os n oh o' : o' ∉ os → with_last_next os n oh !! o' = oh !! o'.
Proof.
  unfold with_last_next. intros Hn. destruct (last_of None os) eqn:E; [|done].
  apply lookup_alter_ne. intros ->. by apply Hn, last_of_in.
Qed.

Lemma seg_lookup oh p os n o : seg oh p os n → o ∈ os → is_Some (oh !! o).
Proof.
  revert p. induction os as [|o' os IH]; intros p; simpl; [by intros _ ?%elem_of_nil|].
  intros [Hl Hs] [->|Ho]%elem_of_cons; [|by eapply IH].
  unfold links in Hl. destruct (oh !! o'); [by eexists|done].
Qed.

Lemma seg_first_prev oh p p' os n :
  NoDup os → seg oh p os n → seg (with_first_prev p' os oh) p' os n.
Proof.
  destruct os as [|o os]; [done|]. intros [Hno _]%NoDup_cons Hs. unfold with_first_prev. simpl first_of.
  cbn iota. destruct (seg_lookup _ _ _ _ o Hs) as [x Hx]; [left|]. rewrite (alter_insert _ _ x) by done.
  by eapply seg_set_prev.
Qed.
Lemma seg_last_next oh p os n n' :
  NoDup os → seg oh p os n → seg (with_last_next os n' oh) p os n'.
Proof.
  destruct os as [|o os _] using rev_ind; [done|]. intros (_&Hno&_)%NoDup_app Hs.
  unfold with_last_next. rewrite last_of_snoc.
  destruct (seg_lookup _ _ _ _ o Hs) as [x Hx]; [apply elem_of_app; right; left|].
  rewrite (alter_insert _ _ x) by done. eapply seg_set_next; [done| |exact Hs].
  intros Hin. apply (Hno o Hin). left.
Qed.

Lemma data_lookup oh oh' o x :
  data oh' o = data oh o → oh !! o = Some x →
  ∃ x', oh' !! o = Some x' ∧ x' = set_o_links (o_prev x') (o_next x') x.
Proof.
  unfold data. intros Hd Ho. rewrite Ho in Hd. destruct (oh' !! o) as [x'|]; [|done].
  exists x'. split; [done|]. destruct x, x'. by simplify_eq/=.
Qed.
End segments.

(** ** The objects of a book *)

(** Changing the objects and the hash map leaves the other members alone. *)
Definition with_objects (oh : gmap nat order) (lh : gmap nat limit) (om : gmap string oid)
    (b : book) : book := put_orders om (set_lh lh (set_oh oh b)).

Section access.
Implicit Types (b : book) (oh : gmap nat order) (lh : gmap nat limit) (om : gmap string oid).

Lemma with_objects_id b : with_objects (b_oh b) (b_lh b) (b_orders b) b = b.
Proof. by destruct b. Qed.
Lemma get_order_ok o x oh lh om b :
  oh !! o = Some x →
  get_order o (with_objects oh lh om b) = (with_objects oh lh om b, Ret x).
Proof. unfold get_order. simpl. by intros ->. Qed.
Lemma get_limit_ok l x oh lh om b :
  lh !! l = Some x →
  get_limit l (with_objects oh lh om b) = (with_objects oh lh om b, Ret x).
Proof. unfold get_limit. simpl. by intros ->. Qed.
Lemma on_order_ok o m x x' r oh lh om b :
  oh !! o = Some x → m x = (x', r) →
  on_order o m (with_objects oh lh om b) = (with_objects (<[o := x']> oh) lh om b, r).
Proof. unfold on_order. simpl. by intros -> ->. Qed.
Lemma upd_order_ok o f x oh lh om b :
  oh !! o = Some x →
  upd_order o f (with_objects oh lh om b) = (with_objects (<[o := f x]> oh) lh om b, Ret tt).
Proof. intros. by eapply on_order_ok. Qed.
Lemma upd_limit_ok l f x oh lh om b :
  lh !! l = Some x →
  upd_limit l f (with_objects oh lh om b) = (with_objects oh (<[l := f x]> lh) om b, Ret tt).
Proof. intros H. unfold upd_limit. by rewrite (bind_ok _ _ _ _ _ (get_limit_ok _ _ _ _ _ _ H)). Qed.
Lemma erase_order_ok id oh lh om b :
  erase_order id (with_objects oh lh om b) = (with_objects oh lh (delete id om) b, Ret tt).
Proof. done. Qed.
End access.

(** A lookup after some updates. *)
Ltac heap_look :=
  simpl; repeat first [rewrite lookup_insert_eq | rewrite lookup_insert_ne by congruence];
  first [eassumption | reflexivity].
Ltac ob_step :=
  first
    [ erewrite bind_ok by (apply get_order_ok; heap_look)
    | erewrite bind_ok by (apply get_limit_ok; heap_look)
    | erewrite bind_ok by (apply upd_order_ok; heap_look)
    | erewrite bind_ok by (apply upd_limit_ok; heap_look) ];
  cbn beta.

Section remove_limit_order.
Implicit Types (b : book).

(** The counters of a limit that lost an order with the quantity [q]. *)
Definition released (q : float) (lim : limit) : limit :=
  decrease_number_of_orders (decrease_volume q lim).

(** The heap in which the neighbours of [x] are linked with each other. *)
Definition relinked (oh : gmap nat order) (x : order) : gmap nat order :=
  let oh := match o_next x with
    | Some n => alter (λ y, set_o_links (o_prev x) (o_next y) y) n oh
    | None => oh
    end in
  match o_prev x with
  | Some p => alter (λ y, set_o_links (o_prev y) (o_next x) y) p oh
  | None => oh
  end.

(** The ends of the limit [lim] when the order [o], which is [x], leaves its list. *)
Definition ends_without (o : oid) (x : order) (lim : limit) : limit :=
  if bool_decide (l_head lim = Some o) && bool_decide (l_tail lim = Some o) then
    set_l_ends None None lim
  else if bool_decide (l_head lim = Some o) then set_l_ends (o_next x) (l_tail lim) lim
  else if bool_decide (l_tail lim = Some o) then set_l_ends (l_head lim) (o_prev x) lim
  else lim.

Lemma relinked_ok oh o x l1 l2 :
  NoDup (l1 ++ o :: l2) → seg oh None (l1 ++ o :: l2) None → oh !! o = Some x →
  seg (relinked oh x) None (l1 ++ l2) None ∧ (∀ o', data (relinked oh x) o' = data oh o') ∧
  (∀ o', o' ∉ l1 ++ l2 → relinked oh x !! o' = oh !! o').
Proof.
  intros Hnd Hseg Ho. apply seg_app in Hseg as [Hs1 [Hlo Hs2]].
  unfold links in Hlo. rewrite Ho in Hlo. injection Hlo as Hprev Hnext.
  apply NoDup_app in Hnd as (Hnd1&Hd&[Hol2 Hnd2]%NoDup_cons). unfold relinked.
  rewrite Hprev, Hnext. change (match first_of l2 None with
    | Some n => alter (λ y, set_o_links (last_of None l1) (o_next y) y) n oh
    | None => oh
    end) with (with_first_prev (last_of None l1) l2 oh).
  change (match last_of None l1 with Some p => _ | None => _ end)
    with (with_last_next l1 (first_of l2 None) (with_first_prev (last_of None l1) l2 oh)).
  split; [apply seg_app; split|split].
  - apply seg_last_next with (n := Some o); [done|]. eapply seg_frame; [|exact Hs1].
    intros o' Hin. unfold links. rewrite first_prev_frame; [done|]. intros Hin'.
    apply (Hd o' Hin). by right.
  - eapply seg_frame; [|by apply (seg_first_prev oh (Some o))].
    intros o' Hin. unfold links. rewrite last_next_frame; [done|]. intros Hin'.
    apply (Hd o' Hin'). by right.
  - intros o'. by rewrite last_next_data, first_prev_data.
  - intros o'. rewrite elem_of_app. intros Hin.
    rewrite last_next_frame, first_prev_frame; [done|tauto..].
Qed.

Lemma ends_without_ok o x l1 l2 lim :
  NoDup (l1 ++ o :: l2) → o_next x = first_of l2 None → o_prev x = last_of None l1 →
  l_head lim = first_of (l1 ++ o :: l2) None → l_tail lim = last_of None (l1 ++ o :: l2) →
  ends_without o x lim = set_l_ends (first_of (l1 ++ l2) None) (last_of None (l1 ++ l2)) lim.
Proof.
  intros (_&Hd&[Hol2 _]%NoDup_cons)%NoDup_app Hn Hp Hh Ht.
  assert (bool_decide (l_head lim = Some o) = bool_decide (l1 = [])) as Hhead.
  { apply bool_decide_ext. rewrite Hh, first_of_app. destruct l1 as [|q l1]; [done|].
    simpl. split; [|done]. intros [= ->]. destruct (Hd o); left. }
  assert (bool_decide (l_tail lim = Some o) = bool_decide (l2 = [])) as Htail.
  { apply bool_decide_ext. rewrite Ht, last_of_app. destruct l2 as [|q l2 _] using rev_ind; [done|].
    rewrite app_comm_cons, last_of_snoc. split; [|by destruct l2]. intros [= ->].
    destruct Hol2. apply elem_of_app. right. left. }
  unfold ends_without. rewrite Hhead, Htail, Hn, Hp, Hh, Ht. rewrite !last_of_app, !last_of_cons.
  destruct l1 as [|p l1], l2 as [|n l2]; rewrite ?app_nil_r; simpl; rewrite ?last_of_cons; try done.
  rewrite last_of_app, !last_of_cons in Ht. destruct lim; simpl in *. by rewrite Hh, Ht.
Qed.

(** The end of [remove_limit_order]. *)
Lemma drop_ends_ok oh lh om b l lim o x :
  lh !! l = Some lim →
  (if bool_decide (l_head lim = Some o) && bool_decide (l_tail lim = Some o) then
     upd_limit l (set_l_ends None None)
   else if bool_decide (l_head lim = Some o) then
     upd_limit l (λ y, set_l_ends (o_next x) (l_tail y) y)
   else if bool_decide (l_tail lim = Some o) then
     upd_limit l (λ y, set_l_ends (l_head y) (o_prev x) y)
   else mret tt) (with_objects oh lh om b)
  = (with_objects oh (<[l := ends_without o x lim]> lh) om b, Ret tt).
Proof.
  intros Hl. unfold ends_without. repeat case_bool_decide; simpl; try by rewrite (upd_limit_ok _ _ _ _ _ _ _ Hl).
  by rewrite insert_id.
Qed.

(** The four cases of the neighbours. *)
Lemma relink_ok oh lh om b o x :
  oh !! o = Some x → (∀ n, o_next x = Some n → is_Some (oh !! n) ∧ n ≠ o) →
  (∀ p, o_prev x = Some p → is_Some (oh !! p) ∧ p ≠ o ∧ o_next x ≠ Some p) →
  (match o_next x, o_prev x with
   | Some next, Some prev =>
       upd_order next (λ y, set_o_links (Some prev) (o_next y) y);;
       x ← get_order o;
       prev ← deref (o_prev x);
       upd_order prev (λ y, set_o_links (o_prev y) (o_next x) y)
   | None, Some prev => upd_order prev (λ y, set_o_links (o_prev y) None y)
   | Some next, None => upd_order next (λ y, set_o_links None (o_next y) y)
   | None, None => mret tt
   end) (with_objects oh lh om b) = (with_objects (relinked oh x) lh om b, Ret tt) ∧
  relinked oh x !! o = Some x.
Proof.
  intros Ho Hn Hp. unfold relinked.
  destruct (o_next x) as [n|] eqn:En; destruct (o_prev x) as [p|] eqn:Ep;
    try (destruct (Hn n eq_refl) as [[y Hy] ?]); try (destruct (Hp p eq_refl) as ([z Hz]&?&?));
    rewrite ?(alter_insert _ n y), ?(alter_insert _ p z) by heap_look.
  - split; [|heap_look]. do 2 ob_step. rewrite Ep. simpl deref. rewrite bind_ret, En.
    by erewrite upd_order_ok by heap_look.
  - split; [|heap_look]. by erewrite upd_order_ok by heap_look.
  - split; [|heap_look]. by erewrite upd_order_ok by heap_look.
  - done.
Qed.

(** [remove_limit_order] unlinks the order, wherever it is in its list. *)
Lemma remove_limit_order_spec oh lh om b l lim l1 o l2 x :
  lh !! l = Some lim → oh !! o = Some x → o_parent x = Some l →
  NoDup (l1 ++ o :: l2) → seg oh None (l1 ++ o :: l2) None →
  l_head lim = first_of (l1 ++ o :: l2) None → l_tail lim = last_of None (l1 ++ o :: l2) →
  ∃ oh', remove_limit_order o (with_objects oh lh om b) =
      (with_objects oh'
         (<[l := set_l_ends (first_of (l1 ++ l2) None) (last_of None (l1 ++ l2))
                   (released (o_current_qty x) lim)]> lh)
         (delete (o_id x) om) b, Ret tt) ∧
    seg oh' None (l1 ++ l2) None ∧
    (∀ o', data oh' o' = data oh o') ∧
    (∀ o', o' ∉ l1 ++ l2 → oh' !! o' = oh !! o').
Proof.
  intros Hl Ho Hpar Hnd Hseg Hh Ht. exists (relinked oh x). split; [|by apply (relinked_ok oh o)].
  pose proof Hseg as [Hs1 [Hlo Hs2]]%seg_app. unfold links in Hlo. rewrite Ho in Hlo.
  injection Hlo as Hprev Hnext. pose proof Hnd as (_&Hd&[Hol2 _]%NoDup_cons)%NoDup_app.
  unfold remove_limit_order. ob_step. unfold get_limit_parent. rewrite Hpar. simpl deref.
  rewrite bind_ret. do 2 ob_step. rewrite insert_insert_eq.
  destruct (relink_ok oh (<[l := released (o_current_qty x) lim]> lh) om b o x Ho) as [E Ho'].
  { rewrite Hnext. intros n Hn. apply first_of_in in Hn.
    split; [exact (seg_lookup _ _ _ _ _ Hs2 Hn)|]. by intros ->. }
  { rewrite Hprev, Hnext. intros p Hp. apply last_of_in in Hp.
    split; [exact (seg_lookup _ _ _ _ _ Hs1 Hp)|]. split; [intros Heq; subst p; apply (Hd o Hp); left|].
    intros Hn. apply first_of_in in Hn. apply (Hd p Hp). by right. }
  erewrite bind_ok by exact E. do 2 ob_step. erewrite bind_ok by (apply drop_ends_ok; heap_look).
  rewrite erase_order_ok, insert_insert_eq.
  by rewrite (ends_without_ok o x l1 l2 (released (o_current_qty x) lim)).
Qed.
End remove_limit_order.

(** ** Price levels *)

Section levels.
Implicit Types (oh : gmap nat order) (lh : gmap nat limit) (s : book_side) (os : list oid).

(** An order that rests on the side [s] at the limit [l]. *)
Record rests s (l : lid) (price : float) (x : order) : Prop := {
  rs_parent : o_parent x = Some l;
  rs_price : o_price x = price;
  rs_side : is_buy x = bool_decide (s = Bids);
  rs_qty : qty_ok (o_current_qty x);
  rs_live : o_cancelled x = false;
  rs_params : has_param x FOK = false
}.
Definition resting oh s l price (o : oid) : Prop := ∃ x, oh !! o = Some x ∧ rests s l price x.

(** The limit [l] holds the list [os] ... *)
Record level_list oh lh (l : lid) os lim : Prop := {
  lv_limit : lh !! l = Some lim;
  lv_price : is_nan (l_price lim) = false;
  lv_head : l_head lim = first_of os None;
  lv_tail : l_tail lim = last_of None os;
  lv_nodup : NoDup os;
  lv_seg : seg oh None os None
}.
(** ... of orders that rest there. *)
Definition level_ok oh lh s (l : lid) os lim : Prop :=
  level_list oh lh l os lim ∧ ∀ o, o ∈ os → resting oh s l (l_price lim) o.

Lemma rests_links s l price x p n : rests s l price (set_o_links p n x) ↔ rests s l price x.
Proof. split; intros []; by split. Qed.

Lemma resting_data oh oh' s l price o :
  data oh' o = data oh o → resting oh s l price o → resting oh' s l price o.
Proof.
  intros Hd (x&Ho&Hx). destruct (data_lookup _ _ _ _ Hd Ho) as (x'&Ho'&Heq).
  exists x'. split; [done|]. rewrite Heq. by rewrite rests_links.
Qed.

Lemma level_list_frame oh oh' lh lh' l os lim :
  (∀ o, o ∈ os → links oh' o = links oh o) → lh' !! l = lh !! l →
  level_list oh lh l os lim → level_list oh' lh' l os lim.
Proof. intros Ho Hl []. split; try done; [by rewrite Hl|by eapply seg_frame]. Qed.

Lemma level_ok_frame oh oh' lh lh' s l os lim :
  (∀ o, o ∈ os → oh' !! o = oh !! o) → lh' !! l = lh !! l →
  level_ok oh lh s l os lim → level_ok oh' lh' s l os lim.
Proof.
  intros Ho Hl [Hlist Hrest]. split.
  - eapply level_list_frame; [|done..]. intros o Hin. unfold links. by rewrite Ho.
  - intros o Hin. destruct (Hrest o Hin) as (x&Hx&?). exists x. by rewrite Ho.
Qed.

(** [remove_limit_order] on a level. *)
Lemma remove_limit_order_level oh lh om b l lim l1 o l2 x :
  level_list oh lh l (l1 ++ o :: l2) lim → oh !! o = Some x → o_parent x = Some l →
  ∃ oh' lim', remove_limit_order o (with_objects oh lh om b)
      = (with_objects oh' (<[l := lim']> lh) (delete (o_id x) om) b, Ret tt) ∧
    level_list oh' (<[l := lim']> lh) l (l1 ++ l2) lim' ∧
    lim' = set_l_ends (first_of (l1 ++ l2) None) (last_of None (l1 ++ l2))
             (released (o_current_qty x) lim) ∧
    (∀ o', data oh' o' = data oh o') ∧ (∀ o', o' ∉ l1 ++ l2 → oh' !! o' = oh !! o').
Proof.
  intros [Hl Hp Hh Ht Hnd Hseg] Ho Hpar.
  destruct (remove_limit_order_spec oh lh om b l lim l1 o l2 x) as (oh'&E&Hs&Hd&Hf); try done.
  eexists oh', _. split; [exact E|]. split; [|done].
  split; try done.
  - by rewrite lookup_insert_eq.
  - rewrite NoDup_app, NoDup_cons in Hnd. rewrite NoDup_app.
    destruct Hnd as (?&Hdj&_&?). split_and!; try done. intros q Hq Hq'. apply (Hdj q Hq). by right.
Qed.

(** *** The two cases of [add_limit_order] *)

Definition appended (q : float) (os : list oid) (lim : limit) : limit :=
  increase_volume q (set_l_ends (first_of os None) (last_of None os) lim).

Lemma add_existing_spec oh lh om b l os lim order x :
  level_list oh lh l os lim → oh !! order = Some x → order ∉ os →
  o_prev x = None → o_next x = None →
  ∃ oh', (upd_order order (set_limit_parent l);;
      lim ← get_limit l;
      match l_head lim with
      | None =>
          upd_limit l (λ x, set_l_ends (Some order) (l_tail x) x);;
          upd_limit l (λ x, set_l_ends (l_head x) (Some order) x)
      | Some _ =>
          pom ← deref (l_tail lim);
          upd_order pom (λ x, set_o_links (o_prev x) (Some order) x);;
          upd_order order (λ x, set_o_links (Some pom) (o_next x) x);;
          upd_limit l (λ x, set_l_ends (l_head x) (Some order) x)
      end;;
      x ← get_order order;
      upd_limit l (increase_volume (get_qty x))) (with_objects oh lh om b)
    = (with_objects oh' (<[l := appended (o_current_qty x) (os ++ [order]) lim]> lh) om b, Ret tt) ∧
    seg oh' None (os ++ [order]) None ∧
    oh' !! order = Some (set_o_links (last_of None os) None (set_limit_parent l x)) ∧
    (∀ o', o' ≠ order → data oh' o' = data oh o') ∧
    (∀ o', o' ∉ os ++ [order] → oh' !! o' = oh !! o').
Proof.
  intros [Hl Hp Hh Ht Hnd Hseg] Ho Hnin Hprev Hnext.
  do 2 ob_step. rewrite Hh. destruct os as [|p os _] using rev_ind.
  - simpl. rewrite bind_assoc. do 3 ob_step. erewrite upd_limit_ok by heap_look.
    rewrite !insert_insert_eq. eexists. split; [done|]. split; [|split; [|split]].
    + simpl. split; [|done]. rewrite links_insert. simpl. by rewrite Hprev, Hnext.
    + rewrite lookup_insert_eq. f_equal. destruct x; simpl in *. by subst.
    + intros o' Hne. by apply data_insert_ne.
    + intros o' Ho'. apply lookup_insert_ne. intros ->. apply Ho'. left.
  - assert (p ≠ order) by (intros ->; apply Hnin, elem_of_app; right; left).
    assert (is_Some (oh !! p)) as [y Hy].
    { eapply seg_lookup; [exact Hseg|]. apply elem_of_app. right. left. }
    rewrite last_of_snoc in Ht. rewrite Ht. destruct (first_of (os ++ [p]) None) eqn:Hfo;
      [|by destruct os]. simpl deref. rewrite bind_assoc, bind_ret.
    rewrite bind_assoc. ob_step. rewrite bind_assoc. do 3 ob_step.
    erewrite upd_limit_ok by heap_look.
    rewrite !insert_insert_eq. eexists. split; [|split; [|split_and!]].
    + unfold appended. rewrite last_of_snoc, first_of_app.
      replace (first_of (os ++ [p]) _) with (l_head lim); [done|].
      rewrite Hh, <-Hfo. by destruct os.
    + rewrite seg_app. simpl. split; [|split; [|done]].
      * eapply (seg_frame (<[p := set_o_links (o_prev y) (Some order) y]> oh)).
        { intros q Hq. rewrite links_insert_ne by (intros ->; by apply Hnin).
          destruct (decide (q = p)) as [->|Hne]; [by rewrite !links_insert|].
          by rewrite !links_insert_ne by (congruence || (intros ->; by apply Hnin)). }
        eapply seg_set_next; [exact Hy| |exact Hseg].
        apply NoDup_app in Hnd as (_&Hd&_). intros Hp'. apply (Hd p Hp'). left.
      * rewrite links_insert, last_of_snoc. simpl. by rewrite Hnext.
    + rewrite lookup_insert_eq, last_of_snoc. f_equal. destruct x; simpl in *. by subst.
    + intros o' Hne. rewrite data_insert_ne by done.
      rewrite data_relink by (rewrite lookup_insert_ne; done). by apply data_insert_ne.
    + intros o' Ho'. rewrite !elem_of_app, !list_elem_of_singleton in Ho'.
      rewrite !lookup_insert_ne; [done|naive_solver..].
Qed.
End levels.
