(* ===== verification/OBMatch.v ===== *)
(** * Matching

    [fill_level] and [match_levels] say on lists what [process_limit_order] and [match_order] do
    to the book: the levels are visited from the best price, the orders of a level in the order of
    their arrival.  The code is proved to compute them, for every book that is well formed. *)

From S2P Require Import Prelude Float RBTree RBInsert RBIter DataTypes OrderBook OBRep.

(** ** The specification *)

(** One meeting of the incoming order, of quantity [q], with a resting order of quantity [c]. *)
Definition resolve (aon : bool) (q c : float) : float * float :=
  if fleb q c then (Fin 0, fsub binary32 c q)
  else if aon then (q, c) else (fsub binary32 q c, Fin 0).

(** The quantity left of the incoming order, and the orders left in the level. *)
Fixpoint fill_level (aon : bool) (q : float) (es : list (oid * float)) : float * list (oid * float) :=
  match es with
  | [] => (q, [])
  | (o, c) :: es =>
      if fltb (Fin 0) q then
        let '(q1, c1) := resolve aon q c in
        let '(q', rest) := fill_level aon q1 es in
        (q', if feqb c1 (Fin 0) then rest else (o, c1) :: rest)
      else (q, (o, c) :: es)
  end.

Section spec.
(** The limits, the incoming order's flags, kind, side and price. *)
Variable (lh : gmap nat limit) (aon buy : bool) (type : OrderType) (price : float).

Definition volume_of (l : lid) : float := from_option get_active_volume NaN (lh !! l).

(** The quantity left, the market price, and the levels with what is left in them. *)
Fixpoint match_levels (q market_price : float) (levels : list (lid * list (oid * float)))
    : float * float * list (lid * list (oid * float)) :=
  match levels with
  | [] => (q, market_price, [])
  | (l, es) :: levels =>
      if aon && fltb (volume_of l) q then
        let '(q', mp, rest) := match_levels q market_price levels in (q', mp, (l, es) :: rest)
      else
        match calculate_cross_price price (price_of lh l) type buy with
        | None => (q, market_price, (l, es) :: levels)
        | Some cross_price =>
            let '(q1, es1) := fill_level aon q es in
            if feqb q1 (Fin 0) then (q1, cross_price, (l, es1) :: levels)
            else
              let '(q', mp, rest) := match_levels q1 cross_price levels in
              (q', mp, (l, es1) :: rest)
        end
  end.
End spec.

(** ** Reading the heaps *)

Section reading.
Implicit Types (oh : gmap nat order) (os : list oid).

Definition qty_at oh (o : oid) : float := from_option get_qty NaN (oh !! o).
Definition id_at oh (o : oid) : option string := o_id <$> oh !! o.
Definition entries oh os : list (oid * float) := (λ o, (o, qty_at oh o)) <$> os.

(** [_orders] maps the identifiers of the orders [all], and no others, to them. *)
Definition orders_ok oh (om : gmap string oid) (all : list oid) : Prop :=
  ∀ id o, om !! id = Some o ↔ o ∈ all ∧ id_at oh o = Some id.

Lemma entries_fst oh os : (entries oh os).*1 = os.
Proof. unfold entries. rewrite <-list_fmap_compose. apply list_fmap_id. Qed.

Lemma entries_cons oh o os : entries oh (o :: os) = (o, qty_at oh o) :: entries oh os.
Proof. done. Qed.

Lemma entries_ext oh oh' os :
  (∀ o, o ∈ os → qty_at oh' o = qty_at oh o) → entries oh' os = entries oh os.
Proof.
  intros H. apply list_fmap_ext. intros i o Ho. rewrite H; [done|].
  by eapply list_elem_of_lookup_2.
Qed.

Lemma qty_at_data oh oh' o : data oh' o = data oh o → qty_at oh' o = qty_at oh o.
Proof.
  unfold data, qty_at. destruct (oh' !! o) as [x'|], (oh !! o) as [x|]; simpl; try done.
  intros [=]. destruct x, x'. by simplify_eq/=.
Qed.
(** The members of an order that no operation on a resting order changes. *)
Definition static (x : order) : string * float * Z * Z * Side :=
  (o_id x, o_price x, o_timestamp x, o_expire_time x, o_side x).
Definition static_at oh (o : oid) := static <$> oh !! o.

Lemma static_id oh oh' o : static_at oh' o = static_at oh o → id_at oh' o = id_at oh o.
Proof.
  unfold static_at, id_at. destruct (oh' !! o), (oh !! o); simpl; try done. unfold static.
  intros [= -> _ _ _ _]. done.
Qed.
Lemma static_at_data oh oh' o : data oh' o = data oh o → static_at oh' o = static_at oh o.
Proof.
  unfold data, static_at. destruct (oh' !! o) as [x'|], (oh !! o) as [x|]; simpl; try done.
  intros [=]. destruct x, x'. by simplify_eq/=.
Qed.
Lemma static_at_insert oh o o' x y :
  oh !! o = Some x → static y = static x → static_at (<[o := y]> oh) o' = static_at oh o'.
Proof.
  intros Ho Hs. unfold static_at. destruct (decide (o = o')) as [<-|].
  - rewrite lookup_insert_eq, Ho. simpl. by rewrite Hs.
  - by rewrite lookup_insert_ne.
Qed.

Lemma orders_ok_ids oh oh' om all all' :
  (∀ o, o ∈ all → id_at oh' o = id_at oh o) → (∀ o, o ∈ all' ↔ o ∈ all) →
  orders_ok oh om all → orders_ok oh' om all'.
Proof.
  intros Hi Ha Ho id o. rewrite (Ho id o), Ha.
  split; intros [Hin Hid]; (split; [done|]); [by rewrite Hi|by rewrite <-Hi].
Qed.

Lemma orders_ok_erase oh om all1 all2 o id :
  NoDup (all1 ++ o :: all2) → id_at oh o = Some id →
  orders_ok oh om (all1 ++ o :: all2) → orders_ok oh (delete id om) (all1 ++ all2).
Proof.
  intros Hnd Hid Hok id' o'. unfold orders_ok in Hok.
  assert (om !! id = Some o) as Ho.
  { apply Hok. split; [|done]. apply elem_of_app. right. left. }
  rewrite lookup_delete_Some, Hok, !elem_of_app, elem_of_cons.
  rewrite NoDup_app, NoDup_cons in Hnd. destruct Hnd as (_&Hd&Hn&_).
  setoid_rewrite elem_of_cons in Hd.
  split.
  - intros [Hne [Hin Hid']]. split; [|done]. destruct Hin as [|[->|]]; auto. congruence.
  - intros [Hin Hid']. split; [|split; [tauto|done]]. intros <-.
    assert (om !! id = Some o') as Ho'.
    { apply Hok. rewrite elem_of_app, elem_of_cons. tauto. }
    rewrite Ho in Ho'. injection Ho' as <-. destruct Hin as [Hin|Hin]; [|done].
    apply (Hd o Hin). auto.
Qed.
End reading.

(** ** One meeting *)

Section resolve.
Variable now : Z.
Implicit Types (oh : gmap nat order) (lh : gmap nat limit) (os : list oid).

Lemma set_qty_id (x : order) : set_o_current_qty (o_current_qty x) x = x.
Proof. by destruct x. Qed.

Lemma decrease_qty_ok delta x :
  fltb (o_current_qty x) delta = false →
  decrease_qty delta x = (set_o_current_qty (fsub binary32 (o_current_qty x) delta) x, Ret tt).
Proof. unfold decrease_qty. by intros ->. Qed.

(** [resolve_orders] on all its branches; it records no trade and no changed order. *)
Lemma resolve_orders_spec oh lh om b curr ord c x cross_price changed :
  oh !! curr = Some c → oh !! ord = Some x → curr ≠ ord →
  is_nan (o_current_qty c) = false → is_nan (o_current_qty x) = false →
  let '(q', c') := resolve (has_param x AON) (o_current_qty x) (o_current_qty c) in
  resolve_orders now curr ord cross_price changed (with_objects oh lh om b) =
    (with_objects (<[ord := set_o_current_qty q' x]> (<[curr := set_o_current_qty c' c]> oh))
       lh om b, Ret changed).
Proof.
  intros Hc Hx Hne Hcn Hxn. unfold resolve_orders, resolve. do 2 ob_step. unfold get_qty.
  rewrite feqb_refl by done. cbn [negb].
  assert (fleb (o_current_qty x) (o_current_qty c) = negb (fltb (o_current_qty c) (o_current_qty x)))
    as Hle.
  { unfold fleb. rewrite feqb_spec by done.
    destruct (fltb (o_current_qty x) (o_current_qty c)) eqn:H1; simpl; [|done].
    by rewrite (less_asym (λ x, is_nan x = false) fltb _ _ Hxn Hcn H1). }
  rewrite Hle. destruct (fltb (o_current_qty c) (o_current_qty x)) eqn:Hlt; cbn [negb].
  - destruct (has_param x AON); cbn [negb].
    + rewrite bind_ret, !set_qty_id, (insert_id oh curr), insert_id by done. done.
    + rewrite bind_assoc. erewrite bind_ok.
      2: { eapply on_order_ok; [exact Hx|]. apply decrease_qty_ok.
           eapply (less_asym (λ x, is_nan x = false) fltb); done. }
      ob_step. rewrite insert_insert_ne by done. done.
  - rewrite bind_assoc. erewrite bind_ok.
    2: { eapply on_order_ok; [exact Hc|]. by apply decrease_qty_ok. }
    ob_step. done.
Qed.

(** The quantities stay quantities; one of the two orders is exhausted, or an all-or-none order
    met one that is too small. *)
Lemma resolve_ok aon q c :
  (0 < q)%Z → fits binary32 q → (0 < c)%Z → fits binary32 c →
  ∃ q1 c1, resolve aon (Fin q) (Fin c) = (Fin q1, Fin c1) ∧
    (0 ≤ q1 ≤ q)%Z ∧ fits binary32 q1 ∧ (0 ≤ c1 ≤ c)%Z ∧ fits binary32 c1 ∧
    (q1 = 0 ∨ (aon = false ∧ c1 = 0) ∨ (aon = true ∧ q1 = q ∧ c1 = c))%Z.
Proof.
  intros Hq Hqf Hc Hcf. unfold resolve, fleb. cbn [fltb feqb].
  destruct (Z.ltb_spec q c); cbn [orb]; [|destruct (Z.eqb_spec q c)].
  - destruct (fsub_between c q Hcf ltac:(lia)) as (m&->&?&?&?).
    exists 0%Z, m. split_and!; auto using fits32_0; lia.
  - destruct (fsub_between c q Hcf ltac:(lia)) as (m&->&?&?&?).
    exists 0%Z, m. split_and!; auto using fits32_0; lia.
  - destruct aon.
    + exists q, c. split_and!; auto; lia.
    + destruct (fsub_between q c Hqf ltac:(lia)) as (m&->&?&?&?).
      exists m, 0%Z. split_and!; auto using fits32_0; lia.
Qed.

Lemma rests_qty s l price x c :
  rests s l price x → qty_ok c → rests s l price (set_o_current_qty c x).
Proof. by intros [] Hc. Qed.

Lemma is_fullfilled_data x p n : is_fullfilled (set_o_links p n x) = is_fullfilled x.
Proof. done. Qed.

(** The heap after the incoming order [ord] and the resting order [o] have met. *)
Record exchanged oh (o : oid) (c : order) (ord : oid) (x : order) q1 c1 oh1 : Prop := {
  ex_links : ∀ o', links oh1 o' = links oh o';
  ex_static : ∀ o', static_at oh1 o' = static_at oh o';
  ex_frame : ∀ o', o' ≠ o → o' ≠ ord → oh1 !! o' = oh !! o';
  ex_order : oh1 !! ord = Some (set_o_current_qty q1 x);
  ex_resting : oh1 !! o = Some (set_o_current_qty c1 c)
}.

Lemma exchanged_ok oh o c ord x q1 c1 :
  o ≠ ord → oh !! o = Some c → oh !! ord = Some x →
  exchanged oh o c ord x q1 c1
    (<[ord := set_o_current_qty q1 x]> (<[o := set_o_current_qty c1 c]> oh)).
Proof.
  intros Hne Hc Hx. split.
  - intros o'. unfold links. destruct (decide (o' = ord)) as [->|];
      [by rewrite lookup_insert_eq, Hx|rewrite lookup_insert_ne by done].
    destruct (decide (o' = o)) as [->|]; [by rewrite lookup_insert_eq, Hc|].
    by rewrite lookup_insert_ne by done.
  - intros o'. rewrite (static_at_insert _ ord _ x); [|by rewrite lookup_insert_ne|done].
    by apply (static_at_insert _ o _ c).
  - intros. by rewrite !lookup_insert_ne by done.
  - apply lookup_insert_eq.
  - rewrite lookup_insert_ne by done. apply lookup_insert_eq.
Qed.

(** What stays in the list of the resting order [o], of which [c1] is left. *)
Definition kept (o : oid) (c1 : float) : list oid := if feqb c1 (Fin 0) then [] else [o].

Lemma in_kept o' o c1 : o' ∈ kept o c1 → o' = o.
Proof. unfold kept. case_match; [by intros ?%elem_of_nil|by intros ?%list_elem_of_singleton]. Qed.

(** One round of the loop of [process_limit_order], at the order [o] of the level [l]. *)
Record met oh lh om s l lim ord x pre o os q1 c1 oh' lim' om' : Prop := {
  mt_level : level_ok oh' (<[l := lim']> lh) s l (pre ++ kept o c1 ++ os) lim';
  mt_price : l_price lim' = l_price lim;
  mt_order : oh' !! ord = Some (set_o_current_qty q1 x);
  mt_qty : qty_at oh' o = c1;
  mt_data : ∀ o', o' ≠ o → o' ≠ ord → data oh' o' = data oh o';
  mt_frame : ∀ o', o' ∉ pre ++ o :: os → o' ≠ ord → oh' !! o' = oh !! o';
  mt_static : ∀ o', static_at oh' o' = static_at oh o';
  mt_orders : ∀ A B, NoDup (A ++ (pre ++ o :: os) ++ B) → orders_ok oh om (A ++ (pre ++ o :: os) ++ B) →
    orders_ok oh' om' (A ++ (pre ++ kept o c1 ++ os) ++ B)
}.

(** The resting order keeps a quantity, and its place. *)
Lemma met_kept oh oh1 lh om s l lim ord x pre o os c q1 c1 :
  level_ok oh lh s l (pre ++ o :: os) lim → ord ∉ pre ++ o :: os → rests s l (l_price lim) c →
  exchanged oh o c ord x q1 c1 oh1 → qty_ok c1 → feqb c1 (Fin 0) = false →
  met oh lh om s l lim ord x pre o os q1 c1 oh1 lim om.
Proof.
  intros [Hlist Hrest] Hord Hr [Hlk Hst Hfr Hx1 Ho1] Hc1 Hz.
  split; unfold kept; rewrite ?Hz; cbn [app]; try done.
  - rewrite insert_id by apply Hlist. split; [by eapply level_list_frame; [|done|exact Hlist]|].
    intros o' Hin. destruct (decide (o' = o)) as [->|Hoo].
    + exists (set_o_current_qty c1 c). split; [done|]. by apply rests_qty.
    + destruct (Hrest o' Hin) as (y&Hy&?). exists y. split; [|done].
      rewrite Hfr; [done..|]. by intros ->.
  - unfold qty_at. by rewrite Ho1.
  - intros o' H1 H2. unfold data. by rewrite Hfr.
  - intros o' Hin H2. apply Hfr; [|done]. intros ->. apply Hin, elem_of_app. right. left.
  - intros A D _ Hok. eapply (orders_ok_ids oh); [|done|exact Hok]. intros o' _. by apply static_id.
Qed.

(** It is filled, and leaves the list. *)
Lemma met_removed oh oh1 oh' lh om s l lim lim' ord x pre o os c q1 c1 :
  level_ok oh lh s l (pre ++ o :: os) lim → ord ∉ pre ++ o :: os →
  exchanged oh o c ord x q1 c1 oh1 → oh !! o = Some c → feqb c1 (Fin 0) = true →
  level_list oh' (<[l := lim']> lh) l (pre ++ os) lim' → l_price lim' = l_price lim →
  (∀ o', data oh' o' = data oh1 o') → (∀ o', o' ∉ pre ++ os → oh' !! o' = oh1 !! o') →
  o ∉ pre ++ os → met oh lh om s l lim ord x pre o os q1 c1 oh' lim' (delete (o_id c) om).
Proof.
  intros [Hlist Hrest] Hord [Hlk Hst Hfr Hx1 Ho1] Hc Hz Hlist' Hp Hd' Hf' Hono.
  rewrite elem_of_app, elem_of_cons in Hord.
  split; unfold kept; rewrite ?Hz; cbn [app]; try done.
  - split; [exact Hlist'|]. intros o' Hin. rewrite Hp. apply (resting_data oh1); [apply Hd'|].
    destruct (Hrest o') as (y&Hy&?); [rewrite elem_of_app, elem_of_cons in *; tauto|].
    exists y. split; [|done]. rewrite elem_of_app in *. rewrite Hfr; [done|intros ->; tauto..].
  - rewrite Hf'; [done|]. rewrite elem_of_app. tauto.
  - unfold qty_at. by rewrite Hf', Ho1.
  - intros o' H1 H2. rewrite Hd'. unfold data. by rewrite Hfr.
  - intros o' Hin H2. rewrite elem_of_app, elem_of_cons in Hin.
    rewrite Hf', Hfr; [done|tauto|done|]. rewrite elem_of_app. tauto.
  - intros o'. rewrite <-Hst. by apply static_at_data.
  - intros A D. rewrite <-!app_assoc. cbn [app]. rewrite !(app_assoc A pre).
    intros Hnd Hok. apply (orders_ok_ids oh _ _ ((A ++ pre) ++ os ++ D)); [|done|].
    { intros o' _. apply static_id. rewrite <-Hst. by apply static_at_data. }
    eapply orders_ok_erase; [exact Hnd| |exact Hok]. unfold id_at. by rewrite Hc.
Qed.

Lemma level_next oh lh l pre o os lim c :
  level_list oh lh l (pre ++ o :: os) lim → oh !! o = Some c → o_next c = first_of os None.
Proof.
  intros Hl Hc. pose proof (lv_seg _ _ _ _ _ Hl) as [_ [Hlk _]]%seg_app.
  unfold links in Hlk. rewrite Hc in Hlk. by simplify_eq/=.
Qed.

Lemma nodup_middle {A} (x : A) l1 l2 : NoDup (l1 ++ x :: l2) → x ∉ l1 ++ l2.
Proof. rewrite <-Permutation_middle. by intros [? _]%NoDup_cons. Qed.

Lemma process_step {B} (K : option oid → list oid → M book B) oh lh om b s l lim pre o os ord x q
    cp ch :
  level_ok oh lh s l (pre ++ o :: os) lim → oh !! ord = Some x → ord ∉ pre ++ o :: os →
  o_current_qty x = Fin q → (0 < q)%Z → fits binary32 q →
  let '(q1, c1) := resolve (has_param x AON) (Fin q) (qty_at oh o) in
  ∃ oh' lim' om', (ch ← resolve_orders now o ord cp ch;
      c ← get_order o;
      whenM (is_fullfilled c) (remove_limit_order o);;
      c ← get_order o;
      K (o_next c) ch) (with_objects oh lh om b)
      = K (first_of os None) ch (with_objects oh' (<[l := lim']> lh) om' b) ∧
    met oh lh om s l lim ord x pre o os q1 c1 oh' lim' om'.
Proof.
  intros Hl Hx Hord Hq Hq0 Hqf. pose proof Hl as [Hlist Hrest].
  destruct (Hrest o) as (c&Hc&Hr); [apply elem_of_app; right; left|].
  destruct (rs_qty _ _ _ _ Hr) as (cn&Hcq&Hc0&Hcf).
  assert (o ≠ ord) as Hne by (intros ->; apply Hord, elem_of_app; right; left).
  pose proof (resolve_orders_spec oh lh om b o ord c x cp ch Hc Hx Hne) as Hres.
  rewrite Hcq, Hq in Hres. specialize (Hres eq_refl eq_refl).
  assert (qty_at oh o = Fin cn) as -> by (unfold qty_at; rewrite Hc; done).
  destruct (resolve_ok (has_param x AON) q cn Hq0 Hqf Hc0 Hcf)
    as (q1&c1&Hr1&Hq1&Hq1f&Hc1&Hc1f&_). rewrite Hr1 in Hres |- *.
  rewrite (bind_ok _ _ _ _ _ Hres). clear Hres.
  pose proof (exchanged_ok oh o c ord x (Fin q1) (Fin c1) Hne Hc Hx) as Hex.
  set (oh1 := <[ord := _]> (<[o := _]> oh)) in *. clearbody oh1.
  pose proof (ex_resting _ _ _ _ _ _ _ _ Hex) as Ho1. ob_step.
  assert (level_list oh1 lh l (pre ++ o :: os) lim) as Hlist1.
  { eapply level_list_frame; [|done|exact Hlist]. intros o' _. apply (ex_links _ _ _ _ _ _ _ _ Hex). }
  pose proof (level_next _ _ _ _ _ _ _ _ Hlist1 Ho1) as Hnext.
  change (is_fullfilled (set_o_current_qty (Fin c1) c)) with (feqb (Fin c1) (Fin 0)).
  destruct (feqb (Fin c1) (Fin 0)) eqn:Hz; cbn [whenM].
  - destruct (remove_limit_order_level oh1 lh om b l lim pre o os _ Hlist1 Ho1
      (rs_parent _ _ _ _ Hr)) as (oh'&lim'&E&Hlist'&->&Hd'&Hf').
    rewrite (bind_ok _ _ _ _ _ E).
    pose proof (nodup_middle _ _ _ (lv_nodup _ _ _ _ _ Hlist)) as Hono.
    erewrite bind_ok by (apply get_order_ok; rewrite Hf'; [exact Ho1|done]).
    eexists oh', _, _. split; [cbn beta; rewrite Hnext; reflexivity|].
    by apply (met_removed oh oh1 _ _ _ _ _ _ _ _ _ _ _ _ c).
  - rewrite bind_ret. ob_step. exists oh1, lim, om.
    split; [by rewrite Hnext, insert_id by apply Hlist|]. eapply met_kept; try done.
    exists c1. simpl in Hz. split_and!; [done|lia|done].
Qed.
End resolve.

(** ** A level *)

Section level.
Variable now : Z.
Implicit Types (oh : gmap nat order) (lh : gmap nat limit) (os : list oid).

Definition entry_ok (e : oid * float) : Prop := qty_ok e.2.

Lemma fill_level_stop aon es : fill_level aon (Fin 0) es = (Fin 0, es).
Proof. by destruct es as [|[o c] es]. Qed.

(** What is left in a level are orders of the level, in order, with quantities.  An
    all-or-none order is filled or untouched, and then so is the level; another order is filled
    or empties the level. *)
Lemma fill_level_ok aon q es :
  (0 ≤ q)%Z → fits binary32 q → Forall entry_ok es →
  ∃ q' rest, fill_level aon (Fin q) es = (Fin q', rest) ∧ (0 ≤ q' ≤ q)%Z ∧ fits binary32 q' ∧
    Forall entry_ok rest ∧ rest.*1 `sublist_of` es.*1 ∧
    (if aon then q' = 0%Z ∨ (q' = q ∧ rest = es) else q' = 0%Z ∨ rest = []).
Proof.
  intros Hq Hqf Hes. revert q Hq Hqf. induction Hes as [|[o c] es (cn&Hc&Hc0&Hcf) Hes IH];
    intros q Hq Hqf; simpl in *.
  { exists q, []. split_and!; try done; try lia. destruct aon; auto. }
  subst c. destruct (Z.ltb_spec 0 q) as [Hq0|Hq0].
  - destruct (resolve_ok aon q cn Hq0 Hqf Hc0 Hcf) as (q1&c1&->&Hq1&Hq1f&Hc1&Hc1f&Hcase).
    destruct (IH q1 ltac:(lia) Hq1f) as (q'&rest&E&Hq'&Hq'f&Hrest&Hsub&Hlast). rewrite E.
    eexists q', _. split; [done|]. split_and!; try done; try lia; simpl.
    + destruct (Z.eqb_spec c1 0); [done|]. constructor; [|done]. exists c1.
      split; [done|]. split; [lia|done].
    + destruct (c1 =? 0)%Z; [by apply sublist_cons|by apply sublist_skip].
    + destruct aon.
      * destruct Hcase as [->|[[[=] _]|(_&->&->)]].
        -- rewrite fill_level_stop in E. simplify_eq. auto.
        -- destruct Hlast as [?|[-> ->]]; [auto|]. right. split; [done|].
           simpl. destruct (Z.eqb_spec cn 0); [lia|done].
      * destruct Hcase as [->|[[_ ->]|([=]&_)]].
        -- rewrite fill_level_stop in E. simplify_eq. auto.
        -- done.
  - exists q, ((o, Fin cn) :: es). split_and!; try done; try lia.
    + constructor; [|done]. by exists cn.
    + assert (q = 0%Z) by lia. destruct aon; auto.
Qed.

Lemma resting_entry oh s l price o : resting oh s l price o → entry_ok (o, qty_at oh o).
Proof. intros (x&Ho&Hr). unfold entry_ok, qty_at. simpl. rewrite Ho. apply Hr. Qed.

Lemma level_entries oh lh s l os lim : level_ok oh lh s l os lim → Forall entry_ok (entries oh os).
Proof.
  intros [_ Hr]. apply Forall_forall. intros e (o&->&Ho)%list_elem_of_fmap.
  by eapply resting_entry, Hr.
Qed.

(** The effect of matching against the list [os] of a level, behind the orders [pre]. *)
Record level_filled oh lh om s l lim ord x pre os q' (rest : list (oid * float)) oh' lim' om' : Prop := {
  lf_level : level_ok oh' (<[l := lim']> lh) s l (pre ++ rest.*1) lim';
  lf_price : l_price lim' = l_price lim;
  lf_rest : entries oh' rest.*1 = rest;
  lf_pre : entries oh' pre = entries oh pre;
  lf_order : oh' !! ord = Some (set_o_current_qty q' x);
  lf_frame : ∀ o, o ∉ pre ++ os → o ≠ ord → oh' !! o = oh !! o;
  lf_filled : ∀ o, o ∈ os → o ∉ rest.*1 → qty_at oh' o = Fin 0;
  lf_ids : ∀ o, static_at oh' o = static_at oh o;
  lf_orders : ∀ A B, NoDup (A ++ (pre ++ os) ++ B) → orders_ok oh om (A ++ (pre ++ os) ++ B) →
    orders_ok oh' om' (A ++ (pre ++ rest.*1) ++ B)
}.

Lemma level_filled_same oh lh om s l lim ord x pre os :
  level_ok oh lh s l (pre ++ os) lim → oh !! ord = Some x →
  level_filled oh lh om s l lim ord x pre os (o_current_qty x) (entries oh os) oh lim om.
Proof.
  intros Hl Hx. split; rewrite ?entries_fst, ?set_qty_id; try done.
  rewrite insert_id; [done|apply Hl].
Qed.

Lemma entries_inj oh oh' os : entries oh' os = entries oh os → ∀ o, o ∈ os → qty_at oh' o = qty_at oh o.
Proof.
  unfold entries. induction os as [|o' os IH]; simpl; [by intros _ o ?%elem_of_nil|].
  intros [= H1 H2] o [->|Ho]%elem_of_cons; auto.
Qed.

(** A round of the loop in front of the rest of it. *)
Lemma level_filled_step oh lh om s l lim ord x q1 c1 pre o os oh1 lim1 om1 q' rest oh2 lim2 om2 :
  NoDup (pre ++ o :: os) → ord ∉ pre ++ o :: os →
  met oh lh om s l lim ord x pre o os q1 c1 oh1 lim1 om1 →
  level_filled oh1 (<[l := lim1]> lh) om1 s l lim1 ord (set_o_current_qty q1 x) (pre ++ kept o c1) os
    q' rest oh2 lim2 om2 →
  level_filled oh lh om s l lim ord x pre (o :: os) q'
    (if feqb c1 (Fin 0) then rest else (o, c1) :: rest) oh2 lim2 om2.
Proof.
  intros Hnd Hord [_ Hp1 _ Hc1 Hd1 Hf1 Hi1 Ho1] [Hl Hp Hr Hpre Hx Hf Hfi Hi Ho].
  assert (pre ++ (if feqb c1 (Fin 0) then rest else (o, c1) :: rest).*1 = (pre ++ kept o c1) ++ rest.*1)
    as Happ.
  { unfold kept. by destruct (feqb c1 (Fin 0)); rewrite <-app_assoc. }
  rewrite insert_insert_eq in Hl. pose proof (entries_inj _ _ _ Hpre) as Hpre'.
  rewrite NoDup_app, NoDup_cons in Hnd. destruct Hnd as (Hnd1&Hdj&Hos&Hnd2).
  rewrite elem_of_app, elem_of_cons in Hord.
  split; rewrite ?Happ; try done; try congruence.
  - destruct (feqb c1 (Fin 0)) eqn:Hz; [done|]. rewrite fmap_cons, entries_cons. cbn [fst].
    rewrite Hr, Hpre', Hc1; [done|]. unfold kept. rewrite Hz. apply elem_of_app. right. left.
  - apply entries_ext. intros o' Ho'. rewrite Hpre' by (apply elem_of_app; auto).
    apply qty_at_data, Hd1; [|intros ->; tauto]. intros ->. apply (Hdj o Ho'). left.
  - intros o' Hin Hne. rewrite elem_of_app, elem_of_cons in Hin. rewrite Hf; [| |done].
    + apply Hf1; [|done]. rewrite elem_of_app, elem_of_cons. tauto.
    + rewrite !elem_of_app. pose proof (in_kept o' o c1). tauto.
  - intros o' [->|Hin]%elem_of_cons Hnin.
    + destruct (feqb c1 (Fin 0)) eqn:Hz; [|by destruct Hnin; left].
      apply feqb_eq in Hz as ->. rewrite <-Hc1. unfold qty_at. rewrite Hf; [done| |intros ->; tauto].
      unfold kept. simpl. rewrite app_nil_r, elem_of_app. intros [Hin|Hin]; [|done].
      apply (Hdj o Hin). left.
    + apply Hfi; [done|]. intros Hin'. apply Hnin. case_match; [done|by right].
  - intros A D HndA Hok. apply (Ho A D); rewrite <-(app_assoc pre); [|by apply Ho1].
    unfold kept. destruct (feqb c1 (Fin 0)); [|exact HndA]. cbn [app].
    eapply sublist_NoDup; [exact HndA|]. apply sublist_app; [done|]. apply sublist_app; [|done].
    apply sublist_app; [done|]. by apply sublist_cons.
Qed.

Lemma process_loop_ok os : ∀ fuel pre oh lh om b lim x q ord cp ch s l,
  level_ok oh lh s l (pre ++ os) lim → oh !! ord = Some x → ord ∉ pre ++ os →
  o_current_qty x = Fin q → (0 ≤ q)%Z → fits binary32 q → length os < fuel →
  let '(q', rest) := fill_level (has_param x AON) (Fin q) (entries oh os) in
  ∃ oh' lim' om', process_loop now fuel (first_of os None) ord cp ch (with_objects oh lh om b)
      = (with_objects oh' (<[l := lim']> lh) om' b, Ret ch) ∧
    level_filled oh lh om s l lim ord x pre os q' rest oh' lim' om'.
Proof.
  induction os as [|o os IH]; intros fuel pre oh lh om b lim x q ord cp ch s l Hl Hx Hord Hq Hq0
    Hqf Hfuel; (destruct fuel as [|fuel]; [simpl in Hfuel; lia|]); cbn [process_loop].
  - ob_step. unfold get_qty. exists oh, lim, om. rewrite insert_id by apply Hl.
    split; [by case_match|]. rewrite <-Hq. by apply (level_filled_same oh lh om s l lim ord x pre []).
  - rewrite entries_cons. cbn [fill_level]. ob_step. unfold get_qty. rewrite Hq. cbn [first_of fltb].
    destruct (Z.ltb_spec 0 q) as [Hq1|Hq1].
    2: { exists oh, lim, om. rewrite insert_id by apply Hl. split; [done|]. rewrite <-Hq.
         by apply level_filled_same. }
    pose proof (process_step now (λ curr ch, process_loop now fuel curr ord cp ch) oh lh om b s l lim
      pre o os ord x q cp ch Hl Hx Hord Hq Hq1 Hqf) as Hstep.
    destruct (resting_entry oh s l (l_price lim) o) as (cn&Hcn&Hc0&Hcf).
    { apply Hl, elem_of_app. right. left. }
    simpl in Hcn. rewrite Hcn in Hstep |- *.
    destruct (resolve_ok (has_param x AON) q cn Hq1 Hqf Hc0 Hcf) as (q1&c1&Hr&Hqq&Hq1f&_).
    rewrite Hr in Hstep |- *.
    destruct Hstep as (oh1&lim1&om1&E1&Hmet).
    assert (NoDup (pre ++ o :: os)) as Hnd by apply Hl.
    assert (∀ o', o' ∈ os → o' ≠ o ∧ o' ≠ ord) as Hos.
    { intros o' Ho'. rewrite NoDup_app, NoDup_cons in Hnd. destruct Hnd as (_&_&Hn&_).
      split; [by intros ->|]. intros ->. apply Hord, elem_of_app. right. by right. }
    pose proof (IH fuel (pre ++ kept o (Fin c1)) oh1 (<[l := lim1]> lh) om1 b lim1
      (set_o_current_qty (Fin q1) x) q1 ord cp ch s l) as IHs.
    rewrite <-app_assoc in IHs.
    specialize (IHs (mt_level _ _ _ _ _ _ _ _ _ _ _ _ _ _ _ _ Hmet)
      (mt_order _ _ _ _ _ _ _ _ _ _ _ _ _ _ _ _ Hmet)).
    assert (entries oh1 os = entries oh os) as Hes.
    { apply entries_ext. intros o' Ho'. apply qty_at_data. destruct (Hos o' Ho').
      by apply (mt_data _ _ _ _ _ _ _ _ _ _ _ _ _ _ _ _ Hmet). }
    rewrite Hes in IHs. change (has_param (set_o_current_qty (Fin q1) x) AON) with (has_param x AON) in IHs.
    destruct (fill_level (has_param x AON) (Fin q1) (entries oh os)) as [q' rest].
    destruct IHs as (oh2&lim2&om2&E2&Hfl); try done; [|lia|simpl in Hfuel; lia|].
    { rewrite elem_of_app, elem_of_cons in Hord. rewrite !elem_of_app.
      pose proof (in_kept ord o (Fin c1)). intuition congruence. }
    exists oh2, lim2, om2. split.
    + etransitivity; [exact E1|]. rewrite E2. by rewrite insert_insert_eq.
    + by eapply level_filled_step.
Qed.
End level.
