(* ===== verification/OBBook.v ===== *)
(** * The sides of the book

    A side is a tree of limits and, for each limit, the list of the orders that rest there.
    [match_loop] is proved to compute [match_levels] on the side it is given. *)

From S2P Require Import Prelude Float RBTree RBSpec RBInsert RBIter DataTypes OrderBook OBRep OBMatch.

Abbreviation levels := (list (lid * list oid)) (only parsing).

(** ** The trees of limits *)

Section trees.
Implicit Types (b : book) (s : book_side).

Lemma limits_of_with s oh lh om b : limits_of s (with_objects oh lh om b) = limits_of s b.
Proof. by destruct s. Qed.
Lemma limits_of_price s p b : limits_of s (put_market_price p b) = limits_of s b.
Proof. by destruct s. Qed.
Lemma put_limits_id s b : put_limits s (limits_of s b) b = b.
Proof. by destruct s, b. Qed.
Lemma put_limits_with s t oh lh om b :
  put_limits s t (with_objects oh lh om b) = with_objects oh lh om (put_limits s t b).
Proof. by destruct s. Qed.

(** Reading a tree. *)
Lemma in_limits_read {A} s (op : (lid → lid → bool) → M (rbtree lid) A) oh lh om b (r : A) :
  op (LimitComparator lh (limits_asc s)) (limits_of s b) = (limits_of s b, Ret r) →
  in_limits s op (with_objects oh lh om b) = (with_objects oh lh om b, Ret r).
Proof.
  intros H. unfold in_limits. erewrite zoom_ok by (rewrite limits_of_with; exact H).
  by rewrite put_limits_with, put_limits_id.
Qed.

(** Writing it. *)
Lemma in_limits_write {A} s (op : (lid → lid → bool) → M (rbtree lid) A) oh lh om b t (r : A) :
  op (LimitComparator lh (limits_asc s)) (limits_of s b) = (t, Ret r) →
  in_limits s op (with_objects oh lh om b) = (with_objects oh lh om (put_limits s t b), Ret r).
Proof.
  intros H. unfold in_limits. erewrite zoom_ok by (rewrite limits_of_with; exact H).
  by rewrite put_limits_with.
Qed.

Lemma tree_rep_ext {T} (less less' : T → T → bool) tr its :
  (∀ a c, a ∈ its.*2 → c ∈ its.*2 → less a c = less' a c) →
  tree_rep less tr its → tree_rep less' tr its.
Proof.
  intros Hl (t&[]&<-). exists t. split; [|done]. split; try done.
  clear -Hl to_sorted. unfold keys in *. induction (items t).*2 as [|k ks IH]; [constructor|].
  apply sorted_cons in to_sorted as [Hs Hk]. apply sorted_cons. split.
  - apply IH; [|done]. intros a c Ha Hc. apply Hl; by right.
  - intros d Hd. rewrite <-Hl; [by apply Hk|left|by right].
Qed.
End trees.

(** ** Matching a side *)

Section match_side.
Variable now : Z.
Implicit Types (oh : gmap nat order) (lh : gmap nat limit) (s : book_side) (lvs : levels).

Definition lorders lvs : list oid := concat lvs.*2.
Definition lentries oh lvs : list (lid * list (oid * float)) := prod_map id (entries oh) <$> lvs.
(** The levels without the quantities. *)
Definition strip (es : list (lid * list (oid * float))) : levels := prod_map id (λ e, e.*1) <$> es.

Lemma strip_lentries oh lvs : strip (lentries oh lvs) = lvs.
Proof.
  unfold strip, lentries. rewrite <-list_fmap_compose.
  induction lvs as [|[l os] lvs IH]; [done|]. csimpl. by rewrite entries_fst, IH.
Qed.

Lemma lentries_ext oh oh' lvs :
  (∀ o, o ∈ lorders lvs → qty_at oh' o = qty_at oh o) → lentries oh' lvs = lentries oh lvs.
Proof.
  unfold lorders. induction lvs as [|[l os] lvs IH]; [done|]. csimpl. intros H.
  rewrite IH by (intros; apply H, elem_of_app; auto).
  by rewrite (entries_ext oh oh') by (intros; apply H, elem_of_app; auto).
Qed.

Lemma match_levels_ext lh lh' aon buy type price q mp es :
  (∀ l, l ∈ es.*1 → lh' !! l = lh !! l) →
  match_levels lh' aon buy type price q mp es = match_levels lh aon buy type price q mp es.
Proof.
  revert q mp. induction es as [|[l e] es IH]; intros q mp H; [done|]. cbn [match_levels].
  assert (lh' !! l = lh !! l) as Hl by (apply H; left).
  assert (∀ q mp, match_levels lh' aon buy type price q mp es
                = match_levels lh aon buy type price q mp es) as IH'.
  { intros. apply IH. intros. apply H. by right. }
  assert (volume_of lh' l = volume_of lh l) as -> by (unfold volume_of; by rewrite Hl).
  assert (price_of lh' l = price_of lh l) as -> by (unfold price_of; by rewrite Hl).
  destruct (_ && _); [by rewrite IH'|]. destruct (calculate_cross_price _ _ _ _); [|done].
  destruct (fill_level _ _ _). destruct (feqb _ _); [done|by rewrite IH'].
Qed.

(** What matching the incoming order [ord] leaves of the levels [lvs]. *)
Record side_matched oh lh om s ord x lvs q' (rest : list (lid * list (oid * float))) oh' lh' om'
    : Prop := {
  sd_shape : rest.*1 = lvs.*1;
  sd_levels : ∀ l os, (l, os) ∈ strip rest → ∃ lim, level_ok oh' lh' s l os lim;
  sd_rest : lentries oh' (strip rest) = rest;
  sd_order : oh' !! ord = Some (set_o_current_qty q' x);
  sd_frame : ∀ o, o ∉ lorders lvs → o ≠ ord → oh' !! o = oh !! o;
  sd_limits : ∀ l, l ∉ lvs.*1 → lh' !! l = lh !! l;
  sd_prices : ∀ l, l_price <$> lh' !! l = l_price <$> lh !! l;
  sd_filled : ∀ o, o ∈ lorders lvs → o ∉ lorders (strip rest) → qty_at oh' o = Fin 0;
  sd_ids : ∀ o, static_at oh' o = static_at oh o;
  sd_orders : ∀ A, NoDup (A ++ lorders lvs) → orders_ok oh om (A ++ lorders lvs) →
    orders_ok oh' om' (A ++ lorders (strip rest))
}.

Lemma side_matched_same oh lh om s ord x lvs :
  (∀ l os, (l, os) ∈ lvs → ∃ lim, level_ok oh lh s l os lim) → oh !! ord = Some x →
  side_matched oh lh om s ord x lvs (o_current_qty x) (lentries oh lvs) oh lh om.
Proof.
  intros Hl Hx. split; rewrite ?strip_lentries, ?set_qty_id; try done.
  unfold lentries. rewrite <-list_fmap_compose. by apply list_fmap_ext; intros ? [].
Qed.

(** A level in front of the rest of the side; [q1] is the incoming order's quantity between. *)
Lemma side_matched_cons oh lh om s ord x l os lim q1 es oh1 lim1 om1 lvs q' rest oh' lh' om' :
  level_filled oh lh om s l lim ord x [] os q1 es oh1 lim1 om1 →
  lh !! l = Some lim → l ∉ lvs.*1 → NoDup (os ++ lorders lvs) → ord ∉ os ++ lorders lvs →
  (es.*1 `sublist_of` os) →
  side_matched oh1 (<[l := lim1]> lh) om1 s ord (set_o_current_qty q1 x) lvs q' rest oh' lh' om' →
  side_matched oh lh om s ord x ((l, os) :: lvs) q' ((l, es) :: rest) oh' lh' om'.
Proof.
  intros [Hl Hp Hr _ Hx Hf Hfi Hi Ho] Hlim Hnl Hnd Hord Hsub [Ssh Slv Sr Sx Sf Sl Sp Sfi Si So].
  cbn [app] in *. rewrite NoDup_app in Hnd. destruct Hnd as (Hndo&Hdj&Hndl).
  assert (∀ o, o ∈ os → oh' !! o = oh1 !! o) as Hos.
  { intros o Hin. apply Sf; [by apply Hdj|]. intros ->. apply Hord, elem_of_app. auto. }
  assert (∀ o, o ∈ es.*1 → o ∈ os) as Hes by (intros o; by apply sublist_subseteq).
  split; unfold lorders; csimpl.
  - by rewrite Ssh.
  - intros l' os'. rewrite elem_of_cons. intros [[= -> ->]|Hin]; [|by apply Slv].
    exists lim1. eapply level_ok_frame; [|by apply Sl|exact Hl]. intros o Hin. by apply Hos, Hes.
  - rewrite Sr. f_equal. f_equal. rewrite <-Hr at 2. apply entries_ext. intros o Hin.
    unfold qty_at. by rewrite Hos by auto.
  - by rewrite Sx.
  - intros o Hin Hne. rewrite elem_of_app in Hin. rewrite Sf, Hf; [done|tauto|done|tauto|done].
  - intros l' Hin. rewrite elem_of_cons in Hin. rewrite Sl by tauto.
    apply lookup_insert_ne. intros ->. tauto.
  - intros l'. rewrite Sp. destruct (decide (l' = l)) as [->|Hne].
    + rewrite lookup_insert_eq, Hlim. simpl. by rewrite Hp.
    + by rewrite lookup_insert_ne.
  - intros o. rewrite !elem_of_app. intros Hin Hnin. destruct (decide (o ∈ os)) as [Ho'|Ho'].
    + unfold qty_at. rewrite Hos by done. apply Hfi; [done|]. tauto.
    + apply Sfi; [|tauto]. unfold lorders. tauto.
  - intros o. by rewrite Si, Hi.
  - intros A HndA Hok. rewrite app_assoc. apply So.
    + rewrite <-app_assoc. eapply sublist_NoDup; [exact HndA|]. apply sublist_app; [done|].
      by apply sublist_app.
    + rewrite <-app_assoc. by apply (Ho A (lorders lvs)).
Qed.

(** A level that was passed over. *)
Lemma side_matched_skip oh lh om s ord x l os lim lvs q' rest oh' lh' om' :
  level_ok oh lh s l os lim → l ∉ lvs.*1 → NoDup (os ++ lorders lvs) →
  ord ∉ os ++ lorders lvs → oh !! ord = Some x →
  side_matched oh lh om s ord x lvs q' rest oh' lh' om' →
  side_matched oh lh om s ord x ((l, os) :: lvs) q' ((l, entries oh os) :: rest) oh' lh' om'.
Proof.
  intros Hl Hnl Hnd Hord Hx Hs. eapply (side_matched_cons oh lh om s ord x l os lim).
  - eapply (level_filled_same oh lh om s l lim ord x []); [exact Hl|done].
  - apply Hl.
  - done.
  - done.
  - done.
  - by rewrite entries_fst.
  - rewrite insert_id by apply Hl. by rewrite set_qty_id.
Qed.

Lemma nodup_size oh os : NoDup os → (∀ o, o ∈ os → is_Some (oh !! o)) → length os ≤ size oh.
Proof.
  intros Hnd Ho. rewrite <-size_dom, <-(size_list_to_set (C:=gset nat) _ Hnd).
  apply subseteq_size. intros o Hin%elem_of_list_to_set. apply elem_of_dom. auto.
Qed.

Lemma process_limit_order_ok oh lh om b lim x q ord cp ch s l os :
  level_ok oh lh s l os lim → oh !! ord = Some x → ord ∉ os →
  o_current_qty x = Fin q → (0 ≤ q)%Z → fits binary32 q →
  let '(q', rest) := fill_level (has_param x AON) (Fin q) (entries oh os) in
  ∃ oh' lim' om', process_limit_order now l ord cp ch (with_objects oh lh om b)
      = (with_objects oh' (<[l := lim']> lh) om' b, Ret ch) ∧
    level_filled oh lh om s l lim ord x [] os q' rest oh' lim' om'.
Proof.
  intros Hl Hx Hord Hq Hq0 Hqf. unfold process_limit_order.
  pose proof Hl as [Hlist Hrest].
  rewrite (bind_ok _ _ _ _ _ (get_limit_ok _ _ _ _ _ _ (lv_limit _ _ _ _ _ Hlist))), bind_gets.
  rewrite (lv_head _ _ _ _ _ Hlist). apply process_loop_ok; try done.
  unfold list_fuel. simpl. apply le_n_S, nodup_size; [apply Hlist|].
  intros o (y&Hy&_)%Hrest. by eexists.
Qed.

Lemma limit_price_of lh l lim : lh !! l = Some lim → price_of lh l = l_price lim.
Proof. unfold price_of. by intros ->. Qed.
Lemma limit_volume_of lh l lim : lh !! l = Some lim → volume_of lh l = get_active_volume lim.
Proof. unfold volume_of. by intros ->. Qed.

(** The iterator moves on to the next limit. *)
Lemma next_limit {B} (K : ptr → M book B) less oh lh om b s its1 p l its2 :
  tree_rep less (limits_of s b) (its1 ++ (p, l) :: its2) →
  (it ← in_limits s (λ _, successor p); K it) (with_objects oh lh om b)
  = K (head_ptr its2) (with_objects oh lh om b).
Proof.
  intros Ht. by rewrite (bind_ok _ _ _ _ _ (in_limits_read s (λ _, successor p) oh lh om b _
    (successor_ok less _ _ _ _ _ Ht))).
Qed.

(** A turn of the loop of [match_order], at the limit [l]. *)
Ltac at_limit Ht Hlim Hx :=
  cbn [match_loop head_ptr fmap list_fmap head default fst]; unfold valid;
  rewrite bool_decide_true
    by (eapply tree_rep_not_nil; [exact Ht|]; rewrite fmap_app, elem_of_app; right; left);
  erewrite bind_ok by
    (eapply in_limits_read, tree_rep_key; [exact Ht|]; rewrite elem_of_app; right; left);
  rewrite (bind_ok _ _ _ _ _ (get_limit_ok _ _ _ _ _ _ Hlim));
  rewrite (bind_ok _ _ _ _ _ (get_order_ok _ _ _ _ _ _ Hx)).

Section turns.
Context (less : lid → lid → bool) (s : book_side) (b : book) (its1 its2 : list (nat * lid)) (p : nat).
Context (oh : gmap nat order) (lh : gmap nat limit) (om : gmap string oid) (l : lid) (lim : limit).
Context (ord : oid) (x : order) (aon buy : bool) (ty : OrderType).
Hypothesis Ht : tree_rep less (limits_of s b) (its1 ++ (p, l) :: its2).
Hypothesis Hlim : lh !! l = Some lim.
Hypothesis Hx : oh !! ord = Some x.

Lemma turn_skip fuel fl ch :
  aon && fltb (get_active_volume lim) (get_qty x) = true →
  match_loop now (S fuel) s ord aon buy ty (head_ptr ((p, l) :: its2)) fl ch (with_objects oh lh om b)
  = match_loop now fuel s ord aon buy ty (head_ptr its2) fl ch (with_objects oh lh om b).
Proof.
  intros Hs. at_limit Ht Hlim Hx. rewrite Hs. by rewrite (next_limit _ _ _ _ _ _ _ _ _ _ _ Ht).
Qed.

Lemma turn_stop fuel fl ch :
  aon && fltb (get_active_volume lim) (get_qty x) = false →
  calculate_cross_price (get_price x) (limit_get_price lim) ty buy = None →
  match_loop now (S fuel) s ord aon buy ty (head_ptr ((p, l) :: its2)) fl ch (with_objects oh lh om b)
  = (with_objects oh lh om b, Ret false).
Proof. intros Hs Hc. at_limit Ht Hlim Hx. by rewrite Hs, Hc. Qed.

Lemma turn_level fuel fl ch cp oh1 lim1 om1 x1 :
  aon && fltb (get_active_volume lim) (get_qty x) = false →
  calculate_cross_price (get_price x) (limit_get_price lim) ty buy = Some cp →
  process_limit_order now l ord cp ch (with_objects oh lh om b)
    = (with_objects oh1 (<[l := lim1]> lh) om1 b, Ret ch) → oh1 !! ord = Some x1 →
  match_loop now (S fuel) s ord aon buy ty (head_ptr ((p, l) :: its2)) fl ch (with_objects oh lh om b)
  = (if feqb (get_qty x1) (Fin 0) then mret true
     else match_loop now fuel s ord aon buy ty (head_ptr its2)
            (if limit_empty lim1 then fl ++ [l] else fl) ch)
      (with_objects oh1 (<[l := lim1]> lh) om1 (put_market_price cp b)).
Proof.
  intros Hs Hc E Hx1. at_limit Ht Hlim Hx. rewrite Hs, Hc. rewrite (bind_ok _ _ _ _ _ E). ob_step.
  unfold set_market_price. rewrite bind_modify.
  change (put_market_price cp (with_objects oh1 (<[l := lim1]> lh) om1 b))
    with (with_objects oh1 (<[l := lim1]> lh) om1 (put_market_price cp b)).
  rewrite (bind_ok _ _ _ _ _ (get_order_ok _ _ _ _ _ _ Hx1)). destruct (feqb _ _); [done|].
  rewrite <-(limits_of_price s cp b) in Ht. by rewrite (next_limit _ _ _ _ _ _ _ _ _ _ _ Ht).
Qed.

(** With the level's orders. *)
Lemma turn_fills fuel fl ch cp q os q1 es1 :
  aon && fltb (get_active_volume lim) (get_qty x) = false →
  calculate_cross_price (get_price x) (limit_get_price lim) ty buy = Some cp →
  level_ok oh lh s l os lim → ord ∉ os → o_current_qty x = Fin q → (0 ≤ q)%Z → fits binary32 q →
  fill_level (has_param x AON) (Fin q) (entries oh os) = (q1, es1) →
  ∃ oh1 lim1 om1,
    match_loop now (S fuel) s ord aon buy ty (head_ptr ((p, l) :: its2)) fl ch (with_objects oh lh om b)
    = (if feqb q1 (Fin 0) then mret true
       else match_loop now fuel s ord aon buy ty (head_ptr its2)
              (if limit_empty lim1 then fl ++ [l] else fl) ch)
        (with_objects oh1 (<[l := lim1]> lh) om1 (put_market_price cp b)) ∧
    level_filled oh lh om s l lim ord x [] os q1 es1 oh1 lim1 om1.
Proof.
  intros Hs Hc Hl Hord Hq Hq0 Hqf Hfill.
  pose proof (process_limit_order_ok oh lh om b lim x q ord cp ch s l os Hl Hx Hord Hq Hq0 Hqf) as Hp.
  rewrite Hfill in Hp. destruct Hp as (oh1&lim1&om1&E1&Hlf). exists oh1, lim1, om1. split; [|exact Hlf].
  by rewrite (turn_level fuel fl ch cp oh1 lim1 om1 (set_o_current_qty q1 x) Hs Hc E1
    (lf_order _ _ _ _ _ _ _ _ _ _ _ _ _ _ _ Hlf)).
Qed.
End turns.

(** The levels [lvs] can be matched with the order [ord]. *)
Record matchable oh lh s (ord : oid) lvs : Prop := {
  ma_levels : ∀ l os, (l, os) ∈ lvs → ∃ lim, level_ok oh lh s l os lim;
  ma_limits : NoDup lvs.*1;
  ma_orders : NoDup (lorders lvs);
  ma_new : ord ∉ lorders lvs
}.

Lemma matchable_cons oh lh s ord l os lvs :
  matchable oh lh s ord ((l, os) :: lvs) →
  (∃ lim, level_ok oh lh s l os lim) ∧ (l ∉ lvs.*1) ∧ NoDup (os ++ lorders lvs) ∧
  (ord ∉ os ++ lorders lvs) ∧ matchable oh lh s ord lvs.
Proof.
  intros [Hlv Hnl Hnd Hord]. csimpl in Hnl. apply NoDup_cons in Hnl as [Hl Hnl].
  unfold lorders in Hnd, Hord. csimpl in Hnd. csimpl in Hord.
  fold (lorders lvs) in Hnd, Hord. split_and!; try done; [apply Hlv; left|].
  split; [intros; apply Hlv; by right|done|by apply NoDup_app in Hnd as (_&_&?)|].
  intros Hin. apply Hord, elem_of_app. auto.
Qed.

(** Filling a level leaves the others as they are. *)
Lemma matchable_filled oh lh om s ord x l os lim q1 es oh1 lim1 om1 lvs :
  level_filled oh lh om s l lim ord x [] os q1 es oh1 lim1 om1 → l ∉ lvs.*1 →
  NoDup (os ++ lorders lvs) → matchable oh lh s ord lvs →
  matchable oh1 (<[l := lim1]> lh) s ord lvs ∧ lentries oh1 lvs = lentries oh lvs.
Proof.
  intros Hlf Hl Hnd [Hlv Hnl Hndl Hord].
  assert (∀ o, o ∈ lorders lvs → oh1 !! o = oh !! o) as Hfr.
  { intros o Ho. apply (lf_frame _ _ _ _ _ _ _ _ _ _ _ _ _ _ _ Hlf); [|by intros ->].
    apply NoDup_app in Hnd as (_&Hd&_). intros Ho'. by apply (Hd o). }
  split; [split; try done|].
  - intros l' os' Hin. destruct (Hlv l' os' Hin) as [lim' Hl']. exists lim'.
    eapply level_ok_frame; [| |exact Hl'].
    + intros o Ho. apply Hfr. unfold lorders. apply list_elem_of_In, in_concat. exists os'.
      rewrite <-!list_elem_of_In. split; [|done]. apply list_elem_of_fmap. by eexists (_, _).
    + apply lookup_insert_ne. intros <-. apply Hl, list_elem_of_fmap. by eexists (_, _).
  - apply lentries_ext. intros o Ho. unfold qty_at. by rewrite Hfr.
Qed.

(** What the loop does from an iterator at the levels [lvs] on. *)
Definition loop_matches fuel s b (ord : oid) x q (its2 : list (ptr * lid)) lvs oh lh om fl ch : Prop :=
  let '(q', mp, rest) := match_levels lh (has_param x AON) (is_buy x) (get_type x) (get_price x)
    (Fin q) (b_market_price b) (lentries oh lvs) in
  ∃ oh' lh' om', match_loop now fuel s ord (has_param x AON) (is_buy x) (get_type x)
      (head_ptr its2) fl ch (with_objects oh lh om b)
      = (with_objects oh' lh' om' (put_market_price mp b), Ret (feqb q' (Fin 0))) ∧
    side_matched oh lh om s ord x lvs q' rest oh' lh' om'.
(** Where the loop stands and what it can rely on. *)
Record loop_at (less : lid → lid → bool) s b (ord : oid) x q its1 its2 (lvs : levels) oh lh : Prop := {
  lp_tree : tree_rep less (limits_of s b) (its1 ++ its2);
  lp_levels : its2.*2 = lvs.*1;
  lp_matchable : matchable oh lh s ord lvs;
  lp_order : oh !! ord = Some x;
  lp_qty : o_current_qty x = Fin q;
  lp_pos : (0 < q)%Z;
  lp_fits : fits binary32 q
}.
Definition loop_ok lvs : Prop :=
  ∀ fuel less s its1 its2 oh lh om b ord x q fl ch,
    loop_at less s b ord x q its1 its2 lvs oh lh → length lvs < fuel →
    loop_matches fuel s b ord x q its2 lvs oh lh om fl ch.

Section first_level.
Context (less : lid → lid → bool) (s : book_side) (b : book) (ord : oid) (x : order) (q : Z).
Context (its1 its2 : list (ptr * lid)) (p : ptr) (l : lid) (os : list oid) (lvs : levels).
Context (oh : gmap nat order) (lh : gmap nat limit) (om : gmap string oid).
Hypothesis Hat : loop_at less s b ord x q its1 ((p, l) :: its2) ((l, os) :: lvs) oh lh.

Lemma at_next : loop_at less s b ord x q (its1 ++ [(p, l)]) its2 lvs oh lh.
Proof using Hat.
  destruct Hat as [Ht Hits Hma ? ? ? ?]. apply matchable_cons in Hma as (_&_&_&_&Hma).
  split; try done; [by rewrite <-app_assoc|]. csimpl in Hits. by injection Hits.
Qed.

(** A level that is too small for an all-or-none order. *)
Lemma loop_skips lim fuel fl ch :
  loop_ok lvs → length lvs < fuel → level_ok oh lh s l os lim →
  has_param x AON && fltb (get_active_volume lim) (get_qty x) = true →
  loop_matches (S fuel) s b ord x q ((p, l) :: its2) ((l, os) :: lvs) oh lh om fl ch.
Proof using Hat.
  intros IH Hfuel Hl Hskip. pose proof (IH fuel _ _ _ _ _ _ om _ _ _ _ fl ch at_next Hfuel) as IHs.
  destruct Hat as [Ht _ Hma Hx Hq _ _].
  apply matchable_cons in Hma as (_&Hnl&Hnd&Hord&_). pose proof (lv_limit _ _ _ _ _ (proj1 Hl)) as Hlim.
  unfold loop_matches in *. rewrite <-Hq in *.
  change (lentries oh ((l, os) :: lvs)) with ((l, entries oh os) :: lentries oh lvs).
  cbn [match_levels]. rewrite (limit_volume_of _ _ _ Hlim).
  change (o_current_qty x) with (get_qty x) in *. rewrite Hskip.
  destruct (match_levels lh _ _ _ _ _ _ (lentries oh lvs)) as [[q' mp] rest].
  destruct IHs as (oh'&lh'&om'&E&Hm). exists oh', lh', om'.
  rewrite (turn_skip less s b its1 its2 p oh lh om l lim ord x) by done.
  split; [exact E|]. by eapply side_matched_skip.
Qed.

(** A level whose price does not match. *)
Lemma loop_stops lim fuel fl ch :
  level_ok oh lh s l os lim →
  has_param x AON && fltb (get_active_volume lim) (get_qty x) = false →
  calculate_cross_price (get_price x) (limit_get_price lim) (get_type x) (is_buy x) = None →
  loop_matches (S fuel) s b ord x q ((p, l) :: its2) ((l, os) :: lvs) oh lh om fl ch.
Proof using Hat.
  intros Hl Hskip Hcp. destruct Hat as [Ht _ Hma Hx Hq Hq0 _].
  pose proof (lv_limit _ _ _ _ _ (proj1 Hl)) as Hlim. unfold loop_matches. rewrite <-Hq.
  change (lentries oh ((l, os) :: lvs)) with ((l, entries oh os) :: lentries oh lvs).
  cbn [match_levels]. rewrite (limit_volume_of _ _ _ Hlim), (limit_price_of _ _ _ Hlim).
  change (o_current_qty x) with (get_qty x). rewrite Hskip.
  change (l_price lim) with (limit_get_price lim). rewrite Hcp. exists oh, lh, om.
  split; [|apply (side_matched_same oh lh om s ord x ((l, os) :: lvs)); [apply Hma|done]].
  rewrite (turn_stop less s b its1 its2 p oh lh om l lim ord x) by done.
  unfold get_qty. rewrite Hq. simpl. destruct (Z.eqb_spec q 0); [lia|]. by destruct b.
Qed.

(** A level that fills a part of the order or all of it. *)
Lemma loop_fills lim cp fuel fl ch :
  loop_ok lvs → length lvs < fuel → level_ok oh lh s l os lim →
  has_param x AON && fltb (get_active_volume lim) (get_qty x) = false →
  calculate_cross_price (get_price x) (limit_get_price lim) (get_type x) (is_buy x) = Some cp →
  loop_matches (S fuel) s b ord x q ((p, l) :: its2) ((l, os) :: lvs) oh lh om fl ch.
Proof using Hat.
  intros IH Hfuel Hl Hskip Hcp. pose proof at_next as Hn. destruct Hat as [Ht _ Hma Hx Hq Hq0 Hqf].
  apply matchable_cons in Hma as (_&Hnl&Hnd&Hord&Hma). rewrite elem_of_app in Hord.
  pose proof (lv_limit _ _ _ _ _ (proj1 Hl)) as Hlim. unfold loop_matches. rewrite <-Hq.
  change (lentries oh ((l, os) :: lvs)) with ((l, entries oh os) :: lentries oh lvs).
  cbn [match_levels]. rewrite (limit_volume_of _ _ _ Hlim), (limit_price_of _ _ _ Hlim).
  change (o_current_qty x) with (get_qty x). rewrite Hskip.
  change (l_price lim) with (limit_get_price lim). rewrite Hcp.
  destruct (fill_level_ok (has_param x AON) q (entries oh os) ltac:(lia) Hqf
    (level_entries _ _ _ _ _ _ Hl)) as (q1&es1&Hfill&Hq1&Hq1f&_&Hsub&_).
  rewrite entries_fst in Hsub.
  destruct (turn_fills less s b its1 its2 p oh lh om l lim ord x _ _ _ Ht Hlim Hx fuel fl ch cp q os
    _ _ Hskip Hcp Hl ltac:(tauto) Hq ltac:(lia) Hqf Hfill) as (oh1&lim1&om1&E1&Hlf).
  unfold get_qty. rewrite Hq, Hfill.
  destruct (matchable_filled _ _ _ _ _ _ _ _ _ _ _ _ _ _ _ Hlf Hnl Hnd Hma) as [Hma1 Hes].
  pose proof (lf_order _ _ _ _ _ _ _ _ _ _ _ _ _ _ _ Hlf) as Hx1.
  rewrite E1. destruct (feqb (Fin q1) (Fin 0)) eqn:Hz.
  - exists oh1, (<[l := lim1]> lh), om1. rewrite Hz. split; [done|].
    eapply side_matched_cons; try done; [by rewrite elem_of_app|]. rewrite <-Hes.
    by apply (side_matched_same oh1 (<[l := lim1]> lh) om1 s ord
      (set_o_current_qty (Fin q1) x) lvs (ma_levels _ _ _ _ _ Hma1)).
  - assert (loop_at less s (put_market_price cp b) ord (set_o_current_qty (Fin q1) x) q1
      (its1 ++ [(p, l)]) its2 lvs oh1 (<[l := lim1]> lh)) as Hat1.
    { split; try done; [rewrite limits_of_price; apply Hn|apply Hn|simpl in Hz; lia]. }
    pose proof (IH fuel _ _ _ _ _ _ om1 _ _ _ _
      (if limit_empty lim1 then fl ++ [l] else fl) ch Hat1 Hfuel) as IHs. unfold loop_matches in IHs.
    rewrite match_levels_ext with (lh := lh), Hes in IHs.
    2: { intros l' Hin. apply lookup_insert_ne. intros ->. apply Hnl.
         unfold lentries in Hin. by rewrite <-list_fmap_compose in Hin. }
    change (match_levels lh _ _ _ _ _ _ (lentries oh lvs)) with
      (match_levels lh (has_param x AON) (is_buy x) (get_type x) (get_price x) (Fin q1) cp
        (lentries oh lvs)) in IHs.
    destruct (match_levels lh _ _ _ _ (Fin q1) cp (lentries oh lvs)) as [[q' mp] rest].
    destruct IHs as (oh'&lh'&om'&E&Hm). exists oh', lh', om'. split; [exact E|].
    eapply side_matched_cons; try done. by rewrite elem_of_app.
Qed.
End first_level.

Lemma match_loops lvs : loop_ok lvs.
Proof.
  induction lvs as [|[l os] lvs IH]; intros fuel less s its1 its2 oh lh om b ord x q fl ch Hat Hfuel;
    (destruct fuel as [|fuel]; [simpl in Hfuel; lia|]).
  - destruct Hat as [_ Hits Hma Hx Hq Hq0 _]. apply fmap_nil_inv in Hits as ->. unfold loop_matches.
    cbn [match_loop match_levels lentries fmap list_fmap]. exists oh, lh, om.
    split; [|rewrite <-Hq; exact (side_matched_same oh lh om s ord x [] (ma_levels _ _ _ _ _ Hma) Hx)].
    simpl. destruct (Z.eqb_spec q 0); [lia|]. by destruct b.
  - pose proof (lp_levels _ _ _ _ _ _ _ _ _ _ _ Hat) as Hits.
    destruct its2 as [|[p l'] its2]; [done|]. csimpl in Hits. injection Hits as -> Hits.
    destruct (ma_levels _ _ _ _ _ (lp_matchable _ _ _ _ _ _ _ _ _ _ _ Hat) l os) as [lim Hl]; [left|].
    assert (length lvs < fuel) by (simpl in Hfuel; lia).
    destruct (has_param x AON && fltb (get_active_volume lim) (get_qty x)) eqn:Hskip;
      [by eapply loop_skips|].
    destruct (calculate_cross_price (get_price x) (limit_get_price lim) (get_type x) (is_buy x)) eqn:Hcp;
      [by eapply loop_fills|by eapply loop_stops].
Qed.

Lemma match_loop_ok lvs fuel less s its1 its2 oh lh om b ord x q fl ch :
  tree_rep less (limits_of s b) (its1 ++ its2) → its2.*2 = lvs.*1 → length lvs < fuel →
  matchable oh lh s ord lvs →
  oh !! ord = Some x → o_current_qty x = Fin q → (0 < q)%Z → fits binary32 q →
  let '(q', mp, rest) := match_levels lh (has_param x AON) (is_buy x) (get_type x) (get_price x)
    (Fin q) (b_market_price b) (lentries oh lvs) in
  ∃ oh' lh' om', match_loop now fuel s ord (has_param x AON) (is_buy x) (get_type x)
      (head_ptr its2) fl ch (with_objects oh lh om b)
      = (with_objects oh' lh' om' (put_market_price mp b), Ret (feqb q' (Fin 0))) ∧
    side_matched oh lh om s ord x lvs q' rest oh' lh' om'.
Proof. intros Ht Hits Hfuel Hma Hx Hq Hq0 Hqf. by apply (match_loops lvs fuel less s its1). Qed.
End match_side.
