(* ===== verification/OBOps.v ===== *)
(** * Sides of the book as the operations see them

    [side_ok b s lvs]: the side [s] of the book [b] holds the levels [lvs].  The comparison of
    limits is a strict order of their prices, [add_limit_order] puts an order into the level of
    its price or makes that level, and matching leaves a well-formed side.  The file ends with
    facts about the specification [match_levels]. *)

From S2P Require Import Prelude Float RBTree RBSpec RBInsert RBIter DataTypes OrderBook OBRep OBMatch OBBook.

(** ** Comparing limits *)

Section comparing.
Implicit Types (lh : gmap nat limit) (s : book_side).

Definition priced lh (l : lid) : Prop := is_nan (price_of lh l) = false.

#[export] Instance LimitComparator_StrictWeak lh asc : StrictWeak (priced lh) (LimitComparator lh asc).
Proof.
  destruct asc; unfold LimitComparator.
  - by apply (StrictWeak_map (λ x, is_nan x = false)); [apply _|].
  - apply (StrictWeak_map (λ x, is_nan x = false) _ (λ x y, fltb y x) (price_of lh)); [|done].
    apply StrictWeak_flip, _.
Qed.

Lemma price_of_ext lh lh' l : l_price <$> lh' !! l = l_price <$> lh !! l → price_of lh' l = price_of lh l.
Proof.
  unfold price_of. destruct (lh' !! l) as [x|], (lh !! l) as [y|]; simpl; try done.
  by intros [= ?].
Qed.

Lemma LimitComparator_ext lh lh' asc l1 l2 :
  (∀ l, l_price <$> lh' !! l = l_price <$> lh !! l) →
  LimitComparator lh' asc l1 l2 = LimitComparator lh asc l1 l2.
Proof.
  intros H. unfold LimitComparator. by rewrite !(price_of_ext lh lh') by auto.
Qed.

(** The order's price [p] does not reach the opposite limit's price [pl]. *)
Definition beyond (buy : bool) (p pl : float) : bool := if buy then fltb p pl else fltb pl p.

Lemma cross_price_None p pl type buy :
  calculate_cross_price p pl type buy = None ↔ beyond buy p pl = true.
Proof.
  unfold calculate_cross_price, beyond.
  destruct buy; simpl; rewrite ?orb_false_r; destruct (fltb _ _), type; by split.
Qed.

Lemma opposite_less lh buy l1 l2 :
  LimitComparator lh (limits_asc (opposite_side buy)) l1 l2
  = beyond buy (price_of lh l1) (price_of lh l2).
Proof. by destruct buy. Qed.

Lemma beyond_trans buy p1 p2 p3 :
  is_nan p1 = false → is_nan p2 = false → is_nan p3 = false →
  beyond buy p1 p2 = true → beyond buy p2 p3 = true → beyond buy p1 p3 = true.
Proof.
  intros H1 H2 H3. destruct buy; simpl.
  - by apply (sw_trans (P := λ x, is_nan x = false)).
  - intros Ha Hb. by apply (sw_trans (P := λ x, is_nan x = false) p3 p2 p1).
Qed.
End comparing.

(** ** Sides *)

Section sides.
Implicit Types (oh : gmap nat order) (lh : gmap nat limit) (s : book_side) (lvs : levels).

Record side_ok oh lh s (tr : rbtree lid) lvs : Prop := {
  si_tree : ∃ its, tree_rep (LimitComparator lh (limits_asc s)) tr its ∧ its.*2 = lvs.*1;
  si_levels : ∀ l os, (l, os) ∈ lvs → ∃ lim, level_ok oh lh s l os lim
}.

Lemma in_levels l lvs : l ∈ lvs.*1 ↔ ∃ os, (l, os) ∈ lvs.
Proof.
  rewrite list_elem_of_fmap. split.
  - intros ([l' os]&->&H). eauto.
  - intros [os H]. by exists (l, os).
Qed.

Lemma in_lorders o lvs : o ∈ lorders lvs ↔ ∃ l os, (l, os) ∈ lvs ∧ o ∈ os.
Proof.
  unfold lorders. rewrite list_elem_of_In, in_concat. split.
  - intros (os&Hin&Ho). apply list_elem_of_In in Hin, Ho.
    apply list_elem_of_fmap in Hin as ([l os']&->&Hin). eauto.
  - intros (l&os&Hin&Ho). exists os. rewrite <-!list_elem_of_In. split; [|done].
    apply list_elem_of_fmap. by exists (l, os).
Qed.

Lemma side_priced oh lh s tr lvs : side_ok oh lh s tr lvs → Forall (priced lh) lvs.*1.
Proof.
  intros [_ Hl]. apply Forall_forall. intros l [os Hin]%in_levels.
  destruct (Hl l os Hin) as (lim&[Hlist _]). unfold priced.
  rewrite (limit_price_of _ _ _ (lv_limit _ _ _ _ _ Hlist)). by apply (lv_price _ _ _ _ _ Hlist).
Qed.

Lemma sorted_nodup {A} (P : A → Prop) less `{!StrictWeak P less} (l : list A) :
  Forall P l → sorted less l → NoDup l.
Proof.
  induction l as [|a l IH]; intros HP Hs; [constructor|].
  apply Forall_cons in HP as [Ha HP]. apply sorted_cons in Hs as [Hs Hal]. constructor; [|auto].
  intros Hin. specialize (Hal a Hin). by rewrite (sw_irrefl a Ha) in Hal.
Qed.

Lemma side_sorted oh lh s tr lvs :
  side_ok oh lh s tr lvs → sorted (LimitComparator lh (limits_asc s)) lvs.*1.
Proof. intros [(its&(t&Ht&<-)&Heq) _]. rewrite <-Heq. apply (to_sorted _ _ _ Ht). Qed.

Lemma side_nodup oh lh s tr lvs : side_ok oh lh s tr lvs → NoDup lvs.*1.
Proof.
  intros H. apply (sorted_nodup (priced lh) (LimitComparator lh (limits_asc s))); [by eapply side_priced|by eapply side_sorted].
Qed.

(** A side other objects of which changed. *)
Lemma side_ok_frame oh oh' lh lh' s tr lvs :
  (∀ o, o ∈ lorders lvs → oh' !! o = oh !! o) → (∀ l, l ∈ lvs.*1 → lh' !! l = lh !! l) →
  side_ok oh lh s tr lvs → side_ok oh' lh' s tr lvs.
Proof.
  intros Ho Hl [(its&Ht&Heq) Hlv]. split.
  - exists its. split; [|done]. eapply tree_rep_ext; [|exact Ht]. intros a c. rewrite Heq.
    intros Ha Hc. unfold LimitComparator, price_of. by rewrite !Hl.
  - intros l os Hin. destruct (Hlv l os Hin) as [lim Hok]. exists lim.
    eapply level_ok_frame; [| |exact Hok].
    + intros o Hos. apply Ho, in_lorders. eauto.
    + apply Hl, in_levels. eauto.
Qed.

Lemma side_ok_matched oh lh om s tr ord x lvs q' rest oh' lh' om' :
  side_ok oh lh s tr lvs → side_matched oh lh om s ord x lvs q' rest oh' lh' om' →
  side_ok oh' lh' s tr (strip rest).
Proof.
  intros [(its&Ht&Heq) _] Hm. split; [|apply (sd_levels _ _ _ _ _ _ _ _ _ _ _ _ Hm)].
  exists its. split.
  - eapply tree_rep_ext; [|exact Ht]. intros a c _ _. symmetry. apply LimitComparator_ext.
    apply (sd_prices _ _ _ _ _ _ _ _ _ _ _ _ Hm).
  - rewrite Heq, <-(sd_shape _ _ _ _ _ _ _ _ _ _ _ _ Hm). unfold strip.
    by rewrite <-list_fmap_compose.
Qed.
End sides.

(** ** Resting an order *)

Section resting.
Implicit Types (oh : gmap nat order) (lh : gmap nat limit) (s : book_side) (lvs : levels).

(** The order [ord] with the limit [new] of its price: at the end of its level's list, or in a
    new level at the place of its price. *)
Fixpoint rest_order (less : lid → lid → bool) (new : lid) (ord : oid) lvs : levels :=
  match lvs with
  | [] => [(new, [ord])]
  | (l, os) :: lvs =>
      if less new l then (new, [ord]) :: (l, os) :: lvs
      else if less l new then (l, os) :: rest_order less new ord lvs
      else (l, os ++ [ord]) :: lvs
  end.

Lemma rest_order_cases less new ord lvs :
  (∃ l1 l0 os l2, lvs = l1 ++ (l0, os) :: l2 ∧ sfind less new lvs.*1 = Some l0 ∧
     rest_order less new ord lvs = l1 ++ (l0, os ++ [ord]) :: l2 ∧
     less new l0 = false ∧ less l0 new = false) ∨
  (∃ l1 l2, lvs = l1 ++ l2 ∧ sfind less new lvs.*1 = None ∧
     rest_order less new ord lvs = l1 ++ (new, [ord]) :: l2 ∧
     sinsert less new lvs.*1 = l1.*1 ++ new :: l2.*1).
Proof.
  induction lvs as [|[l os] lvs IH]; csimpl.
  { right. by exists [], []. }
  destruct (less new l) eqn:H1.
  { right. by exists [], ((l, os) :: lvs). }
  destruct (less l new) eqn:H2.
  - destruct IH as [(l1&l0&os0&l2&->&?&->&?&?)|(l1&l2&->&?&->&?)].
    + left. by exists ((l, os) :: l1), l0, os0, l2.
    + right. exists ((l, os) :: l1), l2. csimpl. split_and!; try done. by f_equal.
  - left. by exists [], l, os, lvs.
Qed.

Lemma lorders_app l1 l2 : lorders (l1 ++ l2) = lorders l1 ++ lorders l2.
Proof. unfold lorders. by rewrite fmap_app, concat_app. Qed.
Lemma lorders_cons l os lvs : lorders ((l, os) :: lvs) = os ++ lorders lvs.
Proof. done. Qed.

Lemma rest_order_lorders less new ord lvs :
  lorders (rest_order less new ord lvs) ≡ₚ ord :: lorders lvs.
Proof.
  induction lvs as [|[l os] lvs IH]; [done|]. simpl.
  destruct (less new l); [done|]. rewrite !lorders_cons.
  destruct (less l new); rewrite lorders_cons.
  - by rewrite IH, Permutation_middle.
  - rewrite <-app_assoc. simpl. by rewrite Permutation_middle.
Qed.

(** What the incoming order must be like. *)
Record restable s (p : float) (x : order) : Prop := {
  rt_price : o_price x = p;
  rt_side : is_buy x = bool_decide (s = Bids);
  rt_qty : qty_ok (o_current_qty x);
  rt_live : o_cancelled x = false;
  rt_params : has_param x FOK = false;
  rt_prev : o_prev x = None;
  rt_next : o_next x = None
}.

Lemma restable_rests s p x l pr nx :
  restable s p x → rests s l p (set_o_links pr nx (set_limit_parent l x)).
Proof. intros []. by split. Qed.

Record rested oh lh s (new : lid) (ord : oid) (x : order) lvs oh' lh' tr' : Prop := {
  rd_side : side_ok oh' lh' s tr' (rest_order (LimitComparator lh (limits_asc s)) new ord lvs);
  rd_data : ∀ o, o ≠ ord → data oh' o = data oh o;
  rd_frame : ∀ o, o ∉ lorders lvs → o ≠ ord → oh' !! o = oh !! o;
  rd_limits : ∀ l, l ∉ lvs.*1 → l ≠ new → lh' !! l = lh !! l;
  rd_prices : ∀ l, l_price <$> lh' !! l = l_price <$> lh !! l;
  rd_order : ∃ l p n, oh' !! ord = Some (set_o_links p n (set_limit_parent l x))
}.

Lemma same_price lh asc l1 l2 :
  priced lh l1 → priced lh l2 → LimitComparator lh asc l1 l2 = false →
  LimitComparator lh asc l2 l1 = false → price_of lh l1 = price_of lh l2.
Proof.
  unfold priced, LimitComparator. intros H1 H2 H3 H4. apply feqb_eq. rewrite feqb_spec by done.
  destruct asc; by rewrite H3, H4.
Qed.

Lemma nodup_other l1 l os l2 l' os' :
  NoDup (l1 ++ (l, os) :: l2).*1 → NoDup (lorders (l1 ++ (l, os) :: l2)) →
  (l', os') ∈ l1 ++ l2 → l' ≠ l ∧ ∀ o, o ∈ os' → o ∉ os.
Proof.
  rewrite fmap_app, lorders_app, lorders_cons. csimpl. rewrite !NoDup_app, NoDup_cons.
  intros (_&Hd&Hl&_) (_&Hd1&_&Hd2&_) Hin. apply elem_of_app in Hin as [Hin|Hin].
  - split.
    + intros ->. apply (Hd l); [apply in_levels; eauto|left].
    + intros o Ho Ho'. apply (Hd1 o); [apply in_lorders; eauto|]. apply elem_of_app. auto.
  - split.
    + intros ->. apply Hl, in_levels. eauto.
    + intros o Ho Ho'. apply (Hd2 o); [done|]. apply in_lorders. eauto.
Qed.

Lemma in_middle {A} (x y : A) l1 l2 : y ∈ l1 ++ x :: l2 ↔ y = x ∨ y ∈ l1 ++ l2.
Proof. rewrite !elem_of_app, elem_of_cons. tauto. Qed.

(** The level the order joined. *)
Lemma level_joined oh oh' lh s l os lim ord x p :
  level_ok oh lh s l os lim → restable s p x → l_price lim = p → ord ∉ os →
  seg oh' None (os ++ [ord]) None →
  oh' !! ord = Some (set_o_links (last_of None os) None (set_limit_parent l x)) →
  (∀ o', o' ≠ ord → data oh' o' = data oh o') →
  let lim' := appended (o_current_qty x) (os ++ [ord]) lim in
  level_ok oh' (<[l := lim']> lh) s l (os ++ [ord]) lim'.
Proof.
  intros [Hlist Hrest] Hx Hp Hnin Hseg Hord Hd lim'. split.
  - split; try done; [by rewrite lookup_insert_eq|by apply (lv_price _ _ _ _ _ Hlist)|].
    apply NoDup_app. split; [apply Hlist|]. split; [|apply NoDup_singleton].
    by intros o Ho ->%list_elem_of_singleton.
  - intros o [Ho| ->%list_elem_of_singleton]%elem_of_app.
    + eapply resting_data; [|by apply Hrest]. apply Hd. by intros ->.
    + eexists. split; [exact Hord|]. apply restable_rests. unfold lim'. simpl. by rewrite Hp.
Qed.

(** The levels that the order did not join. *)
Lemma level_kept oh oh' lh lim' s l1 l0 os l2 ord l os' lim :
  NoDup (l1 ++ (l0, os) :: l2).*1 → NoDup (lorders (l1 ++ (l0, os) :: l2)) →
  ord ∉ lorders (l1 ++ (l0, os) :: l2) → (∀ o, o ∉ os ++ [ord] → oh' !! o = oh !! o) →
  (l, os') ∈ l1 ++ l2 → level_ok oh lh s l os' lim →
  level_ok oh' (<[l0 := lim']> lh) s l os' lim.
Proof.
  intros Hndl Hnd Hord Hfr Hin Hlo. destruct (nodup_other _ _ _ _ _ _ Hndl Hnd Hin) as [Hne Hno].
  eapply level_ok_frame; [|by apply lookup_insert_ne|exact Hlo].
  intros o Ho. apply Hfr. rewrite elem_of_app, list_elem_of_singleton. intros [?| ->]; [by apply (Hno o)|].
  apply Hord, in_lorders. exists l, os'. split; [|done]. apply in_middle. auto.
Qed.

(** The tree of limits, when prices stay what they are. *)
Lemma tree_rep_prices lh lh' asc tr its :
  (∀ l, l_price <$> lh' !! l = l_price <$> lh !! l) →
  tree_rep (LimitComparator lh asc) tr its → tree_rep (LimitComparator lh' asc) tr its.
Proof.
  intros Hp. apply tree_rep_ext. intros a c _ _. symmetry. by apply LimitComparator_ext.
Qed.

Lemma prices_insert lh l (lim lim' : limit) :
  lh !! l = Some lim → l_price lim' = l_price lim →
  ∀ l', l_price <$> (<[l := lim']> lh) !! l' = l_price <$> lh !! l'.
Proof.
  intros Hl Hp l'. destruct (decide (l' = l)) as [->|Hne].
  - rewrite lookup_insert_eq, Hl. simpl. by rewrite Hp.
  - by rewrite lookup_insert_ne.
Qed.

(** The order at the end of the list of the level [l0]. *)
Lemma joined_rested oh oh' lh s tr lvs l1 l0 os l2 new ord x lim0 :
  side_ok oh lh s tr lvs → NoDup (lorders lvs) → ord ∉ lorders lvs →
  lvs = l1 ++ (l0, os) :: l2 →
  rest_order (LimitComparator lh (limits_asc s)) new ord lvs = l1 ++ (l0, os ++ [ord]) :: l2 →
  level_ok oh lh s l0 os lim0 → restable s (l_price lim0) x →
  seg oh' None (os ++ [ord]) None →
  oh' !! ord = Some (set_o_links (last_of None os) None (set_limit_parent l0 x)) →
  (∀ o', o' ≠ ord → data oh' o' = data oh o') →
  (∀ o', o' ∉ os ++ [ord] → oh' !! o' = oh !! o') →
  rested oh lh s new ord x lvs oh'
    (<[l0 := appended (o_current_qty x) (os ++ [ord]) lim0]> lh) tr.
Proof.
  intros Hs Hnd Hord Heq Hrest Hl0 Hr Hseg Hx' Hd Hfr.
  pose proof (side_nodup _ _ _ _ _ Hs) as Hndl. destruct Hs as [(its&Ht&Hits) Hlv].
  assert ((l0, os) ∈ lvs) as Hin0 by (rewrite Heq; apply in_middle; auto).
  pose proof (prices_insert lh l0 lim0 (appended (o_current_qty x) (os ++ [ord]) lim0)
    (lv_limit _ _ _ _ _ (proj1 Hl0)) eq_refl) as Hprices.
  split; try done.
  - rewrite Hrest. split.
    + exists its. split; [by apply (tree_rep_prices lh)|]. by rewrite Hits, Heq, !fmap_app.
    + intros l os' [[= -> ->]|Hin]%in_middle.
      * eexists. eapply level_joined; try done. intros Hin. apply Hord, in_lorders. eauto.
      * destruct (Hlv l os') as [lim Hlo]; [rewrite Heq; apply in_middle; auto|].
        exists lim. subst lvs. by eapply level_kept.
  - intros o Hin Hne. apply Hfr. rewrite elem_of_app, list_elem_of_singleton.
    intros [Ho|?]; [|done]. apply Hin, in_lorders. eauto.
  - intros l Hin Hne. apply lookup_insert_ne. intros <-. apply Hin, in_levels. eauto.
  - eauto.
Qed.

(** The order in the new level [new]. *)
Lemma opened_rested oh lh s tr tr' its' lvs l1 l2 new ord x p :
  side_ok oh lh s tr lvs → ord ∉ lorders lvs → lvs = l1 ++ l2 →
  rest_order (LimitComparator lh (limits_asc s)) new ord lvs = l1 ++ (new, [ord]) :: l2 →
  tree_rep (LimitComparator lh (limits_asc s)) tr' its' → its'.*2 = l1.*1 ++ new :: l2.*1 →
  restable s p x → is_nan p = false → lh !! new = Some (new_limit p) → new ∉ lvs.*1 →
  rested oh lh s new ord x lvs (<[ord := set_limit_parent new x]> oh)
    (<[new := appended (o_current_qty x) [ord] (new_limit p)]> lh) tr'.
Proof.
  intros Hs Hord Heq Hrest Ht' Hits' Hr Hp Hnew Hnl.
  pose proof (prices_insert lh new (new_limit p) (appended (o_current_qty x) [ord] (new_limit p))
    Hnew eq_refl) as Hprices.
  assert (set_limit_parent new x = set_o_links None None (set_limit_parent new x)) as Hlinks.
  { destruct Hr. destruct x; simpl in *. by subst. }
  split; try done.
  - rewrite Hrest. split.
    + exists its'. split; [by apply (tree_rep_prices lh)|]. by rewrite Hits', fmap_app.
    + intros l os' [[= -> ->]|Hin]%in_middle.
      * eexists. apply (level_joined oh _ lh s new [] (new_limit p) ord x p); try done.
        -- split; [|by intros ? ?%elem_of_nil]. split; try done. constructor.
        -- by intros ?%elem_of_nil.
        -- simpl. split; [|done]. by rewrite links_insert, Hlinks.
        -- by rewrite lookup_insert_eq, Hlinks at 1.
        -- intros o Ho. by apply data_insert_ne.
      * rewrite <-Heq in Hin. destruct (si_levels _ _ _ _ _ Hs l os' Hin) as [lim Hlo]. exists lim.
        eapply level_ok_frame; [| |exact Hlo].
        -- intros o Ho. apply lookup_insert_ne. intros <-. apply Hord, in_lorders. eauto.
        -- apply lookup_insert_ne. intros <-. apply Hnl, in_levels. eauto.
  - intros o Ho. by apply data_insert_ne.
  - intros o _ Ho. by apply lookup_insert_ne.
  - intros l _ Hne. by apply lookup_insert_ne.
  - exists new, None, None. by rewrite lookup_insert_eq, <-Hlinks.
Qed.

Lemma add_limit_order_ok oh lh om b s lvs new ord x p :
  side_ok oh lh s (limits_of s b) lvs → NoDup (lorders lvs) → ord ∉ lorders lvs →
  oh !! ord = Some x → restable s p x → is_nan p = false →
  lh !! new = Some (new_limit p) → new ∉ lvs.*1 →
  ∃ oh' lh' tr', add_limit_order ord new s (with_objects oh lh om b)
      = (with_objects oh' lh' om (put_limits s tr' b), Ret tt) ∧
    rested oh lh s new ord x lvs oh' lh' tr'.
Proof.
  intros Hs Hnd Hord Hx Hr Hp Hnew Hnl. pose proof (side_priced _ _ _ _ _ Hs) as Hpr.
  pose proof (si_tree _ _ _ _ _ Hs) as (its&Ht&Hits).
  assert (priced lh new) as Hpn by (unfold priced, price_of; by rewrite Hnew).
  unfold add_limit_order. erewrite bind_ok.
  2: { eapply (in_limits_read s (λ less, find less new)).
       eapply (find_ok (priced lh) (LimitComparator lh (limits_asc s))); [done|by rewrite Hits|exact Ht]. }
  rewrite Hits. destruct (rest_order_cases (LimitComparator lh (limits_asc s)) new ord lvs)
    as [(l1&l0&os&l2&Heq&Hf&Hrest&Hless1&Hless2)|(l1&l2&Heq&Hf&Hrest&Hins)]; rewrite Hf.
  - assert ((l0, os) ∈ lvs) as Hin0 by (rewrite Heq; apply in_middle; auto).
    destruct (si_levels _ _ _ _ _ Hs l0 os Hin0) as [lim0 Hl0].
    destruct (add_existing_spec oh lh om b l0 os lim0 ord x) as (oh'&E&Hseg&Hx'&Hd&Hfr);
      [apply Hl0|done| |apply Hr|apply Hr|].
    { intros Hin. apply Hord, in_lorders. eauto. }
    eexists oh', _, (limits_of s b). rewrite put_limits_id. split; [exact E|].
    eapply joined_rested; try done. replace (l_price lim0) with p; [done|].
    rewrite <-(limit_price_of lh l0 lim0) by apply Hl0.
    rewrite <-(same_price lh (limits_asc s) new l0); try done.
    + unfold price_of. by rewrite Hnew.
    + rewrite Forall_forall in Hpr. apply Hpr, in_levels. eauto.
  - rewrite <-Hits in Hpr. destruct (insert_ok (priced lh) _ new (limits_of s b) its Hpn Hpr Ht)
      as (tr'&its'&E&Ht'&Hins').
    apply (inserted_keys (priced lh) (LimitComparator lh (limits_asc s))) in Hins' as Hkeys; try done.
    2: { destruct Ht as (t&Ht&<-). apply (to_sorted _ _ _ Ht). }
    erewrite bind_ok by (eapply (in_limits_write s (λ less, insert less new)); exact E).
    do 4 ob_step. erewrite upd_limit_ok by heap_look. rewrite !insert_insert_eq.
    eexists _, _, tr'. split; [reflexivity|].
    apply (opened_rested oh lh s (limits_of s b) tr' its' lvs l1 l2 new ord x p); try done.
    by rewrite Hkeys, Hits, Hins.
Qed.
End resting.

(** ** What matching leaves *)

Section matched.
Variable (lh : gmap nat limit).
Implicit Types (es rest : list (lid * list (oid * float))).

Definition smaller (e' e : lid * list (oid * float)) : Prop :=
  e'.1 = e.1 ∧ e'.2.*1 `sublist_of` e.2.*1.

Lemma smaller_refl es : Forall2 smaller es es.
Proof. apply Forall_Forall2_diag, Forall_forall. done. Qed.

(** The levels keep their limits and orders of theirs, in order.  An all-or-none order is filled
    or has changed nothing. *)
Lemma match_levels_ok aon buy type price q mp es :
  (0 ≤ q)%Z → fits binary32 q → Forall (λ e, Forall entry_ok e.2) es →
  ∃ q' mp' rest, match_levels lh aon buy type price (Fin q) mp es = (Fin q', mp', rest) ∧
    (0 ≤ q' ≤ q)%Z ∧ fits binary32 q' ∧ Forall2 smaller rest es ∧
    Forall (λ e, Forall entry_ok e.2) rest ∧
    (aon = true → q' = 0%Z ∨ (q' = q ∧ rest = es)).
Proof.
  intros Hq Hqf Hes. revert q mp Hq Hqf.
  induction Hes as [|[l e] es He Hes IH]; intros q mp Hq Hqf; cbn [match_levels].
  { exists q, mp, []. split_and!; try done; try lia; auto. }
  assert (∃ q' mp' rest, (let '(q', mp', rest) :=
      match_levels lh aon buy type price (Fin q) mp es in (q', mp', (l, e) :: rest))
    = (Fin q', mp', rest) ∧ (0 ≤ q' ≤ q)%Z ∧ fits binary32 q' ∧ Forall2 smaller rest ((l, e) :: es) ∧
    Forall (λ e, Forall entry_ok e.2) rest ∧
    (aon = true → q' = 0%Z ∨ (q' = q ∧ rest = (l, e) :: es))) as Hskip.
  { destruct (IH q mp Hq Hqf) as (q'&mp'&rest&->&?&?&Hsm&Hok&Ha).
    exists q', mp', ((l, e) :: rest). split_and!; try done; try lia; try tauto.
    - by constructor.
    - by constructor.
    - intros Haon. destruct (Ha Haon) as [|[-> ->]]; auto. }
  destruct (aon && fltb (volume_of lh l) (Fin q)); [done|].
  destruct (calculate_cross_price price (price_of lh l) type buy) as [cp|].
  2: { exists q, mp, ((l, e) :: es). split_and!; try done; try lia; try apply Hqf.
       - apply smaller_refl. - by constructor. - auto. }
  destruct (fill_level_ok aon q e Hq Hqf He) as (q1&rest1&->&Hq1&Hq1f&Hr1&Hsub&Hcase).
  destruct (Z.eqb_spec q1 0) as [->|Hne]; cbn [feqb].
  - exists 0%Z, cp, ((l, rest1) :: es). split_and!; try done; try lia; auto.
    constructor; [done|apply smaller_refl].
  - destruct (Z.eqb_spec q1 0); [done|].
    destruct (IH q1 cp ltac:(lia) Hq1f) as (q'&mp'&rest&->&?&?&Hsm&Hok&Ha).
    exists q', mp', ((l, rest1) :: rest). split_and!; try done; try lia; try tauto.
    + by constructor.
    + by constructor.
    + intros ->. destruct Hcase as [?|[-> ->]]; [done|].
      destruct (Ha eq_refl) as [|[-> ->]]; auto.
Qed.

(** An order that may be filled in parts stops only when it is filled or no level it reaches
    has orders left. *)
Lemma match_levels_stops buy type price q mp es q' mp' rest :
  is_nan price = false → Forall (priced lh) es.*1 →
  sorted (LimitComparator lh (limits_asc (opposite_side buy))) es.*1 →
  (0 < q)%Z → fits binary32 q → Forall (λ e, Forall entry_ok e.2) es →
  match_levels lh false buy type price (Fin q) mp es = (q', mp', rest) → q' ≠ Fin 0 →
  ∀ l e, (l, e) ∈ rest → e ≠ [] → beyond buy price (price_of lh l) = true.
Proof.
  intros Hp. revert q mp rest. induction es as [|[l e] es IH]; intros q mp rest Hpr Hs Hq Hqf Hes;
    cbn [match_levels andb].
  { intros [= _ _ <-] _ l e ?%elem_of_nil. done. }
  csimpl in Hpr. csimpl in Hs. apply Forall_cons in Hpr as [Hpl Hpr].
  apply sorted_cons in Hs as [Hs Hls]. apply Forall_cons in Hes as [He Hes].
  destruct (calculate_cross_price price (price_of lh l) type buy) as [cp|] eqn:Hcp.
  - destruct (fill_level_ok false q e ltac:(lia) Hqf He) as (q1&rest1&->&Hq1&Hq1f&_&_&Hcase).
    cbn [feqb]. destruct (Z.eqb_spec q1 0) as [->|Hne]; [by intros [= <- _ _]|].
    destruct Hcase as [?| ->]; [done|].
    destruct (match_levels lh false buy type price (Fin q1) cp es) as [[q2 mp2] rest2] eqn:Hm.
    intros [= -> -> <-] Hq' l' e' [[= -> ->]|Hin]%elem_of_cons; [done|].
    eapply IH; [..|exact Hm|exact Hq'|exact Hin]; try done. lia.
  - apply cross_price_None in Hcp. intros [= _ _ <-] _ l' e' [[= -> ->]|Hin]%elem_of_cons _; [done|].
    assert (l' ∈ es.*1) as Hl' by (apply list_elem_of_fmap; by exists (l', e')).
    rewrite Forall_forall in Hpr.
    eapply (beyond_trans buy price (price_of lh l)); [done|exact Hpl|by apply Hpr|done|].
    rewrite <-opposite_less. by apply Hls.
Qed.
End matched.
