(* ===== verification/OBPriority.v ===== *)
(** * Price-time priority and conservation

    Facts about the specification of matching: the orders that trade are the first ones of the
    book, an all-or-none order trades with one resting order or not at all, and what the incoming
    order loses is what the resting orders lose. *)

From S2P Require Import Prelude Float DataTypes OrderBook OBRep OBMatch OBBook OBOps.

Section priority.
Implicit Types (es rest : list (oid * float)) (ls : list (lid * list (oid * float))).

(** The entries of a side, from the best price, in the order of their arrival. *)
Definition queue ls : list (oid * float) := concat ls.*2.

(** [rest] is [es] without its first entries, the next one perhaps reduced. *)
Definition taken es rest : Prop :=
  ∃ pre suf, es = pre ++ suf ∧
    (rest = suf ∨ ∃ o c c' tl, suf = (o, c) :: tl ∧ rest = (o, c') :: tl ∧ fltb c' c = true).

Lemma taken_refl es : taken es es.
Proof. exists [], es. auto. Qed.
Lemma taken_cons e es rest : taken es rest → taken (e :: es) rest.
Proof. intros (pre&suf&->&H). exists (e :: pre), suf. auto. Qed.
Lemma taken_app_r es rest es' : taken es rest → taken (es ++ es') (rest ++ es').
Proof.
  intros (pre&suf&->&H). exists pre, (suf ++ es'). rewrite app_assoc. split; [done|].
  destruct H as [->|(o&c&c'&tl&->&->&?)]; [by left|right]. by exists o, c, c', (tl ++ es').
Qed.
Lemma taken_app_l es es' rest : taken es rest → taken (es' ++ es) rest.
Proof. intros (pre&suf&->&H). exists (es' ++ pre), suf. by rewrite app_assoc. Qed.

Lemma fill_level_taken q es q' rest :
  (0 ≤ q)%Z → fits binary32 q → Forall entry_ok es →
  fill_level false (Fin q) es = (q', rest) → taken es rest.
Proof.
  intros Hq Hqf Hes. revert q rest Hq Hqf.
  induction Hes as [|[o c] es (n&Hc&Hn&Hnf) Hes IH]; intros q rest Hq Hqf; simpl.
  { intros [= _ <-]. apply taken_refl. }
  simpl in Hc. subst c. destruct (Z.ltb_spec 0 q); [|intros [= _ <-]; apply taken_refl].
  destruct (resolve_ok false q n) as (q1&c1&->&Hq1&Hq1f&Hc1&Hc1f&Hcase); [lia|done..|].
  destruct (fill_level false (Fin q1) es) as [q2 rest2] eqn:Hf.
  destruct (Z.eqb_spec c1 0) as [->|Hne]; simpl.
  - intros [= -> <-]. apply taken_cons. eapply IH; [|exact Hq1f|exact Hf]. lia.
  - rewrite (proj2 (Z.eqb_neq c1 0)) by done. intros [= _ <-].
    assert (q1 = 0)%Z as -> by (destruct Hcase as [?|[[_ ?]|[? _]]]; [done..]).
    rewrite fill_level_stop in Hf. injection Hf as _ <-.
    destruct (decide (c1 = n)) as [->|Hlt]; [apply taken_refl|].
    exists [], ((o, Fin n) :: es). split; [done|]. right. exists o, (Fin n), (Fin c1), es.
    split_and!; [done..|]. simpl. apply Z.ltb_lt. lia.
Qed.
End priority.

Section matching.
Variables (lh : gmap nat limit) (buy : bool) (type : OrderType) (price : float).
Implicit Types (es rest : list (lid * list (oid * float))).

Lemma queue_cons l e es : queue ((l, e) :: es) = e ++ queue es.
Proof. done. Qed.

(** An order that may be filled in parts trades with the best prices first, and at each price
    with the orders that came first. *)
Lemma match_levels_taken es : ∀ q mp q' mp' rest,
  (0 ≤ q)%Z → fits binary32 q → Forall (λ e, Forall entry_ok e.2) es →
  match_levels lh false buy type price (Fin q) mp es = (q', mp', rest) →
  taken (queue es) (queue rest).
Proof.
  induction es as [|[l e] es IH]; intros q mp q' mp' rest Hq Hqf Hes; simpl.
  { intros [= _ _ <-]. apply taken_refl. }
  apply Forall_cons in Hes as [He Hes]. simpl in He.
  destruct (calculate_cross_price _ _ _ _) as [cp|]; [|intros [= _ _ <-]; apply taken_refl].
  destruct (fill_level_ok false q e Hq Hqf He) as (q1&e1&Hf&Hq1&Hq1f&_&_&Hcase). rewrite Hf.
  pose proof (fill_level_taken _ _ _ _ Hq Hqf He Hf) as Ht. simpl.
  destruct (Z.eqb_spec q1 0) as [->|Hne].
  - intros [= _ _ <-]. rewrite !queue_cons. by apply taken_app_r.
  - destruct Hcase as [?| ->]; [done|].
    destruct (match_levels lh false buy type price (Fin q1) cp es) as [[q2 mp2] rest2] eqn:Hm.
    intros [= _ _ <-]. rewrite !queue_cons. simpl. apply taken_app_l.
    eapply IH; [|exact Hq1f|done|exact Hm]. lia.
Qed.

(** *** All-or-none orders *)

(** [rest] is [es] with one entry that had at least [q], reduced by [q] or removed. *)
Definition one_reduced (q : float) (es rest : list (oid * float)) : Prop :=
  ∃ pre o c suf, es = pre ++ (o, c) :: suf ∧ fleb q c = true ∧
    rest = pre ++ (if feqb (fsub binary32 c q) (Fin 0) then suf
                   else (o, fsub binary32 c q) :: suf).

Lemma one_reduced_app q (pre es rest suf : list (oid * float)) :
  one_reduced q es rest → one_reduced q (pre ++ es ++ suf) (pre ++ rest ++ suf).
Proof.
  intros (p&o&c&s&->&Hle&->). exists (pre ++ p), o, c, (s ++ suf). split_and!; [|done|].
  - by rewrite <-!app_assoc.
  - destruct (feqb _ _); by rewrite <-!app_assoc.
Qed.

Lemma fill_level_aon q (es : list (oid * float)) q' (rest : list (oid * float)) :
  (0 < q)%Z → Forall entry_ok es → fill_level true (Fin q) es = (q', rest) →
  (q' = Fin q ∧ rest = es) ∨ (q' = Fin 0 ∧ one_reduced (Fin q) es rest).
Proof.
  intros Hq Hes. revert q' rest. induction Hes as [|[o c] es (n&Hc&Hn&Hnf) Hes IH];
    intros q' rest; cbn [fill_level].
  { intros [= <- <-]. auto. }
  simpl in Hc. subst c. cbn [fltb]. rewrite (proj2 (Z.ltb_lt 0 q)) by done. unfold resolve.
  destruct (fleb (Fin q) (Fin n)) eqn:Hle.
  - rewrite fill_level_stop. intros [= <- <-]. right. split; [done|].
    by exists [], o, (Fin n), es.
  - destruct (fill_level true (Fin q) es) as [q2 rest2] eqn:Hf. intros [= -> <-].
    cbn [feqb]. rewrite (proj2 (Z.eqb_neq n 0)) by lia.
    destruct (IH _ _ eq_refl) as [[-> ->]|[-> Hone]]; [by left|right]. split; [done|].
    pose proof (one_reduced_app _ [(o, Fin n)] _ _ [] Hone) as H. by rewrite !app_nil_r in H.
Qed.

Lemma match_levels_aon es : ∀ q mp q' mp' rest,
  (0 < q)%Z → Forall (λ e, Forall entry_ok e.2) es →
  match_levels lh true buy type price (Fin q) mp es = (q', mp', rest) →
  (q' = Fin q ∧ rest = es) ∨ (q' = Fin 0 ∧ one_reduced (Fin q) (queue es) (queue rest)).
Proof.
  induction es as [|[l e] es IH]; intros q mp q' mp' rest Hq Hes; cbn [match_levels].
  { intros [= <- _ <-]. auto. }
  apply Forall_cons in Hes as [He Hes]. simpl in He.
  assert (∀ mp, (let '(q', mp', rest) := match_levels lh true buy type price (Fin q) mp es in
      (q', mp', (l, e) :: rest)) = (q', mp', rest) →
    (q' = Fin q ∧ rest = (l, e) :: es) ∨
    (q' = Fin 0 ∧ one_reduced (Fin q) (queue ((l, e) :: es)) (queue rest))) as Hskip.
  { intros mp0. destruct (match_levels lh true buy type price (Fin q) mp0 es) as [[q2 mp2] r2] eqn:Hm.
    intros [= -> -> <-]. destruct (IH _ _ _ _ _ Hq Hes Hm) as [[-> ->]|[-> Hone]]; [by left|right].
    split; [done|]. rewrite !queue_cons.
    pose proof (one_reduced_app _ e _ _ [] Hone) as H. by rewrite !app_nil_r in H. }
  destruct (true && fltb _ _); [apply Hskip|].
  destruct (calculate_cross_price _ _ _ _) as [cp|]; [|intros [= <- _ <-]; auto].
  destruct (fill_level true (Fin q) e) as [q1 e1] eqn:Hf.
  destruct (fill_level_aon _ _ _ _ Hq He Hf) as [[-> ->]|[-> Hone]].
  - cbn [feqb]. rewrite (proj2 (Z.eqb_neq q 0)) by lia. apply Hskip.
  - cbn [feqb Z.eqb]. intros [= <- _ <-]. right. split; [done|]. rewrite !queue_cons.
    exact (one_reduced_app _ [] _ _ (queue es) Hone).
Qed.

(** *** Conservation of whole quantities *)

Definition qval (x : float) : Z := if x is Fin n then n else 0%Z.
Definition total (es : list (oid * float)) : Z := foldr (λ e z, qval e.2 + z)%Z 0%Z es.
(** A whole number of units that the format represents exactly. *)
Definition whole (x : float) : Prop := ∃ z, x = Fin (z * 2 ^ 149) ∧ (0 ≤ z ≤ 2 ^ 24)%Z.

Lemma total_app (es1 es2 : list (oid * float)) : total (es1 ++ es2) = (total es1 + total es2)%Z.
Proof. induction es1 as [|e es1 IH]; simpl; lia. Qed.

Lemma resolve_whole aon q c :
  whole q → whole c →
  let '(q', c') := resolve aon q c in
  whole q' ∧ whole c' ∧ (qval q - qval q' = qval c - qval c')%Z.
Proof.
  intros (a&->&Ha) (d&->&Hd). unfold resolve, fleb. cbn [fltb feqb].
  assert (whole (Fin 0)) as H0 by (exists 0%Z; split; [done|lia]).
  assert (∀ a d : Z, (0 ≤ a ≤ 2 ^ 24)%Z → (0 ≤ d ≤ 2 ^ 24)%Z → (a ≤ d)%Z →
    whole (fsub binary32 (Fin (d * 2 ^ 149)) (Fin (a * 2 ^ 149))) ∧
    qval (fsub binary32 (Fin (d * 2 ^ 149)) (Fin (a * 2 ^ 149))) = (d * 2 ^ 149 - a * 2 ^ 149)%Z)
    as Hsub.
  { intros a' d' Ha' Hd' Hle. rewrite fsub_whole by lia. split; [|simpl; lia].
    exists (d' - a')%Z. split; [done|lia]. }
  destruct (Z.ltb_spec (a * 2 ^ 149) (d * 2 ^ 149)); cbn [orb];
    [|destruct (Z.eqb_spec (a * 2 ^ 149) (d * 2 ^ 149))].
  - destruct (Hsub a d) as [? E]; [done..|lia|]. split_and!; [done..|]. rewrite E. simpl. lia.
  - destruct (Hsub a d) as [? E]; [done..|lia|]. split_and!; [done..|]. rewrite E. simpl. lia.
  - destruct aon.
    + split_and!; [by exists a|by exists d|lia].
    + destruct (Hsub d a) as [? E]; [done..|lia|]. split_and!; [done..|]. rewrite E. simpl. lia.
Qed.

Lemma fill_level_whole aon (es : list (oid * float)) : ∀ q,
  whole q → Forall (λ e, whole e.2) es →
  let '(q', rest) := fill_level aon q es in
  whole q' ∧ Forall (λ e, whole e.2) rest ∧ (qval q - qval q' = total es - total rest)%Z.
Proof.
  induction es as [|[o c] es IH]; intros q Hq Hes; cbn [fill_level].
  { split; [done|]. split; [done|]. simpl. lia. }
  apply Forall_cons in Hes as [Hc Hes]. destruct (fltb (Fin 0) q); [|split; [done|split; [by constructor|simpl; lia]]].
  pose proof (resolve_whole aon q c Hq Hc) as Hres. destruct (resolve aon q c) as [q1 c1].
  destruct Hres as (Hq1&Hc1&Heq). specialize (IH q1 Hq1 Hes). destruct (fill_level aon q1 es) as [q2 rest].
  destruct IH as (Hq2&Hrest&Heq2). split; [done|]. simpl in *.
  destruct (feqb c1 (Fin 0)) eqn:H0.
  - split; [done|]. destruct Hc1 as (z&->&_). simpl in *. apply Z.eqb_eq in H0. lia.
  - split; [by constructor|]. simpl. lia.
Qed.

Lemma match_levels_whole aon es : ∀ q mp,
  whole q → Forall (λ e, Forall (λ e, whole e.2) e.2) es →
  let '(q', mp', rest) := match_levels lh aon buy type price q mp es in
  whole q' ∧ (qval q - qval q' = total (queue es) - total (queue rest))%Z.
Proof.
  induction es as [|[l e] es IH]; intros q mp Hq Hes; simpl; [split; [done|lia]|].
  apply Forall_cons in Hes as [He Hes]. simpl in He.
  assert (∀ q1 e1 mp, whole q1 → (qval q - qval q1 = total e - total e1)%Z →
    let '(q', mp', rest) := (let '(q', mp', rest) := match_levels lh aon buy type price q1 mp es in
      (q', mp', (l, e1) :: rest)) in
    whole q' ∧ (qval q - qval q' = total (queue ((l, e) :: es)) - total (queue rest))%Z) as Hgo.
  { intros q1 e1 mp1 Hq1 Heq. specialize (IH q1 mp1 Hq1 Hes).
    destruct (match_levels lh aon buy type price q1 mp1 es) as [[q2 mp2] rest].
    destruct IH as [? ?]. split; [done|]. rewrite !queue_cons, !total_app. lia. }
  destruct (_ && _); [apply Hgo; [done|lia]|].
  destruct (calculate_cross_price _ _ _ _) as [cp|]; [|split; [done|lia]].
  pose proof (fill_level_whole aon e q Hq He) as Hf. destruct (fill_level aon q e) as [q1 e1].
  destruct Hf as (Hq1&_&Heq). destruct (feqb q1 (Fin 0)); [|by apply Hgo].
  split; [done|]. rewrite !queue_cons, !total_app. lia.
Qed.
End matching.
