(* ===== verification/OBInv.v ===== *)
(** * The book invariant

    [book_ok b a]: the book [b] represents the abstract book [a] (the levels of its two sides, its
    waiting stop orders, its expiring orders), [_orders] indexes exactly the resting orders, and
    no resting bid reaches a resting ask.  The lemmas give the parts of the invariant, and what
    keeps it. *)

From S2P Require Import Prelude Float RBTree RBSpec RBInsert RBIter RBDelete DataTypes OrderBook.
From S2P Require Import OBRep OBMatch OBBook OBOps.

(** ** Comparing orders *)

Section comparators.
Implicit Types (oh : gmap nat order).

Definition opriced oh (o : oid) : Prop := is_nan (oprice_of oh o) = false.

(** Price first, then arrival: a strict weak order on orders with a price. *)
#[export] Instance OrderComparator_StrictWeak oh asc :
  StrictWeak (opriced oh) (OrderComparator oh asc).
Proof.
  unfold opriced, OrderComparator. split.
  - intros a Ha. rewrite feqb_refl by done. lia.
  - intros a b c. generalize (oprice_of oh a), (oprice_of oh b), (oprice_of oh c),
      (timestamp_of oh a), (timestamp_of oh b), (timestamp_of oh c). intros.
    destruct asc; fl_cases; repeat case_match; try done; lia.
  - intros a b c. generalize (oprice_of oh a), (oprice_of oh b), (oprice_of oh c),
      (timestamp_of oh a), (timestamp_of oh b), (timestamp_of oh c). intros.
    destruct asc; fl_cases; repeat case_match; try lia; auto.
Qed.

#[export] Instance DateOrderComparator_StrictWeak oh asc :
  StrictWeak (λ _, True) (DateOrderComparator oh asc).
Proof. unfold DateOrderComparator. destruct asc; split; intros; lia. Qed.

Lemma oprice_static oh oh' o : static_at oh' o = static_at oh o → oprice_of oh' o = oprice_of oh o.
Proof.
  unfold static_at, oprice_of. destruct (oh' !! o), (oh !! o); simpl; try done. unfold static.
  by intros [= _ ? _ _ _].
Qed.
Lemma OrderComparator_ext oh oh' asc a c :
  (∀ o, static_at oh' o = static_at oh o) → OrderComparator oh' asc a c = OrderComparator oh asc a c.
Proof.
  intros H. unfold OrderComparator. rewrite !(oprice_static oh oh') by auto.
  assert (∀ o, timestamp_of oh' o = timestamp_of oh o) as Ht; [|by rewrite !Ht].
  intros o. specialize (H o). unfold static_at, timestamp_of in *.
  destruct (oh' !! o), (oh !! o); simpl in *; try done. unfold static in H. by simplify_eq.
Qed.
Lemma DateOrderComparator_ext oh oh' asc a c :
  (∀ o, static_at oh' o = static_at oh o) →
  DateOrderComparator oh' asc a c = DateOrderComparator oh asc a c.
Proof.
  intros H. unfold DateOrderComparator.
  assert (∀ o, expire_time_of oh' o = expire_time_of oh o) as Ht; [|by rewrite !Ht].
  intros o. specialize (H o). unfold static_at, expire_time_of in *.
  destruct (oh' !! o), (oh !! o); simpl in *; try done. unfold static in H. by simplify_eq.
Qed.
End comparators.

(** ** The trees of orders *)

Section order_trees.
Implicit Types (b : book) (oh : gmap nat order).

Definition stops_ok oh s (tr : rbtree oid) (os : list oid) : Prop :=
  ∃ its, tree_rep (OrderComparator oh (stops_asc s)) tr its ∧ its.*2 = os ∧ Forall (opriced oh) os.
Definition dates_ok oh (tr : rbtree oid) (os : list oid) : Prop :=
  ∃ its, tree_rep (DateOrderComparator oh true) tr its ∧ its.*2 = os ∧
    Forall (λ o, is_Some (oh !! o)) os.

Lemma tree_rep_sorted {T} (less : T → T → bool) tr its :
  tree_rep less tr its → sorted less its.*2.
Proof. intros (t&Ht&<-). apply (to_sorted _ _ _ Ht). Qed.

Lemma stops_ok_static oh oh' s tr os :
  (∀ o, static_at oh' o = static_at oh o) → stops_ok oh s tr os → stops_ok oh' s tr os.
Proof.
  intros H (its&Ht&Heq&Hp). exists its. split_and!; try done.
  - eapply tree_rep_ext; [|exact Ht]. intros. symmetry. by apply OrderComparator_ext.
  - eapply Forall_impl; [exact Hp|]. intros o Ho. unfold opriced. by rewrite (oprice_static oh).
Qed.
Lemma dates_ok_static oh oh' tr os :
  (∀ o, static_at oh' o = static_at oh o) → dates_ok oh tr os → dates_ok oh' tr os.
Proof.
  intros H (its&Ht&Heq&Ho). exists its. split_and!; [|done|].
  - eapply tree_rep_ext; [|exact Ht]. intros. symmetry. by apply DateOrderComparator_ext.
  - eapply Forall_impl; [exact Ho|]. intros o. specialize (H o). unfold static_at in H.
    destruct (oh' !! o), (oh !! o); simpl in *; done.
Qed.

(** A heap with more orders. *)
Lemma tree_heap_ext {T} (less less' : T → T → bool) (P : T → Prop) tr its :
  Forall P its.*2 → (∀ a c, P a → P c → less' a c = less a c) →
  tree_rep less tr its → tree_rep less' tr its.
Proof.
  intros HP H. apply tree_rep_ext. rewrite Forall_forall in HP.
  intros a c Ha Hc. symmetry. apply H; by apply HP.
Qed.
Lemma opriced_lookup oh o : opriced oh o → is_Some (oh !! o).
Proof. unfold opriced, oprice_of. by destruct (oh !! o). Qed.
Lemma stops_ok_grow oh oh' s tr os :
  (∀ o, is_Some (oh !! o) → oh' !! o = oh !! o) → stops_ok oh s tr os → stops_ok oh' s tr os.
Proof.
  intros H (its&Ht&<-&Hp). exists its. split_and!; [|done|].
  - eapply (tree_heap_ext _ _ (opriced oh)); [exact Hp| |exact Ht].
    intros a c Ha%opriced_lookup Hc%opriced_lookup.
    unfold OrderComparator, oprice_of, timestamp_of. by rewrite !H.
  - eapply Forall_impl; [exact Hp|]. intros o Ho. unfold opriced, oprice_of.
    by rewrite H by (by apply opriced_lookup).
Qed.
Lemma dates_ok_grow oh oh' tr os :
  (∀ o, is_Some (oh !! o) → oh' !! o = oh !! o) → dates_ok oh tr os → dates_ok oh' tr os.
Proof.
  intros H (its&Ht&<-&Hp). exists its. split_and!; [|done|].
  - eapply (tree_heap_ext _ _ (λ o, is_Some (oh !! o))); [exact Hp| |exact Ht].
    intros a c Ha Hc. unfold DateOrderComparator, expire_time_of. by rewrite !H.
  - eapply Forall_impl; [exact Hp|]. intros o Ho. simpl. by rewrite H.
Qed.

Lemma in_stops_write {A} s (op : (oid → oid → bool) → M (rbtree oid) A) b t (r : A) :
  op (OrderComparator (b_oh b) (stops_asc s)) (stops_of s b) = (t, Ret r) →
  in_stops s op b = (put_stops s t b, Ret r).
Proof. intros H. unfold in_stops. by erewrite zoom_ok by exact H. Qed.
Lemma in_dates_write {A} (op : (oid → oid → bool) → M (rbtree oid) A) b t (r : A) :
  op (DateOrderComparator (b_oh b) true) (b_date_orders b) = (t, Ret r) →
  in_dates op b = (put_date_orders t b, Ret r).
Proof. intros H. unfold in_dates. by erewrite zoom_ok by exact H. Qed.

(** An insertion replaces the order the tree does not tell from the new one. *)
Lemma stops_insert_ok b s os o :
  stops_ok (b_oh b) s (stops_of s b) os → opriced (b_oh b) o →
  ∃ t, add_stop_order o s b = (put_stops s t b, Ret tt) ∧
    stops_ok (b_oh b) s t (sinsert (OrderComparator (b_oh b) (stops_asc s)) o os).
Proof.
  intros (its&Ht&<-&Hp) Ho. unfold add_stop_order.
  destruct (insert_ok (opriced (b_oh b)) _ o _ _ Ho Hp Ht) as (t&its'&E&Ht'&Hins).
  exists t. split; [by apply in_stops_write|]. exists its'. split; [done|].
  pose proof (inserted_keys (opriced (b_oh b)) _ _ _ _ Ho Hp (tree_rep_sorted _ _ _ Ht) Hins) as Hk.
  split; [done|]. rewrite <-Hk. destruct Hins as [(l1&l2&new&->&->&_)|(l1&l2&q&k&->&->&_)];
    rewrite !fmap_app in *; csimpl in *; rewrite ?Forall_app, ?Forall_cons in *; naive_solver.
Qed.
Lemma dates_insert_ok b os o :
  dates_ok (b_oh b) (b_date_orders b) os → is_Some (b_oh b !! o) →
  ∃ t, in_dates (λ less, insert less o) b = (put_date_orders t b, Ret tt) ∧
    dates_ok (b_oh b) t (sinsert (DateOrderComparator (b_oh b) true) o os).
Proof.
  intros (its&Ht&<-&Hp) Ho. assert (Forall (λ _, True) its.*2) as HT by (by apply Forall_true).
  destruct (insert_ok (λ _, True) _ o _ _ I HT Ht) as (t&its'&E&Ht'&Hins).
  exists t. split; [by apply in_dates_write|]. exists its'.
  rewrite <-(inserted_keys (λ _, True) _ _ _ _ I HT (tree_rep_sorted _ _ _ Ht) Hins).
  split; [done|]. split; [done|]. destruct Hins as [(l1&l2&new&->&->&_)|(l1&l2&q&k&->&->&_)];
    rewrite !fmap_app in *; csimpl in *; rewrite ?Forall_app, ?Forall_cons in *; naive_solver.
Qed.

(** A removal takes out the order the tree does not tell from the given one. *)
Lemma sremove_Forall {A} (P : A → Prop) less v (l : list A) : Forall P l → Forall P (sremove less v l).
Proof. induction 1; simpl; [done|]. repeat case_match; auto. Qed.

Lemma stops_remove_ok b s os o :
  stops_ok (b_oh b) s (stops_of s b) os → opriced (b_oh b) o →
  ∃ t r, in_stops s (λ less, remove less o) b = (put_stops s t b, Ret r) ∧
    stops_ok (b_oh b) s t (sremove (OrderComparator (b_oh b) (stops_asc s)) o os).
Proof.
  intros (its&Ht&<-&Hp) Ho.
  destruct (remove_spec (opriced (b_oh b)) _ o _ _ Ho Hp Ht) as (t&its'&r&E&Ht'&Hrem&_).
  exists t, r. split; [by apply in_stops_write|]. exists its'. split; [done|].
  destruct (removed_keys (opriced (b_oh b)) _ _ _ _ _ Ho Hp (tree_rep_sorted _ _ _ Ht) Hrem) as [-> _].
  split; [done|]. by apply sremove_Forall.
Qed.
Lemma dates_remove_ok b os o :
  dates_ok (b_oh b) (b_date_orders b) os →
  ∃ t r, in_dates (λ less, remove less o) b = (put_date_orders t b, Ret r) ∧
    dates_ok (b_oh b) t (sremove (DateOrderComparator (b_oh b) true) o os).
Proof.
  intros (its&Ht&<-&Hp). assert (Forall (λ _, True) its.*2) as HT by (by apply Forall_true).
  destruct (remove_spec (λ _, True) _ o _ _ I HT Ht) as (t&its'&r&E&Ht'&Hrem&_).
  exists t, r. split; [by apply in_dates_write|]. exists its'. split; [done|].
  destruct (removed_keys (λ _, True) _ _ _ _ _ I HT (tree_rep_sorted _ _ _ Ht) Hrem) as [-> _].
  split; [done|]. by apply sremove_Forall.
Qed.
End order_trees.

(** ** The invariant *)

(** What a book holds: the levels of its sides, from the best price, and the contents of its trees
    of stop orders and of expiring orders. *)
Record abook := ABook {
  a_levels : book_side → levels;
  a_stops : book_side → list oid;
  a_dates : list oid
}.

Definition other (s : book_side) : book_side := match s with Asks => Bids | Bids => Asks end.
Definition upd_side {A} (s : book_side) (v : A) (f : book_side → A) : book_side → A :=
  λ s', if decide (s' = s) then v else f s'.
Definition set_levels (s : book_side) (v : levels) (a : abook) : abook :=
  ABook (upd_side s v (a_levels a)) (a_stops a) (a_dates a).
Definition set_stops (s : book_side) (v : list oid) (a : abook) : abook :=
  ABook (a_levels a) (upd_side s v (a_stops a)) (a_dates a).
Definition set_dates (v : list oid) (a : abook) : abook := ABook (a_levels a) (a_stops a) v.

Section invariant.
Implicit Types (b : book) (a : abook) (s : book_side).

Definition all_orders a : list oid := lorders (a_levels a Asks) ++ lorders (a_levels a Bids).

(** No resting bid reaches a resting ask. *)
Definition uncrossed (lh : gmap nat limit) a : Prop :=
  ∀ buy lo oo lp op, (lo, oo) ∈ a_levels a (own_side buy) →
    (lp, op) ∈ a_levels a (opposite_side buy) → oo ≠ [] → op ≠ [] →
    beyond buy (price_of lh lo) (price_of lh lp) = true.

Record book_ok b a : Prop := {
  bk_side s : side_ok (b_oh b) (b_lh b) s (limits_of s b) (a_levels a s);
  bk_limits s l : l ∈ (a_levels a s).*1 → l ∉ (a_levels a (other s)).*1;
  bk_nodup : NoDup (all_orders a);
  bk_map : orders_ok (b_oh b) (b_orders b) (all_orders a);
  bk_next l : is_Some (b_lh b !! l) → l < b_next_limit b;
  bk_stops s : stops_ok (b_oh b) s (stops_of s b) (a_stops a s);
  bk_dates : dates_ok (b_oh b) (b_date_orders b) (a_dates a);
  bk_uncrossed : uncrossed (b_lh b) a
}.

(** What holds of the two sides and the waiting stop orders alone, without the index. *)
Record sides_ok b a : Prop := {
  ss_side s : side_ok (b_oh b) (b_lh b) s (limits_of s b) (a_levels a s);
  ss_limits s l : l ∈ (a_levels a s).*1 → l ∉ (a_levels a (other s)).*1;
  ss_nodup : NoDup (all_orders a);
  ss_next l : is_Some (b_lh b !! l) → l < b_next_limit b;
  ss_stops s : stops_ok (b_oh b) s (stops_of s b) (a_stops a s)
}.
Lemma book_sides b a : book_ok b a → sides_ok b a.
Proof. intros []. by split. Qed.
Coercion book_sides : book_ok >-> sides_ok.

Lemma upd_side_same {A} s (v : A) f : upd_side s v f s = v.
Proof. unfold upd_side. by rewrite decide_True. Qed.
Lemma upd_side_other {A} s s' (v : A) f : s' ≠ s → upd_side s v f s' = f s'.
Proof. intros. unfold upd_side. by rewrite decide_False. Qed.
Lemma other_ne s : other s ≠ s.
Proof. by destruct s. Qed.
Lemma ne_other s s' : s' ≠ s → s' = other s.
Proof. by destruct s, s'. Qed.
Lemma other_other s : other (other s) = s.
Proof. by destruct s. Qed.
Lemma opposite_other buy : opposite_side buy = other (own_side buy).
Proof. by destruct buy. Qed.
Lemma own_other buy : own_side buy = other (opposite_side buy).
Proof. by destruct buy. Qed.

Lemma all_orders_perm a s : all_orders a ≡ₚ lorders (a_levels a (other s)) ++ lorders (a_levels a s).
Proof. unfold all_orders. destruct s; [apply Permutation_app_comm|done]. Qed.

Lemma all_orders_upd a s v :
  all_orders (set_levels s v a) ≡ₚ lorders (a_levels a (other s)) ++ lorders v.
Proof.
  rewrite (all_orders_perm _ s). simpl.
  by rewrite upd_side_same, upd_side_other by apply other_ne.
Qed.

Lemma orders_ok_perm oh om os os' : os ≡ₚ os' → orders_ok oh om os → orders_ok oh om os'.
Proof. intros Hp. apply orders_ok_ids; [done|]. intros o. by rewrite Hp. Qed.

(** Levels that lost orders do not cross. *)
Lemma uncrossed_smaller lh lh' a a' :
  (∀ l, l_price <$> lh' !! l = l_price <$> lh !! l) →
  (∀ s l os', (l, os') ∈ a_levels a' s → os' ≠ [] → ∃ os, (l, os) ∈ a_levels a s ∧ os ≠ []) →
  uncrossed lh a → uncrossed lh' a'.
Proof.
  intros Hp Hs Hu buy lo oo lp op Ho Hpp Hne1 Hne2.
  destruct (Hs _ _ _ Ho Hne1) as (oo0&?&?). destruct (Hs _ _ _ Hpp Hne2) as (op0&?&?).
  rewrite !(price_of_ext lh lh') by auto. by eapply Hu.
Qed.

Lemma smaller_in rest es l os :
  Forall2 smaller rest es → (l, os) ∈ strip rest → os ≠ [] →
  ∃ e, (l, e) ∈ es ∧ e.*1 ≠ [] ∧ os `sublist_of` e.*1.
Proof.
  intros Hs Hin Hne. unfold strip in Hin. apply list_elem_of_fmap in Hin as ([l' e']&[= -> ->]&Hin).
  apply list_elem_of_lookup in Hin as [i Hi].
  destruct (Forall2_lookup_l _ _ _ _ _ Hs Hi) as ([l e]&He&Hl&Hsub). simpl in *. subst l'.
  exists e. split; [by eapply list_elem_of_lookup_2|]. split; [|done].
  intros Hnil. rewrite Hnil in Hsub. by apply sublist_nil_r in Hsub.
Qed.

Lemma lorders_smaller rest oh lvs :
  Forall2 smaller rest (lentries oh lvs) → lorders (strip rest) `sublist_of` lorders lvs.
Proof.
  revert lvs. induction rest as [|[l e] rest IH]; intros [|[l' os] lvs] Hs; try by inversion Hs.
  apply Forall2_cons in Hs as [[_ Hsub] Hs]. simpl in Hsub. rewrite entries_fst in Hsub.
  change (lorders (strip ((l, e) :: rest))) with (e.*1 ++ lorders (strip rest)).
  rewrite lorders_cons. apply sublist_app; auto.
Qed.

Lemma lentries_in oh lvs l e : (l, e) ∈ lentries oh lvs → (l, e.*1) ∈ lvs.
Proof.
  unfold lentries. intros ([l' os]&[= -> ->]&Hin)%list_elem_of_fmap. by rewrite entries_fst.
Qed.

Lemma side_entries oh lh s tr lvs :
  side_ok oh lh s tr lvs → Forall (λ e, Forall entry_ok e.2) (lentries oh lvs).
Proof.
  intros Hs. apply Forall_forall. intros [l e] Hin. unfold lentries in Hin.
  apply list_elem_of_fmap in Hin as ([l' os]&[= -> ->]&Hin).
  destruct (si_levels _ _ _ _ _ Hs _ _ Hin) as [lim Hok]. by eapply level_entries.
Qed.

Lemma lentries_keys oh lvs : (lentries oh lvs).*1 = lvs.*1.
Proof. unfold lentries. by rewrite <-list_fmap_compose. Qed.

(** *** The incoming order *)

Record incoming b a (ord : oid) (x : order) : Prop := {
  in_order : b_oh b !! ord = Some x;
  in_fresh : ord ∉ all_orders a;
  in_id : b_orders b !! o_id x = None;
  in_price : is_nan (o_price x) = false;
  in_qty : qty_ok (o_current_qty x);
  in_live : o_cancelled x = false;
  in_prev : o_prev x = None;
  in_next : o_next x = None
}.

Lemma not_in_side a ord s : ord ∉ all_orders a → ord ∉ lorders (a_levels a s).
Proof. intros Hn Hin. apply Hn. rewrite (all_orders_perm a s), elem_of_app. auto. Qed.

(** No order is on both sides. *)
Lemma sides_disjoint b a s o :
  sides_ok b a → o ∈ lorders (a_levels a s) → o ∉ lorders (a_levels a (other s)).
Proof.
  intros Hb Ho Ho'. pose proof (ss_nodup _ _ Hb) as Hnd. rewrite (all_orders_perm a s) in Hnd.
  apply NoDup_app in Hnd as (_&Hd&_). by apply (Hd o).
Qed.

Lemma side_orders_nodup b a s : sides_ok b a → NoDup (lorders (a_levels a s)).
Proof.
  intros Hb. pose proof (ss_nodup _ _ Hb) as Hnd. rewrite (all_orders_perm a s) in Hnd.
  apply NoDup_app in Hnd. apply Hnd.
Qed.
End invariant.

(** ** Matching against the book *)

Section match_order.
Variable now : Z.
Implicit Types (b : book) (a : abook) (s : book_side).

(** What matching the order [x] computes. *)
Definition matching b a (x : order) : float * float * list (lid * list (oid * float)) :=
  match_levels (b_lh b) (has_param x AON) (is_buy x) (get_type x) (get_price x)
    (o_current_qty x) (b_market_price b)
    (lentries (b_oh b) (a_levels a (opposite_side (is_buy x)))).

(** The loop over the levels, from the best one on, with any bound above their number. *)
Lemma match_levels_from_best b a ord x s q' mp rest fuel :
  book_ok b a → incoming b a ord x → s = opposite_side (is_buy x) →
  matching b a x = (q', mp, rest) → length (a_levels a s) < fuel →
  ∃ oh' lh' om', (it ← in_limits s (λ _, begin);
      match_loop now fuel s ord (has_param x AON) (is_buy x) (get_type x) it [] []) b
      = (with_objects oh' lh' om' (put_market_price mp b), Ret (feqb q' (Fin 0))) ∧
    side_matched (b_oh b) (b_lh b) (b_orders b) s ord x (a_levels a s) q' rest oh' lh' om'.
Proof.
  intros Hb Hin Hs Hm Hfuel. destruct (in_qty _ _ _ _ Hin) as (q&Hq&Hq0&Hqf).
  unfold matching in Hm. rewrite <-Hs in Hm. clear Hs.
  destruct (bk_side _ _ Hb s) as [(its&Ht&Heq) Hlv].
  assert (in_limits s (λ _, begin) b = (b, Ret (head_ptr its))) as E.
  { pose proof (in_limits_read s (λ _, begin) (b_oh b) (b_lh b) (b_orders b) b (head_ptr its)) as H.
    rewrite with_objects_id in H. apply H. unfold begin, gets. by rewrite (tree_rep_first _ _ _ Ht). }
  rewrite (bind_ok _ _ _ _ _ E).
  pose proof (match_loop_ok now (a_levels a s) fuel _ s [] its (b_oh b) (b_lh b)
    (b_orders b) b ord x q [] [] Ht Heq Hfuel) as Hloop.
  specialize (Hloop (Build_matchable _ _ _ _ _ Hlv (side_nodup _ _ _ _ _ (bk_side _ _ Hb s))
    (side_orders_nodup _ _ _ Hb) (not_in_side _ _ _ (in_fresh _ _ _ _ Hin)))
    (in_order _ _ _ _ Hin) Hq Hq0 Hqf).
  rewrite <-Hq, Hm, with_objects_id in Hloop. exact Hloop.
Qed.

Lemma levels_fuel b a s : book_ok b a → length (a_levels a s) < limits_fuel s b.
Proof.
  intros Hb. destruct (bk_side _ _ Hb s) as [(its&Ht&Heq) _].
  pose proof (tree_rep_fuel _ _ _ Ht) as Hfuel. unfold limits_fuel.
  rewrite <-(length_fmap fst (a_levels a s)), <-Heq, length_fmap. lia.
Qed.

(** [match_order] is that loop. *)
Lemma match_order_loop b a ord x s :
  book_ok b a → incoming b a ord x →
  match_order now ord s b = (it ← in_limits s (λ _, begin);
    match_loop now (limits_fuel s b) s ord (has_param x AON) (is_buy x) (get_type x) it [] []) b.
Proof.
  intros Hb Hin. unfold match_order.
  erewrite bind_ok by (unfold get_order; rewrite (in_order _ _ _ _ Hin); reflexivity).
  unfold match_order_deferred. cbn [forM]. rewrite bind_assoc, bind_ret, bind_ret.
  destruct (in_limits s (λ _, begin) b) as [b' [it|err]] eqn:E; [|by rewrite !(bind_err _ _ _ _ _ E)].
  rewrite !(bind_ok _ _ _ _ _ E), bind_gets. apply reads_inv in E as ->; [done|].
  intros b0. apply keeps_zoom_id; [done|]. intros b1. by rewrite put_limits_id.
Qed.

Lemma match_order_ok b a ord x s q' mp rest :
  book_ok b a → incoming b a ord x → s = opposite_side (is_buy x) →
  matching b a x = (q', mp, rest) →
  ∃ oh' lh' om', match_order now ord s b
      = (with_objects oh' lh' om' (put_market_price mp b), Ret (feqb q' (Fin 0))) ∧
    side_matched (b_oh b) (b_lh b) (b_orders b) s ord x (a_levels a s) q' rest oh' lh' om'.
Proof.
  intros Hb Hin Hs Hm. rewrite (match_order_loop b a ord x s) by done.
  apply (match_levels_from_best b a); try done. by apply levels_fuel.
Qed.

(** The book afterwards. *)
Lemma matched_book_ok b a ord x s q' mp rest oh' lh' om' :
  book_ok b a → incoming b a ord x → s = opposite_side (is_buy x) →
  matching b a x = (q', mp, rest) →
  side_matched (b_oh b) (b_lh b) (b_orders b) s ord x (a_levels a s) q' rest oh' lh' om' →
  book_ok (with_objects oh' lh' om' (put_market_price mp b)) (set_levels s (strip rest) a).
Proof.
  intros Hb Hin Hs Hm Hsm. destruct (in_qty _ _ _ _ Hin) as (q&Hq&Hq0&Hqf).
  pose proof (bk_side _ _ Hb s) as Hside.
  unfold matching in Hm. rewrite Hq, <-Hs in Hm.
  destruct (match_levels_ok (b_lh b) (has_param x AON) (is_buy x) (get_type x) (get_price x) q
    (b_market_price b) (lentries (b_oh b) (a_levels a s)) ltac:(lia) Hqf (side_entries _ _ _ _ _ Hside))
    as (q''&mp''&rest''&Hm'&_&_&Hsmall&_). rewrite Hm' in Hm. injection Hm as Hq' Hmp Hr.
  subst rest''.
  destruct Hsm as [Ssh Slv Sr Sx Sf Sl Sp Sfi Si So].
  pose proof (bk_nodup _ _ Hb) as Hnd. rewrite (all_orders_perm a s) in Hnd.
  assert ((strip rest).*1 = (a_levels a s).*1) as Hkeys.
  { rewrite <-Ssh. unfold strip. by rewrite <-list_fmap_compose. }
  clear Hs. split; simpl.
  - intros s'. rewrite limits_of_with, limits_of_price.
    destruct (decide (s' = s)) as [->|Hne].
    + rewrite upd_side_same. by eapply side_ok_matched; [apply Hb|].
    + rewrite upd_side_other by done. apply ne_other in Hne as ->.
      eapply side_ok_frame; [| |apply Hb].
      * intros o Ho. apply Sf; [|by intros ->; eapply not_in_side, Ho; apply Hin].
        intros Ho'. exact (sides_disjoint b a s o Hb Ho' Ho).
      * intros l Hl. apply Sl. intros Hl'. by apply (bk_limits _ _ Hb s l).
  - intros s' l. destruct (decide (s' = s)) as [->|Hne].
    + rewrite upd_side_same, upd_side_other, Hkeys by apply other_ne. apply (bk_limits _ _ Hb).
    + rewrite upd_side_other by done. apply ne_other in Hne as ->. rewrite other_other.
      rewrite upd_side_same, Hkeys. pose proof (bk_limits _ _ Hb (other s) l) as Hl.
      by rewrite other_other in Hl.
  - rewrite all_orders_upd. eapply sublist_NoDup; [exact Hnd|]. apply sublist_app; [done|].
    by eapply lorders_smaller.
  - eapply orders_ok_perm; [symmetry; apply all_orders_upd|]. apply So; [done|].
    eapply orders_ok_perm; [apply (all_orders_perm a s)|]. apply Hb.
  - intros l Hl. apply (bk_next _ _ Hb). 
    specialize (Sp l). destruct (lh' !! l), (b_lh b !! l); try done; by destruct Hl.
  - intros s'. eapply stops_ok_static; [exact Si|]. by destruct s'; apply Hb.
  - eapply dates_ok_static; [exact Si|]. apply Hb.
  - eapply uncrossed_smaller; [exact Sp| |apply Hb].
    intros s' l os'. simpl. destruct (decide (s' = s)) as [->|Hne].
    + rewrite upd_side_same. intros Hl Hos.
      destruct (smaller_in _ _ _ _ Hsmall Hl Hos) as (e&He&?&_). exists e.*1. split; [|done].
      by eapply lentries_in.
    + rewrite upd_side_other by done. eauto.
Qed.
End match_order.
