(* ===== verification/OBTerm.v ===== *)
(** * The loops of the matching end

    A loop that returned within a bound returns the same within any larger one; the loop over the
    price levels needs one turn for each level and one more. *)

From S2P Require Import Prelude Float RBTree RBSpec DataTypes OrderBook.
From S2P Require Import OBRep OBMatch OBBook OBOps OBInv.

Section more_fuel.
Variable now : Z.
Implicit Types (b : book).

(** Rewriting the tail of a composed operation that returned. *)
Lemma bind_tail {A B} (m : M book A) (k k' : A → M book B) b b' v :
  (m ≫= k) b = (b', Ret v) →
  (∀ b1 a, m b = (b1, Ret a) → k a b1 = (b', Ret v) → k' a b1 = (b', Ret v)) →
  (m ≫= k') b = (b', Ret v).
Proof. intros (b1&a&E1&E2)%bind_inv H. rewrite (bind_ok _ _ _ _ _ E1). exact (H _ _ E1 E2). Qed.
Ltac tail E x := eapply bind_tail; [exact E|]; clear E; intros ? x _ E; cbn beta in E |- *.

Lemma process_loop_more fuel : ∀ fuel' curr order price changed b b' v,
  process_loop now fuel curr order price changed b = (b', Ret v) → fuel ≤ fuel' →
  process_loop now fuel' curr order price changed b = (b', Ret v).
Proof.
  induction fuel as [|fuel IH]; intros [|fuel'] curr order price changed b b' v E Hle; try done; [lia|].
  cbn [process_loop] in *. tail E x.
  destruct (fltb _ _); [|done]. destruct curr as [curr|]; [|done].
  tail E ch. tail E c. tail E u. tail E c'. eapply IH; [exact E|lia].
Qed.

Lemma match_loop_more fuel : ∀ fuel' s order aon buy type it filled changed b b' v,
  match_loop now fuel s order aon buy type it filled changed b = (b', Ret v) → fuel ≤ fuel' →
  match_loop now fuel' s order aon buy type it filled changed b = (b', Ret v).
Proof.
  induction fuel as [|fuel IH]; intros [|fuel'] s order aon buy type it filled changed b b' v E Hle;
    try done; [lia|].
  cbn [match_loop] in *. destruct (valid it); [|done].
  tail E opp. tail E lim. tail E x.
  destruct (aon && _).
  { tail E it'. eapply IH; [exact E|lia]. }
  destruct (calculate_cross_price _ _ _ _); [|done].
  tail E ch. tail E lim'. tail E u. tail E x'.
  destruct (feqb _ _); [done|].
  tail E it'. eapply IH; [exact E|lia].
Qed.

(** Any two bounds above the number of levels give the same result. *)
Lemma match_bound b a ord x fuel :
  book_ok b a → incoming b a ord x → length (a_levels a (opposite_side (is_buy x))) < fuel →
  ∃ b' v, match_order now ord (opposite_side (is_buy x)) b = (b', Ret v) ∧
    (it ← in_limits (opposite_side (is_buy x)) (λ _, begin);
     match_loop now fuel (opposite_side (is_buy x)) ord (has_param x AON) (is_buy x) (get_type x) it [] []) b
      = (b', Ret v).
Proof.
  intros Hb Hin Hlt. set (s := opposite_side (is_buy x)) in *.
  destruct (matching b a x) as [[q mp] rest] eqn:Hm.
  destruct (match_levels_from_best now b a ord x s q mp rest (S (length (a_levels a s))) Hb Hin eq_refl Hm
    ltac:(lia)) as (oh'&lh'&om'&E&_).
  eexists _, _. rewrite (match_order_loop now b a ord x s Hb Hin). pose proof (levels_fuel b a s Hb).
  split; (eapply bind_tail; [exact E|]; intros b1 it _ E1; eapply match_loop_more; [exact E1|lia]).
Qed.
End more_fuel.
