(* ===== verification/OBAdd.v ===== *)
(** * Adding orders

    [place_order] and [add_order] on a well-formed book: what they return, the levels they leave,
    and that the book stays well formed.  [run_orders] submits orders one after the other to a
    new book. *)

From S2P Require Import Prelude Float RBTree RBSpec RBInsert RBIter DataTypes OrderBook.
From S2P Require Import OBRep OBMatch OBBook OBOps OBInv.

Section parameters.
(** An order that is not killed when it is not filled may be filled in parts. *)
Lemma has_param_FOK x : has_param x FOK = has_param x AON || has_param x IOC.
Proof.
  unfold has_param, FOK. rewrite Z.land_lor_distr_r, <-negb_andb. f_equal.
  apply eq_bool_prop_intro. rewrite andb_True, !Is_true_true, !Z.eqb_eq. apply Z.lor_eq_0_iff.
Qed.
Lemma no_FOK_no_AON x : has_param x FOK = false → has_param x AON = false.
Proof. rewrite has_param_FOK. by intros [? _]%orb_false_elim. Qed.
End parameters.

(** ** The resting order *)

Section rest.
Implicit Types (b : book) (a : abook) (s : book_side).

Lemma beyond_sym buy p q : beyond (negb buy) p q = beyond buy q p.
Proof. by destruct buy. Qed.

Lemma uncrossed_one lh a buy :
  (∀ lo oo lp op, (lo, oo) ∈ a_levels a (own_side buy) →
    (lp, op) ∈ a_levels a (opposite_side buy) → oo ≠ [] → op ≠ [] →
    beyond buy (price_of lh lo) (price_of lh lp) = true) →
  uncrossed lh a.
Proof.
  intros H buy' lo oo lp op Ho Hp Hoo Hop. destruct (decide (buy' = buy)) as [->|Hne].
  - by eapply H.
  - assert (buy' = negb buy) as -> by (by destruct buy, buy'). rewrite beyond_sym.
    apply (H lp op lo oo); try done; by destruct buy.
Qed.

Lemma rest_order_in less new ord lvs l os :
  (l, os) ∈ rest_order less new ord lvs → (l, os) ∈ lvs ∨ ord ∈ os.
Proof.
  destruct (rest_order_cases less new ord lvs)
    as [(l1&l0&os0&l2&->&_&->&_)|(l1&l2&->&_&->&_)];
    rewrite ?elem_of_app, ?elem_of_cons; intros [|[[= -> ->]|]]; auto.
  - right. apply elem_of_app. right. left.
  - right. left.
Qed.
Lemma rest_order_limits less new ord lvs l :
  l ∈ (rest_order less new ord lvs).*1 → l ∈ lvs.*1 ∨ l = new.
Proof.
  destruct (rest_order_cases less new ord lvs)
    as [(l1&l0&os0&l2&->&_&->&_)|(l1&l2&->&_&->&_)];
    rewrite !fmap_app; csimpl; rewrite ?elem_of_app, ?elem_of_cons; naive_solver.
Qed.

Lemma level_limits_lookup b a s l : sides_ok b a → l ∈ (a_levels a s).*1 → is_Some (b_lh b !! l).
Proof.
  intros Hb [os Hin]%in_levels. destruct (si_levels _ _ _ _ _ (ss_side _ _ Hb s) _ _ Hin) as [lim Hl].
  exists lim. apply Hl.
Qed.

(** A new limit is not one of the levels'. *)
Lemma alloc_limit_fresh b a s l : sides_ok b a → l ∈ (a_levels a s).*1 → l ≠ b_next_limit b.
Proof. intros Hb Hl ->. apply (level_limits_lookup b a) in Hl; [|done]. apply (ss_next _ _ Hb) in Hl. lia. Qed.
Lemma alloc_limit_sides b a p : sides_ok b a → sides_ok (alloc_limit (new_limit p) b) a.
Proof.
  intros Hb. split; simpl; try apply Hb.
  - intros s. eapply (side_ok_frame (b_oh b) _ (b_lh b)); [done| |].
    + intros l Hl. apply lookup_insert_ne. symmetry. by eapply alloc_limit_fresh.
    + pose proof (ss_side _ _ Hb s). by destruct s.
  - intros l. rewrite lookup_insert_is_Some. intros [->|[_ Hl]]; [lia|].
    apply (ss_next _ _ Hb) in Hl. lia.
Qed.
Lemma alloc_limit_ok b a p : book_ok b a → book_ok (alloc_limit (new_limit p) b) a.
Proof.
  intros Hb. destruct (alloc_limit_sides b a p Hb) as [S1 S2 S3 S4 S5].
  split; [exact S1|exact S2|exact S3|apply Hb|exact S4|exact S5|apply Hb|].
  intros buy lo oo lp op Ho Hp Hoo Hop.
  assert (∀ s l os, (l, os) ∈ a_levels a s →
    price_of (<[b_next_limit b := new_limit p]> (b_lh b)) l = price_of (b_lh b) l) as Hpr.
  { intros s l os Hin. unfold price_of. rewrite lookup_insert_ne; [done|]. symmetry.
    eapply (alloc_limit_fresh b a s), in_levels; eauto. exact Hb. }
  simpl. erewrite !Hpr by done. by eapply (bk_uncrossed _ _ Hb).
Qed.
End rest.

Section rest_ok.
Implicit Types (b : book) (a : abook) (s : book_side).

Lemma orders_ok_insert oh oh' om all ord id :
  (∀ o, o ∈ all → id_at oh' o = id_at oh o) → id_at oh' ord = Some id → om !! id = None →
  orders_ok oh om all → orders_ok oh' (<[id := ord]> om) (ord :: all).
Proof.
  intros Hi Hord Hnew Hok id' o. rewrite lookup_insert_Some, elem_of_cons. split.
  - intros [[<- <-]|[Hne Ho]]; [by auto|]. apply Hok in Ho as [Hin Ho]. by rewrite Hi; auto.
  - intros [[->|Hin] Ho].
    + left. by rewrite Hord in Ho; simplify_eq.
    + right. rewrite Hi in Ho by done. assert (om !! id' = Some o) as Hin' by (by apply Hok).
      split; [|done]. by intros ->; rewrite Hnew in Hin'.
Qed.

(** The book [b], in which the order [ord] joined the side [s] as [rested] says. *)
Section rested.
Context (b : book) (a : abook) (s : book_side) (ord : oid) (x : order) (new : lid).
Context (oh' : gmap nat order) (lh' : gmap nat limit) (tr' : rbtree lid).
Hypothesis Hb : sides_ok b a.
Hypothesis Hx : b_oh b !! ord = Some x.
Hypothesis Hfresh : ord ∉ all_orders a.
Hypothesis Hr : restable s (o_price x) x.
Hypothesis Hnl : ∀ s', new ∉ (a_levels a s').*1.
Hypothesis Hrd : rested (b_oh b) (b_lh b) s new ord x (a_levels a s) oh' lh' tr'.
Local Abbreviation lvs' :=
  (rest_order (LimitComparator (b_lh b) (limits_asc s)) new ord (a_levels a s)).

Lemma rested_static o : static_at oh' o = static_at (b_oh b) o.
Proof.
  destruct (rd_order _ _ _ _ _ _ _ _ _ _ Hrd) as (l&pr&nx&Ho).
  destruct (decide (o = ord)) as [->|Hne]; [unfold static_at; by rewrite Ho, Hx|].
  by apply static_at_data, (rd_data _ _ _ _ _ _ _ _ _ _ Hrd).
Qed.

Lemma rested_sides s' :
  side_ok oh' lh' s' (limits_of s' (put_limits s tr' b)) (a_levels (set_levels s lvs' a) s').
Proof.
  destruct (decide (s' = s)) as [->|Hne]; simpl.
  - rewrite upd_side_same. pose proof (rd_side _ _ _ _ _ _ _ _ _ _ Hrd). by destruct s.
  - rewrite upd_side_other by done. pose proof Hne as ->%ne_other.
    assert (limits_of (other s) (put_limits s tr' b) = limits_of (other s) b) as -> by (by destruct s).
    eapply side_ok_frame; [| |apply Hb].
    + intros o Ho. apply (rd_frame _ _ _ _ _ _ _ _ _ _ Hrd); [|by intros ->; eapply not_in_side].
      intros Ho'. exact (sides_disjoint b a s o Hb Ho' Ho).
    + intros l Hl. apply (rd_limits _ _ _ _ _ _ _ _ _ _ Hrd); [|by intros ->; eapply Hnl].
      intros Hl'. by apply (ss_limits _ _ Hb s l).
Qed.

Lemma rested_sides_ok om :
  sides_ok (with_objects oh' lh' om (put_limits s tr' b)) (set_levels s lvs' a).
Proof.
  pose proof (ss_nodup _ _ Hb) as Hnd. rewrite (all_orders_perm a s) in Hnd.
  split.
  - intros s'. rewrite limits_of_with. apply rested_sides.
  - intros s' l. simpl. destruct (decide (s' = s)) as [->|Hne].
    + rewrite upd_side_same, upd_side_other by apply other_ne.
      intros [Hl| ->]%rest_order_limits; [by apply (ss_limits _ _ Hb)|done].
    + rewrite upd_side_other by done. apply ne_other in Hne as ->. rewrite other_other, upd_side_same.
      intros Hl [Hl'| ->]%rest_order_limits; [by apply (ss_limits _ _ Hb s l)|by eapply Hnl].
  - rewrite all_orders_upd, rest_order_lorders, <-Permutation_middle.
    apply NoDup_cons. split; [|done]. by rewrite <-all_orders_perm.
  - intros l. simpl. intros Hl.
    assert (b_next_limit (put_limits s tr' b) = b_next_limit b) as -> by (by destruct s).
    apply (ss_next _ _ Hb). pose proof (rd_prices _ _ _ _ _ _ _ _ _ _ Hrd l).
    destruct (lh' !! l), (b_lh b !! l); done.
  - intros s'. eapply (stops_ok_static (b_oh b)); [exact rested_static|].
    pose proof (ss_stops _ _ Hb s'). by destruct s, s'.
Qed.
End rested.

Section rested_book.
Context (b : book) (a : abook) (s : book_side) (ord : oid) (x : order) (new : lid).
Context (oh' : gmap nat order) (lh' : gmap nat limit) (tr' : rbtree lid).
Hypothesis Hb : book_ok b a.
Hypothesis Hx : b_oh b !! ord = Some x.
Hypothesis Hfresh : ord ∉ all_orders a.
Hypothesis Hid : b_orders b !! o_id x = None.
Hypothesis Hr : restable s (o_price x) x.
Hypothesis Hnl : ∀ s', new ∉ (a_levels a s').*1.
Hypothesis Hrd : rested (b_oh b) (b_lh b) s new ord x (a_levels a s) oh' lh' tr'.
Local Abbreviation lvs' :=
  (rest_order (LimitComparator (b_lh b) (limits_asc s)) new ord (a_levels a s)).

Lemma rested_uncrossed :
  (∀ l os, (l, os) ∈ a_levels a (other s) → os ≠ [] →
    beyond (is_buy x) (o_price x) (price_of (b_lh b) l) = true) →
  uncrossed lh' (set_levels s lvs' a).
Proof.
  destruct Hrd as [Rs _ _ _ Rp (l0&pr0&nx0&Ro)]. intros Hunc.
  assert (own_side (is_buy x) = s) as Hs by (rewrite (rt_side _ _ _ Hr); by destruct s).
  apply (uncrossed_one _ _ (is_buy x)). rewrite opposite_other, Hs. simpl.
  rewrite upd_side_same, upd_side_other by apply other_ne.
  intros lo oo lp op Ho Hpp Hoo Hop. rewrite !(price_of_ext (b_lh b) lh') by auto.
  pose proof Ho as [Hold|Hin]%rest_order_in.
  - eapply (bk_uncrossed _ _ Hb (is_buy x)); rewrite ?opposite_other, ?Hs; done.
  - destruct (si_levels _ _ _ _ _ Rs _ _ Ho) as [lim [Hlim Hres]].
    destruct (Hres ord Hin) as (x'&Hx'&Hrests). rewrite Ro in Hx'. injection Hx' as <-.
    rewrite <-(price_of_ext (b_lh b) lh') by auto.
    rewrite (limit_price_of _ _ _ (lv_limit _ _ _ _ _ Hlim)).
    apply rests_links in Hrests. rewrite <-(rs_price _ _ _ _ Hrests). by eapply Hunc.
Qed.

Lemma rested_book_ok :
  uncrossed lh' (set_levels s lvs' a) →
  book_ok (with_objects oh' lh' (<[o_id x := ord]> (b_orders b)) (put_limits s tr' b))
    (set_levels s lvs' a).
Proof.
  intros Hunc. destruct (rd_order _ _ _ _ _ _ _ _ _ _ Hrd) as (l0&pr0&nx0&Ro).
  pose proof (rested_static b a s ord x new oh' lh' tr' Hx Hrd) as Hst.
  destruct (rested_sides_ok b a s ord x new oh' lh' tr' Hb Hx Hfresh Hr Hnl Hrd
    (<[o_id x := ord]> (b_orders b))) as [S1 S2 S3 S4 S5].
  split; [exact S1|exact S2|exact S3| |exact S4|exact S5| |done].
  - eapply orders_ok_perm; [symmetry; apply all_orders_upd|].
    eapply orders_ok_perm; [by rewrite rest_order_lorders, <-Permutation_middle, <-all_orders_perm|].
    apply (orders_ok_insert (b_oh b)); [|by unfold id_at; simpl; rewrite Ro|done|apply Hb].
    intros o _. apply (static_id (b_oh b) oh'), Hst.
  - eapply (dates_ok_static (b_oh b)); [exact Hst|]. pose proof (bk_dates _ _ Hb). by destruct s.
Qed.
End rested_book.

Lemma rest_ok b a s ord x new :
  book_ok b a → b_oh b !! ord = Some x → ord ∉ all_orders a → b_orders b !! o_id x = None →
  restable s (o_price x) x → is_nan (o_price x) = false →
  b_lh b !! new = Some (new_limit (o_price x)) → (∀ s', new ∉ (a_levels a s').*1) →
  (∀ l os, (l, os) ∈ a_levels a (other s) → os ≠ [] →
    beyond (is_buy x) (o_price x) (price_of (b_lh b) l) = true) →
  ∃ oh' lh' tr', add_limit_order ord new s b
      = (with_objects oh' lh' (b_orders b) (put_limits s tr' b), Ret tt) ∧
    rested (b_oh b) (b_lh b) s new ord x (a_levels a s) oh' lh' tr' ∧
    book_ok (with_objects oh' lh' (<[o_id x := ord]> (b_orders b)) (put_limits s tr' b))
      (set_levels s
         (rest_order (LimitComparator (b_lh b) (limits_asc s)) new ord (a_levels a s)) a).
Proof.
  intros Hb Hx Hfresh Hid Hr Hp Hnew Hnl Hunc.
  destruct (add_limit_order_ok (b_oh b) (b_lh b) (b_orders b) b s (a_levels a s) new ord x
    (o_price x)) as (oh'&lh'&tr'&E&Hrd); try done.
  { apply Hb. } { exact (side_orders_nodup b a s Hb). } { by apply not_in_side. }
  exists oh', lh', tr'. rewrite with_objects_id in E. split; [exact E|]. split; [done|].
  eapply rested_book_ok; try done. by eapply rested_uncrossed.
Qed.
End rest_ok.

(** ** What adding an order does *)

Section specification.
Implicit Types (b : book) (a : abook).

Definition expires (x : order) : bool := has_param x GFD || has_param x GTD.

(** The tree of expiring orders replaces an order with the same expiration time. *)
Definition date_abs b (ord : oid) (x : order) a : abook :=
  if expires x then set_dates (sinsert (DateOrderComparator (b_oh b) true) ord (a_dates a)) a else a.

(** The status, the market price and the contents of the book when the order [x] at [ord] is
    placed. *)
Definition place_abs b a (ord : oid) (x : order) : OrderStatus * float * abook :=
  let own := own_side (is_buy x) in
  let '(q', mp, rest) := matching b a x in
  let a1 := set_levels (opposite_side (is_buy x)) (strip rest) a in
  if feqb q' (Fin 0) then (MATCHED, mp, a1)
  else if has_param x FOK then (NOT_MATCHED, mp, a1)
  else
    let new := b_next_limit b in
    let less := LimitComparator (<[new := new_limit (get_price x)]> (b_lh b)) (limits_asc own) in
    (ACCEPTED, mp,
      date_abs b ord x (set_levels own (rest_order less new ord (a_levels a own)) a1)).

(** The order afterwards. *)
Record placed_order (x x' : order) (st : OrderStatus) (q' : float) : Prop := {
  po_static : static x' = static x;
  po_qty : o_current_qty x' = q';
  po_params : o_params x' = o_params x;
  po_cancelled : o_cancelled x' = bool_decide (st = NOT_MATCHED)
}.

Record placed b a (ord : oid) (x : order) (b' : book) (st : OrderStatus) (mp : float) (a' : abook)
    : Prop := {
  pl_book : book_ok b' a';
  pl_price : b_market_price b' = mp;
  pl_order : ∃ x', b_oh b' !! ord = Some x' ∧ placed_order x x' st (matching b a x).1.1;
  pl_rest : lentries (b_oh b') (strip (matching b a x).2) = (matching b a x).2;
  pl_frame o : o ∉ all_orders a → o ≠ ord → b_oh b' !! o = b_oh b !! o;
  pl_own o : o ∈ lorders (a_levels a (own_side (is_buy x))) → data (b_oh b') o = data (b_oh b) o;
  pl_static o : static_at (b_oh b') o = static_at (b_oh b) o;
  pl_queues : order_queue b' = order_queue b ∧ trade_queue b' = trade_queue b;
  pl_prices l : is_Some (b_lh b !! l) → price_of (b_lh b') l = price_of (b_lh b) l
}.
End specification.

Section place.
Variable now : Z.
Implicit Types (b : book) (a : abook).

Lemma rest_order_ext (less less' : lid → lid → bool) new ord lvs :
  (∀ l1 l2, less l1 l2 = less' l1 l2) → rest_order less new ord lvs = rest_order less' new ord lvs.
Proof.
  intros H. induction lvs as [|[l os] lvs IH]; simpl; [done|]. by rewrite !H, IH.
Qed.
Lemma sinsert_ext {A} (less less' : A → A → bool) v l :
  (∀ x y, less x y = less' x y) → sinsert less v l = sinsert less' v l.
Proof. intros H. induction l as [|x l IH]; simpl; [done|]. by rewrite !H, IH. Qed.
Lemma sremove_ext {A} (less less' : A → A → bool) v l :
  (∀ x y, less x y = less' x y) → sremove less v l = sremove less' v l.
Proof. intros H. induction l as [|x l IH]; simpl; [done|]. by rewrite !H, IH. Qed.

Lemma dates_book_ok b a t os :
  book_ok b a → dates_ok (b_oh b) t os → book_ok (put_date_orders t b) (set_dates os a).
Proof. intros Hb Ht. split; try apply Hb; done. Qed.

(** The last steps of placing: the order joins the dated orders when it expires. *)
Lemma add_date_order_ok b a ord x :
  book_ok b a → b_oh b !! ord = Some x →
  ∃ t, add_date_order ord b = (put_date_orders t b, Ret tt) ∧
    book_ok (put_date_orders t b) (date_abs b ord x a).
Proof.
  intros Hb Hx. unfold add_date_order, date_abs, expires.
  erewrite bind_ok by (unfold get_order; by rewrite Hx).
  destruct (_ || _); simpl.
  - destruct (dates_insert_ok b (a_dates a) ord (bk_dates _ _ Hb) ltac:(by exists x)) as (t&E&Ht).
    exists t. split; [exact E|]. by apply dates_book_ok.
  - exists (b_date_orders b). assert (put_date_orders (b_date_orders b) b = b) as -> by (by destruct b).
    done.
Qed.

(** Cancelling an order that is nowhere in the book. *)
Lemma fresh_order_ok b a ord x x' :
  book_ok b a → b_oh b !! ord = Some x → static x' = static x → ord ∉ all_orders a →
  book_ok (set_oh (<[ord := x']> (b_oh b)) b) a.
Proof.
  intros Hb Hx Hst Hn.
  assert (∀ o, static_at (<[ord := x']> (b_oh b)) o = static_at (b_oh b) o) as Hs
    by (intros; by eapply static_at_insert).
  split; try apply Hb; simpl.
  - intros s. assert (limits_of s (set_oh (<[ord := x']> (b_oh b)) b) = limits_of s b) as -> by (by destruct s).
    eapply side_ok_frame; [| |apply Hb]; [|done].
    intros o Ho. apply lookup_insert_ne. intros <-. by apply (not_in_side _ _ _ Hn) in Ho.
  - eapply orders_ok_ids; [|done|apply Hb]. intros o _. apply static_id, Hs.
  - intros s. assert (stops_of s (set_oh (<[ord := x']> (b_oh b)) b) = stops_of s b) as -> by (by destruct s).
    eapply stops_ok_static; [apply Hs|apply Hb].
  - eapply dates_ok_static; [apply Hs|apply Hb].
Qed.

(** What matching leaves, in terms of the quantities. *)
Lemma matching_ok b a ord x q' mp rest :
  book_ok b a → incoming b a ord x → matching b a x = (q', mp, rest) →
  (q' = Fin 0 ∨ qty_ok q') ∧
  Forall2 smaller rest (lentries (b_oh b) (a_levels a (opposite_side (is_buy x)))) ∧
  (feqb q' (Fin 0) = false → has_param x AON = false →
    ∀ l e, (l, e) ∈ rest → e ≠ [] → beyond (is_buy x) (o_price x) (price_of (b_lh b) l) = true).
Proof.
  intros Hb Hin. destruct (in_qty _ _ _ _ Hin) as (q&Hq&Hq0&Hqf).
  pose proof (bk_side _ _ Hb (opposite_side (is_buy x))) as Hs.
  unfold matching. rewrite Hq. intros Hm.
  destruct (match_levels_ok (b_lh b) (has_param x AON) (is_buy x) (get_type x) (get_price x) q
    (b_market_price b) (lentries (b_oh b) (a_levels a (opposite_side (is_buy x)))) ltac:(lia) Hqf
    (side_entries _ _ _ _ _ Hs)) as (q1&mp1&rest1&Hm'&Hq1&Hf1&Hsm&_).
  rewrite Hm' in Hm. injection Hm as Hqq Hmp Hrr. subst rest1 q' mp1. split; [|split; [done|]].
  - destruct (decide (q1 = 0%Z)) as [->|]; [by left|right]. exists q1. split; [done|]. split; [lia|done].
  - intros Hne Haon l e Hl He. rewrite Haon in Hm'.
    eapply match_levels_stops; [apply (in_price _ _ _ _ Hin)|..|exact Hm'| |exact Hl|exact He].
    + rewrite lentries_keys. by eapply side_priced.
    + rewrite lentries_keys. by eapply side_sorted.
    + done.
    + done.
    + by eapply side_entries.
    + intros [= ->]. by cbn in Hne.
Qed.

Lemma matched_orders b a ord x q' mp rest o :
  book_ok b a → incoming b a ord x → matching b a x = (q', mp, rest) →
  o ∈ all_orders (set_levels (opposite_side (is_buy x)) (strip rest) a) → o ∈ all_orders a.
Proof.
  intros Hb Hin Hm. destruct (matching_ok _ _ _ _ _ _ _ Hb Hin Hm) as (_&Hs&_).
  rewrite all_orders_upd, (all_orders_perm a (opposite_side (is_buy x))), !elem_of_app.
  intros [?|Ho]; [auto|right]. eapply sublist_subseteq; [|exact Ho]. by eapply lorders_smaller.
Qed.

Lemma fresh_id b a id :
  book_ok b a → (∀ o, o ∈ all_orders a → id_at (b_oh b) o ≠ Some id) → b_orders b !! id = None.
Proof.
  intros Hb H. destruct (b_orders b !! id) as [o|] eqn:Ho; [|done].
  apply (bk_map _ _ Hb) in Ho as [Hin Ho]. by apply H in Hin.
Qed.
Lemma known_id b a id o :
  book_ok b a → b_orders b !! id = None → o ∈ all_orders a → id_at (b_oh b) o ≠ Some id.
Proof.
  intros Hb Hid Hin Ho. assert (b_orders b !! id = Some o) as H by (by apply (bk_map _ _ Hb)).
  by rewrite Hid in H.
Qed.

(** The book that matching left. *)
Section matched.
Context (b : book) (a : abook) (ord : oid) (x : order) (q' mp : float).
Context (rest : list (lid * list (oid * float))).
Context (oh' : gmap nat order) (lh' : gmap nat limit) (om' : gmap string oid).
Hypothesis Hb : book_ok b a.
Hypothesis Hin : incoming b a ord x.
Hypothesis Hm : matching b a x = (q', mp, rest).
Hypothesis Hsm : side_matched (b_oh b) (b_lh b) (b_orders b) (opposite_side (is_buy x)) ord x
  (a_levels a (opposite_side (is_buy x))) q' rest oh' lh' om'.
Local Abbreviation own := (own_side (is_buy x)).
Local Abbreviation a1 := (set_levels (opposite_side (is_buy x)) (strip rest) a).
Local Abbreviation x1 := (set_o_current_qty q' x).
Local Abbreviation b1 := (with_objects oh' lh' om' (put_market_price mp b)).
Local Abbreviation new := (b_next_limit b).
Local Abbreviation b2 := (alloc_limit (new_limit (o_price x)) b1).

Lemma matched_book : book_ok b1 a1.
Proof. exact (matched_book_ok b a ord x _ q' mp rest _ _ _ Hb Hin eq_refl Hm Hsm). Qed.

Lemma matched_fresh : ord ∉ all_orders a1.
Proof. intros Ho. apply (in_fresh _ _ _ _ Hin). by eapply matched_orders. Qed.

Lemma matched_new_id : b_orders b1 !! o_id x = None.
Proof.
  eapply fresh_id; [exact matched_book|]. intros o Ho. simpl.
  rewrite (static_id _ _ _ (sd_ids _ _ _ _ _ _ _ _ _ _ _ _ Hsm o)).
  eapply known_id; [done|apply (in_id _ _ _ _ Hin)|by eapply matched_orders].
Qed.

Lemma matched_new_limit s l : l ∈ (a_levels a1 s).*1 → l ≠ new.
Proof.
  intros Hl ->. apply (level_limits_lookup b1) in Hl; [|exact matched_book].
  apply (bk_next _ _ matched_book) in Hl. simpl in Hl. lia.
Qed.

(** The levels that are left on the opposite side are out of the order's reach. *)
Lemma matched_beyond l os :
  feqb q' (Fin 0) = false → has_param x FOK = false →
  (l, os) ∈ a_levels a1 (other own) → os ≠ [] →
  beyond (is_buy x) (o_price x) (price_of (b_lh b2) l) = true.
Proof.
  intros Hq' Hfok. rewrite <-opposite_other. simpl. rewrite upd_side_same. intros Hl Hos.
  assert (l ≠ new) as Hne.
  { apply (matched_new_limit (opposite_side (is_buy x))). simpl. rewrite upd_side_same.
    apply in_levels. eauto. }
  unfold strip in Hl. apply list_elem_of_fmap in Hl as ([l' e]&[= -> ->]&Hl).
  assert (price_of (<[new := new_limit (o_price x)]> lh') l' = price_of (b_lh b) l') as ->.
  { unfold price_of at 1. rewrite lookup_insert_ne by done.
    apply price_of_ext. apply (sd_prices _ _ _ _ _ _ _ _ _ _ _ _ Hsm). }
  destruct (matching_ok _ _ _ _ _ _ _ Hb Hin Hm) as (_&_&Hstop).
  eapply Hstop; [done|by apply no_FOK_no_AON|exact Hl|by intros ->].
Qed.

Lemma matched_restable :
  feqb q' (Fin 0) = false → has_param x FOK = false → restable own (o_price x1) x1.
Proof.
  intros Hq' Hfok. destruct (matching_ok _ _ _ _ _ _ _ Hb Hin Hm) as (Hqty&_).
  split; try done; try apply Hin.
  - change (is_buy x1) with (is_buy x). by destruct (is_buy x).
  - destruct Hqty as [->|Hqty]; [done|exact Hqty].
Qed.

(** *** The order rests in it *)

Section resting.
Context (oh3 : gmap nat order) (lh3 : gmap nat limit) (tr3 : rbtree lid) (t : rbtree oid).
Hypothesis Hrd : rested (b_oh b2) (b_lh b2) own new ord x1 (a_levels a1 own) oh3 lh3 tr3.

Lemma resting_static o : static_at oh3 o = static_at (b_oh b) o.
Proof.
  rewrite <-(sd_ids _ _ _ _ _ _ _ _ _ _ _ _ Hsm o). apply (rested_static b2 a1 own ord x1 new _ lh3 tr3).
  - exact (sd_order _ _ _ _ _ _ _ _ _ _ _ _ Hsm).
  - exact Hrd.
Qed.

Lemma resting_abs b3 y :
  b_oh b3 = oh3 → o_params y = o_params x → feqb q' (Fin 0) = false → has_param x FOK = false →
  (place_abs b a ord x).2 = date_abs b3 ord y
    (set_levels own (rest_order (LimitComparator (b_lh b2) (limits_asc own)) new ord
       (a_levels a1 own)) a1).
Proof.
  intros Hoh Hy Hq' Hfok. unfold place_abs. rewrite Hm, Hq', Hfok. cbn [snd]. unfold date_abs. rewrite Hoh.
  assert (expires y = expires x) as ->.
  { unfold expires, has_param. by rewrite Hy. }
  erewrite (sinsert_ext (DateOrderComparator (b_oh b) true)); [|].
  2: { intros o o'. symmetry. apply DateOrderComparator_ext. exact resting_static. }
  assert (a_levels a1 own = a_levels a own) as ->.
  { simpl. rewrite upd_side_other; [done|]. by destruct (is_buy x). }
  erewrite (rest_order_ext (LimitComparator _ _)); [done|]. intros l1 l2. symmetry.
  apply LimitComparator_ext. intros l. simpl.
  destruct (decide (l = new)) as [->|Hl]; [by rewrite !lookup_insert_eq|].
  rewrite !lookup_insert_ne by done. apply (sd_prices _ _ _ _ _ _ _ _ _ _ _ _ Hsm).
Qed.

Lemma resting_frame o : o ∉ all_orders a → o ≠ ord → oh3 !! o = b_oh b !! o.
Proof.
  intros Ho Hno. rewrite (rd_frame _ _ _ _ _ _ _ _ _ _ Hrd); [|intros Ho'; apply Ho|done].
  - apply (sd_frame _ _ _ _ _ _ _ _ _ _ _ _ Hsm); [by apply not_in_side|done].
  - eapply matched_orders; [done..|]. rewrite (all_orders_perm a1 own), elem_of_app. auto.
Qed.

Lemma own_data o : o ∈ lorders (a_levels a own) → o ≠ ord ∧ oh' !! o = b_oh b !! o.
Proof.
  intros Ho. assert (o ≠ ord) as Hno by (by intros ->; eapply not_in_side, Ho; apply Hin).
  split; [done|]. apply (sd_frame _ _ _ _ _ _ _ _ _ _ _ _ Hsm); [|done].
  rewrite opposite_other. exact (sides_disjoint b a own o Hb Ho).
Qed.

Lemma resting_entries : lentries oh3 (strip rest) = rest.
Proof.
  etransitivity; [|apply (sd_rest _ _ _ _ _ _ _ _ _ _ _ _ Hsm)].
  apply lentries_ext. intros o Ho. apply qty_at_data.
  apply (rd_data _ _ _ _ _ _ _ _ _ _ Hrd). intros ->.
  apply matched_fresh. rewrite all_orders_upd, elem_of_app. auto.
Qed.

Lemma resting_prices l : is_Some (b_lh b !! l) → price_of lh3 l = price_of (b_lh b) l.
Proof.
  intros Hl. apply price_of_ext. rewrite (rd_prices _ _ _ _ _ _ _ _ _ _ Hrd). simpl.
  rewrite lookup_insert_ne; [apply (sd_prices _ _ _ _ _ _ _ _ _ _ _ _ Hsm)|].
  intros <-. apply (bk_next _ _ Hb) in Hl. lia.
Qed.

Lemma resting_placed om3 a' :
  let b4 := put_date_orders t (with_objects oh3 lh3 om3 (put_limits own tr3 b2)) in
  book_ok b4 a' → placed b a ord x b4 ACCEPTED mp a'.
Proof.
  intros b4 Hb4. destruct (rd_order _ _ _ _ _ _ _ _ _ _ Hrd) as (l3&pr3&nx3&Ho3).
  split; [exact Hb4|..]; unfold b4; rewrite ?Hm; cbn [fst snd].
  - by destruct (is_buy x).
  - eexists. split; [exact Ho3|]. split; try done. apply Hin.
  - exact resting_entries.
  - intros o. apply resting_frame.
  - intros o Ho. destruct (own_data o Ho) as [Hno Hd]. simpl.
    rewrite (rd_data _ _ _ _ _ _ _ _ _ _ Hrd) by done. simpl. unfold data. by rewrite Hd.
  - apply resting_static.
  - by destruct (is_buy x).
  - apply resting_prices.
Qed.
End resting.

Lemma accepted_ok :
  feqb q' (Fin 0) = false → has_param x FOK = false →
  ∃ b', (limit ← make_limit (get_price x1);
         add_limit_order ord limit own;;
         modify (λ b, put_orders (<[get_id x1 := ord]> (b_orders b)) b);;
         add_date_order ord;;
         mret ACCEPTED) b1 = (b', Ret ACCEPTED) ∧
    placed b a ord x b' ACCEPTED mp (place_abs b a ord x).2.
Proof.
  intros Hq' Hfok. assert (book_ok b2 a1) as Hb2 by apply alloc_limit_ok, matched_book.
  destruct (rest_ok b2 a1 own ord x1 new Hb2) as (oh3&lh3&tr3&E&Hrd&Hb3).
  { exact (sd_order _ _ _ _ _ _ _ _ _ _ _ _ Hsm). } { exact matched_fresh. }
  { exact matched_new_id. } { by apply matched_restable. } { apply Hin. }
  { simpl. by rewrite lookup_insert_eq. } { intros s Hl. by eapply matched_new_limit. }
  { intros l os. by apply matched_beyond. }
  unfold make_limit. erewrite bind_ok by reflexivity.
  change (b_next_limit b1) with new. erewrite bind_ok by exact E. rewrite bind_modify.
  set (b3 := with_objects _ _ _ _) in Hb3. change (put_orders _ _) with b3.
  destruct (rd_order _ _ _ _ _ _ _ _ _ _ Hrd) as (l3&pr3&nx3&Ho3).
  destruct (add_date_order_ok b3 _ ord _ Hb3 Ho3) as (t&Et&Hb4).
  erewrite bind_ok by exact Et. eexists. split; [reflexivity|].
  rewrite <-(resting_abs oh3 lh3 tr3 Hrd b3) in Hb4 by done.
  by apply resting_placed.
Qed.
End matched.

(** [place_order] on every branch. *)
Lemma place_order_ok b a ord x st mp a' :
  book_ok b a → incoming b a ord x → place_abs b a ord x = (st, mp, a') →
  ∃ b', place_order now ord b = (b', Ret st) ∧ placed b a ord x b' st mp a'.
Proof.
  intros Hb Hin Hp. unfold place_order.
  erewrite bind_ok by (unfold get_order; by rewrite (in_order _ _ _ _ Hin)).
  destruct (matching b a x) as [[q' mp'] rest] eqn:Hm.
  destruct (match_order_ok now b a ord x _ q' mp' rest Hb Hin eq_refl Hm) as (oh'&lh'&om'&E&Hsm).
  erewrite bind_ok by exact E.
  pose proof (matched_book_ok b a ord x _ q' mp' rest _ _ _ Hb Hin eq_refl Hm Hsm) as Hb1.
  pose proof (sd_order _ _ _ _ _ _ _ _ _ _ _ _ Hsm) as Hord.
  pose proof (matched_orders _ _ _ _ _ _ _ ord Hb Hin Hm) as Hold.
  unfold place_abs in Hp. rewrite Hm in Hp.
  pose proof (own_data b a ord x q' rest oh' lh' om' Hb Hin Hsm) as Hown.
  destruct (feqb q' (Fin 0)) eqn:Hq'; [|erewrite bind_ok by (by apply get_order_ok);
    change (has_param (set_o_current_qty q' x) FOK) with (has_param x FOK);
    destruct (has_param x FOK) eqn:Hfok].
  - injection Hp as <- <- <-. eexists. split; [reflexivity|]. split; simpl; try done.
    + exists (set_o_current_qty q' x). split; [done|]. rewrite Hm. split; try done. apply Hin.
    + rewrite Hm. apply (sd_rest _ _ _ _ _ _ _ _ _ _ _ _ Hsm).
    + intros o Ho Hno. apply (sd_frame _ _ _ _ _ _ _ _ _ _ _ _ Hsm); [by apply not_in_side|done].
    + intros o Ho. unfold data. by rewrite (proj2 (Hown o Ho)).
    + apply (sd_ids _ _ _ _ _ _ _ _ _ _ _ _ Hsm).
    + intros l _. apply price_of_ext, (sd_prices _ _ _ _ _ _ _ _ _ _ _ _ Hsm).
  - injection Hp as <- <- <-. erewrite bind_ok by (by apply upd_order_ok).
    eexists. split; [reflexivity|]. split; simpl; try done.
    + change (book_ok (set_oh (<[ord := cancel (set_o_current_qty q' x)]> (b_oh (with_objects oh' lh' om' (put_market_price mp' b)))) (with_objects oh' lh' om' (put_market_price mp' b)))
        (set_levels (opposite_side (is_buy x)) (strip rest) a)).
      eapply fresh_order_ok; [done|exact Hord|done|]. intros Ho. by apply (in_fresh _ _ _ _ Hin), Hold.
    + eexists. split; [by rewrite lookup_insert_eq|]. rewrite Hm. by split.
    + rewrite Hm. cbn [snd]. etransitivity; [|apply (sd_rest _ _ _ _ _ _ _ _ _ _ _ _ Hsm)].
      apply lentries_ext. intros o Ho. unfold qty_at. rewrite lookup_insert_ne; [done|].
      intros <-. apply (in_fresh _ _ _ _ Hin), Hold. rewrite all_orders_upd, elem_of_app. auto.
    + intros o Ho Hno. rewrite lookup_insert_ne by done.
      apply (sd_frame _ _ _ _ _ _ _ _ _ _ _ _ Hsm); [by apply not_in_side|done].
    + intros o Ho. unfold data. destruct (Hown o Ho) as [??]. by rewrite lookup_insert_ne by done; f_equal.
    + intros o. rewrite <-(sd_ids _ _ _ _ _ _ _ _ _ _ _ _ Hsm). by eapply static_at_insert.
    + intros l _. apply price_of_ext, (sd_prices _ _ _ _ _ _ _ _ _ _ _ _ Hsm).
  - destruct (accepted_ok b a ord x q' mp' rest oh' lh' om') as (b'&E'&Hpl); try done.
    exists b'. unfold place_abs in Hpl. rewrite Hm, Hq', Hfok in Hpl.
    injection Hp as <- <- <-. split; [exact E'|exact Hpl].
Qed.

(** The book a stop order is added to when it does not wait. *)
Definition triggered b (ord : oid) (x : order) : book :=
  if has_param x STOP && bool_decide (get_type x = MARKET)
  then set_oh (<[ord := set_params IOC x]> (b_oh b)) b else b.
Definition triggered_order (x : order) : order :=
  if has_param x STOP && bool_decide (get_type x = MARKET) then set_params IOC x else x.

(** An order that is kept for later, and the book in which any other is placed. *)
Definition waits b (x : order) : bool := has_param x STOP && stop_waits x (b_market_price b).
Definition enqueued b (ord : oid) : book := put_queues (order_queue b ++ [ord]) (trade_queue b) b.
Definition ready b (ord : oid) (x : order) : book := triggered (enqueued b ord) ord x.

Definition add_abs b a (ord : oid) (x : order) : OrderStatus * float * abook :=
  if waits b x then
    let own := own_side (is_buy x) in
    (ACCEPTED, b_market_price b,
      date_abs b ord x
        (set_stops own (sinsert (OrderComparator (b_oh b) (stops_asc own)) ord (a_stops a own)) a))
  else place_abs (triggered b ord x) a ord (triggered_order x).

Lemma triggered_ok b a ord x :
  book_ok b a → incoming b a ord x →
  book_ok (triggered b ord x) a ∧ incoming (triggered b ord x) a ord (triggered_order x).
Proof.
  intros Hb Hin. unfold triggered, triggered_order. destruct (_ && _); [|done]. split.
  - eapply fresh_order_ok; [done|apply Hin|done|apply Hin].
  - split; simpl; try apply Hin. by rewrite lookup_insert_eq.
Qed.

Lemma stops_book_ok b a s t os :
  book_ok b a → stops_ok (b_oh b) s t os → book_ok (put_stops s t b) (set_stops s os a).
Proof.
  intros Hb Ht. pose proof (bk_stops _ _ Hb) as Hst. split; try (destruct s; apply Hb).
  intros s'. specialize (Hst s'). simpl. destruct (decide (s' = s)) as [->|Hne].
  - rewrite upd_side_same. by destruct s.
  - rewrite upd_side_other by done. by destruct s, s'.
Qed.

Record added b a (ord : oid) (x : order) (b' : book) (st : OrderStatus) (mp : float) (a' : abook)
    : Prop := {
  ad_book : book_ok b' a';
  ad_price : b_market_price b' = mp;
  ad_orders : order_queue b' = order_queue b ++ [ord];
  ad_trades : trade_queue b' = trade_queue b;
  ad_frame o : o ∉ all_orders a → o ≠ ord → b_oh b' !! o = b_oh b !! o;
  ad_static o : static_at (b_oh b') o = static_at (b_oh b) o
}.

Lemma placed_added b a ord x b' st mp a' :
  incoming b a ord x →
  placed (ready b ord x) a ord (triggered_order x) b' st mp a' → added b a ord x b' st mp a'.
Proof.
  intros Hin [Hb Hp _ _ Hf _ Hs [Hq1 Hq2] _]. unfold ready in *. split; [done..| | | |].
  - rewrite Hq1. unfold triggered. by destruct (_ && _).
  - rewrite Hq2. unfold triggered. by destruct (_ && _).
  - intros o Ho Hno. rewrite Hf by done. unfold triggered. destruct (_ && _); [|done].
    simpl. by rewrite lookup_insert_ne.
  - intros o. rewrite Hs. unfold triggered. destruct (_ && _); [|done].
    simpl. eapply static_at_insert; [apply Hin|done].
Qed.

Lemma enqueued_ok b a ord x :
  book_ok b a → incoming b a ord x → book_ok (enqueued b ord) a ∧ incoming (enqueued b ord) a ord x.
Proof.
  intros Hb Hin. split; [|split; apply Hin].
  pose proof (bk_side _ _ Hb) as Hsd. pose proof (bk_stops _ _ Hb) as Hst.
  split; try apply Hb; intros []; try apply (Hsd Asks); try apply (Hsd Bids);
    try apply (Hst Asks); try apply (Hst Bids).
Qed.
Lemma ready_ok b a ord x :
  book_ok b a → incoming b a ord x →
  book_ok (ready b ord x) a ∧ incoming (ready b ord x) a ord (triggered_order x).
Proof. intros Hb Hin. destruct (enqueued_ok b a ord x Hb Hin). by apply triggered_ok. Qed.

(** The contents of the book do not depend on the queue. *)
Lemma place_abs_enqueued b a ord x :
  place_abs (triggered (enqueued b ord) ord x) a ord (triggered_order x)
    = place_abs (triggered b ord x) a ord (triggered_order x).
Proof. unfold triggered. by destruct (_ && _). Qed.

(** An order that does not wait is placed. *)
Lemma add_order_places b a ord x :
  incoming b a ord x → waits b x = false → add_order now ord b = place_order now ord (ready b ord x).
Proof.
  intros Hin Hw. unfold add_order, enqueue_order. rewrite bind_modify. fold (enqueued b ord).
  pose proof (in_order _ _ _ _ Hin : b_oh (enqueued b ord) !! ord = Some x) as Hx.
  erewrite bind_ok by (unfold get_order; by rewrite Hx).
  unfold ready, triggered, waits in *. destruct (has_param x STOP); [|done]. cbn [andb] in *.
  rewrite bind_gets. change (b_market_price (enqueued b ord)) with (b_market_price b). rewrite Hw.
  destruct (bool_decide _); cbn [whenM]; [|done].
  by erewrite bind_ok by (unfold upd_order, on_order; rewrite Hx; reflexivity).
Qed.

(** A stop order that waits joins the waiting orders of its side. *)
Lemma add_order_waits b a ord x :
  book_ok b a → incoming b a ord x → waits b x = true →
  let own := own_side (is_buy x) in
  let a' := date_abs b ord x
    (set_stops own (sinsert (OrderComparator (b_oh b) (stops_asc own)) ord (a_stops a own)) a) in
  ∃ b', add_order now ord b = (b', Ret ACCEPTED) ∧ added b a ord x b' ACCEPTED (b_market_price b) a'.
Proof.
  intros Hb Hin Hw own. destruct (enqueued_ok b a ord x Hb Hin) as [Hb0 Hin0].
  unfold add_order, enqueue_order. rewrite bind_modify. fold (enqueued b ord).
  set (b0 := enqueued b ord) in *.
  erewrite bind_ok by (unfold get_order; by rewrite (in_order _ _ _ _ Hin0)).
  apply andb_true_iff in Hw as [-> Hw]. rewrite bind_gets.
  change (b_market_price b0) with (b_market_price b). rewrite Hw.
  destruct (stops_insert_ok b0 own (a_stops a own) ord (bk_stops _ _ Hb0 own)) as (t&E&Ht).
  { unfold opriced, oprice_of. rewrite (in_order _ _ _ _ Hin0). apply Hin. }
  erewrite bind_ok by exact E.
  pose proof (stops_book_ok _ _ _ _ _ Hb0 Ht) as Hb1.
  destruct (add_date_order_ok _ _ ord x Hb1) as (t'&E'&Hb2).
  { destruct own; apply Hin. }
  erewrite bind_ok by exact E'. eexists. split; [reflexivity|].
  unfold date_abs in *. split; destruct own; try done; exact Hb2.
Qed.

(** [add_order]: the order is handed to the repository first, then waits or is placed. *)
Lemma add_order_ok b a ord x st mp a' :
  book_ok b a → incoming b a ord x → add_abs b a ord x = (st, mp, a') →
  ∃ b', add_order now ord b = (b', Ret st) ∧ added b a ord x b' st mp a'.
Proof.
  intros Hb Hin Ha. unfold add_abs in Ha. destruct (waits b x) eqn:Hw.
  - injection Ha as <- <- <-. by apply add_order_waits.
  - destruct (ready_ok b a ord x Hb Hin) as [Hb1 Hin1].
    rewrite <-place_abs_enqueued in Ha. fold (ready b ord x) in Ha.
    destruct (place_order_ok _ _ _ _ _ _ _ Hb1 Hin1 Ha) as (b'&E&Hpl).
    exists b'. split; [by erewrite add_order_places|by apply placed_added].
Qed.

(** Nothing but the new order joins the resting orders. *)
Lemma place_abs_orders b a ord x st mp a' o :
  book_ok b a → incoming b a ord x → place_abs b a ord x = (st, mp, a') →
  o ∈ all_orders a' → o ∈ all_orders a ∨ o = ord.
Proof.
  intros Hb Hin. unfold place_abs. destruct (matching b a x) as [[q' mp'] rest] eqn:Hm.
  assert (∀ o, o ∈ all_orders (set_levels (opposite_side (is_buy x)) (strip rest) a) → o ∈ all_orders a)
    as Hsub by (intros o'; by eapply matched_orders).
  destruct (feqb _ _); [intros [= _ _ <-]; auto|].
  destruct (has_param x FOK); [intros [= _ _ <-]; auto|].
  intros [= _ _ <-]. set (a1 := set_levels _ _ a) in *.
  assert (∀ a, all_orders (date_abs b ord x a) = all_orders a) as ->
    by (intros a0; unfold date_abs; by destruct (expires x)).
  rewrite all_orders_upd, rest_order_lorders, elem_of_app, elem_of_cons.
  specialize (Hsub o). rewrite (all_orders_perm a1 (own_side (is_buy x))), elem_of_app in Hsub.
  assert (a_levels a1 (own_side (is_buy x)) = a_levels a (own_side (is_buy x))) as Heq
    by (unfold a1; simpl; apply upd_side_other; by destruct (is_buy x)).
  rewrite Heq in Hsub. tauto.
Qed.
Lemma add_abs_orders b a ord x st mp a' o :
  book_ok b a → incoming b a ord x → add_abs b a ord x = (st, mp, a') →
  o ∈ all_orders a' → o ∈ all_orders a ∨ o = ord.
Proof.
  intros Hb Hin. unfold add_abs. destruct (waits b x).
  - intros [= _ _ <-]. unfold date_abs. destruct (expires x); auto.
  - destruct (triggered_ok _ _ _ _ Hb Hin). by eapply place_abs_orders.
Qed.

(** So the identifiers in [_orders] are old ones and the new order's. *)
Lemma added_ids b a ord x b' st mp a' id :
  book_ok b a → incoming b a ord x → add_abs b a ord x = (st, mp, a') →
  added b a ord x b' st mp a' → id ≠ o_id x → b_orders b !! id = None → b_orders b' !! id = None.
Proof.
  intros Hb Hin Ha [Hb' _ _ _ _ Hs] Hne Hid. eapply fresh_id; [done|].
  intros o Ho. rewrite (static_id _ _ _ (Hs o)).
  destruct (add_abs_orders _ _ _ _ _ _ _ _ Hb Hin Ha Ho) as [Hold| ->].
  - by eapply known_id.
  - unfold id_at. rewrite (in_order _ _ _ _ Hin). simpl. congruence.
Qed.
End place.

(** ** Submitting orders to a book *)

Section submit.
Implicit Types (b : book) (a : abook).

(** The object of a request's order: a new address. *)
Definition alloc_order (x : order) : M book oid := λ b,
  let ord := fresh (dom (b_oh b)) in (set_oh (<[ord := x]> (b_oh b)) b, Ret ord).
Definition submit (now : Z) (x : order) : M book OrderStatus :=
  ord ← alloc_order x; add_order now ord.

(** Requests with the times at which they are handled. *)
Fixpoint run_orders (xs : list (Z * order)) : M book (list OrderStatus) :=
  match xs with
  | [] => mret []
  | (now, x) :: xs =>
      st ← submit now x;
      rest ← run_orders xs;
      mret (st :: rest)
  end.

(** The orders the theorems are about: a price that is a number, a positive quantity, and an order
    that is not cancelled nor linked yet.  The mapper makes the latter; the server does not check
    the former. *)
Record valid_order (x : order) : Prop := {
  vo_price : is_nan (o_price x) = false;
  vo_qty : qty_ok (o_current_qty x);
  vo_live : o_cancelled x = false;
  vo_prev : o_prev x = None;
  vo_next : o_next x = None
}.

Definition empty_abook : abook := ABook (λ _, []) (λ _, []) [].

Lemma new_book_ok instrument price oh : book_ok (new_book instrument price oh) empty_abook.
Proof.
  split; simpl; try done.
  - intros s. split; [exists []; destruct s; (split; [apply empty_tree_rep|done])|].
    by intros l os ?%elem_of_nil.
  - intros s l ?%elem_of_nil. done.
  - constructor.
  - intros id o. simpl. rewrite lookup_empty. split; [done|]. by intros [?%elem_of_nil _].
  - intros l. rewrite lookup_empty. by intros [].
  - intros s. exists []. destruct s; (split; [apply empty_tree_rep|by split]).
  - exists []. split; [apply empty_tree_rep|by split].
  - intros buy lo oo lp op ?%elem_of_nil. done.
Qed.

Lemma in_book_lookup b a o : book_ok b a → o ∈ all_orders a → is_Some (b_oh b !! o).
Proof.
  intros Hb Ho. unfold all_orders in Ho. apply elem_of_app in Ho.
  assert (∃ s, o ∈ lorders (a_levels a s)) as [s (l&os&Hin&Hos)%in_lorders]
    by (destruct Ho; eauto).
  destruct (si_levels _ _ _ _ _ (bk_side _ _ Hb s) _ _ Hin) as [lim [_ Hr]].
  destruct (Hr o Hos) as (x&Hx&_). eauto.
Qed.

(** A heap with a new object. *)
Lemma grown_ok b a ord x :
  book_ok b a → b_oh b !! ord = None → book_ok (set_oh (<[ord := x]> (b_oh b)) b) a.
Proof.
  intros Hb Hnew.
  assert (∀ o, is_Some (b_oh b !! o) → <[ord := x]> (b_oh b) !! o = b_oh b !! o) as Hgrow.
  { intros o Ho. apply lookup_insert_ne. intros <-. rewrite Hnew in Ho. by destruct Ho. }
  assert (∀ o, o ∈ all_orders a → <[ord := x]> (b_oh b) !! o = b_oh b !! o) as Hall.
  { intros o Ho. by eapply Hgrow, in_book_lookup. }
  split; try apply Hb; simpl.
  - intros s. assert (limits_of s (set_oh (<[ord := x]> (b_oh b)) b) = limits_of s b) as -> by (by destruct s).
    eapply side_ok_frame; [|done|apply Hb]. intros o Ho. apply Hall.
    rewrite (all_orders_perm a s). apply elem_of_app. auto.
  - eapply orders_ok_ids; [|done|apply Hb]. intros o Ho. unfold id_at. by rewrite Hall.
  - intros s. assert (stops_of s (set_oh (<[ord := x]> (b_oh b)) b) = stops_of s b) as -> by (by destruct s).
    eapply stops_ok_grow; [exact Hgrow|apply Hb].
  - eapply dates_ok_grow; [exact Hgrow|apply Hb].
Qed.

Lemma alloc_order_ok b a x :
  book_ok b a → valid_order x → b_orders b !! o_id x = None →
  ∃ b' ord, alloc_order x b = (b', Ret ord) ∧ book_ok b' a ∧ incoming b' a ord x ∧
    b_orders b' = b_orders b ∧ b_oh b' = <[ord := x]> (b_oh b) ∧ b_oh b !! ord = None ∧
    order_queue b' = order_queue b ∧ trade_queue b' = trade_queue b.
Proof.
  intros Hb [] Hid. eexists _, _. split; [reflexivity|]. set (ord := fresh _).
  assert (b_oh b !! ord = None) as Hnew.
  { apply not_elem_of_dom. apply is_fresh. }
  split_and!; try done; [by apply grown_ok|].
  split; simpl; try done; [by rewrite lookup_insert_eq|]. intros Hin.
  eapply in_book_lookup in Hin; [|done]. rewrite Hnew in Hin. by destruct Hin.
Qed.

Lemma static_at_is_Some oh oh' o : static_at oh' o = static_at oh o → is_Some (oh !! o) → is_Some (oh' !! o).
Proof. unfold static_at. intros E [x Hx]. rewrite Hx in E. destruct (oh' !! o); [eauto|done]. Qed.
Lemma static_at_id oh o x : static_at oh o = Some (static x) → id_at oh o = Some (o_id x).
Proof.
  unfold static_at, id_at. destruct (oh !! o) as [y|]; [|done]. simpl. unfold static. by intros [= ->].
Qed.

(** Submitting an order: it is answered, the book stays well formed, and the repository is handed the
    object of the order and nothing else. *)
Lemma submit_ok now b a x :
  book_ok b a → valid_order x → b_orders b !! o_id x = None →
  ∃ b' a' st ord, submit now x b = (b', Ret st) ∧ book_ok b' a' ∧ b_oh b !! ord = None ∧
    order_queue b' = order_queue b ++ [ord] ∧ trade_queue b' = trade_queue b ∧
    static_at (b_oh b') ord = Some (static x) ∧
    (∀ o, is_Some (b_oh b !! o) → static_at (b_oh b') o = static_at (b_oh b) o) ∧
    (∀ id, id ≠ o_id x → b_orders b !! id = None → b_orders b' !! id = None).
Proof.
  intros Hb Hx Hid.
  destruct (alloc_order_ok b a x Hb Hx Hid) as (b1&ord&E1&Hb1&Hin&Hm&Hoh&Hnew&Hq1&Hq2).
  destruct (add_abs b1 a ord x) as [[st mp] a1] eqn:Ha.
  destruct (add_order_ok now _ _ _ _ _ _ _ Hb1 Hin Ha) as (b2&E2&Had).
  exists b2, a1, st, ord. unfold submit. erewrite bind_ok by exact E1. split; [exact E2|].
  split; [apply Had|]. split; [done|]. split; [by rewrite (ad_orders _ _ _ _ _ _ _ _ Had), Hq1|].
  split; [by rewrite (ad_trades _ _ _ _ _ _ _ _ Had), Hq2|]. split; [|split].
  - rewrite (ad_static _ _ _ _ _ _ _ _ Had ord), Hoh. unfold static_at. by rewrite lookup_insert_eq.
  - intros o Ho. rewrite (ad_static _ _ _ _ _ _ _ _ Had o), Hoh. unfold static_at.
    rewrite lookup_insert_ne; [done|]. intros ->. rewrite Hnew in Ho. by destruct Ho.
  - intros id Hne Hn. eapply added_ids; [exact Hb1|exact Hin|exact Ha|exact Had|done|by rewrite Hm].
Qed.

(** Whatever valid orders are submitted to a well-formed book, in any sequence, every one of
    them is handled without an error, the book stays well formed, and the repository is handed the
    objects of these orders, in this sequence. *)
Lemma run_orders_ok xs : ∀ b a,
  book_ok b a → Forall (λ p, valid_order p.2) xs → NoDup (o_id <$> xs.*2) →
  (∀ x, x ∈ xs.*2 → b_orders b !! o_id x = None) →
  ∃ b' a' sts ords, run_orders xs b = (b', Ret sts) ∧ book_ok b' a' ∧ length sts = length xs ∧
    order_queue b' = order_queue b ++ ords ∧ trade_queue b' = trade_queue b ∧
    Forall2 (λ o x, static_at (b_oh b') o = Some (static x)) ords xs.*2 ∧
    (∀ o, is_Some (b_oh b !! o) → static_at (b_oh b') o = static_at (b_oh b) o).
Proof.
  induction xs as [|[now x] xs IH]; intros b a Hb Hv Hnd Hid; simpl.
  { exists b, a, [], []. rewrite app_nil_r. by split_and!. }
  apply Forall_cons in Hv as [Hx Hv]. csimpl in Hnd. apply NoDup_cons in Hnd as [Hnx Hnd].
  destruct (submit_ok now b a x Hb Hx) as (b1&a1&st&ord&E1&Hb1&_&Hq1&Ht1&Hi1&Hs1&Hk1); [apply Hid; left|].
  destruct (IH b1 a1 Hb1 Hv Hnd) as (b2&a2&sts&ords&E2&Hb2&Hl&Hq2&Ht2&Hi2&Hs2).
  { intros y Hy. apply Hk1; [|apply Hid; by right]. intros Heq. apply Hnx. rewrite <-Heq.
    by apply list_elem_of_fmap_2. }
  exists b2, a2, (st :: sts), (ord :: ords). erewrite bind_ok by exact E1. erewrite bind_ok by exact E2.
  split_and!; [done|done|simpl; lia|by rewrite Hq2, Hq1, <-app_assoc|congruence| |].
  - constructor; [|done]. rewrite Hs2; [done|].
    unfold static_at in Hi1. destruct (b_oh b1 !! ord); [eauto|done].
  - intros o Ho. rewrite Hs2, Hs1; [done..|]. eapply static_at_is_Some; [by apply Hs1|done].
Qed.
End submit.
