(* ===== verification/OBTypes.v ===== *)
(** * The types of an order book's numbers

    The model computes with integers and with exact multiples of a smallest number, which have
    more values than the machine's types.  A book is typed when every number in it is a value of
    the type that the code declares for it: [float] prices and quantities, [double] volumes,
    64-bit counters, flags and times.  Every operation of the book keeps it typed, whether it
    returns or not, and what it returns is typed. *)

From S2P Require Import Prelude Float RBTree DataTypes OrderBook OBAdd.

Open Scope Z_scope.

Definition uint64 (z : Z) : Prop := 0 ≤ z < 2 ^ 64.
Definition int64 (z : Z) : Prop := - 2 ^ 63 ≤ z < 2 ^ 63.

#[export] Instance uint64_dec z : Decision (uint64 z).
Proof. unfold uint64. apply _. Defined.
#[export] Instance int64_dec z : Decision (int64 z).
Proof. unfold int64. apply _. Defined.

Lemma uint64_u64 z : uint64 (u64 z).
Proof. apply u64_range. Qed.
Lemma int64_i64 z : int64 (i64 z).
Proof.
  unfold int64, i64. pose proof (u64_range z). destruct (Z.ltb_spec (u64 z) (2 ^ 63)); lia.
Qed.
#[export] Hint Resolve uint64_u64 int64_i64 : lob.

Record typed_order (x : order) : Prop := {
  ty_qty : f32 (o_qty x);
  ty_current_qty : f32 (o_current_qty x);
  ty_price : f32 (o_price x);
  ty_stop_price : f32 (o_stop_price x);
  ty_params : uint64 (o_params x);
  ty_timestamp : int64 (o_timestamp x);
  ty_expire_time : int64 (o_expire_time x)
}.
#[export] Instance typed_order_dec x : Decision (typed_order x).
Proof.
  refine (cast_if (decide (f32 (o_qty x) ∧ f32 (o_current_qty x) ∧ f32 (o_price x) ∧
    f32 (o_stop_price x) ∧ uint64 (o_params x) ∧ int64 (o_timestamp x) ∧ int64 (o_expire_time x))));
    [by destruct_and!; split|intros []; tauto].
Defined.
Record typed_limit (x : limit) : Prop := {
  ty_limit_price : f32 (l_price x);
  ty_active_orders : uint64 (l_number_of_active_orders x);
  ty_total_orders : uint64 (l_total_number_of_orders x);
  ty_active_volume : f64 (l_active_volume x);
  ty_total_volume : f64 (l_total_volume x)
}.
Record typed_trade (t : Trade) : Prop := {
  ty_volume : f32 (volume t);
  ty_trade_price : f32 (t_price t);
  ty_trade_timestamp : int64 (t_timestamp t)
}.
Record typed_book (b : book) : Prop := {
  ty_orders : map_Forall (λ _, typed_order) (b_oh b);
  ty_limits : map_Forall (λ _, typed_limit) (b_lh b);
  ty_market_price : f32 (b_market_price b);
  ty_trades : Forall typed_trade (trade_queue b)
}.
Record typed_spread (s : Spread) : Prop := {
  ty_bid : f32 (best_bid_price s);
  ty_ask : f32 (best_ask_price s);
  ty_spread_market : f32 (s_market_price s)
}.
Record typed_entry (e : SnapshotLimit) : Prop := {
  ty_sl_price : f32 (sl_price e);
  ty_sl_qty : f32 (sl_qty e)
}.
Record typed_snapshot (s : Snapshot) : Prop := {
  ty_asks : Forall typed_entry (asks s);
  ty_bids : Forall typed_entry (bids s);
  ty_spread : typed_spread (spread s)
}.
Close Scope Z_scope.

(** ** The methods of the objects *)

Section objects.
Implicit Types (x : order) (y : limit) (t : Trade).

Lemma new_stop_order_typed now id instrument user_id qty price stop_price side params type expire :
  int64 now → f32 qty → f32 price → f32 stop_price → uint64 params → int64 expire →
  typed_order (new_stop_order now id instrument user_id qty price stop_price side params type expire).
Proof. by split. Qed.
Lemma set_o_links_typed p n x : typed_order x → typed_order (set_o_links p n x).
Proof. by intros []. Qed.
Lemma set_o_parent_typed p x : typed_order x → typed_order (set_limit_parent p x).
Proof. by intros []. Qed.
Lemma cancel_typed x : typed_order x → typed_order (cancel x).
Proof. by intros []. Qed.
Lemma set_id_typed id x : typed_order x → typed_order (set_id id x).
Proof. by intros []. Qed.
Lemma fill_typed x : typed_order x → typed_order (fill x).
Proof. intros []. split; simpl; auto with lob. Qed.
Lemma set_params_typed p x : uint64 p → typed_order x → typed_order (set_params p x).
Proof. by intros ? []. Qed.
(** The remaining setters, which nothing but the unit tests calls. *)
Lemma setters_typed price time delta x :
  f32 price → typed_order x →
  typed_order (set_price price x) ∧ typed_order (set_expire_time time x) ∧
  typed_order (increase_qty delta x).
Proof. intros Hp []. split_and!; split; simpl; auto with lob. Qed.
Lemma decrease_qty_typed d : maintains typed_order (decrease_qty d) (λ _, True).
Proof.
  intros x Hx. unfold decrease_qty. destruct (fltb _ _); [done|]. split; [|done].
  destruct Hx. split; simpl; auto with lob.
Qed.

Lemma new_limit_typed price : f32 price → typed_limit (new_limit price).
Proof. split; simpl; auto with lob; done. Qed.
Lemma set_l_ends_typed h tl y : typed_limit y → typed_limit (set_l_ends h tl y).
Proof. by intros []. Qed.
Lemma increase_volume_typed d y : typed_limit y → typed_limit (increase_volume d y).
Proof. intros []. split; simpl; auto with lob. Qed.
Lemma decrease_volume_typed d y : typed_limit y → typed_limit (decrease_volume d y).
Proof. intros []. split; simpl; auto with lob. apply f64_max_0, f64_add. Qed.
Lemma increase_number_typed y : typed_limit y → typed_limit (increase_number_of_orders y).
Proof. intros []. split; simpl; auto with lob. Qed.
Lemma decrease_number_typed y : typed_limit y → typed_limit (decrease_number_of_orders y).
Proof. intros []. split; simpl; auto with lob. Qed.

(** The getters that return a [float]. *)
Lemma typed_price x : typed_order x → f32 (get_price x).
Proof. by intros []. Qed.
Lemma typed_limit_price y : typed_limit y → f32 (limit_get_price y).
Proof. by intros []. Qed.
Lemma typed_active_volume y : f32 (get_active_volume y).
Proof. apply f32_narrow. Qed.
End objects.

#[export] Hint Resolve set_o_links_typed set_o_parent_typed cancel_typed set_id_typed fill_typed
  decrease_qty_typed new_limit_typed set_l_ends_typed increase_volume_typed decrease_volume_typed
  decrease_number_typed typed_price typed_limit_price typed_active_volume : lob.

(** ** The accesses to the state *)

Section accesses.
Implicit Types (o : oid) (l : lid) (s : book_side).

Lemma get_order_typed o : maintains typed_book (get_order o) typed_order.
Proof.
  intros b Hb. split; [done|]. unfold get_order. simpl. intros x Hx. case_match eqn:E; [|done].
  injection Hx as <-. by eapply (ty_orders _ Hb).
Qed.
Lemma get_limit_typed l : maintains typed_book (get_limit l) typed_limit.
Proof.
  intros b Hb. split; [done|]. unfold get_limit. simpl. intros x Hx. case_match eqn:E; [|done].
  injection Hx as <-. by eapply (ty_limits _ Hb).
Qed.
Lemma deref_typed {A} (p : option A) : maintains typed_book (deref p) (λ _, True).
Proof. destruct p; [by apply maintains_ret|done]. Qed.

Lemma put_order_typed o x b :
  typed_book b → typed_order x → typed_book (set_oh (<[o := x]> (b_oh b)) b).
Proof. intros [] Hx. split; [by apply map_Forall_insert_2|done..]. Qed.
Lemma put_limit_typed l y b :
  typed_book b → typed_limit y → typed_book (set_lh (<[l := y]> (b_lh b)) b).
Proof. intros [] Hy. split; [done|by apply map_Forall_insert_2|done..]. Qed.

Lemma on_order_typed o m :
  maintains typed_order m (λ _, True) → maintains typed_book (on_order o m) (λ _, True).
Proof.
  intros Hm b Hb. unfold on_order. destruct (b_oh b !! o) as [x|] eqn:E; [|done].
  destruct (Hm x) as [Hx _]; [by eapply (ty_orders _ Hb)|]. destruct (m x) as [x' r]. split; [|done].
  by apply put_order_typed.
Qed.
Lemma upd_order_typed o f :
  (∀ x, typed_order x → typed_order (f x)) → maintains typed_book (upd_order o f) (λ _, True).
Proof. intros Hf. by apply on_order_typed, maintains_modify. Qed.
Lemma upd_limit_typed l f :
  (∀ y, typed_limit y → typed_limit (f y)) → maintains typed_book (upd_limit l f) (λ _, True).
Proof.
  intros Hf. eapply maintains_bind; [apply get_limit_typed|]. intros y Hy.
  apply maintains_modify. intros b Hb. apply put_limit_typed; auto.
Qed.
Lemma make_limit_typed price :
  f32 price → maintains typed_book (make_limit price) (λ _, True).
Proof.
  intros Hp b []. split; [|done]. split; [done| |done..].
  apply map_Forall_insert_2; [by apply new_limit_typed|done].
Qed.

(** The trees hold no numbers. *)
Lemma put_limits_typed s v b : typed_book b → typed_book (put_limits s v b).
Proof. intros []. by destruct s. Qed.
Lemma put_stops_typed s v b : typed_book b → typed_book (put_stops s v b).
Proof. intros []. by destruct s. Qed.
Lemma in_limits_typed {A} s (op : (lid → lid → bool) → M (rbtree lid) A) :
  maintains typed_book (in_limits s op) (λ _, True).
Proof.
  intros b Hb. unfold in_limits. destruct (zoom_fst (limits_of s) (put_limits s)
    (op (LimitComparator (b_lh b) (limits_asc s))) b) as [c ->]. split; [|done].
  by apply put_limits_typed.
Qed.
Lemma in_stops_typed {A} s (op : (oid → oid → bool) → M (rbtree oid) A) :
  maintains typed_book (in_stops s op) (λ _, True).
Proof.
  intros b Hb. unfold in_stops. destruct (zoom_fst (stops_of s) (put_stops s)
    (op (OrderComparator (b_oh b) (stops_asc s))) b) as [c ->]. split; [|done].
  by apply put_stops_typed.
Qed.
Lemma in_dates_typed {A} (op : (oid → oid → bool) → M (rbtree oid) A) :
  maintains typed_book (in_dates op) (λ _, True).
Proof.
  intros b Hb. unfold in_dates. destruct (zoom_fst b_date_orders put_date_orders
    (op (DateOrderComparator (b_oh b) true)) b) as [c ->]. split; [|done]. by destruct Hb.
Qed.
(** The result of such an operation is not a number either. *)
Lemma fmap_typed {A B} (f : A → B) (m : M book A) :
  maintains typed_book m (λ _, True) → maintains typed_book (f <$> m) (λ _, True).
Proof. intros Hm. by apply (maintains_fmap _ _ _ (λ _, True)). Qed.

Lemma enqueue_order_typed o : maintains typed_book (enqueue_order o) (λ _, True).
Proof. apply maintains_modify. by intros b []. Qed.
Lemma enqueue_trade_typed t : typed_trade t → maintains typed_book (enqueue_trade t) (λ _, True).
Proof.
  intros Ht. apply maintains_modify. intros b []. split; [done..|]. simpl.
  apply Forall_app. split; [done|]. by apply Forall_singleton.
Qed.
Lemma erase_order_typed id : maintains typed_book (erase_order id) (λ _, True).
Proof. apply maintains_modify. by intros b []. Qed.
Lemma put_orders_typed id o :
  maintains typed_book (modify (λ b, put_orders (<[id := o]> (b_orders b)) b)) (λ _, True).
Proof. apply maintains_modify. by intros b []. Qed.
Lemma entry_second_typed id : maintains typed_book (entry_second id) (λ _, True).
Proof. intros b Hb. by split. Qed.
Lemma gets_typed {A} (f : book → A) : maintains typed_book (gets f) (λ _, True).
Proof. by apply maintains_gets. Qed.
Lemma market_price_typed : maintains typed_book (gets b_market_price) f32.
Proof. apply maintains_gets. by intros b []. Qed.
Lemma set_market_price_typed price :
  f32 price → maintains typed_book (set_market_price price) (λ _, True).
Proof. intros Hp. apply maintains_modify. by intros b []. Qed.
End accesses.

#[export] Hint Resolve get_order_typed get_limit_typed deref_typed on_order_typed upd_order_typed
  upd_limit_typed make_limit_typed in_limits_typed in_stops_typed in_dates_typed fmap_typed
  enqueue_order_typed erase_order_typed put_orders_typed entry_second_typed
  gets_typed set_market_price_typed enqueue_trade_typed : lob.

(** ** The operations *)

Section operations.
Variable now : Z.
Hypothesis Hnow : int64 now.
Implicit Types (o order : oid) (l limit : lid) (s : book_side).

(** A composed operation, whose result is no number. *)
Abbreviation keeps_types m := (maintains typed_book m (λ _, True)) (only parsing).

Lemma add_limit_order_typed order l s : keeps_types (add_limit_order order l s).
Proof. unfold add_limit_order. repeat maintains_step. Qed.
Lemma remove_limit_order_typed o : keeps_types (remove_limit_order o).
Proof. unfold remove_limit_order. repeat maintains_step. Qed.
Lemma handle_trade_typed r e volume price :
  f32 volume → f32 price → keeps_types (handle_trade now r e volume price).
Proof using Hnow.
  intros Hv Hp. unfold handle_trade. repeat maintains_step; by apply enqueue_trade_typed.
Qed.
Lemma cross_price_typed p1 p2 type buy p :
  f32 p1 → f32 p2 → calculate_cross_price p1 p2 type buy = Some p → f32 p.
Proof.
  unfold calculate_cross_price. intros. repeat case_match; by simplify_eq.
Qed.
Lemma resolve_orders_typed curr order price changed :
  f32 price → keeps_types (resolve_orders now curr order price changed).
Proof using Hnow.
  intros Hp. unfold resolve_orders. repeat maintains_step. apply handle_trade_typed; auto with lob.
Qed.
#[local] Hint Resolve add_limit_order_typed remove_limit_order_typed resolve_orders_typed : lob.

Lemma process_loop_typed fuel : ∀ curr order price changed,
  f32 price → keeps_types (process_loop now fuel curr order price changed).
Proof using Hnow. induction fuel; intros; simpl; repeat maintains_step. Qed.
Lemma process_limit_order_typed l order price changed :
  f32 price → keeps_types (process_limit_order now l order price changed).
Proof using Hnow.
  intros Hp. unfold process_limit_order. repeat maintains_step. by apply process_loop_typed.
Qed.
Lemma forM_typed {A} (l : list A) (f : A → M book unit) :
  (∀ a, keeps_types (f a)) → keeps_types (forM l f).
Proof. intros Hf. by apply (maintains_forM _ (λ _, True)); [apply Forall_true|]. Qed.
#[local] Hint Resolve process_limit_order_typed forM_typed : lob.

Lemma match_order_deferred_typed s filled changed : keeps_types (match_order_deferred s filled changed).
Proof. unfold match_order_deferred. repeat maintains_step. Qed.
Lemma match_loop_typed fuel : ∀ s order aon buy type it filled changed,
  keeps_types (match_loop now fuel s order aon buy type it filled changed).
Proof using Hnow.
  induction fuel as [|fuel IH]; intros; simpl; repeat maintains_step.
  all: match goal with H : calculate_cross_price _ _ _ _ = Some _ |- _ =>
         apply cross_price_typed in H; [|auto with lob..] end.
  all: repeat maintains_step.
Qed.
#[local] Hint Resolve match_order_deferred_typed match_loop_typed : lob.
Lemma match_order_typed order s : keeps_types (match_order now order s).
Proof using Hnow. unfold match_order. repeat maintains_step. Qed.
Lemma add_stop_order_typed order s : keeps_types (add_stop_order order s).
Proof. unfold add_stop_order. repeat maintains_step. Qed.
Lemma remove_stop_order_typed order : keeps_types (remove_stop_order order).
Proof. unfold remove_stop_order. repeat maintains_step. Qed.
Lemma add_date_order_typed order : keeps_types (add_date_order order).
Proof. unfold add_date_order. repeat maintains_step. Qed.
#[local] Hint Resolve match_order_typed add_stop_order_typed remove_stop_order_typed
  add_date_order_typed : lob.
Lemma place_order_typed order : keeps_types (place_order now order).
Proof using Hnow. unfold place_order. repeat maintains_step. Qed.
#[local] Hint Resolve place_order_typed : lob.
Lemma IOC_typed x : typed_order x → typed_order (set_params IOC x).
Proof. by apply set_params_typed. Qed.
#[local] Hint Resolve IOC_typed : lob.
Lemma add_order_typed order : keeps_types (OrderBook.add_order now order).
Proof using Hnow. unfold OrderBook.add_order. repeat maintains_step. Qed.
Lemma modify_order_typed order : keeps_types (OrderBook.modify_order order).
Proof. unfold OrderBook.modify_order. repeat maintains_step. Qed.
Lemma cancel_order_typed id : keeps_types (OrderBook.cancel_order id).
Proof. unfold OrderBook.cancel_order. repeat maintains_step. Qed.
#[local] Hint Resolve add_order_typed cancel_order_typed : lob.

(** Serialising a level, the activation of stop orders and the end of the day. *)
Lemma serialize_loop_typed fuel : ∀ l, keeps_types (serialize_loop fuel l).
Proof. induction fuel; intros; simpl; repeat maintains_step. Qed.
#[local] Hint Resolve serialize_loop_typed : lob.
Lemma serialize_limit_typed l :
  maintains typed_book (serialize_limit l) (λ '(price, active, total, active_volume, total_volume, _),
    f32 price ∧ uint64 active ∧ uint64 total ∧ f64 active_volume ∧ f64 total_volume).
Proof.
  unfold serialize_limit. repeat maintains_step. by destruct H.
Qed.
Lemma stop_orders_loop_typed fuel : ∀ s next activates it removed,
  keeps_types (stop_orders_loop now fuel s next activates it removed).
Proof using Hnow. induction fuel; intros; simpl; repeat maintains_step. Qed.
#[local] Hint Resolve stop_orders_loop_typed : lob.
Lemma add_stop_orders_typed s start next activates :
  keeps_types (add_stop_orders now s start next activates).
Proof using Hnow. unfold add_stop_orders. repeat maintains_step. Qed.
Lemma check_date_loop_typed fuel : ∀ horizon it removed,
  keeps_types (check_date_loop fuel horizon it removed).
Proof. induction fuel; intros; simpl; repeat maintains_step. Qed.
#[local] Hint Resolve check_date_loop_typed : lob.
Lemma check_date_orders_typed : keeps_types (OrderBook.check_date_orders now).
Proof. unfold OrderBook.check_date_orders. repeat maintains_step. Qed.

(** The orders of requests, and the stored ones that the constructor loads. *)
Lemma alloc_order_typed x : typed_order x → keeps_types (alloc_order x).
Proof. intros Hx b Hb. split; [|done]. by apply put_order_typed. Qed.
Lemma load_order_typed o : keeps_types (load_order o).
Proof. unfold load_order. repeat maintains_step. Qed.
#[local] Hint Resolve load_order_typed : lob.
Lemma load_orders_typed os : keeps_types (load_orders os).
Proof. unfold load_orders. repeat maintains_step. Qed.
Lemma new_book_typed instrument price oh :
  f32 price → map_Forall (λ _, typed_order) oh → typed_book (new_book instrument price oh).
Proof. by split. Qed.

(** The getters. *)
Lemma f32_of_Z z : f32 (float_of_Z z).
Proof. apply f32_round. Qed.
#[local] Hint Resolve f32_of_Z : lob.
Lemma get_spread_typed : maintains typed_book get_spread typed_spread.
Proof.
  unfold get_spread. do 2 maintains_step.
  eapply (maintains_bind _ _ _ f32).
  { repeat maintains_step. }
  intros ask Hask. eapply (maintains_bind _ _ _ f32).
  { repeat maintains_step. }
  intros bid Hbid. eapply maintains_bind; [apply market_price_typed|]. intros mp Hmp.
  by apply maintains_ret.
Qed.
Lemma snapshot_limits_typed ls : maintains typed_book (snapshot_limits ls) (Forall typed_entry).
Proof.
  induction ls as [|l ls IH]; simpl; [by apply maintains_ret|].
  maintains_step. eapply maintains_bind; [exact IH|]. intros rest Hrest.
  apply maintains_ret. constructor; [|done]. split; simpl; auto with lob.
Qed.
Lemma all_limits_typed s : keeps_types (all_limits s).
Proof. unfold all_limits. repeat maintains_step. Qed.
#[local] Hint Resolve all_limits_typed snapshot_limits_typed get_spread_typed : lob.
Lemma get_snapshot_typed : maintains typed_book get_snapshot typed_snapshot.
Proof.
  unfold get_snapshot, get_snapshot_asks, get_snapshot_bids.
  eapply (maintains_bind _ _ _ (Forall typed_entry)); [repeat maintains_step|].
  intros a Ha. eapply (maintains_bind _ _ _ (Forall typed_entry)); [repeat maintains_step|].
  intros d Hd. maintains_step. by apply maintains_ret.
Qed.
End operations.

#[export] Hint Resolve add_order_typed modify_order_typed cancel_order_typed check_date_orders_typed
  alloc_order_typed load_orders_typed get_spread_typed get_snapshot_typed : lob.
