(* ===== verification/OBCancel.v ===== *)
(** * Cancelling and modifying orders

    [cancel_order] and [modify_order] on a well-formed book.  Both look an order up in [_orders];
    a resting order is unlinked from its level and erased, and the entry that was erased is then
    read. *)

From S2P Require Import Prelude Float RBTree RBSpec RBInsert RBIter RBDelete DataTypes OrderBook.
From S2P Require Import OBRep OBMatch OBBook OBOps OBInv OBAdd.

Section drop.
Implicit Types (b : book) (a : abook) (s : book_side) (lvs : levels).

(** The levels without the order [o]. *)
Definition drop_order (o : oid) lvs : levels := prod_map id (filter (λ o', o' ≠ o)) <$> lvs.

Lemma filter_absent (l : list oid) o : o ∉ l → filter (λ o', o' ≠ o) l = l.
Proof.
  induction l as [|o' l IH]; [done|]. rewrite not_elem_of_cons. intros [Hne Hn].
  rewrite filter_cons_True by done. by rewrite IH.
Qed.
Lemma filter_middle (l1 l2 : list oid) o :
  NoDup (l1 ++ o :: l2) → filter (λ o', o' ≠ o) (l1 ++ o :: l2) = l1 ++ l2.
Proof.
  rewrite NoDup_app, NoDup_cons. intros (_&Hd&Hn&_). rewrite filter_app, filter_cons_False by tauto.
  rewrite !filter_absent; [done|done|]. intros Ho. apply (Hd o Ho). left.
Qed.

Lemma drop_order_keys o lvs : (drop_order o lvs).*1 = lvs.*1.
Proof. unfold drop_order. by rewrite <-list_fmap_compose. Qed.
Lemma drop_order_in o lvs l os :
  (l, os) ∈ drop_order o lvs ↔ ∃ os0, (l, os0) ∈ lvs ∧ os = filter (λ o', o' ≠ o) os0.
Proof.
  unfold drop_order. rewrite list_elem_of_fmap. split.
  - intros ([l' os0]&[= -> ->]&Hin). eauto.
  - intros (os0&Hin&->). by exists (l, os0).
Qed.
Lemma drop_order_lorders o lvs : lorders (drop_order o lvs) = filter (λ o', o' ≠ o) (lorders lvs).
Proof.
  induction lvs as [|[l os] lvs IH]; [done|].
  change (lorders (drop_order o ((l, os) :: lvs))) with (filter (λ o', o' ≠ o) os ++ lorders (drop_order o lvs)).
  by rewrite IH, lorders_cons, filter_app.
Qed.
Lemma drop_order_perm (A : list oid) lvs o :
  NoDup (lorders lvs) → o ∈ lorders lvs →
  A ++ lorders lvs ≡ₚ o :: A ++ filter (λ o', o' ≠ o) (lorders lvs).
Proof.
  intros Hnd (l1&l2&Heq)%list_elem_of_split. rewrite Heq in *. rewrite filter_middle by done.
  by rewrite <-Permutation_middle, app_assoc, <-Permutation_middle, <-app_assoc.
Qed.
Lemma level_unique lvs l os os' : NoDup lvs.*1 → (l, os) ∈ lvs → (l, os') ∈ lvs → os = os'.
Proof.
  induction lvs as [|[l0 os0] lvs IH]; csimpl; [by intros _ ?%elem_of_nil|].
  rewrite NoDup_cons, !elem_of_cons, in_levels.
  intros [Hn Hnd] [H1|H1] [H2|H2]; simplify_eq/=; naive_solver.
Qed.
Lemma elem_split (o : oid) os : o ∈ os → ∃ l1 l2, os = l1 ++ o :: l2.
Proof. apply list_elem_of_split. Qed.
End drop.

(** ** Unlinking a cancelled order *)

Section unlink.
Implicit Types (b : book) (a : abook) (s : book_side) (lvs : levels).

(** The order [o] that rests in the book, cancelled. *)
Definition cancelled_in b (o : oid) (x : order) : book := set_oh (<[o := cancel x]> (b_oh b)) b.

Lemma resting_order b a s l os o :
  book_ok b a → (l, os) ∈ a_levels a s → o ∈ os →
  ∃ x lim, b_oh b !! o = Some x ∧ rests s l (l_price lim) x ∧ level_ok (b_oh b) (b_lh b) s l os lim.
Proof.
  intros Hb Hin Ho. destruct (si_levels _ _ _ _ _ (bk_side _ _ Hb s) _ _ Hin) as [lim Hl].
  destruct (proj2 Hl o Ho) as (x&Hx&Hr). eauto.
Qed.

(** A level from which an order of another level, or of its own, was dropped. *)
Lemma other_level b a s l0 os0 s' l os o :
  book_ok b a → (l0, os0) ∈ a_levels a s → o ∈ os0 → (l, os) ∈ a_levels a s' → l ≠ l0 →
  ∀ o', o' ∈ os → o' ∉ os0.
Proof.
  intros Hb H0 Ho Hin Hne o' Ho' Hos0. pose proof (bk_nodup _ _ Hb) as Hnd.
  assert (∃ x, b_oh b !! o' = Some x ∧ o_parent x = Some l) as (x&Hx&Hp).
  { destruct (resting_order _ _ _ _ _ _ Hb Hin Ho') as (x&lim&Hx&Hr&_). exists x. split; [done|apply Hr]. }
  destruct (resting_order _ _ _ _ _ _ Hb H0 Hos0) as (y&lim&Hy&Hr&_).
  rewrite Hx in Hy. injection Hy as <-. rewrite (rs_parent _ _ _ _ Hr) in Hp. congruence.
Qed.

(** The heap in which the order [o], cancelled, has left the level [l] with the orders [os]. *)
Record unlinked b (l : lid) os (o : oid) (x : order) lim oh' lim' : Prop := {
  ul_level : level_list oh' (<[l := lim']> (b_lh b)) l (filter (λ o', o' ≠ o) os) lim';
  ul_price : l_price lim' = l_price lim;
  ul_order : data oh' o = Some (set_o_links None None (cancel x));
  ul_data : ∀ o', o' ≠ o → data oh' o' = data (b_oh b) o';
  ul_frame : ∀ o', o' ∉ os → oh' !! o' = b_oh b !! o'
}.

Lemma unlink_level b s l os o x lim :
  level_ok (b_oh b) (b_lh b) s l os lim → o ∈ os → b_oh b !! o = Some x →
  ∃ oh' lim', remove_limit_order o (cancelled_in b o x)
      = (with_objects oh' (<[l := lim']> (b_lh b)) (delete (o_id x) (b_orders b)) b, Ret tt) ∧
    unlinked b l os o x lim oh' lim'.
Proof.
  intros [Hll Hres] Ho Hx. destruct (Hres o Ho) as (x0&Hx0&Hr). rewrite Hx in Hx0. injection Hx0 as <-.
  destruct (elem_split _ _ Ho) as (l1&l2&->). set (oh1 := <[o := cancel x]> (b_oh b)).
  assert (level_list oh1 (b_lh b) l (l1 ++ o :: l2) lim) as Hll1.
  { eapply level_list_frame; [|done|exact Hll]. intros o' _. unfold links, oh1.
    destruct (decide (o = o')) as [<-|Hne]; [by rewrite lookup_insert_eq, Hx|by rewrite lookup_insert_ne]. }
  destruct (remove_limit_order_level oh1 (b_lh b) (b_orders b) b l lim l1 o l2 (cancel x))
    as (oh'&lim'&E&Hll'&Hlim'&Hd&Hf); [done|by unfold oh1; rewrite lookup_insert_eq|apply Hr|].
  exists oh', lim'. split.
  { unfold cancelled_in. fold oh1. by destruct b. }
  split.
  - rewrite filter_middle; [exact Hll'|apply Hll].
  - by rewrite Hlim'.
  - rewrite Hd. unfold oh1. by rewrite data_insert.
  - intros o' Hne. rewrite Hd. by apply data_insert_ne.
  - intros o'. rewrite elem_of_app, elem_of_cons. intros Hno.
    rewrite Hf by (rewrite elem_of_app; tauto). apply lookup_insert_ne. intros <-. tauto.
Qed.

(** In a well-formed book. *)
Section unlinked.
Context (b : book) (a : abook) (s : book_side) (l : lid) (os : list oid) (o : oid) (x : order).
Context (lim lim' : limit) (oh' : gmap nat order).
Hypothesis Hb : book_ok b a.
Hypothesis Hin : (l, os) ∈ a_levels a s.
Hypothesis Ho : o ∈ os.
Hypothesis Hx : b_oh b !! o = Some x.
Hypothesis Hl : level_ok (b_oh b) (b_lh b) s l os lim.
Hypothesis Hu : unlinked b l os o x lim oh' lim'.
Local Abbreviation lh' := (<[l := lim']> (b_lh b)).
Local Abbreviation a' := (set_levels s (drop_order o (a_levels a s)) a).

Lemma unlinked_static o' : static_at oh' o' = static_at (b_oh b) o'.
Proof.
  destruct (decide (o' = o)) as [->|Hne]; [|by apply static_at_data, (ul_data _ _ _ _ _ _ _ _ Hu)].
  rewrite (static_at_data (<[o := cancel x]> (b_oh b)) oh'); [by eapply static_at_insert|].
  by rewrite (ul_order _ _ _ _ _ _ _ _ Hu), data_insert.
Qed.

Lemma unlinked_prices l' : l_price <$> lh' !! l' = l_price <$> b_lh b !! l'.
Proof.
  by apply (prices_insert _ _ lim); [apply (lv_limit _ _ _ _ _ (proj1 Hl))|
    apply (ul_price _ _ _ _ _ _ _ _ Hu)].
Qed.

(** The other levels. *)
Lemma unlinked_elsewhere s' l' os' :
  (l', os') ∈ a_levels a s' → l' ≠ l →
  (o ∉ os') ∧ ∃ lim0, level_ok oh' lh' s' l' os' lim0.
Proof.
  intros Hin' Hne. pose proof (other_level _ _ _ _ _ _ _ _ _ Hb Hin Ho Hin' Hne) as Hno.
  split; [intros Ho'; by apply (Hno o)|].
  destruct (si_levels _ _ _ _ _ (bk_side _ _ Hb s') _ _ Hin') as [lim0 Hl0]. exists lim0.
  eapply level_ok_frame; [| |exact Hl0]; [|by apply lookup_insert_ne].
  intros o' Ho'. by apply (ul_frame _ _ _ _ _ _ _ _ Hu), Hno.
Qed.

(** The level that lost the order. *)
Lemma unlinked_level : level_ok oh' lh' s l (filter (λ o', o' ≠ o) os) lim'.
Proof.
  split; [apply Hu|]. intros o' [Hne Hin']%list_elem_of_filter.
  rewrite (ul_price _ _ _ _ _ _ _ _ Hu). eapply resting_data; [by apply (ul_data _ _ _ _ _ _ _ _ Hu)|].
  by apply Hl.
Qed.

Lemma unlinked_side s' : side_ok oh' lh' s' (limits_of s' b) (a_levels a' s').
Proof.
  destruct (bk_side _ _ Hb s') as [(its&Ht&Hits) Hlv]. split.
  - exists its. split; [by apply (tree_rep_prices (b_lh b)); [apply unlinked_prices|]|].
    rewrite Hits. simpl. unfold upd_side. case_decide; [subst; by rewrite drop_order_keys|done].
  - intros l' os'. simpl. destruct (decide (s' = s)) as [->|Hne].
    + rewrite upd_side_same, drop_order_in. intros (os0&Hin0&->).
      destruct (decide (l' = l)) as [->|Hne].
      * assert (os0 = os) as ->; [|eexists; apply unlinked_level].
        eapply level_unique; [|exact Hin0|exact Hin]. by eapply side_nodup, (bk_side _ _ Hb).
      * destruct (unlinked_elsewhere _ _ _ Hin0 Hne) as [Hno ?]. by rewrite filter_absent.
    + rewrite upd_side_other by done. intros Hin'. apply (unlinked_elsewhere s'); [done|].
      intros ->. apply ne_other in Hne as ->. eapply (bk_limits _ _ Hb s l); apply in_levels; eauto.
Qed.

Lemma unlinked_book_ok : book_ok (with_objects oh' lh' (delete (o_id x) (b_orders b)) b) a'.
Proof.
  pose proof (bk_nodup _ _ Hb) as Hnd. rewrite (all_orders_perm a s) in Hnd.
  pose proof (side_orders_nodup b a s Hb) as Hnds.
  assert (o ∈ lorders (a_levels a s)) as Hos by (apply in_lorders; eauto).
  split; simpl.
  - intros s'. rewrite limits_of_with. apply unlinked_side.
  - intros s' l'. pose proof (bk_limits _ _ Hb s' l') as Hlim0. destruct (decide (s' = s)) as [->|Hne].
    + rewrite upd_side_same, upd_side_other by apply other_ne. by rewrite drop_order_keys.
    + rewrite upd_side_other by done. apply ne_other in Hne as ->. rewrite other_other in *.
      by rewrite upd_side_same, drop_order_keys.
  - rewrite all_orders_upd, drop_order_lorders. eapply sublist_NoDup; [exact Hnd|].
    apply sublist_app; [done|]. apply sublist_filter.
  - eapply orders_ok_perm; [symmetry; apply all_orders_upd|]. rewrite drop_order_lorders.
    apply (orders_ok_ids (b_oh b) oh' _ _ _ (λ o' _, static_id _ _ _ (unlinked_static o'))
      (λ o', iff_refl _)).
    apply (orders_ok_erase _ _ [] _ o); simpl.
    + by rewrite <-drop_order_perm.
    + unfold id_at. by rewrite Hx.
    + eapply orders_ok_perm; [|apply Hb]. rewrite (all_orders_perm a s). by apply drop_order_perm.
  - intros l' Hl'. apply (bk_next _ _ Hb). pose proof (unlinked_prices l').
    destruct (lh' !! l'), (b_lh b !! l'); done.
  - intros s'. eapply stops_ok_static; [exact unlinked_static|]. apply Hb.
  - eapply dates_ok_static; [exact unlinked_static|]. apply Hb.
  - eapply uncrossed_smaller; [exact unlinked_prices| |apply Hb].
    intros s' l' os'. simpl. unfold upd_side. case_decide; [subst|eauto].
    rewrite drop_order_in. intros (os0&Hin0&->) Hne. exists os0. split; [done|]. by intros ->.
Qed.
End unlinked.

Lemma remove_limit_order_ok b a s l os o x :
  book_ok b a → (l, os) ∈ a_levels a s → o ∈ os → b_oh b !! o = Some x →
  ∃ oh' lh', remove_limit_order o (cancelled_in b o x)
      = (with_objects oh' lh' (delete (o_id x) (b_orders b)) b, Ret tt) ∧
    book_ok (with_objects oh' lh' (delete (o_id x) (b_orders b)) b)
      (set_levels s (drop_order o (a_levels a s)) a) ∧
    data oh' o = Some (set_o_links None None (cancel x)) ∧
    (∀ o', o' ≠ o → data oh' o' = data (b_oh b) o').
Proof.
  intros Hb Hin Ho Hx. destruct (resting_order _ _ _ _ _ _ Hb Hin Ho) as (x0&lim&_&_&Hl).
  destruct (unlink_level b s l os o x lim Hl Ho Hx) as (oh'&lim'&E&Hu).
  eexists oh', _. split; [exact E|]. split; [by eapply unlinked_book_ok|]. split; apply Hu.
Qed.
End unlink.

(** ** Cancelling *)

Section cancel.
Implicit Types (b : book) (a : abook) (s : book_side).

(** Where the order with the identifier [id] rests. *)
Lemma entry_level b a id o :
  book_ok b a → b_orders b !! id = Some o →
  ∃ x l os, b_oh b !! o = Some x ∧ o_id x = id ∧ o_cancelled x = false ∧ qty_ok (o_current_qty x) ∧
    (l, os) ∈ a_levels a (own_side (is_buy x)) ∧ o ∈ os ∧ o_parent x = Some l.
Proof.
  intros Hb Hid. apply (bk_map _ _ Hb) in Hid as [Hin Hid].
  assert (∃ s, o ∈ lorders (a_levels a s)) as [s (l&os&Hl&Ho)%in_lorders].
  { unfold all_orders in Hin. apply elem_of_app in Hin as [?|?]; eauto. }
  destruct (resting_order _ _ _ _ _ _ Hb Hl Ho) as (x&lim&Hx&Hr&_).
  exists x, l, os. assert (own_side (is_buy x) = s) as ->.
  { rewrite (rs_side _ _ _ _ Hr). by destruct s. }
  split_and!; try done; try apply Hr.
  unfold id_at in Hid. rewrite Hx in Hid. by injection Hid.
Qed.

(** Cancelling the resting order [o]: what the book is left with. *)
Record withdrawn b a (o : oid) (b' : book) : Prop := {
  wd_book : ∃ x l os, b_oh b !! o = Some x ∧ (l, os) ∈ a_levels a (own_side (is_buy x)) ∧ o ∈ os ∧
    b_orders b' = delete (o_id x) (b_orders b) ∧
    book_ok b' (set_levels (own_side (is_buy x))
      (drop_order o (a_levels a (own_side (is_buy x)))) a);
  wd_order : ∃ x', b_oh b' !! o = Some x' ∧ o_cancelled x' = true;
  wd_others o' : o' ≠ o → data (b_oh b') o' = data (b_oh b) o';
  wd_queues : order_queue b' = order_queue b ∧ trade_queue b' = trade_queue b
}.

Lemma filter_ne_id (o : oid) (os : list oid) : o ∉ os → filter (λ o', o' ≠ o) os = os.
Proof.
  induction os as [|o' os IH]; [done|]. intros [Hne Ho]%not_elem_of_cons. rewrite filter_cons_True by done.
  by rewrite IH.
Qed.

(** The two sides are what they were without the order. *)
Lemma withdrawn_sides b a o b' :
  book_ok b a → withdrawn b a o b' →
  ∃ a', book_ok b' a' ∧
    ∀ s, lorders (a_levels a' s) = filter (λ o', o' ≠ o) (lorders (a_levels a s)).
Proof.
  intros Hb Hw. destruct (wd_book _ _ _ _ Hw) as (x&l&os&_&Hl&Ho&_&Hb'). eexists. split; [exact Hb'|].
  intros s. simpl. destruct (decide (s = own_side (is_buy x))) as [->|Hne].
  - rewrite upd_side_same. apply drop_order_lorders.
  - rewrite upd_side_other by done. apply ne_other in Hne as ->. symmetry. apply filter_ne_id.
    eapply sides_disjoint; [exact Hb|]. apply in_lorders. eauto.
Qed.

Lemma unlink_order_ok b a id o :
  book_ok b a → b_orders b !! id = Some o →
  ∃ x b', b_oh b !! o = Some x ∧ o_id x = id ∧ o_cancelled x = false ∧
    qty_ok (o_current_qty x) ∧
    remove_limit_order o (cancelled_in b o x) = (b', Ret tt) ∧
    withdrawn b a o b' ∧ b_orders b' !! id = None.
Proof.
  intros Hb Hid. destruct (entry_level _ _ _ _ Hb Hid) as (x&l&os&Hx&Hidx&Hc&Hq&Hl&Ho&_).
  destruct (remove_limit_order_ok _ _ _ _ _ _ _ Hb Hl Ho Hx) as (oh'&lh'&E&Hb'&Hdo&Hd).
  exists x, (with_objects oh' lh' (delete (o_id x) (b_orders b)) b).
  do 5 (split; [done|]). split.
  - split; [exists x, l, os; by split_and!| |done|done].
    unfold data in Hdo. simpl. destruct (oh' !! o) as [x'|]; [|done].
    exists x'. split; [done|]. destruct x'. by simplify_eq/=.
  - simpl. rewrite Hidx. apply lookup_delete_eq.
Qed.

(** A resting order that is not a triggered stop order is withdrawn; then the entry that was
    just erased is read, and the repository never learns of the cancellation. *)
Lemma cancel_order_ok b a id o x :
  book_ok b a → b_orders b !! id = Some o → b_oh b !! o = Some x → has_param x STOP = false →
  ∃ b', cancel_order id b = (b', Err UseAfterErase) ∧ withdrawn b a o b' ∧ b_orders b' !! id = None.
Proof.
  intros Hb Hid Hx Hstop. destruct (unlink_order_ok _ _ _ _ Hb Hid) as (x0&b'&Hx0&_&_&_&E&Hw&Hn).
  rewrite Hx in Hx0. injection Hx0 as <-. exists b'. split; [|done].
  unfold cancel_order. rewrite bind_gets, Hid.
  erewrite bind_ok by (unfold upd_order, on_order; rewrite Hx; reflexivity).
  change (set_oh _ b) with (cancelled_in b o x).
  erewrite bind_ok by (unfold get_order; simpl; rewrite lookup_insert_eq; reflexivity).
  change (has_param (cancel x) STOP) with (has_param x STOP). rewrite Hstop.
  erewrite bind_ok by exact E. eapply bind_err. unfold entry_second. by rewrite Hn.
Qed.

(** The same for [modify_order]: the new order never joins the book. *)
Lemma modify_order_ok b a ord y o x :
  book_ok b a → b_oh b !! ord = Some y → b_orders b !! o_id y = Some o → b_oh b !! o = Some x →
  has_param x STOP = false →
  ∃ b', modify_order ord b = (b', Err UseAfterErase) ∧ withdrawn b a o b' ∧
    b_orders b' !! o_id y = None.
Proof.
  intros Hb Hy Hid Hx Hstop.
  destruct (unlink_order_ok _ _ _ _ Hb Hid) as (x0&b'&Hx0&_&Hc&(q&Hq&Hq0&_)&E&Hw&Hn).
  rewrite Hx in Hx0. injection Hx0 as <-. exists b'. split; [|done].
  unfold modify_order. erewrite bind_ok by (unfold get_order; rewrite Hy; reflexivity).
  rewrite bind_gets. unfold get_id. rewrite Hid.
  erewrite bind_ok by (unfold get_order; rewrite Hx; reflexivity).
  unfold is_cancelled, is_fullfilled. rewrite Hc, Hq. cbn [feqb negb andb].
  destruct (Z.eqb_spec q 0); [lia|]. cbn [negb].
  erewrite bind_ok by (unfold upd_order, on_order; rewrite Hx; reflexivity).
  change (set_oh _ b) with (cancelled_in b o x). rewrite Hstop. rewrite bind_assoc.
  erewrite bind_ok by exact E. rewrite bind_assoc. eapply bind_err. unfold entry_second. by rewrite Hn.
Qed.

(** *** Triggered stop orders *)

(** An order with the stop flag that rests in the book is looked for among the waiting ones. *)
Lemma remove_stop_order_ok b s os o x :
  stops_ok (b_oh b) s (stops_of s b) os → s = own_side (is_buy x) →
  b_oh b !! o = Some x → is_nan (o_price x) = false →
  ∃ t, remove_stop_order o b = (put_orders (delete (o_id x) (b_orders b)) (put_stops s t b), Ret tt) ∧
    stops_ok (b_oh b) s t (sremove (OrderComparator (b_oh b) (stops_asc s)) o os).
Proof.
  intros Hs -> Hx Hp. unfold remove_stop_order.
  erewrite bind_ok by (unfold get_order; rewrite Hx; reflexivity).
  destruct (stops_remove_ok b _ _ o Hs) as (t&r&E&Ht).
  { unfold opriced, oprice_of. by rewrite Hx. }
  exists t. erewrite bind_ok by exact E. split; [|done]. by destruct (is_buy x).
Qed.

Lemma cancelled_stops b a o x s :
  book_ok b a → b_oh b !! o = Some x →
  stops_ok (b_oh (cancelled_in b o x)) s (stops_of s (cancelled_in b o x)) (a_stops a s).
Proof.
  intros Hb Hx. assert (stops_of s (cancelled_in b o x) = stops_of s b) as -> by (by destruct s).
  apply (stops_ok_static (b_oh b)); [|apply Hb]. intros o'. by eapply static_at_insert.
Qed.

Lemma resting_price b a o :
  book_ok b a → o ∈ all_orders a → ∃ x, b_oh b !! o = Some x ∧ is_nan (o_price x) = false.
Proof.
  intros Hb Hin. assert (∃ s, o ∈ lorders (a_levels a s)) as [s (l&os&Hl&Ho)%in_lorders].
  { unfold all_orders in Hin. apply elem_of_app in Hin as [?|?]; eauto. }
  destruct (resting_order _ _ _ _ _ _ Hb Hl Ho) as (x&lim&Hx&Hr&[Hll _]).
  exists x. split; [done|]. rewrite (rs_price _ _ _ _ Hr). apply Hll.
Qed.

(** Cancelling a resting order, whatever its flags, ends with the read of the erased entry.  A stop
    order that rests is only marked as cancelled, any other is withdrawn. *)
Lemma cancel_never_returns b a id o :
  book_ok b a → b_orders b !! id = Some o →
  ∃ b' x, cancel_order id b = (b', Err UseAfterErase) ∧ b_orders b' !! id = None ∧
    order_queue b' = order_queue b ∧ b_oh b !! o = Some x ∧
    if has_param x STOP
    then (∀ s, limits_of s b' = limits_of s b) ∧ b_lh b' = b_lh b ∧ b_oh b' = <[o := cancel x]> (b_oh b)
    else withdrawn b a o b'.
Proof.
  intros Hb Hid. destruct (entry_level _ _ _ _ Hb Hid) as (x&_&_&Hx&Hidx&_).
  destruct (has_param x STOP) eqn:Hstop.
  2: { destruct (cancel_order_ok b a id o x Hb Hid Hx Hstop) as (b'&E&Hw&Hn). exists b', x.
       rewrite Hstop. split_and!; [done..|apply Hw|done|done]. }
  destruct (resting_price b a o Hb) as (x0&Hx0&Hp); [by apply (bk_map _ _ Hb) in Hid as [? _]|].
  rewrite Hx in Hx0. injection Hx0 as <-.
  destruct (remove_stop_order_ok (cancelled_in b o x) _ _ o (cancel x)
    (cancelled_stops b a o x _ Hb Hx) eq_refl) as (t&E&_); [apply lookup_insert_eq|done|].
  exists (put_orders (delete id (b_orders b)) (put_stops (own_side (is_buy x)) t (cancelled_in b o x))), x.
  unfold cancel_order. rewrite bind_gets, Hid, Hstop.
  erewrite bind_ok by (unfold upd_order, on_order; rewrite Hx; reflexivity).
  change (set_oh _ b) with (cancelled_in b o x).
  erewrite bind_ok by (unfold get_order; simpl; rewrite lookup_insert_eq; reflexivity).
  change (has_param (cancel x) STOP) with (has_param x STOP). rewrite Hstop.
  erewrite bind_ok by exact E. change (o_id (cancel x)) with (o_id x). rewrite Hidx.
  split; [|split_and!; try by destruct (is_buy x)].
  - eapply bind_err. unfold entry_second. simpl. by rewrite lookup_delete_eq.
  - exact (lookup_delete_eq (b_orders b) id).
Qed.

(** A cancellation that returns has found nothing. *)
Lemma cancel_returns b a id b' st :
  book_ok b a → cancel_order id b = (b', Ret st) → b' = b ∧ st = NOT_FOUND.
Proof.
  intros Hb E. destruct (b_orders b !! id) as [o|] eqn:Hid.
  - destruct (cancel_never_returns b a id o Hb Hid) as (b''&x&E'&_). by rewrite E' in E.
  - unfold cancel_order in E. rewrite bind_gets, Hid in E. by injection E.
Qed.

(** So does a modification, unless the order is a stop order that rests. *)
Lemma modify_returns b a ord y b' st :
  book_ok b a → b_oh b !! ord = Some y →
  (∀ o x, b_orders b !! o_id y = Some o → b_oh b !! o = Some x → has_param x STOP = false) →
  modify_order ord b = (b', Ret st) → b' = b ∧ st = NOT_FOUND.
Proof.
  intros Hb Hy Hs E. destruct (b_orders b !! o_id y) as [o|] eqn:Hid.
  - destruct (entry_level _ _ _ _ Hb Hid) as (x&_&_&Hx&_).
    destruct (modify_order_ok b a ord y o x Hb Hy Hid Hx) as (b''&E'&_); [by eapply Hs|].
    by rewrite E' in E.
  - unfold modify_order in E. erewrite bind_ok in E by (unfold get_order; rewrite Hy; reflexivity).
    rewrite bind_gets in E. unfold get_id in E. rewrite Hid in E. by injection E.
Qed.

(** Modifying such an order returns, but leaves it in its level: only the tree of waiting stop
    orders and the index change, and the order's flag. *)
Lemma modify_stop_order_ok b a ord y o x :
  book_ok b a → b_oh b !! ord = Some y → is_nan (o_price y) = false →
  b_orders b !! o_id y = Some o → b_oh b !! o = Some x → has_param x STOP = true → ord ≠ o →
  let s := own_side (is_buy y) in
  let less := OrderComparator (b_oh b) (stops_asc s) in
  ∃ t, modify_order ord b =
      (put_queues (order_queue b ++ [ord]) (trade_queue b)
        (put_orders (delete (o_id y) (b_orders b)) (put_stops s t (cancelled_in b o x))), Ret MODIFIED) ∧
    stops_ok (<[o := cancel x]> (b_oh b)) s t (sinsert less ord (sremove less ord (a_stops a s))).
Proof.
  intros Hb Hy Hp Hid Hx Hstop Hne s less.
  destruct (entry_level _ _ _ _ Hb Hid) as (x0&_&_&Hx0&_&Hc&(q&Hq&Hq0&_)&_).
  rewrite Hx in Hx0. injection Hx0 as <-. set (b1 := cancelled_in b o x).
  assert (b_oh b1 !! ord = Some y) as Hy1 by (unfold b1; simpl; by rewrite lookup_insert_ne).
  assert (∀ o1 o2, OrderComparator (b_oh b1) (stops_asc s) o1 o2 = less o1 o2) as Hless.
  { intros o1 o2. apply OrderComparator_ext. intros o'. by eapply static_at_insert. }
  destruct (remove_stop_order_ok b1 s _ ord y (cancelled_stops b a o x s Hb Hx) eq_refl Hy1 Hp)
    as (t1&E1&Ht1).
  set (b2 := put_orders _ _) in E1. assert (b_oh b2 = b_oh b1) as Hoh by (unfold b2; by destruct s).
  destruct (stops_insert_ok b2 s (sremove (OrderComparator (b_oh b1) (stops_asc s)) ord (a_stops a s))
    ord) as (t2&E2&Ht2).
  { unfold b2. by destruct s. } { unfold opriced, oprice_of. by rewrite Hoh, Hy1. }
  exists t2. unfold modify_order. erewrite bind_ok by (unfold get_order; rewrite Hy; reflexivity).
  rewrite bind_gets. unfold get_id. rewrite Hid.
  erewrite bind_ok by (unfold get_order; rewrite Hx; reflexivity).
  unfold is_cancelled, is_fullfilled. rewrite Hc, Hq. cbn [feqb negb andb].
  destruct (Z.eqb_spec q 0); [lia|]. cbn [negb].
  erewrite bind_ok by (unfold upd_order, on_order; rewrite Hx; reflexivity).
  change (set_oh _ b) with b1. rewrite Hstop, bind_assoc.
  erewrite bind_ok by exact E1. erewrite bind_ok by exact E2. split; [by destruct s|].
  rewrite Hoh in Ht2.
  erewrite (sremove_ext _ less), (sinsert_ext _ less) in Ht2 by exact Hless. exact Ht2.
Qed.
End cancel.
