(* ===== verification/OBQuery.v ===== *)
(** * Reading the book

    The getters of the order book: on a well-formed book they return without an error, leave the
    book as it is, and list levels and orders from the best price on. *)

From S2P Require Import Prelude Float RBTree RBSpec RBInsert RBIter DataTypes OrderBook.
From S2P Require Import OBRep OBMatch OBBook OBOps OBInv OBAdd.

(** ** Operations that change nothing *)

Section tree_reads.
Context {T : Type}.
Lemma reads_get_node p : reads (get_node (T:=T) p).
Proof. intros t. unfold get_node. by destruct (nodes t !! p). Qed.
Lemma reads_get_key p : reads (get_key (T:=T) p).
Proof. apply keeps_fmap, reads_get_node. Qed.
Lemma reads_get_left p : reads (get_left (T:=T) p).
Proof. apply keeps_fmap, reads_get_node. Qed.
Lemma reads_get_right p : reads (get_right (T:=T) p).
Proof. apply keeps_fmap, reads_get_node. Qed.
Lemma reads_get_parent p : reads (get_parent (T:=T) p).
Proof. apply keeps_fmap, reads_get_node. Qed.
Hint Resolve reads_get_key reads_get_left reads_get_right reads_get_parent : lob.

Lemma reads_most_left p : reads (most_left (T:=T) p).
Proof.
  apply keeps_bind; [done|]. intros n. revert p. induction n; intros p; cbn [most_left_loop];
    repeat keeps_step; auto.
Qed.
Hint Resolve reads_most_left : lob.
Lemma reads_successor p : reads (successor (T:=T) p).
Proof.
  apply keeps_bind; [auto with lob|]. intros r. destruct (decide _) as [_|_]; [|auto with lob].
  apply keeps_bind; [auto with lob|]. intros q. apply keeps_bind; [done|]. intros n. clear r.
  revert p q. induction n; intros p q; cbn [successor_loop]; repeat keeps_step; auto.
Qed.
Hint Resolve reads_successor : lob.
Lemma reads_first : reads (first (T:=T)).
Proof. unfold first. repeat keeps_step. Qed.
Lemma reads_last : reads (last (T:=T)).
Proof. unfold last. repeat keeps_step. Qed.
Lemma reads_begin : reads (begin (T:=T)).
Proof. done. Qed.
Lemma reads_collect n p : reads (collect_loop (T:=T) n successor p).
Proof. revert p. induction n; intros p; cbn [collect_loop]; repeat keeps_step; auto. Qed.
End tree_reads.
#[export] Hint Resolve reads_get_key reads_successor reads_first reads_last reads_begin reads_collect : lob.

Section book_reads.
Lemma reads_in_limits {A} s (op : (lid → lid → bool) → M (rbtree lid) A) :
  (∀ less, reads (op less)) → reads (in_limits s op).
Proof. intros Hop b. unfold in_limits. apply keeps_zoom_id; [apply Hop|]. by intros []; destruct s. Qed.
Lemma reads_in_dates {A} (op : (oid → oid → bool) → M (rbtree oid) A) :
  (∀ less, reads (op less)) → reads (in_dates op).
Proof. intros Hop b. unfold in_dates. apply keeps_zoom_id; [apply Hop|]. by intros []. Qed.
Lemma reads_get_order o : reads (get_order o).
Proof. done. Qed.
Lemma reads_get_limit l : reads (get_limit l).
Proof. done. Qed.
Hint Resolve reads_in_limits reads_get_limit : lob.

Lemma reads_get_spread : reads get_spread.
Proof. unfold get_spread. repeat keeps_step. Qed.
Lemma reads_all_limits s : reads (all_limits s).
Proof. unfold all_limits. repeat keeps_step. Qed.
Lemma reads_snapshot_limits ls : reads (snapshot_limits ls).
Proof. induction ls as [|l ls IH]; cbn [snapshot_limits]; repeat keeps_step. Qed.
Hint Resolve reads_get_spread reads_all_limits reads_snapshot_limits : lob.

Lemma reads_get_snapshot : reads get_snapshot.
Proof. unfold get_snapshot, get_snapshot_asks, get_snapshot_bids. repeat keeps_step. Qed.
End book_reads.
#[export] Hint Resolve reads_get_order reads_get_limit : lob.

(** ** What the getters return *)

Section query.
Implicit Types (b : book) (a : abook) (s : book_side).

Lemma side_limits_ok b s lvs :
  side_ok (b_oh b) (b_lh b) s (limits_of s b) lvs → all_limits s b = (b, Ret lvs.*1).
Proof.
  intros Hs. destruct (si_tree _ _ _ _ _ Hs) as (its&Ht&Heq).
  unfold all_limits. rewrite bind_gets, <-Heq.
  pose proof (in_limits_read s (λ _, it ← begin; collect_loop (limits_fuel s b) successor it)
    (b_oh b) (b_lh b) (b_orders b) b its.*2) as H.
  rewrite with_objects_id in H. apply H. eapply iterate_ok; [exact Ht|].
  apply tree_rep_fuel in Ht. unfold limits_fuel. lia.
Qed.
Lemma all_limits_ok b a s : book_ok b a → all_limits s b = (b, Ret (a_levels a s).*1).
Proof. intros Hb. by apply side_limits_ok, bk_side. Qed.

Lemma collect_orders_ok oh lh om b p os fuel :
  seg oh p os None → length os < fuel →
  collect_orders fuel (first_of os None) (with_objects oh lh om b)
    = (with_objects oh lh om b, Ret os).
Proof.
  revert p fuel. induction os as [|o os IH]; intros p [|fuel] Hs Hf; simpl in *; try lia; [done|].
  destruct Hs as [Hl Hs]. unfold links in Hl. destruct (oh !! o) as [x|] eqn:Hx; [|done].
  erewrite bind_ok by (by apply get_order_ok). simpl in Hl. injection Hl as _ ->.
  erewrite bind_ok by (eapply IH; [exact Hs|lia]). done.
Qed.

Lemma level_list_fuel b s l os lim :
  level_ok (b_oh b) (b_lh b) s l os lim → length os < list_fuel b.
Proof.
  intros [Hl Hr]. unfold list_fuel. apply Nat.lt_succ_r, nodup_size; [apply Hl|].
  intros o Ho. destruct (Hr o Ho) as (x&Hx&_). eauto.
Qed.

Lemma limits_orders_ok b s all lvs :
  side_ok (b_oh b) (b_lh b) s (limits_of s b) all → (∀ e, e ∈ lvs → e ∈ all) →
  orders_of_limits lvs.*1 b = (b, Ret (lorders lvs)).
Proof.
  intros Hs. induction lvs as [|[l os] lvs IH]; intros Hin; [done|]. csimpl.
  destruct (si_levels _ _ _ _ _ Hs l os) as [lim Hl]; [apply Hin; left|].
  erewrite bind_ok by (unfold get_limit; by rewrite (lv_limit _ _ _ _ _ (proj1 Hl))).
  rewrite bind_gets, (lv_head _ _ _ _ _ (proj1 Hl)).
  erewrite bind_ok.
  2: { pose proof (collect_orders_ok (b_oh b) (b_lh b) (b_orders b) b None os (list_fuel b)) as H.
       rewrite with_objects_id in H. apply H; [apply Hl|]. eapply level_list_fuel, Hl. }
  erewrite bind_ok by (apply IH; intros; apply Hin; by right). done.
Qed.

(** Reading a side gives the orders of its levels. *)
Lemma side_read b s lvs :
  side_ok (b_oh b) (b_lh b) s (limits_of s b) lvs →
  (ls ← all_limits s; orders_of_limits ls) b = (b, Ret (lorders lvs)).
Proof.
  intros Hs. erewrite bind_ok by (by apply side_limits_ok). by eapply limits_orders_ok.
Qed.
Lemma side_orders_ok b a s :
  book_ok b a → (ls ← all_limits s; orders_of_limits ls) b = (b, Ret (lorders (a_levels a s))).
Proof. intros Hb. apply side_read, Hb. Qed.

(** Prices do not get better along the list. *)
Definition by_price oh s (o1 o2 : oid) : Prop :=
  if s is Asks then fltb (oprice_of oh o2) (oprice_of oh o1) = false
  else fltb (oprice_of oh o1) (oprice_of oh o2) = false.

Lemma lorders_by_price oh lh s tr lvs :
  side_ok oh lh s tr lvs → StronglySorted (by_price oh s) (lorders lvs).
Proof.
  intros Hs. pose proof (side_sorted _ _ _ _ _ Hs) as Hso. pose proof (side_priced _ _ _ _ _ Hs) as Hp.
  assert (∀ l os o, (l, os) ∈ lvs → o ∈ os → oprice_of oh o = price_of lh l) as Hprice.
  { intros l os o Hin Ho. destruct (si_levels _ _ _ _ _ Hs _ _ Hin) as (lim&Hll&Hr).
    destruct (Hr o Ho) as (x&Hx&Hx'). unfold oprice_of. rewrite Hx. simpl. unfold get_price.
    rewrite (rs_price _ _ _ _ Hx'). by rewrite (limit_price_of _ _ _ (lv_limit _ _ _ _ _ Hll)). }
  clear Hs. induction lvs as [|[l os] lvs IH]; [constructor|].
  csimpl in Hso. csimpl in Hp. apply sorted_cons in Hso as [Hso Hl].
  apply Forall_cons in Hp as [Hpl Hp]. rewrite lorders_cons.
  assert (StronglySorted (by_price oh s) (lorders lvs)) as IH'.
  { apply IH; [done|done|]. intros. eapply Hprice; [by right|done]. }
  assert (∀ o, o ∈ os → oprice_of oh o = price_of lh l) as Hos.
  { intros. eapply Hprice; [left|done]. }
  clear IH. induction os as [|o os IHo]; [done|]. simpl. constructor.
  - apply IHo.
    + intros l' os' o' Hin Ho'. apply elem_of_cons in Hin as [[= -> ->]|Hin].
      * apply Hos. by right.
      * eapply Hprice; [by right|done].
    + intros. apply Hos. by right.
  - apply Forall_forall. intros o' Ho'. rewrite elem_of_app in Ho'.
    assert (oprice_of oh o = price_of lh l) as Ho by (apply Hos; left).
    destruct Ho' as [Ho'|(l'&os'&Hin&Ho')%in_lorders].
    + assert (oprice_of oh o' = price_of lh l) as Hoo by (apply Hos; by right).
      unfold by_price. rewrite Ho, Hoo. destruct s; by apply (sw_irrefl (P := λ x, is_nan x = false)).
    + assert (oprice_of oh o' = price_of lh l') as Hoo by (eapply Hprice; [by right|done]).
      assert (l' ∈ lvs.*1) as Hl' by (apply in_levels; eauto).
      pose proof (Hl l' Hl') as Hlt. rewrite Forall_forall in Hp. pose proof (Hp l' Hl') as Hpl'.
      unfold by_price. rewrite Ho, Hoo. unfold LimitComparator in Hlt.
      destruct s; simpl in Hlt; by apply (less_asym (λ x, is_nan x = false) fltb).
Qed.

Lemma all_stops_ok b a s : book_ok b a → all_stops s b = (b, Ret (a_stops a s)).
Proof.
  intros Hb. destruct (bk_stops _ _ Hb s) as (its&Ht&<-&_). unfold all_stops. rewrite bind_gets.
  replace (b, Ret its.*2) with (put_stops s (stops_of s b) b, @Ret (list oid) its.*2)
    by (by destruct s, b).
  eapply in_stops_write, iterate_ok; [exact Ht|].
  apply tree_rep_fuel in Ht. lia.
Qed.
Lemma all_dates_ok b a : book_ok b a → get_orders_with_experation b = (b, Ret (a_dates a)).
Proof.
  intros Hb. destruct (bk_dates _ _ Hb) as (its&Ht&<-&_). unfold get_orders_with_experation.
  rewrite bind_gets.
  replace (b, Ret its.*2) with (put_date_orders (b_date_orders b) b, @Ret (list oid) its.*2)
    by (by destruct b).
  eapply in_dates_write, iterate_ok; [exact Ht|].
  apply tree_rep_fuel in Ht. lia.
Qed.

(** The price and the stored volume of each level. *)
Definition level_entry b (l : lid) : SnapshotLimit :=
  MkSnapshotLimit (price_of (b_lh b) l) (volume_of (b_lh b) l).

Lemma snapshot_limits_ok b a s ls :
  book_ok b a → (∀ l, l ∈ ls → l ∈ (a_levels a s).*1) →
  snapshot_limits ls b = (b, Ret (level_entry b <$> ls)).
Proof.
  intros Hb. induction ls as [|l ls IH]; intros Hin; [done|]. simpl.
  destruct (level_limits_lookup _ _ _ _ Hb (Hin l ltac:(left))) as [lim Hl].
  erewrite bind_ok by (unfold get_limit; by rewrite Hl).
  erewrite bind_ok by (apply IH; intros; apply Hin; by right).
  unfold level_entry at 2. by rewrite (limit_price_of _ _ _ Hl), (limit_volume_of _ _ _ Hl).
Qed.
Lemma snapshot_side_ok b a s :
  book_ok b a →
  (ls ← all_limits s; snapshot_limits ls) b = (b, Ret (level_entry b <$> (a_levels a s).*1)).
Proof.
  intros Hb. erewrite bind_ok by (by apply all_limits_ok). by eapply snapshot_limits_ok.
Qed.

Definition price_or (o : option lid) b : float :=
  from_option (price_of (b_lh b)) (float_of_Z (-1)) o.

Lemma limit_price_ok b a s o :
  book_ok b a → (∀ l, o = Some l → l ∈ (a_levels a s).*1) →
  (match o with Some l => x ← get_limit l; mret (limit_get_price x)
   | None => mret (float_of_Z (-1)) end) b = (b, Ret (price_or o b)).
Proof.
  intros Hb Ho. destruct o as [l|]; [|done].
  destruct (level_limits_lookup _ _ _ _ Hb (Ho l eq_refl)) as [lim Hl].
  erewrite bind_ok by (unfold get_limit; by rewrite Hl). simpl.
  by rewrite (limit_price_of _ _ _ Hl).
Qed.

(** The "best bid" of the spread is the last bid limit, the one with the lowest price. *)
Lemma get_spread_ok b a :
  book_ok b a → a_levels a Bids ≠ [] →
  get_spread b = (b, Ret (MkSpread (price_or (list.last (a_levels a Bids).*1) b)
    (price_or (head (a_levels a Asks).*1) b) (b_market_price b))).
Proof.
  intros Hb Hne. destruct (si_tree _ _ _ _ _ (bk_side _ _ Hb Bids)) as (its&Ht&Heq).
  destruct (si_tree _ _ _ _ _ (bk_side _ _ Hb Asks)) as (its'&Ht'&Heq').
  assert (its ≠ []) as Hits.
  { intros ->. apply (f_equal length) in Heq. rewrite !length_fmap in Heq. by destruct (a_levels a Bids). }
  unfold get_spread.
  pose proof (in_limits_read Bids (λ _, last) (b_oh b) (b_lh b) (b_orders b) b _
    (last_ok _ _ _ Ht Hits)) as H1. rewrite with_objects_id in H1. erewrite bind_ok by exact H1.
  pose proof (in_limits_read Asks (λ _, first) (b_oh b) (b_lh b) (b_orders b) b _
    (first_ok _ _ _ Ht')) as H2. rewrite with_objects_id in H2. erewrite bind_ok by exact H2.
  erewrite bind_ok; [erewrite bind_ok|].
  - rewrite bind_gets, <-Heq, <-Heq'. reflexivity.
  - eapply (limit_price_ok b a Bids); [done|]. rewrite Heq. intros l Hl.
    apply list_elem_of_In. apply last_Some in Hl as [l' ->]. apply in_or_app. right. by left.
  - eapply (limit_price_ok b a Asks); [done|]. rewrite Heq'. intros l Hl.
    destruct (a_levels a Asks); simplify_eq/=. left.
Qed.

Lemma last_worst b a l0 :
  book_ok b a → list.last (a_levels a Bids).*1 = Some l0 →
  ∀ l, l ∈ (a_levels a Bids).*1 → fltb (price_of (b_lh b) l) (price_of (b_lh b) l0) = false.
Proof.
  intros Hb Hlast l Hl. pose proof (bk_side _ _ Hb Bids) as Hs.
  pose proof (side_sorted _ _ _ _ _ Hs) as Hso. pose proof (side_priced _ _ _ _ _ Hs) as Hp.
  rewrite Forall_forall in Hp. apply last_Some in Hlast as [ls Heq]. rewrite Heq in *.
  apply elem_of_app in Hl as [Hl|Hl].
  - apply (less_asym (λ x, is_nan x = false) fltb); [apply Hp|apply Hp|].
    + apply elem_of_app. right. left.
    + apply elem_of_app. auto.
    + clear -Hso Hl. induction ls as [|l1 ls IH]; [by apply elem_of_nil in Hl|].
      simpl in Hso. apply sorted_cons in Hso as [Hso Hl1].
      apply elem_of_cons in Hl as [->|Hl]; [|auto]. apply (Hl1 l0). apply elem_of_app. right. left.
  - apply list_elem_of_singleton in Hl as ->. apply (sw_irrefl (P := λ x, is_nan x = false)).
    apply Hp, elem_of_app. right. left.
Qed.
End query.
