(* ===== verification/OBLimit.v ===== *)
(** * What a limit knows of its orders

    The methods of [Limit] that follow its list of orders: the active orders, the side, and the
    serialisation, which takes the list apart. *)

From S2P Require Import Prelude Float RBTree DataTypes OrderBook.
From S2P Require Import OBRep OBMatch OBBook OBOps OBInv OBQuery.

Section limits.
Implicit Types (b : book) (a : abook) (s : book_side).

Lemma qty_ok_unfilled (q : float) : qty_ok q → feqb q (Fin 0) = false.
Proof. intros (n&->&Hn&_). apply Z.eqb_neq. lia. Qed.

Lemma all_active_loop_ok oh lh om b p os fuel :
  seg oh p os None → length os < fuel →
  (∀ o x, o ∈ os → oh !! o = Some x → is_fullfilled x = false ∧ is_cancelled x = false) →
  all_active_loop fuel (first_of os None) (with_objects oh lh om b)
    = (with_objects oh lh om b, Ret os).
Proof.
  revert p fuel. induction os as [|o os IH]; intros p [|fuel] Hs Hf Ha; simpl in *; try lia; [done|].
  destruct Hs as [Hl Hs]. unfold links in Hl. destruct (oh !! o) as [x|] eqn:Hx; [|done].
  erewrite bind_ok by (by apply get_order_ok). simpl in Hl. injection Hl as _ ->.
  destruct (Ha o x ltac:(left) Hx) as [-> ->].
  erewrite bind_ok; [done|]. eapply IH; [exact Hs|lia|]. intros o' x' Ho'. apply Ha. by right.
Qed.

(** The orders of a level of a well-formed book are all active, and on the level's side. *)
Lemma all_active_orders_ok b a s l os :
  book_ok b a → (l, os) ∈ a_levels a s → all_active_orders l b = (b, Ret os).
Proof.
  intros Hb Hin. destruct (si_levels _ _ _ _ _ (bk_side _ _ Hb s) l os Hin) as [lim Hl].
  unfold all_active_orders.
  erewrite bind_ok by (unfold get_limit; by rewrite (lv_limit _ _ _ _ _ (proj1 Hl))).
  rewrite bind_gets, (lv_head _ _ _ _ _ (proj1 Hl)).
  pose proof (all_active_loop_ok (b_oh b) (b_lh b) (b_orders b) b None os (list_fuel b)) as H.
  rewrite with_objects_id in H. apply H; [apply Hl|by eapply level_list_fuel|].
  intros o x Ho Hx. destruct Hl as [_ Hr]. destruct (Hr o Ho) as (x'&Hx'&Hrest). simplify_eq.
  split; [by apply qty_ok_unfilled, Hrest|apply Hrest].
Qed.

Definition side_of (s : book_side) : Side := match s with Asks => SELL | Bids => BUY end.

Lemma limit_side_ok b a s l os :
  book_ok b a → (l, os) ∈ a_levels a s →
  limit_side l b = (b, Ret (if os is [] then UNKOWN else side_of s)).
Proof.
  intros Hb Hin. destruct (si_levels _ _ _ _ _ (bk_side _ _ Hb s) l os Hin) as (lim&Hl&Hr).
  unfold limit_side. erewrite bind_ok by (unfold get_limit; by rewrite (lv_limit _ _ _ _ _ Hl)).
  unfold limit_empty. rewrite (lv_head _ _ _ _ _ Hl), (lv_tail _ _ _ _ _ Hl).
  destruct os as [|o os]; [done|]. rewrite bool_decide_false by done. cbn [andb first_of].
  destruct (Hr o ltac:(left)) as (x&Hx&Hrest). simpl deref. rewrite bind_ret.
  erewrite bind_ok by (unfold get_order; by rewrite Hx).
  rewrite (rs_side _ _ _ _ Hrest). by destruct s.
Qed.

(** The serialisation leaves the limit without a head, its tail as it was. *)
Lemma serialize_loop_ok oh om b l os : ∀ p fuel lim lh,
  seg oh p os None → length os < fuel → lh !! l = Some lim → l_head lim = first_of os None →
  serialize_loop fuel l (with_objects oh lh om b)
    = (with_objects oh (<[l := set_l_ends None (l_tail lim) lim]> lh) om b, Ret os).
Proof.
  induction os as [|o os IH]; intros p [|fuel] lim lh Hs Hf Hl Hh; simpl in *; try lia.
  - ob_step. rewrite Hh, insert_id; [done|]. rewrite Hl. destruct lim. simpl in *. by subst.
  - destruct Hs as [Hk Hs]. unfold links in Hk. destruct (oh !! o) as [x|] eqn:Hx; [|done].
    simpl in Hk. injection Hk as _ Hn. ob_step. rewrite Hh. ob_step. ob_step.
    erewrite bind_ok.
    2: { eapply IH; [exact Hs|lia|by rewrite lookup_insert_eq|]. simpl. exact Hn. }
    by rewrite insert_insert_eq.
Qed.

Lemma serialize_limit_ok b a s l os lim :
  book_ok b a → (l, os) ∈ a_levels a s → b_lh b !! l = Some lim →
  serialize_limit l b
    = (set_lh (<[l := set_l_ends None (l_tail lim) lim]> (b_lh b)) b,
       Ret (l_price lim, l_number_of_active_orders lim, l_total_number_of_orders lim,
         l_active_volume lim, l_total_volume lim, os)).
Proof.
  intros Hb Hin Hlim. destruct (si_levels _ _ _ _ _ (bk_side _ _ Hb s) l os Hin) as (lim'&Hl&Hr).
  pose proof (lv_limit _ _ _ _ _ Hl) as Heq. rewrite Hlim in Heq. injection Heq as <-.
  unfold serialize_limit. erewrite bind_ok by (unfold get_limit; by rewrite Hlim). rewrite bind_gets.
  pose proof (serialize_loop_ok (b_oh b) (b_orders b) b l os None (list_fuel b) lim (b_lh b)) as H.
  rewrite with_objects_id in H. erewrite bind_ok.
  2: { apply H; [apply Hl| |done|apply Hl]. by eapply level_list_fuel; split. }
  by destruct b.
Qed.
End limits.
