(* ===== verification/OBLoad.v ===== *)
(** * Loading orders, and the end of the day

    The constructor puts the stored orders into the trees without indexing them in [_orders];
    [check_date_orders] visits the expiring orders from the earliest expiration time on and stops
    at the first one that is not due. *)

From S2P Require Import Prelude Float RBTree RBSpec RBInsert RBIter DataTypes OrderBook.
From S2P Require Import OBRep OBMatch OBBook OBOps OBInv OBAdd OBCancel OBQuery.

(** ** Operations that leave [_orders] alone *)

Section keeps.
Lemma keeps_get_order o : keeps b_orders (get_order o).
Proof. done. Qed.
Lemma keeps_get_limit l : keeps b_orders (get_limit l).
Proof. done. Qed.
Lemma keeps_deref {A} (p : option A) : keeps b_orders (deref p).
Proof. by destruct p. Qed.
Lemma keeps_on_order o m : keeps b_orders (on_order o m).
Proof. intros b. unfold on_order. destruct (b_oh b !! o); [|done]. by destruct (m _). Qed.
Lemma keeps_upd_limit l f : keeps b_orders (upd_limit l f).
Proof. by apply keeps_bind. Qed.
Lemma keeps_make_limit p : keeps b_orders (make_limit p).
Proof. done. Qed.
Lemma keeps_in_limits {A} s op : keeps b_orders (in_limits (A:=A) s op).
Proof. intros b. apply keeps_zoom. by destruct s. Qed.
Lemma keeps_in_stops {A} s op : keeps b_orders (in_stops (A:=A) s op).
Proof. intros b. apply keeps_zoom. by destruct s. Qed.
End keeps.
#[export] Hint Resolve keeps_get_order keeps_get_limit keeps_deref keeps_on_order keeps_upd_limit
  keeps_make_limit keeps_in_limits keeps_in_stops : lob.

Section load.
Lemma keeps_add_limit_order order limit s : keeps b_orders (add_limit_order order limit s).
Proof. unfold add_limit_order, upd_order. repeat keeps_step. Qed.
Lemma keeps_load_order order : keeps b_orders (load_order order).
Proof.
  unfold load_order, add_stop_order. repeat keeps_step. apply keeps_add_limit_order.
Qed.
Lemma keeps_load_orders orders : keeps b_orders (load_orders orders).
Proof. apply keeps_forM, keeps_load_order. Qed.
End load.

(** ** Orders that expire *)

Section dates.
Variable now : Z.
Implicit Types (b : book) (a : abook).

(** The order is cancelled at the end of the day. *)
Definition due (x : order) : bool := has_param x GFD || (get_expire_time x <? now + 3600)%Z.

Lemma in_dates_read {A} (op : (oid → oid → bool) → M (rbtree oid) A) b (r : A) :
  op (DateOrderComparator (b_oh b) true) (b_date_orders b) = (b_date_orders b, Ret r) →
  in_dates op b = (b, Ret r).
Proof.
  intros H. rewrite (in_dates_write _ _ _ _ H). by destruct b.
Qed.

(** The first turn of the loop. *)
Lemma check_date_head b a o os x :
  book_ok b a → a_dates a = o :: os → b_oh b !! o = Some x →
  ∃ (rest : M book (list oid)), check_date_orders now b =
    (removed_orders ← (if due x then cancel_order (get_id x);; rest else mret []);
     forM removed_orders (λ o, (λ _, tt) <$> in_dates (λ less, remove less o))) b.
Proof.
  intros Hb Ha Hx. destruct (bk_dates _ _ Hb) as (its&Ht&Heq&_). rewrite Ha in Heq.
  destruct its as [|[p k] its]; [done|]. csimpl in Heq. injection Heq as -> _.
  unfold check_date_orders.
  erewrite bind_ok by (apply in_dates_read; unfold begin, gets; rewrite (tree_rep_first _ _ _ Ht); reflexivity).
  rewrite bind_gets. unfold fuel_of. rewrite Nat.add_comm. simpl Nat.add. cbn [check_date_loop].
  unfold valid. rewrite bool_decide_true by (eapply tree_rep_not_nil; [exact Ht|left]).
  rewrite bind_assoc.
  erewrite bind_ok by (apply in_dates_read; eapply tree_rep_key; [exact Ht|left]).
  rewrite bind_assoc. erewrite bind_ok by (unfold get_order; by rewrite Hx).
  eexists. reflexivity.
Qed.

Lemma check_date_first b a o os x :
  book_ok b a → a_dates a = o :: os → b_oh b !! o = Some x → due x = false →
  check_date_orders now b = (b, Ret tt).
Proof.
  intros Hb Ha Hx Hdue. destruct (check_date_head _ _ _ _ _ Hb Ha Hx) as [rest ->]. by rewrite Hdue.
Qed.

(** The first order that is due and rests in the book stops the program. *)
Lemma check_date_due b a o os x :
  book_ok b a → a_dates a = o :: os → b_oh b !! o = Some x → due x = true →
  b_orders b !! o_id x = Some o → has_param x STOP = false →
  ∃ b', check_date_orders now b = (b', Err UseAfterErase) ∧ withdrawn b a o b'.
Proof.
  intros Hb Ha Hx Hdue Hid Hstop. destruct (check_date_head _ _ _ _ _ Hb Ha Hx) as [rest ->].
  destruct (cancel_order_ok b a _ o x Hb Hid Hx Hstop) as (b'&E&Hw&_). exists b'. split; [|done].
  rewrite Hdue. rewrite bind_assoc. eapply bind_err. exact E.
Qed.

(** A loop that ends has found no order of the index: the book is what it was. *)
Lemma check_date_loop_returns fuel horizon it removed b a b' os :
  book_ok b a → check_date_loop fuel horizon it removed b = (b', Ret os) → b' = b.
Proof.
  intros Hb. revert it removed. induction fuel as [|fuel IH]; intros it removed; [done|].
  cbn [check_date_loop]. destruct (valid it); [|by intros [= <- _]].
  intros (b1&o&E1&E)%bind_inv. apply reads_inv in E1 as ->; [|by apply reads_in_dates; auto with lob].
  apply bind_inv in E as (b2&x&E2&E). apply reads_inv in E2 as ->; [|auto with lob].
  destruct (_ || _); [|by injection E as <- _].
  apply bind_inv in E as (b3&st&E3&E). apply (cancel_returns _ _ _ _ _ Hb) in E3 as [-> _].
  apply bind_inv in E as (b4&o'&E4&E). apply reads_inv in E4 as ->; [|by apply reads_in_dates; auto with lob].
  apply bind_inv in E as (b5&it'&E5&E).
  apply reads_inv in E5 as ->; [|by apply reads_in_dates; auto with lob]. by apply IH in E.
Qed.

Lemma remove_dates_ok os : ∀ b a, book_ok b a →
  ∃ b' a', forM os (λ o, (λ _, tt) <$> in_dates (λ less, remove less o)) b = (b', Ret tt) ∧ book_ok b' a'.
Proof.
  induction os as [|o os IH]; intros b a Hb; [by exists b, a|]. cbn [forM].
  destruct (dates_remove_ok b _ o (bk_dates _ _ Hb)) as (t&r&E&Ht).
  destruct (IH _ _ (dates_book_ok _ _ _ _ Hb Ht)) as (b'&a'&E'&Hb'). exists b', a'. split; [|done].
  erewrite bind_ok; [exact E'|]. unfold fmap, M_fmap. by rewrite E.
Qed.

Lemma check_date_orders_returns b a b' :
  book_ok b a → check_date_orders now b = (b', Ret tt) → ∃ a', book_ok b' a'.
Proof.
  intros Hb. unfold check_date_orders. intros (b1&it&E1&E)%bind_inv.
  apply reads_inv in E1 as ->; [|by apply reads_in_dates; auto with lob].
  rewrite bind_gets in E. apply bind_inv in E as (b2&os&E2&E).
  apply (check_date_loop_returns _ _ _ _ _ _ _ _ Hb) in E2 as ->.
  destruct (remove_dates_ok os b a Hb) as (b''&a'&E'&Hb'). rewrite E' in E. injection E as <-. eauto.
Qed.
End dates.
