(* ===== verification/OBRestart.v ===== *)
(** * Opening a book from the stored orders

    The constructor puts every order of the repository into a tree: a stop order into the tree of
    waiting stop orders of its side, any other into the level of its price.  The result has
    well-formed sides, but not an index, and nothing matches what it loads. *)

From S2P Require Import Prelude Float RBTree RBSpec RBInsert DataTypes OrderBook.
From S2P Require Import OBRep OBMatch OBBook OBOps OBInv OBAdd OBQuery.

Section loading.
Implicit Types (b : book) (a : abook) (s : book_side) (o : oid).

(** What a stored order must be like. *)
Record loadable (x : order) : Prop := {
  la_price : is_nan (o_price x) = false;
  la_qty : qty_ok (o_current_qty x);
  la_live : o_cancelled x = false;
  la_params : has_param x FOK = false;
  la_prev : o_prev x = None;
  la_next : o_next x = None
}.

Lemma new_book_sides instrument price oh : sides_ok (new_book instrument price oh) empty_abook.
Proof. apply book_sides, new_book_ok. Qed.

Record loads b a o (x : order) b' a' : Prop := {
  lo_ok : sides_ok b' a';
  lo_orders : all_orders a' ≡ₚ (if has_param x STOP then [] else [o]) ++ all_orders a;
  lo_levels s o' : o' ∈ lorders (a_levels a' s) ↔ o' ∈ lorders (a_levels a s) ∨
    (o' = o ∧ has_param x STOP = false ∧ s = own_side (is_buy x));
  lo_stops : has_param x STOP = true → o ∈ a_stops a' (own_side (is_buy x));
  lo_data o' : o' ≠ o → data (b_oh b') o' = data (b_oh b) o';
  lo_qty o' : o_current_qty <$> b_oh b' !! o' = o_current_qty <$> b_oh b !! o';
  lo_frame o' : o' ∉ all_orders a → o' ≠ o → b_oh b' !! o' = b_oh b !! o'
}.

Lemma load_stop_order b a o x :
  sides_ok b a → b_oh b !! o = Some x → is_nan (o_price x) = false → has_param x STOP = true →
  ∃ b' a', load_order o b = (b', Ret tt) ∧ loads b a o x b' a'.
Proof.
  intros Hb Hx Hp Hstop. set (s := own_side (is_buy x)).
  destruct (stops_insert_ok b s (a_stops a s) o (ss_stops _ _ Hb s)) as (t&E&Ht).
  { unfold opriced, oprice_of. by rewrite Hx. }
  exists (put_stops s t b), (set_stops s (sinsert (OrderComparator (b_oh b) (stops_asc s)) o (a_stops a s)) a).
  unfold load_order. erewrite bind_ok by (unfold get_order; by rewrite Hx). rewrite Hstop.
  split; [exact E|]. split; rewrite ?Hstop.
  - destruct Hb as [H1 H2 H3 H4 H5]. split; try done.
    + intros s'. specialize (H1 s'). by destruct s, s'.
    + by destruct s.
    + intros s'. simpl. destruct (decide (s' = s)) as [->|Hne].
      * rewrite upd_side_same. by destruct s.
      * rewrite upd_side_other by done. specialize (H5 s'). by destruct s, s'.
  - done.
  - intros s' o'. naive_solver.
  - intros _. simpl. rewrite upd_side_same. apply sinsert_in.
  - by destruct s.
  - by destruct s.
  - by destruct s.
Qed.
(** Any other order rests in the level of its price. *)
Lemma load_limit_order b a o x :
  sides_ok b a → b_oh b !! o = Some x → loadable x → has_param x STOP = false → o ∉ all_orders a →
  ∃ b' a', load_order o b = (b', Ret tt) ∧ loads b a o x b' a'.
Proof.
  intros Hb Hx Hl Hstop Ho. set (s := own_side (is_buy x)). set (new := b_next_limit b).
  set (b1 := alloc_limit (new_limit (o_price x)) b).
  pose proof (alloc_limit_sides b a (o_price x) Hb) as Hb1. fold b1 in Hb1.
  assert (restable s (o_price x) x) as Hr.
  { destruct Hl. split; try done. unfold s. by destruct (is_buy x). }
  assert (∀ s', new ∉ (a_levels a s').*1) as Hnl.
  { intros s' Hin. by apply (alloc_limit_fresh b a) in Hin. }
  destruct (add_limit_order_ok (b_oh b1) (b_lh b1) (b_orders b1) b1 s (a_levels a s) new o x (o_price x)
    (ss_side _ _ Hb1 s) (side_orders_nodup _ _ s Hb) (not_in_side _ _ s Ho) Hx Hr (la_price _ Hl)
    (lookup_insert_eq _ _ _) (Hnl s)) as (oh'&lh'&tr'&E&Hrd).
  rewrite with_objects_id in E.
  pose proof (rested_sides_ok b1 a s o x new oh' lh' tr' Hb1 Hx Ho Hr Hnl Hrd (b_orders b1)) as Hok.
  eexists _, _. unfold load_order. erewrite bind_ok by (unfold get_order; rewrite Hx; reflexivity).
  rewrite Hstop. unfold make_limit. erewrite bind_ok by reflexivity. split; [exact E|].
  destruct (rd_order _ _ _ _ _ _ _ _ _ _ Hrd) as (l3&pr3&nx3&Ho3).
  split; [exact Hok|..]; rewrite ?Hstop; try done.
  - rewrite all_orders_upd, rest_order_lorders, <-Permutation_middle. by rewrite <-all_orders_perm.
  - intros s' o'. simpl. destruct (decide (s' = s)) as [->|Hne].
    + rewrite upd_side_same, rest_order_lorders, elem_of_cons. naive_solver.
    + rewrite upd_side_other by done. naive_solver.
  - intros o' Hne. apply (rd_data _ _ _ _ _ _ _ _ _ _ Hrd o' Hne).
  - intros o'. simpl. destruct (decide (o' = o)) as [->|Hne]; [by rewrite Ho3, Hx|].
    pose proof (rd_data _ _ _ _ _ _ _ _ _ _ Hrd o' Hne) as Hd. unfold data in Hd.
    simpl in Hd. destruct (oh' !! o'), (b_oh b !! o'); try done. simpl in *. injection Hd. congruence.
  - intros o' Hin Hne. apply (rd_frame _ _ _ _ _ _ _ _ _ _ Hrd); [by apply not_in_side|done].
Qed.

Lemma load_order_ok b a o x :
  sides_ok b a → b_oh b !! o = Some x → loadable x → o ∉ all_orders a →
  ∃ b' a', load_order o b = (b', Ret tt) ∧ loads b a o x b' a'.
Proof.
  intros Hb Hx Hl Ho. destruct (has_param x STOP) eqn:Hstop; [|by apply load_limit_order].
  apply load_stop_order; [done..|apply Hl|done].
Qed.

(** The constructor's loop: every order that is no stop order joins the orders of its side, with
    the quantity it was stored with. *)
Lemma load_orders_ok os : ∀ b a,
  sides_ok b a → NoDup os → (∀ o, o ∈ os → (o ∉ all_orders a) ∧ (∃ x, b_oh b !! o = Some x ∧ loadable x)) →
  ∃ b' a', load_orders os b = (b', Ret tt) ∧ sides_ok b' a' ∧
    (∀ s o, o ∈ lorders (a_levels a' s) ↔ o ∈ lorders (a_levels a s) ∨
       (o ∈ os ∧ ∃ x, b_oh b !! o = Some x ∧ has_param x STOP = false ∧ s = own_side (is_buy x))) ∧
    (∀ o, o_current_qty <$> b_oh b' !! o = o_current_qty <$> b_oh b !! o).
Proof.
  induction os as [|o os IH]; intros b a Hb Hnd Hos.
  { exists b, a. split_and!; try done. intros s o. split; [auto|]. by intros [?|[?%elem_of_nil _]]. }
  apply NoDup_cons in Hnd as [Hno Hnd]. destruct (Hos o) as (Ho&x&Hx&Hl); [left|].
  destruct (load_order_ok b a o x Hb Hx Hl Ho) as (b1&a1&E1&[L1 L2 L3 L4 L5 L6 L7]).
  assert (∀ o', o' ∈ os → b_oh b1 !! o' = b_oh b !! o') as Hsame.
  { intros o' Hin. apply L7; [apply Hos; by right|]. by intros ->. }
  destruct (IH b1 a1 L1 Hnd) as (b'&a'&E&Hb'&Hlv&Hq).
  { intros o' Hin. destruct (Hos o') as (Ho'&x'&Hx'&Hl'); [by right|]. split.
    - rewrite L2, elem_of_app. intros [Hin'|?]; [|done].
      destruct (has_param x STOP); [by apply elem_of_nil in Hin'|].
      by apply list_elem_of_singleton in Hin' as ->.
    - exists x'. by rewrite Hsame. }
  exists b', a'. split; [by cbn [load_orders forM]; erewrite bind_ok by exact E1|]. split; [done|].
  split; [|intros o'; by rewrite Hq, L6]. intros s o'. rewrite Hlv, L3, elem_of_cons. split.
  - intros [[?|(->&?&->)]|(Hin&x'&Hx'&?)]; [auto|right; split; [by left|by exists x]|].
    rewrite Hsame in Hx' by done. right. split; [by right|by exists x'].
  - intros [?|([->|Hin]&x'&Hx'&?&->)]; [auto|left; right|right].
    + rewrite Hx in Hx'. by injection Hx' as <-.
    + split; [done|]. exists x'. by rewrite Hsame.
Qed.
End loading.
