(* ===== verification/OBProps.v ===== *)
(** * What the order book does

    The properties of the order book, from the lemmas of the preceding files. *)

From S2P Require Import Prelude Float RBTree RBSpec RBInsert RBIter RBDelete DataTypes OrderBook.
From S2P Require Import OBRep OBMatch OBBook OBOps OBPriority OBInv OBTerm OBAdd OBCancel OBQuery OBLimit OBLoad.

Section helpers.
Implicit Types (b : book) (a : abook) (s : book_side).

(** The orders of a side with their quantities, from the best price, in the order of arrival. *)
Definition side_queue b a s : list (oid * float) := queue (lentries (b_oh b) (a_levels a s)).

Lemma order_price b a s l os o :
  book_ok b a → (l, os) ∈ a_levels a s → o ∈ os → oprice_of (b_oh b) o = price_of (b_lh b) l.
Proof.
  intros Hb Hin Ho. destruct (resting_order _ _ _ _ _ _ Hb Hin Ho) as (x&lim&Hx&Hr&[Hl _]).
  unfold oprice_of. rewrite Hx. simpl. unfold get_price. rewrite (rs_price _ _ _ _ Hr).
  by rewrite (limit_price_of _ _ _ (lv_limit _ _ _ _ _ Hl)).
Qed.

(** Every bid is below every ask. *)
Lemma bids_below_asks b a o1 o2 :
  book_ok b a → o1 ∈ lorders (a_levels a Bids) → o2 ∈ lorders (a_levels a Asks) →
  fltb (oprice_of (b_oh b) o1) (oprice_of (b_oh b) o2) = true.
Proof.
  intros Hb (l1&os1&H1&Ho1)%in_lorders (l2&os2&H2&Ho2)%in_lorders.
  rewrite (order_price _ _ _ _ _ _ Hb H1 Ho1), (order_price _ _ _ _ _ _ Hb H2 Ho2).
  apply (bk_uncrossed _ _ Hb true _ os1 _ os2); [done..| |]; by intros ->; eapply elem_of_nil.
Qed.

Lemma matched_side b a ord x b' st mp a' :
  placed b a ord x b' st mp a' → a' = (place_abs b a ord x).2 →
  side_queue b' a' (opposite_side (is_buy x)) = queue (matching b a x).2.
Proof.
  intros Hp ->. unfold side_queue. rewrite <-(pl_rest _ _ _ _ _ _ _ _ Hp).
  f_equal. f_equal. unfold place_abs. destruct (matching b a x) as [[q mp0] rest].
  assert (∀ a1, a_levels (date_abs b ord x a1) = a_levels a1) as Hd
    by (intros a1; unfold date_abs; by destruct (expires x)).
  destruct (feqb q (Fin 0)); [simpl; by rewrite upd_side_same|].
  destruct (has_param x FOK); [simpl; by rewrite upd_side_same|].
  cbn [snd]. rewrite Hd. simpl. rewrite upd_side_other by (by destruct (is_buy x)).
  by rewrite upd_side_same.
Qed.

Lemma opposite_entries b a ord x :
  book_ok b a → incoming b a ord x →
  Forall (λ e, Forall entry_ok e.2) (lentries (b_oh b) (a_levels a (opposite_side (is_buy x)))).
Proof. intros Hb _. eapply side_entries, Hb. Qed.

Lemma in_queue o c (ls : list (lid * list (oid * float))) :
  (o, c) ∈ queue ls ↔ ∃ l e, (l, e) ∈ ls ∧ (o, c) ∈ e.
Proof.
  unfold queue. rewrite list_elem_of_In, in_concat. split.
  - intros (e&He&Ho). apply list_elem_of_In in He, Ho.
    apply list_elem_of_fmap in He as ([l e']&->&He). eauto.
  - intros (l&e&He&Ho). exists e. rewrite <-!list_elem_of_In. split; [|done].
    apply list_elem_of_fmap. by exists (l, e).
Qed.
Lemma queue_forall (P : oid * float → Prop) (ls : list (lid * list (oid * float))) :
  Forall P (queue ls) → Forall (λ e, Forall P e.2) ls.
Proof.
  induction ls as [|[l e] ls IH]; [constructor|]. rewrite queue_cons, Forall_app.
  intros [? ?]. constructor; auto.
Qed.

(** A level that the price does not reach keeps its orders. *)
Lemma match_levels_beyond lh aon buy type price es : ∀ q mp q' mp' rest l e,
  match_levels lh aon buy type price q mp es = (q', mp', rest) → (l, e) ∈ es →
  beyond buy price (price_of lh l) = true → (l, e) ∈ rest.
Proof.
  induction es as [|[l0 e0] es IH]; intros q mp q' mp' rest l e; cbn [match_levels].
  { intros _ ?%elem_of_nil. done. }
  rewrite elem_of_cons. intros Hm Hin Hbey.
  assert (∀ q1 e1 mp, (l, e) ≠ (l0, e0) →
    (let '(q', mp', rest) := match_levels lh aon buy type price q1 mp es in (q', mp', (l0, e1) :: rest))
      = (q', mp', rest) → (l, e) ∈ rest) as Hgo.
  { intros q1 e1 mp1 Hne. destruct Hin as [?|Hin]; [done|].
    destruct (match_levels lh aon buy type price q1 mp1 es) as [[q2 mp2] rest2] eqn:Hm2.
    intros [= _ _ <-]. right. eapply IH; done. }
  destruct (_ && _).
  { destruct (match_levels lh aon buy type price q mp es) as [[q2 mp2] rest2] eqn:Hm2.
    injection Hm as <- <- <-. apply elem_of_cons.
    destruct Hin as [?|Hin]; [by left|right]. by eapply IH. }
  destruct (calculate_cross_price _ _ _ _) as [cp|] eqn:Hcp.
  2: { injection Hm as <- <- <-. by apply elem_of_cons. }
  assert ((l, e) ≠ (l0, e0)) as Hne.
  { intros [= -> ->]. apply (cross_price_None _ _ type) in Hbey. by rewrite Hbey in Hcp. }
  destruct (fill_level aon q e0) as [q1 e1]. destruct (feqb q1 (Fin 0)); [|by eapply Hgo].
  injection Hm as <- <- <-. right. by destruct Hin.
Qed.

(** *** The place of an accepted order *)

Lemma rest_order_shape less new ord (lvs : levels) :
  ∃ l1 l0 os l2, lorders lvs = lorders l1 ++ os ++ lorders l2 ∧
    rest_order less new ord lvs = l1 ++ (l0, os ++ [ord]) :: l2.
Proof.
  destruct (rest_order_cases less new ord lvs)
    as [(l1&l0&os&l2&->&_&->&_)|(l1&l2&->&_&->&_)].
  - exists l1, l0, os, l2. by rewrite lorders_app, lorders_cons.
  - exists l1, new, [], l2. by rewrite lorders_app.
Qed.

Lemma place_abs_own b a ord x mp a' :
  place_abs b a ord x = (ACCEPTED, mp, a') → o_cancelled x = false →
  ∃ less, a_levels a' (own_side (is_buy x))
    = rest_order less (b_next_limit b) ord (a_levels a (own_side (is_buy x))).
Proof.
  unfold place_abs. destruct (matching b a x) as [[q mp0] rest]. intros Hp _.
  destruct (feqb q (Fin 0)); [done|]. destruct (has_param x FOK); [done|].
  injection Hp as _ <-. eexists. unfold date_abs. destruct (expires x); simpl;
    by rewrite upd_side_same.
Qed.

Lemma turn_in_side b a buy l1 l0 os l2 ord :
  book_ok b a → a_levels a (own_side buy) = l1 ++ (l0, os ++ [ord]) :: l2 →
  (∀ o, o ∈ lorders l1 ++ os → beyond buy (oprice_of (b_oh b) o) (oprice_of (b_oh b) ord) = false) ∧
  (∀ o, o ∈ lorders l2 →
    beyond (negb buy) (oprice_of (b_oh b) ord) (oprice_of (b_oh b) o) = true).
Proof.
  intros Hb Heq. pose proof (bk_side _ _ Hb (own_side buy)) as Hs.
  pose proof (side_sorted _ _ _ _ _ Hs) as Hso. pose proof (side_priced _ _ _ _ _ Hs) as Hp.
  rewrite Heq in Hso, Hp. rewrite fmap_app in Hso, Hp. csimpl in Hso. csimpl in Hp.
  apply sorted_app in Hso as (_&Hso&H1). apply sorted_cons in Hso as [_ H2].
  rewrite Forall_app, Forall_cons, !Forall_forall in Hp. destruct Hp as (Hp1&Hp0&Hp2).
  assert (∀ l os' o, (l, os') ∈ l1 ++ (l0, os ++ [ord]) :: l2 → o ∈ os' →
    oprice_of (b_oh b) o = price_of (b_lh b) l) as Hprice.
  { intros l os' o Hin Ho. rewrite <-Heq in Hin. by eapply order_price. }
  assert (ord ∈ os ++ [ord]) as Hord by (apply elem_of_app; right; left).
  rewrite (Hprice l0 (os ++ [ord]) ord) by (rewrite ?elem_of_app, ?elem_of_cons; auto).
  split.
  - intros o [(l&os'&Hl&Ho)%in_lorders|Ho]%elem_of_app.
    + rewrite (Hprice l os' o) by (rewrite ?elem_of_app; auto).
      assert (l ∈ l1.*1) as Hl1 by (apply in_levels; eauto).
      assert (l0 ∈ l0 :: l2.*1) as Hl0 by left.
      specialize (H1 l l0 Hl1 Hl0). apply Hp1 in Hl1.
      destruct buy; simpl in *; by apply (less_asym (λ x, is_nan x = false) fltb).
    + rewrite (Hprice l0 (os ++ [ord]) o) by (rewrite ?elem_of_app, ?elem_of_cons; auto).
      destruct buy; simpl; by apply (sw_irrefl (P := λ x, is_nan x = false)).
  - intros o (l&os'&Hl&Ho)%in_lorders.
    rewrite (Hprice l os' o) by (rewrite ?elem_of_app, ?elem_of_cons; auto).
    assert (l ∈ l2.*1) as Hl2 by (apply in_levels; eauto). specialize (H2 l Hl2).
    destruct buy; exact H2.
Qed.

Lemma StronglySorted_fmap {A B} (R : B → B → Prop) (f : A → B) l :
  StronglySorted (λ x y, R (f x) (f y)) l → StronglySorted R (f <$> l).
Proof.
  induction 1 as [|x l Hl IH Hx]; csimpl; constructor; [done|]. by apply Forall_fmap.
Qed.
Lemma StronglySorted_impl {A} (R R' : A → A → Prop) l :
  (∀ x y, R x y → R' x y) → StronglySorted R l → StronglySorted R' l.
Proof.
  intros Hi. induction 1; constructor; [done|]. eapply Forall_impl; [done|]. auto.
Qed.

(** Objects of orders with different identifiers are different. *)
Lemma static_nodup oh os xs :
  Forall2 (λ o x, static_at oh o = Some (static x)) os xs → NoDup (o_id <$> xs) → NoDup os.
Proof.
  induction 1 as [|o x os xs Ho H IH]; csimpl; [constructor|]. intros [Hx Hn]%NoDup_cons.
  apply NoDup_cons. split; [|by apply IH]. intros Hin. apply Hx.
  apply list_elem_of_lookup in Hin as [i Hi]. eapply Forall2_lookup_l in H as (y&Hy&Hs); [|exact Hi].
  apply static_at_id in Ho, Hs. rewrite Ho in Hs. injection Hs as ->.
  apply list_elem_of_fmap. exists y. split; [done|]. by eapply list_elem_of_lookup_2.
Qed.

(** What an order that does not wait finds is what the book has. *)
Lemma ready_queue b a ord x s :
  incoming b a ord x → side_queue (ready b ord x) a s = side_queue b a s.
Proof.
  intros Hin. unfold side_queue. f_equal. apply lentries_ext. intros o _. unfold ready, triggered.
  destruct (_ && _); [|done]. unfold qty_at. simpl. destruct (decide (o = ord)) as [->|Hne].
  - by rewrite lookup_insert_eq, (in_order _ _ _ _ Hin).
  - by rewrite lookup_insert_ne.
Qed.
Lemma ready_price b a ord x o :
  incoming b a ord x → oprice_of (b_oh (ready b ord x)) o = oprice_of (b_oh b) o.
Proof.
  intros Hin. apply oprice_static. unfold ready, triggered. destruct (_ && _); [|done].
  simpl. by eapply static_at_insert; [apply Hin|].
Qed.
Lemma triggered_order_buy x : is_buy (triggered_order x) = is_buy x.
Proof. unfold triggered_order. by destruct (_ && _). Qed.
Lemma triggered_order_FOK x : has_param x FOK = true → has_param (triggered_order x) FOK = true.
Proof. unfold triggered_order. by destruct (_ && _). Qed.
(** A stop market order is placed as an immediate order, any other as it is. *)
Lemma triggered_order_limit x : has_param x STOP = false ∨ get_type x = LIMIT → triggered_order x = x.
Proof. unfold triggered_order. intros [->| ->]; [done|]. by rewrite andb_false_r. Qed.

Lemma place_abs_eq b a ord x : ∃ st mp a', place_abs b a ord x = (st, mp, a').
Proof. destruct (place_abs b a ord x) as [[st mp] a']. eauto. Qed.
End helpers.

(** ** Adding orders *)

Section adding.
Variable now : Z.
Implicit Types (b : book) (a : abook).

(** C1: submitting a valid order to a well-formed book returns the status that [add_abs] computes
    from the levels of the book, leaves a well-formed book with the levels, stop orders and
    expiring orders it computes, and hands the new order, once, to the repository.  The market price
    is the one that the matching sets: of the last level that the order reaches, whether or not it
    trades there. *)
Theorem submit_refines b a x :
  book_ok b a → valid_order x → b_orders b !! o_id x = None →
  let ord := fresh (dom (b_oh b)) in
  let '(st, mp, a') := add_abs (set_oh (<[ord := x]> (b_oh b)) b) a ord x in
  ∃ b', submit now x b = (b', Ret st) ∧ book_ok b' a' ∧ b_market_price b' = mp ∧
    order_queue b' = order_queue b ++ [ord] ∧ trade_queue b' = trade_queue b.
Proof.
  intros Hb Hx Hid ord.
  destruct (alloc_order_ok b a x Hb Hx Hid) as (b1&ord'&E&Hb1&Hin&_&_&_&Hq1&Hq2).
  injection E as Eb Eord. fold ord in Eb, Eord. subst ord' b1.
  destruct (add_abs _ a ord x) as [[st mp] a'] eqn:Ha.
  destruct (add_order_ok now _ _ _ _ _ _ _ Hb1 Hin Ha) as (b'&E&[Had Hmp Hoq Htq _ _]).
  exists b'. split; [exact E|]. by rewrite Hoq, Htq.
Qed.

(** C6: the matching of an order ends: the loop over the levels returns within one turn for each level of
    the opposite side and one more, and every larger bound on its turns, such as the one the model of
    [match_order] uses, gives the same book and the same result. *)
Theorem matching_ends b a ord x :
  book_ok b a → incoming b a ord x →
  let s := opposite_side (is_buy x) in
  ∃ b' v, match_order now ord s b = (b', Ret v) ∧
    ∀ turns, length (a_levels a s) < turns →
      (it ← in_limits s (λ _, begin);
       match_loop now turns s ord (has_param x AON) (is_buy x) (get_type x) it [] []) b = (b', Ret v).
Proof.
  intros Hb Hin s. destruct (match_bound now b a ord x _ Hb Hin (Nat.lt_succ_diag_r _)) as (b'&v&E&_).
  exists b', v. split; [exact E|]. intros turns Hlt.
  destruct (match_bound now b a ord x turns Hb Hin Hlt) as (b2&v2&E2&Et).
  rewrite E in E2. by injection E2 as <- <-.
Qed.

(** C2: whatever valid orders are submitted to a new book, each of them is answered without an
    error, and afterwards every bid is below every ask. *)
Theorem book_never_crosses instrument price xs :
  Forall (λ p, valid_order p.2) xs → NoDup (o_id <$> xs.*2) →
  ∃ b sts bids asks, run_orders xs (new_book instrument price ∅) = (b, Ret sts) ∧
    length sts = length xs ∧ get_bids b = (b, Ret bids) ∧ get_asks b = (b, Ret asks) ∧
    ∀ o1 o2, o1 ∈ bids → o2 ∈ asks →
      fltb (oprice_of (b_oh b) o1) (oprice_of (b_oh b) o2) = true.
Proof.
  intros Hv Hnd.
  destruct (run_orders_ok xs (new_book instrument price ∅) empty_abook)
    as (b&a&sts&ords&E&Hb&Hl&_); [apply new_book_ok|done|done|done|].
  exists b, sts, (lorders (a_levels a Bids)), (lorders (a_levels a Asks)).
  split; [done|]. split; [done|]. split; [by apply side_orders_ok|].
  split; [by apply side_orders_ok|]. intros o1 o2. by apply bids_below_asks.
Qed.

(** C38: no trade is ever recorded: after any sequence of valid orders the trade repository was
    handed nothing, and the order repository was handed the objects of these orders, each once and in
    this sequence, and nothing else. *)
Theorem no_trade_is_recorded instrument price xs :
  Forall (λ p, valid_order p.2) xs → NoDup (o_id <$> xs.*2) →
  ∃ b sts, run_orders xs (new_book instrument price ∅) = (b, Ret sts) ∧
    trade_queue b = [] ∧ NoDup (order_queue b) ∧
    Forall2 (λ o x, static_at (b_oh b) o = Some (static x)) (order_queue b) xs.*2.
Proof.
  intros Hv Hnd.
  destruct (run_orders_ok xs (new_book instrument price ∅) empty_abook)
    as (b&a&sts&ords&E&_&_&Hq&Ht&Hords&_); [apply new_book_ok|done|done|done|].
  exists b, sts. split; [done|]. split; [done|]. simpl in Hq. rewrite Hq. split; [|done].
  by eapply static_nodup.
Qed.

(** C3: an order that may be filled in parts trades with the best prices first and, at one price,
    with the orders that came first: the opposite side loses a prefix of its orders, and at most
    the next one is reduced. *)
Theorem price_time_priority b a ord x :
  book_ok b a → incoming b a ord x → has_param x AON = false →
  ∃ b' st a', place_order now ord b = (b', Ret st) ∧ book_ok b' a' ∧
    taken (side_queue b a (opposite_side (is_buy x))) (side_queue b' a' (opposite_side (is_buy x))).
Proof.
  intros Hb Hin Haon. destruct (place_abs_eq b a ord x) as (st&mp&a'&Hp).
  destruct (place_order_ok now _ _ _ _ _ _ _ Hb Hin Hp) as (b'&E&Hpl).
  exists b', st, a'. split; [done|]. split; [apply Hpl|].
  rewrite (matched_side _ _ _ _ _ _ _ _ Hpl) by (by rewrite Hp).
  destruct (in_qty _ _ _ _ Hin) as (q&Hq&Hq0&Hqf). unfold matching. rewrite Haon, Hq.
  destruct (match_levels _ _ _ _ _ _ _ _) as [[q' mp'] rest] eqn:Hm.
  eapply match_levels_taken; [..|exact Hm]; [lia|done|by eapply opposite_entries].
Qed.

(** C17: an all-or-none order that is no stop order, or a stop limit order that does not wait, is
    filled, and then by a single resting order, or it is rejected with its whole quantity and nobody's
    quantity has changed. *)
Theorem all_or_none b a ord x :
  book_ok b a → incoming b a ord x → has_param x AON = true →
  has_param x STOP = false ∨ get_type x = LIMIT → waits b x = false →
  ∃ b' st a' x', add_order now ord b = (b', Ret st) ∧ book_ok b' a' ∧ b_oh b' !! ord = Some x' ∧
    (let before := side_queue b a (opposite_side (is_buy x)) in
     let after := side_queue b' a' (opposite_side (is_buy x)) in
     (st = MATCHED ∧ o_current_qty x' = Fin 0 ∧ one_reduced (o_current_qty x) before after) ∨
     (st = NOT_MATCHED ∧ o_current_qty x' = o_current_qty x ∧ o_cancelled x' = true ∧
      after = before)).
Proof.
  intros Hb0 Hin0 Haon Hflag Hw. rewrite (add_order_places now b a ord x Hin0 Hw).
  rewrite <-(ready_queue b a ord x _ Hin0). destruct (ready_ok b a ord x Hb0 Hin0) as [Hb Hin].
  rewrite (triggered_order_limit x Hflag) in Hin. set (b1 := ready b ord x) in *. clearbody b1.
  destruct (place_abs_eq b1 a ord x) as (st&mp&a'&Hp).
  destruct (place_order_ok now _ _ _ _ _ _ _ Hb Hin Hp) as (b'&E&Hpl).
  destruct (pl_order _ _ _ _ _ _ _ _ Hpl) as (x'&Hx'&[_ Hq' _ Hc']).
  exists b', st, a', x'. split; [done|]. split; [apply Hpl|]. split; [done|]. cbn zeta.
  rewrite (matched_side _ _ _ _ _ _ _ _ Hpl) by (by rewrite Hp).
  destruct (in_qty _ _ _ _ Hin) as (q&Hq&Hq0&_). rewrite Hq', Hc', Hq.
  assert (has_param x FOK = true) as Hfok by (by rewrite has_param_FOK, Haon).
  unfold place_abs in Hp. destruct (matching b1 a x) as [[q1 mp1] rest] eqn:Hm.
  pose proof Hm as Hm'. unfold matching in Hm'. rewrite Haon, Hq in Hm'.
  destruct (match_levels_aon _ _ _ _ _ _ _ _ _ _ Hq0 (opposite_entries _ _ _ _ Hb Hin) Hm')
    as [[-> ->]|[-> Hone]].
  - right. cbn [feqb] in Hp. rewrite (proj2 (Z.eqb_neq q 0)), Hfok in Hp by lia.
    by injection Hp as <- <- <-.
  - left. cbn [feqb Z.eqb] in Hp. by injection Hp as <- <- <-.
Qed.

(** A stop market order that does not wait has lost the flags it came with, all-or-none among them:
    it is placed as an immediate-or-cancel order, which takes what there is. *)
Theorem triggered_market_order_loses_its_flags b a ord x :
  book_ok b a → incoming b a ord x → has_param x STOP = true → get_type x = MARKET →
  waits b x = false →
  ∃ b' st a' x', add_order now ord b = (b', Ret st) ∧ book_ok b' a' ∧ b_oh b' !! ord = Some x' ∧
    o_params x' = IOC ∧ (st = MATCHED ∨ st = NOT_MATCHED) ∧
    taken (side_queue b a (opposite_side (is_buy x))) (side_queue b' a' (opposite_side (is_buy x))).
Proof.
  intros Hb0 Hin0 Hstop Hm Hw. rewrite (add_order_places now b a ord x Hin0 Hw).
  rewrite <-(ready_queue b a ord x _ Hin0). destruct (ready_ok b a ord x Hb0 Hin0) as [Hb Hin].
  assert (triggered_order x = set_params IOC x) as Hx by (unfold triggered_order; by rewrite Hstop, Hm).
  rewrite Hx in Hin. set (b1 := ready b ord x) in *. clearbody b1.
  destruct (place_abs_eq b1 a ord (set_params IOC x)) as (st&mp&a'&Hp).
  destruct (place_order_ok now _ _ _ _ _ _ _ Hb Hin Hp) as (b'&E&Hpl).
  destruct (pl_order _ _ _ _ _ _ _ _ Hpl) as (x'&Hx'&[_ _ Hpar _]).
  exists b', st, a', x'. split; [done|]. split; [apply Hpl|]. split; [done|]. split; [by rewrite Hpar|].
  change (is_buy x) with (is_buy (set_params IOC x)).
  rewrite (matched_side _ _ _ _ _ _ _ _ Hpl) by (by rewrite Hp).
  destruct (in_qty _ _ _ _ Hin) as (q&Hq&Hq0&Hqf). unfold place_abs in Hp. unfold matching in *.
  change (has_param (set_params IOC x) AON) with false in *.
  change (has_param (set_params IOC x) FOK) with true in *. rewrite Hq in *.
  destruct (match_levels _ _ _ _ _ _ _ _) as [[q' mp'] rest] eqn:Hml. split.
  - destruct (feqb q' (Fin 0)); injection Hp as <- _ _; auto.
  - eapply match_levels_taken; [..|exact Hml]; [lia|done|by eapply opposite_entries].
Qed.

(** C27: an order with one of the flags of [FOK] never joins the resting orders: it is matched or not,
    or, when it is a stop order that waits, kept with the waiting ones. *)
Theorem immediate_orders_never_rest b a ord x :
  book_ok b a → incoming b a ord x → has_param x FOK = true →
  ∃ b' st a', add_order now ord b = (b', Ret st) ∧ book_ok b' a' ∧
    (ord ∉ all_orders a') ∧ b_orders b' !! o_id x = None ∧
    if waits b x then st = ACCEPTED ∧ ord ∈ a_stops a' (own_side (is_buy x))
    else st = MATCHED ∨ st = NOT_MATCHED.
Proof.
  intros Hb Hin Hfok. destruct (add_abs b a ord x) as [[st mp] a'] eqn:Ha.
  destruct (add_order_ok now _ _ _ _ _ _ _ Hb Hin Ha) as (b'&E&Had).
  exists b', st, a'. split; [done|]. pose proof (ad_book _ _ _ _ _ _ _ _ Had) as Hb'. split; [done|].
  assert ((∀ o, o ∈ all_orders a' → o ∈ all_orders a) ∧
    if waits b x then st = ACCEPTED ∧ ord ∈ a_stops a' (own_side (is_buy x))
    else st = MATCHED ∨ st = NOT_MATCHED) as [Hsub Hst].
  { unfold add_abs in Ha. destruct (waits b x).
    - injection Ha as <- _ <-. unfold date_abs.
      destruct (expires x); simpl; (split; [done|]; split; [done|]); rewrite upd_side_same; apply sinsert_in.
    - destruct (triggered_ok b a ord x Hb Hin) as [Hb1 Hin1].
      apply triggered_order_FOK in Hfok. unfold place_abs in Ha.
      destruct (matching _ a _) as [[q1 mp1] rest] eqn:Hm. rewrite Hfok in Ha.
      assert (st = MATCHED ∨ st = NOT_MATCHED) as Hst
        by (destruct (feqb q1 (Fin 0)); injection Ha as <- _ _; auto).
      split; [|done]. assert (a' = set_levels (opposite_side (is_buy (triggered_order x))) (strip rest) a)
        as -> by (by destruct (feqb q1 (Fin 0)); injection Ha as _ _ <-).
      intros o. by eapply (matched_orders _ _ _ _ _ _ _ o Hb1 Hin1). }
  split; [intros Ho; by apply (in_fresh _ _ _ _ Hin), Hsub|]. split; [|done].
  eapply fresh_id; [exact Hb'|]. intros o Ho.
  rewrite (static_id _ _ _ (ad_static _ _ _ _ _ _ _ _ Had o)).
  eapply known_id; [exact Hb|apply (in_id _ _ _ _ Hin)|by apply Hsub].
Qed.

(** C8: the resting orders whose price the incoming order's price does not reach keep their
    quantities, even when the incoming order is a market order. *)
Theorem limit_price_respected b a ord x o c :
  book_ok b a → incoming b a ord x →
  (o, c) ∈ side_queue b a (opposite_side (is_buy x)) →
  beyond (is_buy x) (o_price x) (oprice_of (b_oh b) o) = true →
  ∃ b' st a', place_order now ord b = (b', Ret st) ∧ book_ok b' a' ∧
    (o, c) ∈ side_queue b' a' (opposite_side (is_buy x)).
Proof.
  intros Hb Hin Ho Hbey. destruct (place_abs_eq b a ord x) as (st&mp&a'&Hp).
  destruct (place_order_ok now _ _ _ _ _ _ _ Hb Hin Hp) as (b'&E&Hpl).
  exists b', st, a'. split; [done|]. split; [apply Hpl|].
  rewrite (matched_side _ _ _ _ _ _ _ _ Hpl) by (by rewrite Hp).
  apply in_queue in Ho as (l&e&He&Ho). apply in_queue. exists l, e. split; [|done].
  unfold matching. destruct (match_levels _ _ _ _ _ _ _ _) as [[q' mp'] rest] eqn:Hm.
  eapply match_levels_beyond; [exact Hm|exact He|].
  unfold lentries in He. apply list_elem_of_fmap in He as ([l' os]&[= -> ->]&He).
  apply list_elem_of_fmap in Ho as (o'&[= -> ->]&Ho).
  by rewrite <-(order_price _ _ _ _ _ _ Hb He Ho).
Qed.

(** C4: as long as the quantities are whole numbers of at most 2^24 units of a float, the
    incoming order loses what the resting orders lose. *)
Theorem quantities_conserved b a ord x :
  book_ok b a → incoming b a ord x → whole (o_current_qty x) →
  Forall (λ e, whole e.2) (side_queue b a (opposite_side (is_buy x))) →
  ∃ b' st a' x', place_order now ord b = (b', Ret st) ∧ book_ok b' a' ∧ b_oh b' !! ord = Some x' ∧
    (qval (o_current_qty x) - qval (o_current_qty x')
     = total (side_queue b a (opposite_side (is_buy x)))
       - total (side_queue b' a' (opposite_side (is_buy x))))%Z.
Proof.
  intros Hb Hin Hq Hes. destruct (place_abs_eq b a ord x) as (st&mp&a'&Hp).
  destruct (place_order_ok now _ _ _ _ _ _ _ Hb Hin Hp) as (b'&E&Hpl).
  destruct (pl_order _ _ _ _ _ _ _ _ Hpl) as (x'&Hx'&[_ Hq' _ _]).
  exists b', st, a', x'. split; [done|]. split; [apply Hpl|]. split; [done|].
  rewrite (matched_side _ _ _ _ _ _ _ _ Hpl) by (by rewrite Hp). rewrite Hq'. unfold matching.
  pose proof (match_levels_whole (b_lh b) (is_buy x) (get_type x) (get_price x) (has_param x AON)
    (lentries (b_oh b) (a_levels a (opposite_side (is_buy x)))) _ (b_market_price b) Hq
    (queue_forall _ _ Hes)) as Hw.
  destruct (match_levels _ _ _ _ _ _ _ _) as [[q' mp'] rest]. apply Hw.
Qed.

(** C16: an order that is accepted, and is no stop order that waits, stands in its side's list behind
    every order whose price is at least as good, and before every order whose price is worse, be it a
    market order or a limit order. *)
Theorem accepted_order_waits_its_turn b a ord x b' :
  book_ok b a → incoming b a ord x → waits b x = false → add_order now ord b = (b', Ret ACCEPTED) →
  ∃ a' before behind, book_ok b' a' ∧
    lorders (a_levels a (own_side (is_buy x))) = before ++ behind ∧
    lorders (a_levels a' (own_side (is_buy x))) = before ++ ord :: behind ∧
    (∀ o, o ∈ before → beyond (is_buy x) (oprice_of (b_oh b) o) (o_price x) = false) ∧
    (∀ o, o ∈ behind → beyond (negb (is_buy x)) (o_price x) (oprice_of (b_oh b) o) = true).
Proof.
  intros Hb0 Hin0 Hw. rewrite (add_order_places now b a ord x Hin0 Hw).
  setoid_rewrite <-(λ o, ready_price b a ord x o Hin0). rewrite <-(triggered_order_buy x).
  assert (o_price x = o_price (triggered_order x)) as -> by (unfold triggered_order; by destruct (_ && _)).
  destruct (ready_ok b a ord x Hb0 Hin0) as [Hb Hin]. set (b1 := ready b ord x) in *. clearbody b1.
  set (y := triggered_order x) in *. clearbody y. intros Hacc.
  destruct (place_abs_eq b1 a ord y) as (st&mp&a'&Hp).
  destruct (place_order_ok now _ _ _ _ _ _ _ Hb Hin Hp) as (b''&E&Hpl).
  rewrite E in Hacc. injection Hacc as -> ->.
  pose proof (pl_book _ _ _ _ _ _ _ _ Hpl) as Hb'.
  destruct (place_abs_own _ _ _ _ _ _ Hp) as [less Hown]; [by apply Hin|].
  destruct (rest_order_shape less (b_next_limit b1) ord (a_levels a (own_side (is_buy y))))
    as (l1&l0&os&l2&Hold&Hnew).
  rewrite <-Hown in Hnew. exists a', (lorders l1 ++ os), (lorders l2). split; [done|].
  split; [by rewrite Hold, app_assoc|].
  split; [by rewrite Hnew, lorders_app, lorders_cons, <-!app_assoc|].
  assert (∀ o, oprice_of (b_oh b') o = oprice_of (b_oh b1) o) as Hpr.
  { intros o. apply oprice_static, (pl_static _ _ _ _ _ _ _ _ Hpl). }
  assert (oprice_of (b_oh b1) ord = o_price y) as Hpx.
  { unfold oprice_of. by rewrite (in_order _ _ _ _ Hin). }
  rewrite <-Hpx. setoid_rewrite <-Hpr. by eapply turn_in_side.
Qed.



(** The market price is set when an order reaches a level, whether or not anything is traded there:
    a level that was emptied stays in its tree, and an order that reaches it alone sets the price to
    the one at which it would have traded, keeps its quantity, and there was no trade. *)
Theorem market_price_moves_without_a_trade b a ord x l price :
  book_ok b a → incoming b a ord x → has_param x AON = false →
  a_levels a (opposite_side (is_buy x)) = [(l, [])] →
  calculate_cross_price (o_price x) (price_of (b_lh b) l) (get_type x) (is_buy x) = Some price →
  ∃ b' st x', place_order now ord b = (b', Ret st) ∧ b_market_price b' = price ∧
    b_oh b' !! ord = Some x' ∧ o_current_qty x' = o_current_qty x.
Proof.
  intros Hb Hin Haon Hl Hcp. destruct (place_abs_eq b a ord x) as (st&mp&a'&Hp).
  destruct (place_order_ok now _ _ _ _ _ _ _ Hb Hin Hp) as (b'&E&Hpl).
  destruct (pl_order _ _ _ _ _ _ _ _ Hpl) as (x'&Hx'&[_ Hq' _ _]).
  exists b', st, x'. split; [done|]. rewrite (pl_price _ _ _ _ _ _ _ _ Hpl), Hq'.
  assert (matching b a x = (o_current_qty x, price, [(l, [])])) as Hm.
  { destruct (in_qty _ _ _ _ Hin) as (q&Hq&Hq0&_). unfold matching, get_price. rewrite Hl, Haon, Hq. cbn.
    rewrite Hcp. cbn. by rewrite (proj2 (Z.eqb_neq q 0)) by lia. }
  unfold place_abs in Hp. rewrite Hm in Hp |- *. split; [|done].
  destruct (feqb _ _); [by injection Hp|]. destruct (has_param x FOK); by injection Hp.
Qed.
End adding.

(** ** Reading the book *)

Section reading.
Implicit Types (b : book) (a : abook).

(** The lists of resting orders are the orders of the levels, from the best price to the
    worst, and reading them leaves the book as it is. *)
Theorem sides_listed_by_price b a :
  book_ok b a →
  ∃ bids asks, get_bids b = (b, Ret bids) ∧ get_asks b = (b, Ret asks) ∧
    bids = lorders (a_levels a Bids) ∧ asks = lorders (a_levels a Asks) ∧
    StronglySorted (by_price (b_oh b) Bids) bids ∧ StronglySorted (by_price (b_oh b) Asks) asks.
Proof.
  intros Hb. eexists _, _. split; [by apply side_orders_ok|]. split; [by apply side_orders_ok|].
  split; [done|]. split; [done|]. split; eapply lorders_by_price, Hb.
Qed.

(** The snapshot lists the price and the stored volume of every level of the two sides, in
    the order of their prices, no price twice. *)
Theorem snapshot_lists_levels b a :
  book_ok b a →
  ∃ asks bids, get_snapshot_asks b = (b, Ret asks) ∧ get_snapshot_bids b = (b, Ret bids) ∧
    asks = level_entry b <$> (a_levels a Asks).*1 ∧ bids = level_entry b <$> (a_levels a Bids).*1 ∧
    StronglySorted (λ e1 e2, fltb (sl_price e1) (sl_price e2) = true) asks ∧
    StronglySorted (λ e1 e2, fltb (sl_price e2) (sl_price e1) = true) bids.
Proof.
  intros Hb. eexists _, _. split; [by apply snapshot_side_ok|]. split; [by apply snapshot_side_ok|].
  split; [done|]. split; [done|].
  assert (∀ s, StronglySorted (λ e1 e2, (if s is Asks then fltb (sl_price e1) (sl_price e2)
    else fltb (sl_price e2) (sl_price e1)) = true) (level_entry b <$> (a_levels a s).*1)) as H.
  { intros s. apply StronglySorted_fmap. pose proof (side_sorted _ _ _ _ _ (bk_side _ _ Hb s)) as Hs.
    eapply StronglySorted_impl; [|exact Hs]. by destruct s. }
  split; [apply (H Asks)|apply (H Bids)].
Qed.

(** What the spread calls the best bid is the price of the bid level that no other bid level
    is below: the worst bid. *)
Theorem spread_reports_the_worst_bid b a :
  book_ok b a → a_levels a Bids ≠ [] →
  ∃ sp l0, get_spread b = (b, Ret sp) ∧ l0 ∈ (a_levels a Bids).*1 ∧
    best_bid_price sp = price_of (b_lh b) l0 ∧ s_market_price sp = b_market_price b ∧
    ∀ l, l ∈ (a_levels a Bids).*1 → fltb (price_of (b_lh b) l) (best_bid_price sp) = false.
Proof.
  intros Hb Hne. destruct (list.last (a_levels a Bids).*1) as [l0|] eqn:Hlast.
  - eexists _, l0. split; [by apply get_spread_ok|]. rewrite Hlast. simpl.
    split; [apply last_Some in Hlast as [l1 ->]; apply elem_of_app; right; left|].
    split; [done|]. split; [done|]. by apply (last_worst _ _ _ Hb Hlast).
  - apply last_None in Hlast. by destruct (a_levels a Bids).
Qed.

(** For a level of a well-formed book the limit's own methods agree with the book: all its orders
    are active, in the order of their arrival, and its side is the book's. *)
Theorem limits_know_their_orders b a s l os :
  book_ok b a → (l, os) ∈ a_levels a s →
  all_active_orders l b = (b, Ret os) ∧
  limit_side l b = (b, Ret (if os is [] then UNKOWN else if s is Asks then SELL else BUY)).
Proof.
  intros Hb Hin. split; [by eapply all_active_orders_ok|].
  rewrite (limit_side_ok _ _ _ _ _ Hb Hin). by destruct s.
Qed.

(** Serialising a limit archives its orders in the order of their arrival, and takes them from the
    limit: afterwards it has no active orders, while it does not count as empty. *)
Theorem serialising_a_limit_drops_its_orders b a s l os :
  book_ok b a → (l, os) ∈ a_levels a s → os ≠ [] →
  ∃ b' price active total volume total_volume lim,
    serialize_limit l b = (b', Ret (price, active, total, volume, total_volume, os)) ∧
    all_active_orders l b' = (b', Ret []) ∧ b_lh b' !! l = Some lim ∧ limit_empty lim = false.
Proof.
  intros Hb Hin Hne. destruct (si_levels _ _ _ _ _ (bk_side _ _ Hb s) l os Hin) as (lim&Hl&_).
  pose proof (serialize_limit_ok b a s l os lim Hb Hin (lv_limit _ _ _ _ _ Hl)) as E.
  eexists _, _, _, _, _, _, (set_l_ends None (l_tail lim) lim). split; [exact E|]. split; [|split].
  - unfold all_active_orders. erewrite bind_ok by (unfold get_limit; simpl; by rewrite lookup_insert_eq).
    by rewrite bind_gets.
  - simpl. by rewrite lookup_insert_eq.
  - unfold limit_empty. simpl. rewrite (lv_tail _ _ _ _ _ Hl). destruct os as [|o os _] using rev_ind; [done|].
    by rewrite last_of_snoc.
Qed.
End reading.

(** ** Cancelling, modifying, expiring *)

Section cancelling.
Variable now : Z.
Implicit Types (b : book) (a : abook).

(** Cancelling a resting order that is not a stop order cancels it and takes it out of its
    level and of [_orders]; then the code reads the entry it has just erased, and the repository
    is never told. *)
Theorem cancel_reads_the_erased_entry b a id o x :
  book_ok b a → b_orders b !! id = Some o → b_oh b !! o = Some x → has_param x STOP = false →
  ∃ b', cancel_order id b = (b', Err UseAfterErase) ∧ withdrawn b a o b' ∧
    b_orders b' !! id = None ∧ order_queue b' = order_queue b.
Proof.
  intros Hb Hid Hx Hstop. destruct (cancel_order_ok b a id o x Hb Hid Hx Hstop) as (b'&E&Hw&Hn).
  exists b'. split_and!; [done..|]. apply Hw.
Qed.

(** Modifying a resting order takes the old order out of the book, and fails in the same way
    before the new one is added. *)
Theorem modify_reads_the_erased_entry b a ord y o x :
  book_ok b a → b_oh b !! ord = Some y → b_orders b !! o_id y = Some o → b_oh b !! o = Some x →
  has_param x STOP = false → ord ∉ all_orders a →
  ∃ b' a', modify_order ord b = (b', Err UseAfterErase) ∧ book_ok b' a' ∧ withdrawn b a o b' ∧
    ord ∉ all_orders a'.
Proof.
  intros Hb Hy Hid Hx Hstop Hn. destruct (modify_order_ok b a ord y o x Hb Hy Hid Hx Hstop) as (b'&E&Hw&_).
  destruct (wd_book _ _ _ _ Hw) as (x0&l&os&_&_&_&_&Hb'). eexists b', _.
  split; [done|]. split; [exact Hb'|]. split; [done|]. rewrite all_orders_upd, drop_order_lorders.
  rewrite (all_orders_perm a (own_side (is_buy x0))) in Hn. rewrite elem_of_app in *.
  intros [?|[_ ?]%list_elem_of_filter]; tauto.
Qed.

(** C37: modifying a stop order that rests in the book returns MODIFIED and puts the new order among the
    waiting stop orders, but only marks the old one as cancelled and drops its index entry: the trees
    and the lists of the limits are what they were, so the old order is still in its level. *)
Theorem modified_stop_order_stays_in_its_level b a ord y o x :
  book_ok b a → b_oh b !! ord = Some y → is_nan (o_price y) = false →
  b_orders b !! o_id y = Some o → b_oh b !! o = Some x → has_param x STOP = true → ord ≠ o →
  ∃ b' stops, modify_order ord b = (b', Ret MODIFIED) ∧ b_orders b' !! o_id y = None ∧
    o ∈ lorders (a_levels a (own_side (is_buy x))) ∧ (∀ s, limits_of s b' = limits_of s b) ∧
    b_lh b' = b_lh b ∧ b_oh b' = <[o := cancel x]> (b_oh b) ∧
    stops_ok (b_oh b') (own_side (is_buy y)) (stops_of (own_side (is_buy y)) b') stops ∧ ord ∈ stops.
Proof.
  intros Hb Hy Hp Hid Hx Hstop Hne.
  destruct (modify_stop_order_ok b a ord y o x Hb Hy Hp Hid Hx Hstop Hne) as (t&E&Ht).
  destruct (entry_level _ _ _ _ Hb Hid) as (x0&l&os&Hx0&_&_&_&Hl&Ho&_).
  rewrite Hx in Hx0. injection Hx0 as <-.
  set (stops := sinsert _ _ _) in Ht. eexists _, stops. split; [exact E|]. split_and!.
  - destruct (own_side _); apply lookup_delete_eq.
  - apply in_lorders. eauto.
  - intros []; by destruct (own_side _).
  - by destruct (own_side _).
  - by destruct (own_side _).
  - destruct (own_side (is_buy y)); exact Ht.
  - apply sinsert_in.
Qed.

(** An order that waits for its stop price is not in [_orders]: it cannot be cancelled. *)
Theorem waiting_stop_order_cannot_be_cancelled b a x :
  book_ok b a → valid_order x → b_orders b !! o_id x = None →
  has_param x STOP = true → stop_waits x (b_market_price b) = true →
  ∃ b' a' o, submit now x b = (b', Ret ACCEPTED) ∧ book_ok b' a' ∧
    o ∈ a_stops a' (own_side (is_buy x)) ∧ id_at (b_oh b') o = Some (o_id x) ∧
    cancel_order (o_id x) b' = (b', Ret NOT_FOUND).
Proof.
  intros Hb Hx Hid Hstop Hw.
  destruct (alloc_order_ok b a x Hb Hx Hid) as (b1&ord&E1&Hb1&Hin&_).
  assert (b_market_price b1 = b_market_price b) as Hmp.
  { unfold alloc_order in E1. by injection E1 as <- _. }
  destruct (add_abs b1 a ord x) as [[st mp] a'] eqn:Ha.
  destruct (add_order_ok now _ _ _ _ _ _ _ Hb1 Hin Ha) as (b'&E&Had).
  unfold add_abs, waits in Ha. rewrite Hstop, Hmp, Hw in Ha. simpl in Ha. injection Ha as <- <- Ha'.
  exists b', a', ord. split; [unfold submit; by rewrite (bind_ok _ _ _ _ _ E1)|].
  split; [apply Had|]. split; [|split].
  - rewrite <-Ha'. unfold date_abs. destruct (expires x); simpl; rewrite upd_side_same; apply sinsert_in.
  - rewrite (static_id _ _ _ (ad_static _ _ _ _ _ _ _ _ Had ord)). unfold id_at.
    by rewrite (in_order _ _ _ _ Hin).
  - unfold cancel_order. rewrite bind_gets. assert (b_orders b' !! o_id x = None) as Hn; [|by rewrite Hn].
    eapply fresh_id; [apply Had|]. intros o Ho.
    rewrite (static_id _ _ _ (ad_static _ _ _ _ _ _ _ _ Had o)).
    eapply known_id; [exact Hb1|apply (in_id _ _ _ _ Hin)|].
    rewrite <-Ha' in Ho. unfold date_abs in Ho. by destruct (expires x).
Qed.

(** At the end of the day nothing is cancelled when the order that expires first is not due,
    whatever orders are behind it, good-for-day orders among them. *)
Theorem end_of_day_stops_at_the_first b a o os x :
  book_ok b a → a_dates a = o :: os → b_oh b !! o = Some x → due now x = false →
  check_date_orders now b = (b, Ret tt).
Proof. intros. by eapply check_date_first. Qed.

(** The orders the constructor loads are not in [_orders]: cancelling one finds nothing. *)
Theorem loaded_orders_cannot_be_cancelled instrument price oh orders b r id :
  load_orders orders (new_book instrument price oh) = (b, r) →
  cancel_order id b = (b, Ret NOT_FOUND).
Proof.
  intros E. pose proof (keeps_load_orders orders (new_book instrument price oh)) as H.
  rewrite E in H. simpl in H. unfold cancel_order. by rewrite bind_gets, H, lookup_empty.
Qed.
End cancelling.

(** ** Counters, and orders that are lost *)

Section counters.
Variable now : Z.
Implicit Types (b : book) (a : abook).

Lemma decrease_volume_0 lim v :
  l_active_volume lim = Fin v → (0 ≤ v)%Z → fits binary64 v →
  l_active_volume (decrease_volume (Fin 0) lim) = Fin v.
Proof.
  intros Hv Hv0 Hf. unfold decrease_volume. simpl. rewrite Hv. unfold fsub. simpl.
  rewrite Z.add_0_r, round_fits by done. unfold fmax. simpl.
  destruct (Z.ltb_spec 0 v); [done|]. f_equal. lia.
Qed.

(** When an order has been filled and is taken out of its level, the level's volume stays
    what it was, and its number of active orders, which is never increased, wraps around. *)
Theorem filled_order_leaves_its_volume b l lim l1 o l2 x v :
  level_list (b_oh b) (b_lh b) l (l1 ++ o :: l2) lim → b_oh b !! o = Some x → o_parent x = Some l →
  o_current_qty x = Fin 0 → l_active_volume lim = Fin v → (0 ≤ v)%Z → fits binary64 v →
  l_number_of_active_orders lim = 0%Z →
  ∃ b' lim', remove_limit_order o b = (b', Ret tt) ∧
    level_list (b_oh b') (b_lh b') l (l1 ++ l2) lim' ∧
    l_active_volume lim' = Fin v ∧ l_number_of_active_orders lim' = (2 ^ 64 - 1)%Z.
Proof.
  intros Hl Hx Hp Hq Hv Hv0 Hf Hn.
  destruct (remove_limit_order_level (b_oh b) (b_lh b) (b_orders b) b l lim l1 o l2 x Hl Hx Hp)
    as (oh'&lim'&E&Hl'&Hlim'&_). rewrite with_objects_id in E. eexists _, lim'.
  split; [exact E|]. split; [exact Hl'|]. subst lim'. rewrite Hq. split.
  - exact (decrease_volume_0 lim v Hv Hv0 Hf).
  - simpl. by rewrite Hn.
Qed.

(** A waiting stop order with the price and the time stamp of one that already waits takes
    its place: the book does not know the old one any more. *)
Theorem stop_order_is_replaced b a ord x o y :
  book_ok b a → incoming b a ord x → has_param x STOP = true →
  stop_waits x (b_market_price b) = true →
  o ∈ a_stops a (own_side (is_buy x)) → o ≠ ord → o ∉ all_orders a →
  b_oh b !! o = Some y → o_price y = o_price x → o_timestamp y = o_timestamp x →
  ∃ b' a', add_order now ord b = (b', Ret ACCEPTED) ∧ book_ok b' a' ∧
    ord ∈ a_stops a' (own_side (is_buy x)) ∧
    (o ∉ a_stops a' (own_side (is_buy x))) ∧ o ∉ all_orders a'.
Proof.
  intros Hb Hin Hstop Hw Ho Hne Hno Hy Hp Ht.
  destruct (add_abs b a ord x) as [[st mp] a'] eqn:Ha.
  destruct (add_order_ok now _ _ _ _ _ _ _ Hb Hin Ha) as (b'&E&Had).
  unfold add_abs, waits in Ha. rewrite Hstop, Hw in Ha. simpl in Ha. injection Ha as <- <- Ha'.
  exists b', a'. split; [done|]. split; [apply Had|].
  set (s := own_side (is_buy x)) in *.
  assert (a_stops a' s = sinsert (OrderComparator (b_oh b) (stops_asc s)) ord (a_stops a s)
    ∧ all_orders a' = all_orders a) as [-> ->].
  { rewrite <-Ha'. unfold date_abs. by destruct (expires x); simpl; rewrite upd_side_same. }
  destruct (bk_stops _ _ Hb s) as (its&Htr&Hits&Hpr). rewrite <-Hits in *.
  apply tree_rep_sorted in Htr.
  assert (opriced (b_oh b) ord) as Hopr.
  { unfold opriced, oprice_of. rewrite (in_order _ _ _ _ Hin). apply Hin. }
  assert (oprice_of (b_oh b) o = oprice_of (b_oh b) ord ∧ timestamp_of (b_oh b) o = timestamp_of (b_oh b) ord)
    as [Hpe Hte].
  { unfold oprice_of, timestamp_of. rewrite (in_order _ _ _ _ Hin), Hy. by split. }
  assert (OrderComparator (b_oh b) (stops_asc s) ord o = false ∧
          OrderComparator (b_oh b) (stops_asc s) o ord = false) as [H1 H2].
  { unfold OrderComparator. rewrite Hpe, Hte, feqb_refl by done. split; apply Z.ltb_irrefl. }
  split; [apply sinsert_in|]. split; [|done].
  apply list_elem_of_split in Ho as (l1&l2&Heq). rewrite Heq in *.
  rewrite (sinsert_replace (opriced (b_oh b)) _ ord o l1 l2) by done.
  apply (sorted_nodup (opriced (b_oh b))) in Htr; [|apply _|done].
  rewrite NoDup_app, NoDup_cons in Htr. destruct Htr as (_&Hd&Hn&_).
  rewrite elem_of_app, elem_of_cons. intros [Ho|[->|Ho]]; [|done|done].
  apply (Hd o Ho). left.
Qed.
End counters.
