(* ===== verification/RingBuffer.v ===== *)
(** * utils/ringbuffer.hpp: the queue between two threads

    [push] runs in the producer's thread, [pop] in the consumer's.  Each is a sequence of atomic
    steps with a program counter; the buffer's fields are shared, except that each side keeps its
    own cache of the other's position.  An interleaving is any sequence of steps of the two
    threads.  [moved] is what moving an element out of a slot leaves there. *)

From S2P Require Import Prelude.

Section ring.
Context {T : Type}.
Variables (moved : T → T) (initial : T) (capacity : nat).

Record ring := Ring {
  read_pos : nat;
  read_pos_cache : nat;
  write_pos : nat;
  write_pos_cache : nat;
  slots : list T
}.

(** The constructor value-initialises the slots. *)
Definition new_ring : ring := Ring 0 0 0 0 (replicate capacity initial).

(** Where a [push] of a value stands. *)
Inductive producer :=
  | PIdle
  | PLoop (value : T)                     (** at the head of [while(true)] *)
  | PRefresh (value : T) (pos next : nat)  (** the cached position is equal to [next] *)
  | PWrite (value : T) (pos next : nat)    (** after the loop *)
  | PStore (next : nat).                   (** the slot is written *)

Definition wrap (pos : nat) : nat := if decide (pos = capacity) then 0 else pos.

(** One step of [push]; an index outside of the array is an error. *)
Definition push_step (p : producer) (r : ring) : outcome (producer * ring) :=
  match p with
  | PIdle => Ret (PIdle, r)
  | PLoop value =>
      let next := S (write_pos r) in
      if decide (next = read_pos_cache r) then Ret (PRefresh value (write_pos r) next, r)
      else Ret (PWrite value (write_pos r) next, r)
  | PRefresh value pos next =>
      let r := Ring (read_pos r) (read_pos r) (write_pos r) (write_pos_cache r) (slots r) in
      if decide (next = read_pos_cache r) then Ret (PLoop value, r)
      else Ret (PWrite value pos next, r)
  | PWrite value pos next =>
      if decide (pos < length (slots r)) then
        Ret (PStore (wrap next),
             Ring (read_pos r) (read_pos_cache r) (write_pos r) (write_pos_cache r)
               (<[pos := value]> (slots r)))
      else Err OutOfBounds
  | PStore next =>
      Ret (PIdle, Ring (read_pos r) (read_pos_cache r) next (write_pos_cache r) (slots r))
  end.

(** Where a [pop] stands; [CDone] holds what it returned. *)
Inductive consumer :=
  | CIdle (last : option T)
  | CLoad
  | CRefresh (pos : nat)
  | CRead (pos : nat)
  | CStore (pos : nat) (value : T).

Definition pop_step (c : consumer) (r : ring) : outcome (consumer * ring) :=
  match c with
  | CIdle v => Ret (CIdle v, r)
  | CLoad =>
      if decide (read_pos r = write_pos_cache r) then Ret (CRefresh (read_pos r), r)
      else Ret (CRead (read_pos r), r)
  | CRefresh pos =>
      let r := Ring (read_pos r) (read_pos_cache r) (write_pos r) (write_pos r) (slots r) in
      if decide (pos = write_pos_cache r) then Ret (CIdle None, r) else Ret (CRead pos, r)
  | CRead pos =>
      match slots r !! pos with
      | Some value =>
          Ret (CStore (wrap (S pos)) value,
               Ring (read_pos r) (read_pos_cache r) (write_pos r) (write_pos_cache r)
                 (<[pos := moved value]> (slots r)))
      | None => Err OutOfBounds
      end
  | CStore pos value =>
      Ret (CIdle (Some value),
           Ring pos (read_pos_cache r) (write_pos r) (write_pos_cache r) (slots r))
  end.

(** The two threads, with the values whose [push] has published them and those whose [pop] has
    returned them. *)
Record system := System {
  ring_of : ring;
  prod : producer;
  cons : consumer;
  pushed : list T;
  popped : list T
}.
Definition new_system : system := System new_ring PIdle (CIdle None) [] [].

Definition published (p : producer) (r : ring) : list T :=
  match p with PStore _ => option_list (slots r !! write_pos r) | _ => [] end.
Definition returned (c : consumer) : list T :=
  match c with CStore _ value => [value] | _ => [] end.

(** What the producer's test for a full buffer is meant to establish before it writes: the
    position after the next one is not the consumer's. *)
Definition has_room (s : system) : Prop :=
  match prod s with PWrite _ _ next => wrap next ≠ read_pos (ring_of s) | _ => True end.

Inductive step : system → system → Prop :=
  | step_call_push s v :
      prod s = PIdle →
      step s (System (ring_of s) (PLoop v) (cons s) (pushed s) (popped s))
  | step_push s p r :
      push_step (prod s) (ring_of s) = Ret (p, r) →
      step s (System r p (cons s) (pushed s ++ published (prod s) (ring_of s)) (popped s))
  | step_call_pop s v :
      cons s = CIdle v →
      step s (System (ring_of s) (prod s) CLoad (pushed s) (popped s))
  | step_pop s c r :
      pop_step (cons s) (ring_of s) = Ret (c, r) →
      step s (System r (prod s) c (pushed s) (popped s ++ returned (cons s))).

(** An interleaving in which the consumer keeps up: there is room whenever the producer moves. *)
Definition roomy (s s' : system) : Prop := step s s' ∧ (prod s' = prod s ∨ has_room s).

(** A whole [push] or [pop] with no step of the other thread in between. *)
Fixpoint run_push (fuel : nat) (p : producer) (r : ring) : outcome ring :=
  match fuel with
  | 0 => Err OutOfFuel
  | S fuel =>
      match p with
      | PIdle => Ret r
      | _ => match push_step p r with
             | Ret (p, r) => run_push fuel p r
             | Err e => Err e
             end
      end
  end.
Fixpoint run_pop (fuel : nat) (c : consumer) (r : ring) : outcome (option T * ring) :=
  match fuel with
  | 0 => Err OutOfFuel
  | S fuel =>
      match c with
      | CIdle v => Ret (v, r)
      | _ => match pop_step c r with
             | Ret (c, r) => run_pop fuel c r
             | Err e => Err e
             end
      end
  end.
Definition push (value : T) (r : ring) : outcome ring := run_push 5 (PLoop value) r.
Definition pop (r : ring) : outcome (option T * ring) := run_pop 5 CLoad r.

Fixpoint push_all (vs : list T) (r : ring) : outcome ring :=
  match vs with
  | [] => Ret r
  | v :: vs => match push v r with Ret r => push_all vs r | Err e => Err e end
  end.

(** Two threads that [push] to the same buffer; a turn of [true] is a step of the first one. *)
Fixpoint race (turns : list bool) (p1 p2 : producer) (r : ring)
    : outcome (producer * producer * ring) :=
  match turns with
  | [] => Ret (p1, p2, r)
  | true :: turns =>
      match push_step p1 r with Ret (p1, r) => race turns p1 p2 r | Err e => Err e end
  | false :: turns =>
      match push_step p2 r with Ret (p2, r) => race turns p1 p2 r | Err e => Err e end
  end.

(** ** Positions *)

Hypothesis capacity_pos : 0 < capacity.

Lemma mod_lt n : n mod capacity < capacity.
Proof. apply Nat.mod_upper_bound. lia. Qed.
Lemma mod_inj a b : a ≤ b → b - a < capacity → a mod capacity = b mod capacity → a = b.
Proof.
  intros Hle Hlt Heq. pose proof (Nat.div_mod_eq a capacity). pose proof (Nat.div_mod_eq b capacity).
  rewrite Heq in *. assert (a / capacity = b / capacity) by nia. congruence.
Qed.
Lemma wrap_mod n : wrap (S (n mod capacity)) = S n mod capacity.
Proof.
  unfold wrap. pose proof (mod_lt n). pose proof (Nat.div_mod_eq n capacity). case_decide.
  - apply (Nat.mod_unique _ _ (S (n / capacity))); lia.
  - apply (Nat.mod_unique _ _ (n / capacity)); lia.
Qed.
Lemma wrap_lt n : n < capacity → wrap (S n) < capacity.
Proof. unfold wrap. case_decide; lia. Qed.

(** ** Any interleaving *)

(** The positions stay inside the array, and the producer's cache of the consumer's position
    stays zero: the position after the next one is never zero, so the test never succeeds. *)
Definition sized (r : ring) : Prop := length (slots r) = capacity.
Record positions (s : system) : Prop := {
  ps_slots : sized (ring_of s);
  ps_read : read_pos (ring_of s) < capacity;
  ps_write : write_pos (ring_of s) < capacity;
  ps_cache : read_pos_cache (ring_of s) = 0;
  ps_prod : match prod s with
    | PRefresh _ _ _ => False
    | PWrite _ pos next => pos = write_pos (ring_of s) ∧ next = S pos
    | PStore next => next = wrap (S (write_pos (ring_of s)))
    | _ => True
    end;
  ps_cons : match cons s with
    | CRefresh pos | CRead pos => pos = read_pos (ring_of s)
    | CStore pos _ => pos = wrap (S (read_pos (ring_of s)))
    | _ => True
    end
}.

Lemma new_positions : positions new_system.
Proof. split; simpl; try done. apply length_replicate. Qed.

Ltac finish :=
  first
    [ tauto | subst; by apply wrap_lt | by (intuition; subst)
    | unfold sized in *; simpl in *; by rewrite length_insert ].

Lemma step_positions s s' : step s s' → positions s → positions s'.
Proof.
  intros Hs [H1 H2 H3 H4 H5 H6].
  destruct Hs as [[[]] v Hp|[[] p0] p r E|[[] ? c0] v Hc|[[] ? c0] c r E]; simpl in *; subst.
  - by split.
  - destruct p0; simpl in E; repeat case_decide; simplify_eq/=; try done; split; simpl; finish.
  - by split.
  - destruct c0; simpl in E; repeat case_decide;
      try match type of E with context [?l !! ?i] => destruct (l !! i) eqn:? end;
      simplify_eq/=; split; simpl; finish.
Qed.

Lemma reachable_positions s : rtc step new_system s → positions s.
Proof.
  intros H. remember new_system as s0 eqn:Hs0.
  assert (positions s0) as Hp by (subst; apply new_positions). clear Hs0.
  induction H as [|s1 s2 s3 Hst _ IH]; [done|]. apply IH. by eapply step_positions.
Qed.

Lemma push_ok v r :
  read_pos_cache r = 0 → write_pos r < length (slots r) →
  push v r = Ret (Ring (read_pos r) 0 (wrap (S (write_pos r))) (write_pos_cache r)
    (<[write_pos r := v]> (slots r))).
Proof.
  intros Hc Hw. unfold push. cbn [run_push push_step]. rewrite Hc. rewrite decide_False by lia.
  cbn [push_step]. rewrite decide_True by done. cbn [push_step read_pos read_pos_cache write_pos_cache slots].
  by rewrite Hc.
Qed.

(** ** A consumer that keeps up *)

(** [n] values were published and [k] returned, [c] counts the values the consumer knows of: the
    positions are these numbers modulo the capacity, and the values in between are in their
    slots, but for the one that a [pop] has just taken. *)
Record queued (s : system) (n k c : nat) : Prop := {
  qu_pushed : length (pushed s) = n;
  qu_popped : popped s = take k (pushed s);
  qu_room : k ≤ c ≤ n ∧ n < k + capacity;
  qu_write : write_pos (ring_of s) = n mod capacity;
  qu_read : read_pos (ring_of s) = k mod capacity;
  qu_known : write_pos_cache (ring_of s) = c mod capacity;
  qu_slots i : k ≤ i < n → (match cons s with CStore _ _ => k < i | _ => True end) →
    slots (ring_of s) !! (i mod capacity) = pushed s !! i;
  qu_cons : match cons s with
    | CRead _ => k < c
    | CStore _ v => k < c ∧ pushed s !! k = Some v
    | _ => True
    end;
  qu_prod : match prod s with
    | PStore _ => S n < k + capacity ∧ is_Some (slots (ring_of s) !! (n mod capacity))
    | _ => True
    end
}.

Lemma mod_ne n k i : n < k + capacity → k ≤ i < n → i mod capacity ≠ n mod capacity.
Proof. intros Hn Hi Heq. apply mod_inj in Heq; lia. Qed.

Lemma push_queued s n k c p r :
  positions s → queued s n k c → has_room s → push_step (prod s) (ring_of s) = Ret (p, r) →
  ∃ n', queued (System r p (cons s) (pushed s ++ published (prod s) (ring_of s)) (popped s)) n' k c.
Proof.
  intros [P1 P2 P3 P4 P5 P6] [Q1 Q2 Q3 Q4 Q5 Q6 Q7 Q8 Q9] Hroom E.
  destruct s as [[rp rpc wp wpc sl] ps cs pu po]; simpl in *.
  destruct ps as [|v|v pos next|v pos next|next]; simpl in *; rewrite ?app_nil_r.
  - injection E as <- <-. exists n. by split.
  - case_decide; injection E as <- <-; exists n; by split.
  - done.
  - destruct P5 as [-> ->]. case_decide; [|done]. injection E as <- <-. exists n.
    unfold has_room in Hroom. simpl in Hroom. rewrite Q4, wrap_mod, Q5 in Hroom. split; simpl; try done.
    + intros i Hi Hc. rewrite list_lookup_insert_ne; [by apply Q7|]. rewrite Q4. intros Heq.
      by apply (mod_ne n k i) in Hi as Hne; [|lia].
    + split; [|rewrite Q4, list_lookup_insert_eq by lia; eauto].
      destruct (decide (S n = k + capacity)) as [Heq|]; [|lia]. destruct Hroom.
      rewrite Heq, <-Nat.Div0.add_mod_idemp_r, Nat.Div0.mod_same, Nat.add_0_r. done.
  - injection E as <- <-. destruct Q9 as [Hn [v Hv]]. rewrite Q4, Hv. simpl. exists (S n).
    split; simpl; try done.
    + rewrite length_app. simpl. lia.
    + rewrite Q2, take_app_le by lia. done.
    + lia.
    + rewrite P5, Q4. apply wrap_mod.
    + intros i Hi Hc. destruct (decide (i = n)) as [->|Hne].
      * by rewrite Hv, lookup_app_r, Q1, Nat.sub_diag by lia.
      * rewrite lookup_app_l by lia. apply Q7; [lia|done].
    + destruct cs; simpl in *; try done. destruct Q8 as [? Hk]. split; [done|].
      by apply lookup_app_l_Some.
Qed.

Lemma pop_queued s n k c cs r :
  positions s → queued s n k c → pop_step (cons s) (ring_of s) = Ret (cs, r) →
  ∃ k' c', queued (System r (prod s) cs (pushed s) (popped s ++ returned (cons s))) n k' c'.
Proof.
  intros [P1 P2 P3 P4 P5 P6] [Q1 Q2 Q3 Q4 Q5 Q6 Q7 Q8 Q9] E.
  destruct s as [[rp rpc wp wpc sl] ps cs0 pu po]; simpl in *.
  destruct cs0 as [v| |pos|pos|pos v]; simpl in *; rewrite ?app_nil_r.
  - injection E as <- <-. exists k, c. by split.
  - case_decide as Hd; injection E as <- <-; exists k, c; split; simpl; try done.
    + destruct (decide (k = c)) as [->|]; [|lia]. congruence.
  - case_decide as Hd; injection E as <- <-; exists k, n; split; simpl; try done; try lia.
    + destruct (decide (k = n)) as [->|]; [|lia]. congruence.
  - destruct (sl !! pos) as [v|] eqn:Hv; [|done]. injection E as <- <-. exists k, c.
    rewrite P6, Q5 in *. assert (pu !! k = Some v) as Hk by (rewrite <-Q7 by (done || lia); done).
    split; simpl; try done.
    + intros i Hi Hk'. rewrite list_lookup_insert_ne; [apply Q7; [lia|done]|].
      intros Heq. apply mod_inj in Heq; lia.
    + destruct ps; try done. destruct Q9 as [? [x Hx]]. split; [done|].
      rewrite list_lookup_insert_ne; [eauto|]. intros Heq. apply mod_inj in Heq; lia.
  - injection E as <- <-. destruct Q8 as [Hkc Hk]. exists (S k), c. split; simpl; try done.
    + rewrite Q2. symmetry. by apply take_S_r.
    + lia.
    + rewrite P6, Q5. apply wrap_mod.
    + intros i Hi _. apply Q7; lia.
    + destruct ps; try done. destruct Q9 as [? ?]. split; [lia|done].
Qed.

(** A producer that does not move is not at its write. *)
Lemma roomy_room s p r :
  push_step (prod s) (ring_of s) = Ret (p, r) → p = prod s ∨ has_room s → has_room s.
Proof.
  intros E [Hp|Hr]; [|done]. unfold has_room. destruct (prod s); try done.
  simpl in E. case_decide; congruence.
Qed.

Lemma roomy_queued s s' :
  roomy s s' → positions s → (∃ n k c, queued s n k c) → ∃ n k c, queued s' n k c.
Proof.
  intros [Hs Hroom] Hp (n&k&c&Hq). destruct Hs as [s v Hi|s p r E|s v Hi|s cs r E].
  - exists n, k, c. destruct Hq. rewrite Hi in *. by split.
  - apply (roomy_room _ _ _ E) in Hroom.
    destruct (push_queued _ _ _ _ _ _ Hp Hq Hroom E) as [n' Hq']. eauto.
  - exists n, k, c. destruct Hq as [? ? ? ? ? ? Q7 ? ?]. split; try done; simpl; rewrite Hi in *.
    intros. by apply Q7.
  - destruct (pop_queued _ _ _ _ _ _ Hp Hq E) as (k'&c'&Hq'). eauto.
Qed.

Lemma new_queued : queued new_system 0 0 0.
Proof.
  assert (0 mod capacity = 0) as H0 by apply Nat.Div0.mod_0_l.
  split; simpl; try done; try lia.
Qed.

Lemma roomy_reachable s :
  rtc roomy new_system s → positions s ∧ ∃ n k c, queued s n k c.
Proof.
  intros H. remember new_system as s0 eqn:Hs0.
  assert (positions s0 ∧ ∃ n k c, queued s0 n k c) as Hp.
  { subst. split; [apply new_positions|]. exists 0, 0, 0. apply new_queued. }
  clear Hs0. induction H as [|s1 s2 s3 Hst _ IH]; [done|]. apply IH. destruct Hp as [Hp Hq].
  split; [eapply step_positions; [apply Hst|done]|by eapply roomy_queued].
Qed.

(** ** A producer that laps the consumer *)

Lemma push_all_ok vs : ∀ r n,
  sized r → read_pos_cache r = 0 → write_pos r = n mod capacity →
  ∃ sl, push_all vs r = Ret (Ring (read_pos r) 0 ((n + length vs) mod capacity) (write_pos_cache r) sl)
    ∧ length sl = capacity.
Proof.
  induction vs as [|v vs IH]; intros r n Hs Hc Hw; cbn [push_all].
  { exists (slots r). rewrite <-Hc, Nat.add_0_r, <-Hw. split; [by destruct r|exact Hs]. }
  rewrite push_ok; [|done|rewrite Hw, Hs; apply mod_lt].
  destruct (IH (Ring (read_pos r) 0 (wrap (S (write_pos r))) (write_pos_cache r)
    (<[write_pos r := v]> (slots r))) (S n)) as (sl&E&Hl); try done.
  - unfold sized. simpl. by rewrite length_insert.
  - simpl. rewrite Hw. apply wrap_mod.
  - exists sl. rewrite E. split; [|done]. simpl. by replace (n + S (length vs)) with (S n + length vs) by lia.
Qed.

(** Two producers whose steps alternate read the same position: the second overwrites the slot of
    the first, and the position moves on by one. *)
Lemma race_ok v1 v2 r :
  sized r → read_pos_cache r = 0 → write_pos r < capacity →
  race [true; false; true; false; true; false] (PLoop v1) (PLoop v2) r =
    Ret (PIdle, PIdle, Ring (read_pos r) 0 (wrap (S (write_pos r))) (write_pos_cache r)
      (<[write_pos r := v2]> (slots r))).
Proof.
  destruct r as [rp rpc wp wpc sl]. unfold sized. simpl. intros Hs -> Hw. cbn.
  rewrite decide_False by lia. cbn. rewrite decide_False by lia. cbn.
  rewrite decide_True by lia. cbn.
  rewrite length_insert, decide_True by lia. by rewrite list_insert_insert_eq.
Qed.

Lemma pop_next v r :
  read_pos r = write_pos_cache r → write_pos r ≠ read_pos r → slots r !! read_pos r = Some v →
  pop r = Ret (Some v, Ring (wrap (S (read_pos r))) (read_pos_cache r) (write_pos r) (write_pos r)
    (<[read_pos r := moved v]> (slots r))).
Proof.
  intros Hc Hw Hv. unfold pop. cbn [run_pop pop_step]. rewrite decide_True by done.
  cbn [pop_step write_pos_cache]. rewrite decide_False by done. cbn [pop_step slots]. by rewrite Hv.
Qed.

Lemma pop_empty r : read_pos r = write_pos r → write_pos_cache r = read_pos r → pop r = Ret (None, r).
Proof.
  destruct r as [rp rpc wp wpc sl]. simpl. intros <- ->. unfold pop. simpl.
  rewrite decide_True by done. simpl. by rewrite decide_True by done.
Qed.

(** ** A ring between two calls, and the values in it

    The values [vs] were pushed and not popped yet, in this order; the consumer knows of the first
    [c] of them.  A ring has room for one value less than it has slots. *)
Record holds_queue (r : ring) (vs : list T) : Prop := {
  hq_slots : sized r;
  hq_room : length vs < capacity;
  hq_read : read_pos r < capacity;
  hq_write : write_pos r = (read_pos r + length vs) mod capacity;
  hq_cache : read_pos_cache r = 0;
  hq_known : ∃ c, c ≤ length vs ∧ write_pos_cache r = (read_pos r + c) mod capacity;
  hq_values i : i < length vs → slots r !! ((read_pos r + i) mod capacity) = vs !! i
}.

Lemma new_holds_queue : holds_queue new_ring [].
Proof.
  split; simpl; try done; [by apply length_replicate|by rewrite Nat.Div0.mod_0_l| |intros; lia].
  exists 0. by rewrite Nat.Div0.mod_0_l.
Qed.

Lemma push_holds v r vs :
  holds_queue r vs → S (length vs) < capacity →
  ∃ r', push v r = Ret r' ∧ holds_queue r' (vs ++ [v]).
Proof.
  intros [H1 H2 H3 H4 H5 (c&Hc&H6) H7] Hroom. unfold sized in *. pose proof (mod_lt (read_pos r + length vs)).
  eexists. split; [apply push_ok; [done|by rewrite H1, H4]|].
  split; simpl; unfold sized in *; simpl; rewrite ?length_app, ?length_insert; simpl; try done; [lia| | |].
  - rewrite H4, wrap_mod. f_equal. lia.
  - exists c. split; [lia|done].
  - intros i Hi. rewrite H4. destruct (decide (i = length vs)) as [->|Hne].
    + rewrite list_lookup_insert_eq by lia. by rewrite list_lookup_middle.
    + rewrite list_lookup_insert_ne; [|intros Heq; symmetry in Heq; apply mod_inj in Heq; lia].
      rewrite lookup_app_l by lia. apply H7. lia.
Qed.

Lemma mod_shift n i : (S n mod capacity + i) mod capacity = (n + S i) mod capacity.
Proof. rewrite Nat.Div0.add_mod_idemp_l. f_equal. lia. Qed.

Lemma pop_known v r :
  read_pos r ≠ write_pos_cache r → slots r !! read_pos r = Some v →
  pop r = Ret (Some v, Ring (wrap (S (read_pos r))) (read_pos_cache r) (write_pos r) (write_pos_cache r)
    (<[read_pos r := moved v]> (slots r))).
Proof.
  intros Hc Hv. unfold pop. cbn [run_pop pop_step]. rewrite decide_False by done.
  cbn [pop_step slots]. by rewrite Hv.
Qed.

Lemma pop_holds v vs r :
  holds_queue r (v :: vs) → ∃ r', pop r = Ret (Some v, r') ∧ holds_queue r' vs.
Proof.
  intros [H1 H2 H3 H4 H5 (c&Hc&H6) H7]. simpl in *.
  assert (read_pos r mod capacity = read_pos r) as Hr by (by apply Nat.mod_small).
  assert (slots r !! read_pos r = Some v) as Hv.
  { pose proof (H7 0 ltac:(lia)) as H. by rewrite Nat.add_0_r, Hr in H. }
  assert (wrap (S (read_pos r)) = S (read_pos r) mod capacity) as Hw by (rewrite <-Hr at 1; apply wrap_mod).
  assert (∀ wpc, (∃ c, c ≤ length vs ∧ wpc = (S (read_pos r) mod capacity + c) mod capacity) →
    holds_queue (Ring (wrap (S (read_pos r))) (read_pos_cache r) (write_pos r) wpc
      (<[read_pos r := moved v]> (slots r))) vs) as Hholds.
  { intros wpc Hwpc. rewrite Hw. split; unfold sized in *; simpl; try done.
    - by rewrite length_insert.
    - lia.
    - apply mod_lt.
    - by rewrite H4, mod_shift.
    - intros i Hi. rewrite mod_shift. rewrite list_lookup_insert_ne; [by apply (H7 (S i)); lia|].
      rewrite <-Hr at 1. intros Heq. apply mod_inj in Heq; lia. }
  destruct (decide (c = 0)) as [->|Hne].
  - rewrite Nat.add_0_r, Hr in H6. eexists. split; [apply pop_next; [done| |done]|].
    + intros Heq. assert (read_pos r mod capacity = (read_pos r + S (length vs)) mod capacity) as E
        by congruence. apply mod_inj in E; lia.
    + apply Hholds. exists (length vs). by rewrite mod_shift, H4.
  - eexists. split; [apply pop_known; [|done]|].
    + intros Heq. assert (read_pos r mod capacity = (read_pos r + c) mod capacity) as E by congruence.
      apply mod_inj in E; lia.
    + apply Hholds. exists (pred c). split; [lia|]. rewrite mod_shift, H6. do 2 f_equal. lia.
Qed.

Lemma pop_holds_nothing r : holds_queue r [] → pop r = Ret (None, r).
Proof.
  intros [H1 H2 H3 H4 H5 (c&Hc&H6) H7]. simpl in *. assert (c = 0) as -> by lia.
  rewrite Nat.add_0_r, Nat.mod_small in H4, H6 by done. by apply pop_empty.
Qed.
End ring.
