(* ===== verification/RingLive.v ===== *)
(** * The consumer of the ring buffer makes progress

    Infinite executions in which the consumer gets its turn again and again: a value that was
    pushed is popped after finitely many steps.  The measure is where the consumer stands in its
    [pop]. *)

From S2P Require Import Prelude RingBuffer.

Section live.
Context {T : Type}.
Variables (moved : T → T) (initial : T) (capacity : nat).
Local Abbreviation step := (step moved capacity).
Local Abbreviation roomy := (roomy moved capacity).
Local Abbreviation new_system := (new_system initial capacity).
Implicit Types (s : system (T:=T)) (exec : nat → system (T:=T)).

(** The consumer starts a [pop], or the one it is in goes on. *)
Definition consumer_moves s s' : Prop :=
  (∃ v, cons s = CIdle v ∧ s' = System (ring_of s) (prod s) CLoad (pushed s) (popped s)) ∨
  ((∀ v, cons s ≠ CIdle v) ∧ ∃ c r, pop_step moved capacity (cons s) (ring_of s) = Ret (c, r) ∧
    s' = System r (prod s) c (pushed s) (popped s ++ returned (cons s))).

(** The producer finds room when it writes, and the consumer is never left out for ever. *)
Record fair_execution exec : Prop := {
  fx_start : exec 0 = new_system;
  fx_step i : roomy (exec i) (exec (S i));
  fx_fair i : ∃ j, i ≤ j ∧ consumer_moves (exec j) (exec (S j))
}.

(** The steps of a [pop] that are still to be done. *)
Definition rank (c : consumer (T:=T)) : nat :=
  match c with CIdle _ => 5 | CLoad => 4 | CRefresh _ => 3 | CRead _ => 2 | CStore _ _ => 1 end.

(** A step is the consumer's, or leaves it where it is. *)
Lemma step_split s s' :
  step s s' → consumer_moves s s' ∨
    (cons s' = cons s ∧ popped s' = popped s ∧ pushed s `prefix_of` pushed s').
Proof.
  destruct 1 as [s v Hp|s p r E|s v Hc|s c r E].
  - right. by split_and!.
  - right. split_and!; try done. simpl. apply prefix_app_r. done.
  - left. left. eauto.
  - destruct (cons s) as [v| | | |] eqn:Hc.
    { right. simpl in *. injection E as <- <-. by rewrite app_nil_r. }
    all: left; right; rewrite Hc; eauto.
Qed.

Lemma moves_popped s s' : consumer_moves s s' → pushed s' = pushed s ∧ popped s `prefix_of` popped s'.
Proof.
  intros [(v&_&->)|(_&c&r&_&->)]; (split; [done|]); simpl; [done|]. by apply prefix_app_r.
Qed.

Hypothesis capacity_pos : 0 < capacity.

(** A step of the consumer, when there is something in the buffer. *)
Lemma move_progress s s' n k c :
  positions capacity s → queued capacity s n k c → k < n → consumer_moves s s' →
  length (popped s') = S k ∨ (popped s' = popped s ∧ rank (cons s') < rank (cons s)).
Proof.
  intros Hp Hq Hlt [(v&Hv&->)|(Hn&c'&r&E&->)]; [right; rewrite Hv; simpl; split; [done|lia]|].
  simpl. pose proof (ps_cons _ _ Hp) as Hpos. destruct (cons s) as [v| |pos|pos|pos v] eqn:Hc; simpl in *.
  - by destruct (Hn v).
  - right. rewrite app_nil_r. case_decide; injection E as <- <-; simpl; split; try done; lia.
  - right. rewrite app_nil_r. case_decide as Hd; injection E as <- <-; simpl; [|split; [done|lia]].
    exfalso. rewrite Hpos, (qu_read _ _ _ _ _ Hq), (qu_write _ _ _ _ _ Hq) in Hd.
    apply mod_inj in Hd; [lia|done|lia|]. destruct (qu_room _ _ _ _ _ Hq). lia.
  - right. rewrite app_nil_r. destruct (slots _ !! pos); [|done]. injection E as <- <-. simpl. split; [done|lia].
  - left. rewrite length_app, (qu_popped _ _ _ _ _ Hq), length_take, (qu_pushed _ _ _ _ _ Hq). simpl. lia.
Qed.

Section execution.
Context (exec : nat → system (T:=T)) (Hexec : fair_execution exec).

Lemma exec_reachable i : rtc roomy new_system (exec i).
Proof using Hexec.
  induction i as [|i IH]; [rewrite (fx_start _ Hexec); apply rtc_refl|].
  eapply rtc_r; [exact IH|apply (fx_step _ Hexec)].
Qed.

Lemma exec_queued i : positions capacity (exec i) ∧ ∃ n k c, queued capacity (exec i) n k c.
Proof using Hexec capacity_pos. eapply roomy_reachable, exec_reachable. done. Qed.

Lemma exec_step i :
  consumer_moves (exec i) (exec (S i)) ∨
    (cons (exec (S i)) = cons (exec i) ∧ popped (exec (S i)) = popped (exec i) ∧
     pushed (exec i) `prefix_of` pushed (exec (S i))).
Proof using Hexec. apply step_split, (fx_step _ Hexec). Qed.

Lemma exec_grows i j :
  i ≤ j → pushed (exec i) `prefix_of` pushed (exec j) ∧ popped (exec i) `prefix_of` popped (exec j).
Proof using Hexec.
  induction 1 as [|j _ [IH1 IH2]]; [by split|].
  destruct (exec_step j) as [[Hp Hq]%moves_popped|(_&Hq&Hp)].
  - rewrite Hp. split; [done|]. by etrans.
  - rewrite Hq. split; [by etrans|done].
Qed.

Lemma exec_progress i :
  length (popped (exec i)) < length (pushed (exec i)) → consumer_moves (exec i) (exec (S i)) →
  length (popped (exec (S i))) = S (length (popped (exec i))) ∨
  (popped (exec (S i)) = popped (exec i) ∧ pushed (exec (S i)) = pushed (exec i) ∧
   rank (cons (exec (S i))) < rank (cons (exec i))).
Proof using Hexec capacity_pos.
  intros Hlt Hmove. destruct (exec_queued i) as [Hp (n&k&c&Hq)].
  assert (length (popped (exec i)) = k) as Hk.
  { rewrite (qu_popped _ _ _ _ _ Hq), length_take, (qu_pushed _ _ _ _ _ Hq).
    destruct (qu_room _ _ _ _ _ Hq). lia. }
  rewrite Hk. rewrite (qu_pushed _ _ _ _ _ Hq), Hk in Hlt.
  destruct (move_progress _ _ _ _ _ Hp Hq Hlt Hmove) as [Hl|[Hl Hrank]]; [by left|right].
  split; [done|]. split; [|done]. by apply moves_popped in Hmove as [-> _].
Qed.

(** The next value is popped: by induction on where the consumer stands, and within that on the
    time until it moves. *)
Lemma next_popped m : ∀ i,
  rank (cons (exec i)) < m → length (popped (exec i)) < length (pushed (exec i)) →
  ∃ j, i ≤ j ∧ length (popped (exec j)) = S (length (popped (exec i))).
Proof using Hexec capacity_pos.
  induction m as [|m IH]; [lia|]. intros i Hr Hlt. destruct (fx_fair _ Hexec i) as (j&Hij&Hmove).
  assert (∀ i, rank (cons (exec i)) < S m → length (popped (exec i)) < length (pushed (exec i)) →
    consumer_moves (exec i) (exec (S i)) →
    ∃ j, i ≤ j ∧ length (popped (exec j)) = S (length (popped (exec i)))) as Hmoves.
  { clear i Hr Hlt j Hij Hmove. intros i Hr Hlt Hm.
    destruct (exec_progress i Hlt Hm) as [Hl|(Hpo&Hpu&Hrank)]; [exists (S i); split; lia|].
    destruct (IH (S i)) as (j&Hj&Hlj); [lia|by rewrite Hpo, Hpu|]. exists j. rewrite Hpo in Hlj. split; lia. }
  remember (j - i) as d eqn:Hd. revert i Hr Hlt Hij Hd. induction d as [|d IHd]; intros i Hr Hlt Hij Hd.
  { assert (j = i) as -> by lia. by apply Hmoves. }
  destruct (exec_step i) as [Hmi|(Hc&Hpo&Hpu)]; [by apply Hmoves|]. apply prefix_length in Hpu.
  destruct (IHd (S i)) as (j'&Hj&Hlj); [by rewrite Hc|rewrite Hpo; lia|lia|lia|].
  exists j'. rewrite Hpo in Hlj. split; lia.
Qed.

(** So the consumer gets to every position of what was pushed. *)
Lemma popped_reaches k i : k < length (pushed (exec i)) → ∃ j, i ≤ j ∧ k < length (popped (exec j)).
Proof using Hexec capacity_pos.
  intros Hk. remember (S k - length (popped (exec i))) as d eqn:Hd. revert i Hk Hd.
  induction d as [|d IH]; intros i Hk Hd; [exists i; split; lia|].
  destruct (next_popped 6 i) as (j&Hij&Hl); [destruct (cons (exec i)); simpl; lia|lia|].
  destruct (exec_grows i j Hij) as [Hpu%prefix_length _].
  destruct (IH j) as (j'&Hj&Hlj); [lia|lia|]. exists j'. split; lia.
Qed.
End execution.
End live.
