(* ===== verification/ThreadPool.v ===== *)
(** * utils/thread_pool.hpp, utils/function_task.hpp: the worker threads

    A worker is a ring buffer of tasks with the thread that takes tasks out of it and runs them;
    its state is the [system] of RingBuffer.v, in which [pushed] are the tasks handed to the worker
    and [popped] the tasks it has taken, each of which it runs before it takes the next one. *)

From S2P Require Import Prelude RingBuffer.

Section pool.
Context {task : Type}.
Variables (moved : task → task) (initial : task) (ringbuffer_size : nat).
Local Abbreviation worker := (system (T:=task)).
Local Abbreviation pool := (list worker).
Implicit Types (w : worker) (p : pool).

Definition FunctionTask : worker := new_system initial ringbuffer_size.
Definition ThreadPool (num_instruments : nat) : pool := replicate num_instruments FunctionTask.

(** [FunctionTask::enqueue] starts a [push]. *)
Definition task_enqueue (f : task) w : worker :=
  System (ring_of w) (PLoop f) (cons w) (pushed w) (popped w).
(** [_workers[idx]->enqueue(f)] *)
Definition enqueue (idx : nat) (f : task) p : outcome pool :=
  match p !! idx with
  | Some w => Ret (<[idx := task_enqueue f w]> p)
  | None => Err OutOfBounds
  end.
(** The head of the loop of [FunctionTask::process_messages]: the next [pop] starts. *)
Definition process_messages w : worker :=
  System (ring_of w) (prod w) CLoad (pushed w) (popped w).

(** The threads of the pool, in any order: a task is handed to a worker, a producer's [push] goes
    on, a worker starts its next [pop] when it has run the task it took last, a worker's [pop] goes
    on.  The producers find room when they write. *)
Inductive pool_step : pool → pool → Prop :=
  | pool_enqueue p idx f w p' :
      p !! idx = Some w → prod w = PIdle → enqueue idx f p = Ret p' → pool_step p p'
  | pool_push p idx w q r :
      p !! idx = Some w → has_room ringbuffer_size w →
      push_step ringbuffer_size (prod w) (ring_of w) = Ret (q, r) →
      pool_step p
        (<[idx := System r q (cons w) (pushed w ++ published (prod w) (ring_of w)) (popped w)]> p)
  | pool_next p idx w v :
      p !! idx = Some w → cons w = CIdle v → pool_step p (<[idx := process_messages w]> p)
  | pool_pop p idx w c r :
      p !! idx = Some w → pop_step moved ringbuffer_size (cons w) (ring_of w) = Ret (c, r) →
      pool_step p (<[idx := System r (prod w) c (pushed w) (popped w ++ returned (cons w))]> p).

(** Each step of the pool is a step of one worker's buffer, and changes that worker only. *)
Lemma pool_step_worker p p' :
  pool_step p p' →
  ∃ idx w w', p !! idx = Some w ∧ p' = <[idx := w']> p ∧ roomy moved ringbuffer_size w w'.
Proof.
  destruct 1 as [p idx f w p' Hw Hi E|p idx w q r Hw Hr E|p idx w v Hw Hi|p idx w c r Hw E];
    exists idx, w; eexists; (split; [exact Hw|]).
  - unfold enqueue in E. rewrite Hw in E. injection E as <-. split; [done|].
    split; [by apply step_call_push|right]. unfold has_room. by rewrite Hi.
  - split; [done|]. split; [by apply step_push|by right].
  - split; [done|]. split; [by eapply step_call_pop|by left].
  - split; [done|]. split; [by eapply step_pop|by left].
Qed.

Definition reachable w : Prop := rtc (roomy moved ringbuffer_size) FunctionTask w.

Lemma pool_reachable n p :
  rtc pool_step (ThreadPool n) p → length p = n ∧ ∀ idx w, p !! idx = Some w → reachable w.
Proof.
  intros H. remember (ThreadPool n) as p0 eqn:Hp0.
  assert (length p0 = n ∧ ∀ idx w, p0 !! idx = Some w → reachable w) as Hp.
  { subst. split; [apply length_replicate|]. intros idx w [-> _]%lookup_replicate. apply rtc_refl. }
  clear Hp0. induction H as [|p1 p2 p3 Hst _ IH]; [done|]. apply IH. clear IH.
  destruct Hp as [Hl Hp]. apply pool_step_worker in Hst as (i&w&w'&Hw&->&Hs).
  split; [by rewrite length_insert|]. intros j v. destruct (decide (j = i)) as [->|Hne].
  - rewrite list_lookup_insert_eq by (by eapply lookup_lt_Some). intros [= <-].
    eapply rtc_r; [by apply (Hp i)|exact Hs].
  - rewrite list_lookup_insert_ne by done. apply Hp.
Qed.
End pool.
