(* ===== verification/Calendar.v ===== *)
(** * utils/time.hpp: the day of the week *)

From S2P Require Import Prelude.

Open Scope Z_scope.

Definition t : list Z := [0; 3; 2; 5; 0; 3; 5; 1; 4; 6; 2; 4].

(** [t[i]] for an [int] index. *)
Definition t_at (i : Z) : outcome Z :=
  if i <? 0 then Err OutOfBounds
  else match t !! Z.to_nat i with Some v => Ret v | None => Err OutOfBounds end.

(** The result of an operation on [int]s: outside of the range the behaviour is undefined. *)
Definition int_result (v : Z) : outcome Z :=
  if (- 2 ^ 31 <=? v) && (v <? 2 ^ 31) then Ret v else Err IntOverflow.

(** The sums from left to right; a quotient by a positive number stays in the range.  The divisions
    and the remainder are C++'s, which truncate. *)
Definition day_of_week (d m y : Z) : outcome Z :=
  y ← int_result (y - (if m <? 3 then 1 else 0));
  sum ← int_result (y + Z.quot y 4);
  sum ← int_result (sum - Z.quot y 100);
  sum ← int_result (sum + Z.quot y 400);
  month ← int_result (m - 1);
  v ← t_at month;
  sum ← int_result (sum + v);
  sum ← int_result (sum + d);
  mret (Z.rem sum 7).

(** The last year, counted from March, whose quarter can be added to it. *)
Definition last_year : Z := 1717986918.

(** ** The Gregorian calendar *)

Definition leap (y : Z) : bool :=
  (y mod 4 =? 0) && (negb (y mod 100 =? 0) || (y mod 400 =? 0)).
Definition month_length (m y : Z) : Z :=
  if m =? 2 then (if leap y then 29 else 28)
  else if (m =? 4) || (m =? 6) || (m =? 9) || (m =? 11) then 30 else 31.
Fixpoint days_before (n : nat) (y : Z) : Z :=
  match n with O => 0 | S n => days_before n y + month_length (Z.of_nat n + 1) y end.

Lemma month_length_le m y : month_length m y ≤ 31.
Proof. unfold month_length. by repeat case_match. Qed.

(** Days since the Sunday before Monday, 1 January of the year 1. *)
Definition day_number (d m y : Z) : Z :=
  365 * (y - 1) + (y - 1) / 4 - (y - 1) / 100 + (y - 1) / 400 + days_before (Z.to_nat (m - 1)) y + d.

(** The leap days between a year and the next. *)
Lemma leap_days y :
  y / 4 - y / 100 + y / 400 =
  (y - 1) / 4 - (y - 1) / 100 + (y - 1) / 400 + (if leap y then 1 else 0).
Proof.
  assert (∀ k, 0 < k → y / k = (y - 1) / k + (if y mod k =? 0 then 1 else 0)) as H.
  { intros k Hk. pose proof (Z.div_mod y k ltac:(lia)). pose proof (Z.mod_pos_bound y k Hk).
    destruct (Z.eqb_spec (y mod k) 0) as [E|E].
    - rewrite E in *. replace ((y - 1) / k) with (y / k - 1); [lia|].
      apply (Z.div_unique_pos _ _ _ (k - 1)); lia.
    - replace ((y - 1) / k) with (y / k); [lia|].
      apply (Z.div_unique_pos _ _ _ (y mod k - 1)); lia. }
  rewrite !H by lia. unfold leap.
  assert (y mod 100 = 0 → y mod 4 = 0) by (intros Hy; apply Z.mod_divide in Hy as [z ->]; [|lia]; apply Z.mod_divide; [lia|]; exists (z * 25); lia).
  assert (y mod 400 = 0 → y mod 100 = 0) by (intros Hy; apply Z.mod_divide in Hy as [z ->]; [|lia]; apply Z.mod_divide; [lia|]; exists (z * 4); lia).
  repeat match goal with |- context [?a =? 0] => destruct (Z.eqb_spec a 0) end; simpl; lia.
Qed.

Lemma mod7_eq a b k : a = b + k * 7 → a mod 7 = b mod 7.
Proof. intros ->. apply Z.mod_add. lia. Qed.

Lemma int_result_bind {A} v (k : Z → outcome A) : - 2 ^ 31 ≤ v < 2 ^ 31 → int_result v ≫= k = k v.
Proof. intros Hv. unfold int_result. by rewrite (proj2 (Z.leb_le _ _)), (proj2 (Z.ltb_lt _ _)) by lia. Qed.
Lemma int_result_overflow {A} v (k : Z → outcome A) : 2 ^ 31 ≤ v → int_result v ≫= k = Err IntOverflow.
Proof. intros Hv. unfold int_result. by rewrite (proj2 (Z.ltb_ge _ _)), andb_false_r by lia. Qed.

Lemma t_at_bounds i v : t_at i = Ret v → 0 ≤ v ≤ 6.
Proof.
  unfold t_at. destruct (i <? 0); [done|]. destruct (t !! Z.to_nat i) as [w|] eqn:E; [|done].
  intros [= ->]. apply list_elem_of_lookup_2 in E. unfold t in E. set_solver by lia.
Qed.

(** The sum of the years and their leap days, for a year that is counted from March. *)
Definition year_sum (y : Z) : Z := y + y / 4 - y / 100 + y / 400.

(** Up to the last year no sum leaves the range, and in every later one the first sum does. *)
Lemma day_of_week_years d m y :
  let y' := y - (if m <? 3 then 1 else 0) in
  0 ≤ y' ≤ last_year →
  0 ≤ year_sum y' < 2 ^ 31 - 37 ∧
  day_of_week d m y =
    (month ← int_result (m - 1);
     v ← t_at month;
     sum ← int_result (year_sum y' + v);
     sum ← int_result (sum + d);
     mret (Z.rem sum 7)).
Proof.
  intros y' Hy. unfold last_year in Hy.
  unfold day_of_week, year_sum. fold y'. change (2 ^ 31) with 2147483648 in *.
  rewrite int_result_bind, !Z.quot_div_nonneg by lia.
  assert (y' / 100 ≤ y' / 4) by (apply Z.div_le_compat_l; lia).
  assert (0 ≤ y' / 400 ≤ y' / 100) by (split; [apply Z.div_pos; lia|apply Z.div_le_compat_l; lia]).
  assert (4 * (y' / 4) ≤ y') by (apply Z.mul_div_le; lia).
  assert (100 * (y' / 100) ≤ y') by (apply Z.mul_div_le; lia).
  assert (y' / 400 + 37 < y' / 100 ∨ y' < 40000) as Hroom.
  { destruct (decide (y' < 40000)); [by right|left].
    pose proof (Z.div_mod y' 100 ltac:(lia)). pose proof (Z.mod_pos_bound y' 100 ltac:(lia)).
    assert (400 * (y' / 400) ≤ y') by (apply Z.mul_div_le; lia). lia. }
  rewrite (int_result_bind (y' + y' / 4)), (int_result_bind (_ - _)), (int_result_bind (_ + y' / 400)) by lia.
  split; [lia|done].
Qed.

Lemma day_of_week_sum d m y v :
  let y' := y - (if m <? 3 then 1 else 0) in
  1 ≤ d ≤ 31 → 1 ≤ m ≤ 12 → 0 ≤ y' ≤ last_year → t_at (m - 1) = Ret v →
  day_of_week d m y = Ret ((year_sum y' + v + d) mod 7).
Proof.
  intros y' Hd Hm Hy Hv. pose proof (t_at_bounds _ _ Hv).
  destruct (day_of_week_years d m y Hy) as [Hs ->]. fold y' in Hs |- *.
  change (2 ^ 31) with 2147483648 in *. rewrite int_result_bind, Hv, bind_value, !int_result_bind by lia.
  by rewrite Z.rem_mod_nonneg by lia.
Qed.
(** In the month zero the table is read at -1. *)
Lemma day_of_week_month_zero d y :
  1 ≤ y ≤ last_year → day_of_week d 0 y = Err OutOfBounds.
Proof.
  intros Hy. destruct (day_of_week_years d 0 y) as [_ ->]; [simpl; lia|].
  by rewrite int_result_bind by lia.
Qed.
Lemma day_of_week_overflow d m y :
  last_year < y - (if m <? 3 then 1 else 0) < 2 ^ 31 → day_of_week d m y = Err IntOverflow.
Proof.
  set (y' := y - _). intros Hy. unfold last_year in Hy. unfold day_of_week. fold y'.
  rewrite int_result_bind, !Z.quot_div_nonneg by lia.
  assert (429496729 ≤ y' / 4) by (apply Z.div_le_lower_bound; lia).
  by rewrite int_result_overflow by lia.
Qed.

(** The table and the shifted year count days, up to whole weeks [k]. *)
Lemma day_of_week_month d m y v n k :
  1 ≤ d ≤ 31 → 1 ≤ m ≤ 12 → 1 ≤ y → y - (if m <? 3 then 1 else 0) ≤ last_year →
  t_at (m - 1) = Ret v → Z.to_nat (m - 1) = n →
  days_before n y = k * 7 + v + (if m <? 3 then 0 else (if leap y then 1 else 0) + 1) →
  day_of_week d m y = Ret (day_number d m y mod 7).
Proof.
  intros Hd Hm Hy Hlast Hv Hn Hdays. rewrite (day_of_week_sum d m y v); try done.
  2: { destruct (m <? 3); lia. }
  f_equal. unfold year_sum, day_number. rewrite Hn, Hdays. pose proof (leap_days y).
  apply (mod7_eq _ _ (-52 * (y - 1) - k)). destruct (m <? 3); rewrite ?Z.sub_0_r; lia.
Qed.

Lemma month_days m y :
  1 ≤ m ≤ 12 → ∃ v k, t_at (m - 1) = Ret v ∧
    days_before (Z.to_nat (m - 1)) y = k * 7 + v + (if m <? 3 then 0 else (if leap y then 1 else 0) + 1).
Proof.
  intros Hm.
  assert (m = 1 ∨ m = 2 ∨ m = 3 ∨ m = 4 ∨ m = 5 ∨ m = 6 ∨ m = 7 ∨ m = 8 ∨ m = 9 ∨ m = 10 ∨ m = 11 ∨ m = 12)
    as Hcases by lia.
  exists (nth (Z.to_nat (m - 1)) t 0), (nth (Z.to_nat (m - 1)) [0; 4; 8; 12; 17; 21; 25; 30; 34; 38; 43; 47] 0).
  destruct (leap y) eqn:Hl; repeat destruct Hcases as [->|Hcases]; subst;
    (split; [reflexivity|]);
    match goal with |- context [Z.to_nat ?e] =>
      let n := eval vm_compute in (Z.to_nat e) in change (Z.to_nat e) with n end;
    cbn -[leap]; unfold month_length; rewrite ?Hl; reflexivity.
Qed.

Lemma day_of_week_ok d m y :
  1 ≤ d ≤ 31 → 1 ≤ m ≤ 12 → 1 ≤ y → y - (if m <? 3 then 1 else 0) ≤ last_year →
  day_of_week d m y = Ret (day_number d m y mod 7).
Proof.
  intros Hd Hm Hy Hlast. destruct (month_days m y Hm) as (v&k&Hv&Hdays). by eapply day_of_week_month.
Qed.

Close Scope Z_scope.
