(* ===== verification/Lifetimes.v ===== *)
(** * repository/: how the repositories are opened and closed

    The constructors acquire objects of RocksDB and of the driver for ScyllaDB and start a thread;
    the destructors release the objects and stop the thread.  What the libraries answer is a
    parameter; an object is used after it was freed when it is used and is not live.  The
    destructor's statements and the thread's loop are interleaved in any way. *)

From S2P Require Import Prelude.

Inductive resource :=
  | TransactionDB | OrderFamily | DefaultFamily
  | Cluster | Session | ConnectFuture | PrepareInsert | PrepareSelect | PreparedInsert | PreparedSelect.
#[export] Instance resource_eq_dec : EqDecision resource.
Proof. solve_decision. Defined.
(** [None] is the null pointer. *)
Abbreviation pointer := (option resource) (only parsing).

Definition acquire (r : resource) : M (list resource) pointer := λ live, (live ++ [r], Ret (Some r)).
Definition dereference (p : pointer) : M (list resource) unit := λ live,
  match p with
  | None => (live, Err NullDeref)
  | Some r => (live, if decide (r ∈ live) then Ret tt else Err UseAfterFree)
  end.
Definition release (p : pointer) : M (list resource) unit :=
  dereference p;; modify (filter (λ r, Some r ≠ p)).

(** ** order_repository.cpp *)

(** What the file system and RocksDB answer. *)
Record rocksdb := RocksDB {
  exists_ : bool;
  create_directory : bool;
  Open : bool;
  CreateColumnFamily : bool;
  OpenColumnFamilies : bool
}.
Record order_repository := MkOrderRepository {
  _db : pointer;
  _order_handler : pointer;
  _default_handler : pointer
}.

(** The status of opening an existing database is not looked at; the vector of handles stays empty
    when it fails. *)
Definition OrderRepository (e : rocksdb) : M (list resource) order_repository :=
  if negb (exists_ e) then
    if negb (create_directory e) then fail RuntimeError else
    if negb (Open e) then fail RuntimeError else
    db ← acquire TransactionDB;
    if negb (CreateColumnFamily e) then fail RuntimeError else
    order_handler ← acquire OrderFamily;
    mret (MkOrderRepository db order_handler None)
  else
    '(db, column_handles) ←
      (if OpenColumnFamilies e then
         db ← acquire TransactionDB;
         order_handler ← acquire OrderFamily;
         default_handler ← acquire DefaultFamily;
         mret (db, [order_handler; default_handler])
       else mret (None, []));
    match column_handles !! 0, column_handles !! 1 with
    | Some order_handler, Some default_handler =>
        mret (MkOrderRepository db order_handler default_handler)
    | _, _ => fail OutOfBounds
    end.

(** ** trade_repository.cpp *)

Record scylla := Scylla { connect : bool; prepare_insert : bool; prepare_select : bool }.
Record trade_repository := MkTradeRepository {
  _cluster : pointer;
  _session : pointer;
  _prepared_insert_query : pointer;
  _prepared_select_by_primary_key_query : pointer
}.

(** The future of the connection is freed at the end of its scope, an exception included; the first of
    the two futures of the preparations is not freed. *)
Definition TradeRepository (e : scylla) : M (list resource) trade_repository :=
  cluster ← acquire Cluster;
  session ← acquire Session;
  connect_future ← acquire ConnectFuture;
  if negb (connect e) then release connect_future;; fail RuntimeError else
  prep_future ← acquire PrepareInsert;
  insert ← (if prepare_insert e then acquire PreparedInsert else mret None);
  prep_future ← acquire PrepareSelect;
  select ← (if prepare_select e then acquire PreparedSelect else mret None);
  release prep_future;;
  release connect_future;;
  mret (MkTradeRepository cluster session insert select).

(** ** The destructors *)

Inductive statement :=
  | RequestStop
  | Join
  | Use (p : pointer)
  | Release (p : pointer).

Definition order_destructor (r : order_repository) : list statement :=
  [RequestStop; Join; Use (_db r); Release (_order_handler r)]
  ++ (if decide (_default_handler r = None) then [] else [Use (_db r); Release (_default_handler r)])
  ++ [Use (_db r); Release (_db r)].
Definition trade_destructor (r : trade_repository) : list statement :=
  [Release (_prepared_insert_query r); Release (_prepared_select_by_primary_key_query r);
   Release (_cluster r); Release (_session r); RequestStop; Join].

(** What a [save] uses, one after the other. *)
Definition order_save_uses (r : order_repository) : list pointer := [_db r; _order_handler r].
Definition trade_save_uses (r : trade_repository) : list pointer := [_prepared_insert_query r; _session r].

(** ** The thread and the destructor *)

Section threads.
Context {T : Type}.

(** Where the thread stands: at the test of the loop, at its [pop], in a [save] that still has some
    objects to use, or at its end. *)
Inductive position := AtTest | AtPop | Saving (message : T) (uses : list pointer) | Done.

#[export] Instance done_dec th : Decision (th = Done).
Proof. refine (match th with Done => left _ | _ => right _ end); done. Defined.

Record machine := Machine {
  live : list resource;
  stop_requested : bool;
  thread : position;
  queue : list T;
  saved : list T;
  destructor : list statement
}.
Implicit Types (s : machine).

Section steps.
Variable save_uses : list pointer.

Definition thread_step s : outcome machine :=
  let '(Machine lv stop th q sv d) := s in
  match th with
  | AtTest => Ret (Machine lv stop (if stop then Done else AtPop) q sv d)
  | AtPop =>
      match q with
      | [] => Ret (Machine lv stop AtTest q sv d)
      | m :: q => Ret (Machine lv stop (Saving m save_uses) q sv d)
      end
  | Saving m [] => Ret (Machine lv stop AtTest q (sv ++ [m]) d)
  | Saving m (p :: uses) =>
      match dereference p lv with
      | (_, Ret _) => Ret (Machine lv stop (Saving m uses) q sv d)
      | (_, Err e) => Err e
      end
  | Done => Ret s
  end.

(** A join waits for the end of the thread. *)
Definition destructor_step s : outcome machine :=
  let '(Machine lv stop th q sv d) := s in
  match d with
  | [] => Ret s
  | RequestStop :: d => Ret (Machine lv true th q sv d)
  | Join :: d => match th with Done => Ret (Machine lv stop th q sv d) | _ => Ret s end
  | Use p :: d =>
      match dereference p lv with
      | (_, Ret _) => Ret (Machine lv stop th q sv d)
      | (_, Err e) => Err e
      end
  | Release p :: d =>
      match release p lv with
      | (lv, Ret _) => Ret (Machine lv stop th q sv d)
      | (_, Err e) => Err e
      end
  end.

Inductive machine_step : machine → machine → Prop :=
  | step_thread s s' : thread_step s = Ret s' → machine_step s s'
  | step_destructor s s' : destructor_step s = Ret s' → machine_step s s'.

(** ** A destructor that stops the thread first *)

(** The statements behind the join, one after the other. *)
Definition run_statement (d : statement) : M (list resource) unit :=
  match d with
  | RequestStop | Join => mret tt
  | Use p => dereference p
  | Release p => release p
  end.
Definition run_statements (ds : list statement) : M (list resource) unit := forM ds run_statement.
Definition plain (d : statement) : Prop := match d with Use _ | Release _ => True | _ => False end.

Variables (lv rest_lv : list resource) (messages : list T) (rest : list statement).

(** What the thread has in its hands. *)
Definition in_hand (th : position) : list T := match th with Saving m _ => [m] | _ => [] end.

Inductive stopping s : Prop :=
  | not_stopped :
      destructor s = RequestStop :: Join :: rest → live s = lv → stopping s
  | joining :
      destructor s = Join :: rest → live s = lv → stop_requested s = true → stopping s
  | joined :
      thread s = Done → Forall plain (destructor s) →
      run_statements (destructor s) (live s) = (rest_lv, Ret tt) → stopping s.
Record closing s : Prop := {
  cl_stopping : stopping s;
  cl_messages : saved s ++ in_hand (thread s) ++ queue s = messages;
  cl_uses : match thread s with Saving _ uses => Forall (λ p, p ∈ save_uses) uses | _ => True end
}.

Hypothesis uses_live : Forall (λ p, dereference p lv = (lv, Ret tt)) save_uses.
Hypothesis rest_plain : Forall plain rest.
Hypothesis rest_runs : run_statements rest lv = (rest_lv, Ret tt).

Lemma stopping_live s m uses : stopping s → thread s = Saving m uses → live s = lv.
Proof. intros [? ?|? ? ?|Hd _ _] Ht; [done..|]. by rewrite Hd in Ht. Qed.

Lemma thread_closing s : closing s → ∃ s', thread_step s = Ret s' ∧ closing s' ∧ destructor s' = destructor s.
Proof using uses_live.
  intros [Hs Hm Hu]. destruct s as [l stop th q sv d]. destruct th as [| |m uses|]; simpl in *.
  - eexists. split; [reflexivity|]. split; [|done]. split; simpl; [|by destruct stop|by destruct stop].
    destruct Hs as [? ?|? ? ?|? ? ?]; [by apply not_stopped|by apply joining|done].
  - destruct q as [|m q]; eexists; (split; [reflexivity|]; split; [|done]; split; simpl; try done);
      (destruct Hs as [? ?|? ? ?|? ? ?]; [by apply not_stopped|by apply joining|done]) || idtac.
    all: by apply Forall_forall.
  - assert (l = lv) as -> by (by eapply stopping_live in Hs).
    destruct uses as [|p uses].
    + eexists. split; [reflexivity|]. split; [|done]. split; simpl; [|by rewrite <-app_assoc|done].
      destruct Hs as [? ?|? ? ?|? ? ?]; [by apply not_stopped|by apply joining|done].
    + apply Forall_cons in Hu as [Hp Hu]. rewrite Forall_forall in uses_live. rewrite (uses_live _ Hp).
      eexists. split; [reflexivity|]. split; [|done]. split; simpl; [|done|done].
      destruct Hs as [? ?|? ? ?|? ? ?]; [by apply not_stopped|by apply joining|done].
  - eexists. split; [reflexivity|]. split; [|done]. by split.
Qed.

Lemma destructor_closing s : closing s → ∃ s', destructor_step s = Ret s' ∧ closing s'.
Proof using rest_plain rest_runs.
  intros [Hs Hm Hu]. destruct s as [l stop th q sv d]. simpl in *.
  destruct Hs as [Hd Hl|Hd Hl Hst|Ht Hd Hr]; simpl in *; subst.
  - eexists. split; [reflexivity|]. split; simpl; [by apply joining|done|done].
  - destruct th; (eexists; split; [reflexivity|]; split; simpl; [|done|done]);
      try by apply joining. by apply joined.
  - destruct d as [|a d]; [eexists; split; [reflexivity|]; split; simpl; [by apply joined|done|done]|].
    apply Forall_cons in Hd as [Ha Hd]. unfold run_statements in Hr. cbn [forM] in Hr.
    apply bind_inv in Hr as (l'&[]&E&Hr). destruct a as [| |p|p]; [done|done|simpl in *..].
    + assert (l' = l) as -> by (unfold dereference in E; by destruct p; [injection E as <-|]).
      rewrite E. eexists. split; [reflexivity|]. split; simpl; [by apply joined|done|done].
    + rewrite E. eexists. split; [reflexivity|]. split; simpl; [by apply joined|done|done].
Qed.

Lemma step_closing s s' : closing s → machine_step s s' → closing s'.
Proof using uses_live rest_plain rest_runs.
  intros Hc Hs. revert Hc. destruct Hs as [s s' E|s s' E]; intros Hc.
  - destruct (thread_closing s Hc) as (s2&E2&?&_). rewrite E in E2. by injection E2 as <-.
  - destruct (destructor_closing s Hc) as (s2&E2&?). rewrite E in E2. by injection E2 as <-.
Qed.

(** The steps that the thread has to make before it sees the request to stop. *)
Definition remaining (th : position) : nat :=
  match th with Done => 0 | AtTest => 1 | Saving _ uses => 2 + length uses | AtPop => 3 + length save_uses end.

(** The thread comes to its end once it is asked to stop. *)
Lemma thread_stops n : ∀ s,
  remaining (thread s) ≤ n → closing s → stop_requested s = true →
  ∃ s', rtc machine_step s s' ∧ thread s' = Done ∧ closing s' ∧ destructor s' = destructor s.
Proof using uses_live.
  induction n as [|n IH]; intros s Hn Hc Hst.
  { exists s. split; [apply rtc_refl|]. destruct (thread s); simpl in Hn; by (lia || split). }
  destruct (thread_closing s Hc) as (s1&E&Hc1&Hd1). destruct (decide (thread s = Done)) as [Ht|Ht].
  { exists s. by split; [apply rtc_refl|]. }
  assert (remaining (thread s1) ≤ n ∧ stop_requested s1 = true) as [Hn1 Hst1].
  { clear IH Hd1. destruct s as [l stop th q sv d]. simpl in *. subst stop. destruct th as [| |m uses|]; simpl in *.
    - injection E as <-. simpl. split; [lia|done].
    - destruct q; injection E as <-; simpl; (split; [lia|done]).
    - destruct uses as [|p uses]; simpl in *; [injection E as <-; simpl; (split; [lia|done])|].
      destruct (dereference p l) as [? [|]]; [|done]. injection E as <-. simpl. split; [lia|done].
    - done. }
  destruct (IH s1 Hn1 Hc1 Hst1) as (s'&Hr&Hd&Hc'&Heq). exists s'.
  split; [eapply rtc_l; [by apply step_thread|done]|]. by rewrite Heq.
Qed.

(** So the destructor comes to its end. *)
Lemma destructor_ends s : closing s → ∃ s', rtc machine_step s s' ∧ destructor s' = [] ∧ closing s'.
Proof using uses_live rest_plain rest_runs.
  assert (∀ n s, length (destructor s) = n → closing s →
    ∃ s', rtc machine_step s s' ∧ destructor s' = [] ∧ closing s') as H; [|by eapply H].
  intros n. induction n as [n IH] using lt_wf_ind. clear s. intros s Hlen Hc.
  destruct (decide (destructor s = [])) as [Hd|Hd]; [exists s; by split; [apply rtc_refl|]|].
  assert (∃ s1, rtc machine_step s s1 ∧ closing s1 ∧ destructor s1 = destructor s ∧
    (head (destructor s) = Some Join → thread s1 = Done)) as (s1&Hr1&Hc1&Hd1&Hj).
  { destruct (decide (thread s = Done)) as [Ht|Ht]; [exists s; by split; [apply rtc_refl|]|].
    destruct (cl_stopping _ Hc) as [E _|E _ Hst|Ht' _ _]; [|..|done].
    - exists s. rewrite E. by split; [apply rtc_refl|].
    - destruct (thread_stops _ s (le_n _) Hc Hst) as (s1&?&?&?&?). by exists s1. }
  destruct (destructor_closing s1 Hc1) as (s2&E2&Hc2).
  assert (length (destructor s2) < n) as Hlt.
  { subst n. rewrite <-Hd1 in Hd, Hj |- *. clear -E2 Hd Hj. destruct s1 as [l stop th q sv d]. simpl in *.
    destruct d as [|[| |p|p] d]; [done|..]; simpl in *.
    - injection E2 as <-. simpl. lia.
    - rewrite (Hj eq_refl) in E2. injection E2 as <-. simpl. lia.
    - destruct (dereference p l) as [? [|]]; [|done]. injection E2 as <-. simpl. lia.
    - destruct (release p l) as [? [|]]; [|done]. injection E2 as <-. simpl. lia. }
  destruct (IH _ Hlt s2 eq_refl Hc2) as (s'&Hr&Hd'&Hc'). exists s'. split; [|by split].
  etrans; [exact Hr1|]. eapply rtc_l; [by apply step_destructor|done].
Qed.
End steps.
End threads.

(** ** The two repositories *)

(** The repository of orders that the constructor returns: two families or one. *)
Lemma order_repository_opened e lv repo :
  OrderRepository e [] = (lv, Ret repo) →
  (lv = [TransactionDB; OrderFamily] ∧ repo = MkOrderRepository (Some TransactionDB) (Some OrderFamily) None) ∨
  (lv = [TransactionDB; OrderFamily; DefaultFamily] ∧
   repo = MkOrderRepository (Some TransactionDB) (Some OrderFamily) (Some DefaultFamily)).
Proof.
  destruct e as [[] [] [] [] []]; intros E; cbv in E; simplify_eq; auto.
Qed.
Lemma trade_repository_opened e lv repo :
  TradeRepository e [] = (lv, Ret repo) → prepare_insert e = true → prepare_select e = true →
  lv = [Cluster; Session; PrepareInsert; PreparedInsert; PreparedSelect] ∧
  repo = MkTradeRepository (Some Cluster) (Some Session) (Some PreparedInsert) (Some PreparedSelect).
Proof. destruct e as [[] [] []]; intros E ? ?; cbv in E; by simplify_eq. Qed.

(** What the constructors leave behind when they fail: their destructors do not run then. *)
Theorem failed_openings :
  OrderRepository (RocksDB false true true false true) [] = ([TransactionDB], Err RuntimeError) ∧
  OrderRepository (RocksDB true true true true false) [] = ([], Err OutOfBounds) ∧
  (∀ i s, TradeRepository (Scylla false i s) [] = ([Cluster; Session], Err RuntimeError)).
Proof. by split_and!. Qed.

Section repositories.
Context {T : Type}.
Implicit Types (q : list T) (s : machine (T:=T)).

(** A thread that came to its end leaves the messages alone. *)
Lemma done_keeps uses s s' :
  rtc (machine_step uses) s s' → thread s = Done →
  thread s' = Done ∧ saved s' = saved s ∧ queue s' = queue s.
Proof.
  induction 1 as [s|s1 s2 s3 Hs _ IH]; [done|]. intros Hd.
  assert (thread s2 = Done ∧ saved s2 = saved s1 ∧ queue s2 = queue s1) as (H1&H2&H3).
  { destruct Hs as [[l stop th q sv d] s' E|[l stop th q sv d] s' E]; simpl in *; subst.
    - by injection E as <-.
    - destruct d as [|[| |p|p] d]; simpl in E; [by injection E as <-..| |].
      + destruct (dereference p l) as [? [|]]; [|done]. by injection E as <-.
      + destruct (release p l) as [? [|]]; [|done]. by injection E as <-. }
  destruct (IH H1) as (?&?&?). split; [done|]. split; by etrans.
Qed.

(** C20: while the repository of orders is destroyed its thread never uses an object that was freed, in
    no interleaving; the destructor always comes to its end, by when every object that the constructor
    acquired is freed, each once.  What was saved until then is a prefix of the queue: the rest of it
    is lost, which can be all of it. *)
Theorem order_repository_stops_safely e lv repo q :
  OrderRepository e [] = (lv, Ret repo) →
  let step := machine_step (order_save_uses repo) in
  let opened := Machine lv false AtTest q [] (order_destructor repo) in
  (∀ s, rtc step opened s →
     (∃ s', thread_step (order_save_uses repo) s = Ret s') ∧ (∃ s', destructor_step s = Ret s') ∧
     (∃ s', rtc step s s' ∧ destructor s' = []) ∧ saved s `prefix_of` q ∧
     (destructor s = [] → live s = [] ∧ thread s = Done)) ∧
  ∃ s, rtc step opened s ∧ destructor s = [] ∧ saved s = [] ∧ queue s = q.
Proof.
  intros E step opened.
  assert (∃ rest, order_destructor repo = RequestStop :: Join :: rest ∧ Forall plain rest ∧
    run_statements rest lv = ([], Ret tt) ∧
    Forall (λ p, dereference p lv = (lv, Ret tt)) (order_save_uses repo)) as (rest&Hd&Hp&Hr&Hu).
  { destruct (order_repository_opened _ _ _ E) as [[-> ->]|[-> ->]]; eexists;
      (split; [reflexivity|]); repeat constructor. }
  assert (∀ s, rtc step opened s → closing (order_save_uses repo) lv [] q rest s) as Hcl.
  { intros s. apply (rtc_ind_r (λ s, closing (order_save_uses repo) lv [] q rest s)).
    - split; simpl; [by apply not_stopped|done|done].
    - intros s1 s2 _ Hs Hc. by eapply step_closing. }
  split.
  - intros s Hs. pose proof (Hcl s Hs) as Hc.
    destruct (thread_closing _ _ _ _ _ Hu s Hc) as (s1&E1&_).
    destruct (destructor_closing _ _ _ _ _ Hp Hr s Hc) as (s2&E2&_).
    destruct (destructor_ends _ _ _ _ _ Hu Hp Hr s Hc) as (s3&Hr3&Hd3&_).
    split; [eauto|]. split; [eauto|]. split; [eauto|]. split.
    + exists (in_hand (thread s) ++ queue s). by rewrite (cl_messages _ _ _ _ _ _ Hc).
    + intros Hnil. destruct (cl_stopping _ _ _ _ _ _ Hc) as [E'|E' _ _|Ht _ Hrun]; [congruence..|].
      rewrite Hnil in Hrun. by injection Hrun as ->.
  - set (s0 := Machine lv true Done q [] (Join :: rest)).
    assert (rtc step opened s0) as Hs0.
    { unfold opened. rewrite Hd. eapply rtc_l; [by apply step_destructor|].
      by apply rtc_once, step_thread. }
    destruct (destructor_ends _ _ _ _ _ Hu Hp Hr s0 (Hcl _ Hs0)) as (s'&Hr'&Hd'&_).
    destruct (done_keeps _ _ _ Hr' eq_refl) as (_&Hsv&Hq). exists s'. split; [by etrans|]. by split_and!.
Qed.

(** C21: the destructor of the repository of trades frees the prepared statements and the session before
    it stops the thread: when there is a trade in the queue, the thread can come to save it with what
    was freed.  And when everything goes well the future of the first preparation is still there. *)
Theorem trade_repository_frees_too_early e lv repo (m : T) q :
  TradeRepository e [] = (lv, Ret repo) → prepare_insert e = true → prepare_select e = true →
  let step := machine_step (trade_save_uses repo) in
  let opened := Machine lv false AtTest (m :: q) [] (trade_destructor repo) in
  (∃ s, rtc step opened s ∧ thread_step (trade_save_uses repo) s = Err UseAfterFree) ∧
  ∃ s, rtc step opened s ∧ destructor s = [] ∧ thread s = Done ∧ live s = [PrepareInsert].
Proof.
  intros E Hi Hs. destruct (trade_repository_opened _ _ _ E Hi Hs) as [-> ->]. cbv zeta. split.
  - eexists. split; [|].
    + do 2 (eapply rtc_l; [apply step_thread; reflexivity|]).
      eapply rtc_l; [apply step_destructor; reflexivity|]. apply rtc_refl.
    + reflexivity.
  - eexists. split; [|].
    + do 5 (eapply rtc_l; [apply step_destructor; reflexivity|]).
      eapply rtc_l; [apply step_thread; reflexivity|].
      eapply rtc_l; [apply step_destructor; reflexivity|]. apply rtc_refl.
    + by split_and!.
Qed.
End repositories.

(** Both repositories with an empty database, and a queue of two messages. *)
Lemma order_repository_stops_safely_witness :
  ∃ s : machine (T:=nat), destructor s = [] ∧ saved s = [] ∧ queue s = [1; 2] ∧ live s = [].
Proof.
  destruct (order_repository_stops_safely (RocksDB false true true true true) _ _ [1; 2] eq_refl)
    as [H (s&Hs&Hd&Hsv&Hq)].
  exists s. destruct (H s Hs) as (_&_&_&_&Hl). destruct (Hl Hd) as [Hl' _].
  split; [exact Hd|]. split; [exact Hsv|]. split; [exact Hq|exact Hl'].
Defined.
Lemma trade_repository_frees_too_early_witness :
  ∃ s : machine (T:=nat),
    thread_step [Some PreparedInsert; Some Session] s = Err UseAfterFree.
Proof.
  destruct (trade_repository_frees_too_early (Scylla true true true) _ _ 1 [2] eq_refl eq_refl eq_refl)
    as [(s&_&Hs) _].
  exists s. exact Hs.
Defined.
