(* ===== verification/Repository.v ===== *)
(** * repository/order_repository: the store of active orders

    The database and the text archive are not code of the program: the section's classes state
    what it uses of RocksDB's [Put], [Delete], [Get] and iteration, and of Boost's text archives.
    A save that fails leaves the store as it was; the program ignores the status. *)

From S2P Require Import Prelude Float DataTypes.

(** ** order.hpp: [serialize] *)

(** The members that [serialize] archives. *)
Record archived := Archived {
  ar_id : string;
  ar_instrument : string;
  ar_user_id : string;
  ar_timestamp : Z;
  ar_qty : float;
  ar_current_qty : float;
  ar_price : float;
  ar_cancelled : bool;
  ar_side : Side;
  ar_type : OrderType;
  ar_params : OrderParams;
  ar_expire_time : Z
}.

Definition serialize (o : order) : archived :=
  Archived (o_id o) (o_instrument o) (o_user_id o) (o_timestamp o) (o_qty o) (o_current_qty o)
    (o_price o) (o_cancelled o) (o_side o) (o_type o) (o_params o) (o_expire_time o).
(** Loading into an order that the default constructor made. *)
Definition deserialize (a : archived) : order :=
  Order None (ar_id a) (ar_instrument a) (ar_user_id a) (ar_timestamp a) (ar_qty a)
    (ar_current_qty a) (ar_price a) (Fin 0) (ar_side a) (ar_cancelled a) (ar_params a) (ar_type a)
    (ar_expire_time a) None None.

(** ** What the repository uses of its libraries *)

Class Database (DB : Type) := {
  Put : DB → string → string → DB * bool;
  Delete : DB → string → DB * bool;
  Get : DB → string → option string;
  Entries : DB → list (string * string)
}.

(** RocksDB: a write with status [ok] is visible, one without changes nothing, and an iterator
    visits the entries. *)
Class DatabaseLaws (DB : Type) `{!Database DB} : Prop := {
  get_put db k v k' :
    Get (Put db k v).1 k' = if (Put db k v).2 then (if decide (k = k') then Some v else Get db k') else Get db k';
  get_delete db k k' :
    Get (Delete db k).1 k' = if (Delete db k).2 then (if decide (k = k') then None else Get db k') else Get db k';
  entries_get db k v : (k, v) ∈ Entries db ↔ Get db k = Some v
}.

(** Boost's text archives read back what they wrote, as long as the numbers are finite. *)
Class Archive := {
  oarchive : archived → string;
  iarchive : string → option archived
}.
Definition finite (a : archived) : bool :=
  is_finite (ar_qty a) && is_finite (ar_current_qty a) && is_finite (ar_price a).
Class ArchiveLaws `{!Archive} : Prop := {
  iarchive_oarchive a : finite a = true → iarchive (oarchive a) = Some a
}.

Section repository.
Context {DB : Type} `{!Database DB} `{!Archive}.
Implicit Types (db : DB) (o : order).

Definition save (o : order) db : DB * bool := Put db (get_id o) (oarchive (serialize o)).
Definition remove (order_id : string) db : DB * bool := Delete db order_id.

(** [ia >> ret_order] throws on a text it cannot read. *)
Definition get (order_id : string) db : outcome (option order) :=
  match Get db order_id with
  | Some order_serialized =>
      match iarchive order_serialized with
      | Some a => Ret (Some (deserialize a))
      | None => Err InvalidArgument
      end
  | None => Ret None
  end.
Fixpoint read_all (es : list (string * string)) : outcome (list order) :=
  match es with
  | [] => Ret []
  | (_, v) :: es =>
      match iarchive v, read_all es with
      | Some a, Ret os => Ret (deserialize a :: os)
      | None, _ => Err InvalidArgument
      | _, Err e => Err e
      end
  end.
Definition get_all db : outcome (list order) := read_all (Entries db).

(** One turn of [process_messages], on the order as it is when the message is handled. *)
Definition process_message db o : DB :=
  if is_cancelled o || is_fullfilled o then (remove (get_id o) db).1 else (save o db).1.
Definition process_messages db (os : list order) : DB := foldl process_message db os.
End repository.

(** ** What the store holds *)

Section laws.
Context {DB : Type} `{!Database DB, !DatabaseLaws DB, !Archive, !ArchiveLaws}.
Implicit Types (db : DB) (o : order).

(** What is left of an order that was stored and read again. *)
Definition reloaded o : order :=
  Order None (o_id o) (o_instrument o) (o_user_id o) (o_timestamp o) (o_qty o) (o_current_qty o)
    (o_price o) (Fin 0) (o_side o) (o_cancelled o) (o_params o) (o_type o) (o_expire_time o)
    None None.

Lemma deserialize_serialize o : deserialize (serialize o) = reloaded o.
Proof. done. Qed.

(** The database as a map of orders. *)
Definition holds db (m : gmap string order) : Prop :=
  (∀ id, get id db = Ret (reloaded <$> m !! id)) ∧ (∀ id o, m !! id = Some o → o_id o = id).

Definition message_abs (m : gmap string order) o : gmap string order :=
  if is_cancelled o || is_fullfilled o then delete (o_id o) m else <[o_id o := o]> m.

(** The writes of a sequence of messages all have status [ok]. *)
Definition write_ok db o : bool :=
  if is_cancelled o || is_fullfilled o then (remove (get_id o) db).2 else (save o db).2.
Fixpoint writes_ok db (os : list order) : bool :=
  match os with [] => true | o :: os => write_ok db o && writes_ok (process_message db o) os end.

Lemma message_holds db m o : holds db m → finite (serialize o) = true → write_ok db o = true →
  holds (process_message db o) (message_abs m o).
Proof.
  unfold write_ok, process_message, message_abs, save, remove, holds, get, get_id.
  intros [Hg Hid] Hfin Hok. destruct (_ || _).
  - split.
    + intros id. rewrite get_delete, Hok. case_decide as Hd.
      * subst. by rewrite lookup_delete_eq.
      * rewrite lookup_delete_ne by done. apply Hg.
    + intros id o' [_ Ho']%lookup_delete_Some. by apply Hid.
  - split.
    + intros id. rewrite get_put, Hok. case_decide as Hd.
      * subst. rewrite lookup_insert_eq. by rewrite iarchive_oarchive by done.
      * rewrite lookup_insert_ne by done. apply Hg.
    + intros id o' [[<- <-]|[_ Ho']]%lookup_insert_Some; [done|by apply Hid].
Qed.

Lemma messages_hold os : ∀ db m,
  holds db m → Forall (λ o, finite (serialize o) = true) os → writes_ok db os = true →
  holds (process_messages db os) (foldl message_abs m os).
Proof.
  induction os as [|o os IH]; intros db m Hh; simpl; [done|].
  intros [Hf Hfs]%Forall_cons [Hw Hws]%andb_true_iff. apply IH; [|done..]. by apply message_holds.
Qed.

Lemma read_all_ok es os :
  Forall2 (λ e o, e.2 = oarchive (serialize o) ∧ finite (serialize o) = true) es os →
  read_all es = Ret (reloaded <$> os).
Proof.
  induction 1 as [|[k v] o es os [Hv Hf] _ IH]; [done|]. simpl in *.
  by rewrite Hv, iarchive_oarchive, IH.
Qed.
End laws.
