(* ===== verification/TradeRepository.v ===== *)
(** * repository/trade_repository: the trades in ScyllaDB

    The driver and the database are not code of the program: the classes state what the program
    uses of them.  The table is the one that scylla/trade-repository.txt creates, with the primary
    key (buyer_id, seller_id, timestamp) and a [timestamp] of type [time]. *)

From S2P Require Import Prelude Float DataTypes RingBuffer.

(** ** What the repository uses of the driver *)

(** A text column of a result row: the bytes of the driver's buffer from the column's first one
    on, and the length of the column. *)
Record column := Column { c_bytes : string; c_length : nat }.

(** The values that are bound to an insertion, in the order of the statement's columns. *)
Record bound := Bound {
  bd_buyer_id : string; bd_seller_id : string; bd_buyer_order_id : string;
  bd_seller_order_id : string; bd_instrument : string; bd_timestamp : Z;
  bd_volume : float; bd_price : float
}.
(** A row of a result. *)
Record row := Row {
  rw_buyer_id : column; rw_seller_id : column; rw_buyer_order_id : column;
  rw_seller_order_id : column; rw_instrument : column; rw_timestamp : Z;
  rw_volume : float; rw_price : float
}.
Definition trade_key : Type := string * string * Z.
Definition key_of (r : bound) : trade_key := (bd_buyer_id r, bd_seller_id r, bd_timestamp r).

Class Cassandra (DB : Type) := {
  execute_insert : DB → bound → DB * bool;         (** [true]: the future's code is [CASS_OK] *)
  execute_select_all : DB → option (list row);     (** [None]: another code *)
  execute_select_by_key : DB → trade_key → option (list row);
  execute_query : DB → string → DB * bool;
  cass_time_from_epoch : Z → Z
}.

(** A row that a query returns shows the values of a row of the table. *)
Definition text_shows (c : column) (v : string) : Prop := String.substring 0 (c_length c) (c_bytes c) = v.
Record shows (r : row) (v : bound) : Prop := {
  sh_buyer_id : text_shows (rw_buyer_id r) (bd_buyer_id v);
  sh_seller_id : text_shows (rw_seller_id r) (bd_seller_id v);
  sh_buyer_order_id : text_shows (rw_buyer_order_id r) (bd_buyer_order_id v);
  sh_seller_order_id : text_shows (rw_seller_order_id r) (bd_seller_order_id v);
  sh_instrument : text_shows (rw_instrument r) (bd_instrument v);
  sh_timestamp : rw_timestamp r = bd_timestamp v;
  sh_volume : rw_volume r = bd_volume v;
  sh_price : rw_price r = bd_price v
}.

(** An insertion replaces the row with the same key, the queries show the table's rows, and the
    [time] of a moment is the nanoseconds since midnight. *)
Class CassandraLaws (DB : Type) `{!Cassandra DB} := {
  table : DB → gmap trade_key bound;
  insert_table db r :
    table (execute_insert db r).1
      = if (execute_insert db r).2 then <[key_of r := r]> (table db) else table db;
  select_by_key_table db k rs :
    execute_select_by_key db k = Some rs → Forall2 shows rs (option_list (table db !! k));
  select_all_table db rs :
    execute_select_all db = Some rs →
    ∃ vs, Forall2 shows rs vs ∧ vs ≡ₚ (map_to_list (table db)).*2;
  time_from_epoch secs : (0 ≤ secs)%Z → cass_time_from_epoch secs = ((secs mod 86400) * 10 ^ 9)%Z
}.

(** ** The repository *)

(** The bytes up to the first zero byte. *)
Fixpoint c_string (s : string) : string :=
  match s with
  | EmptyString => EmptyString
  | String c s => if Ascii.eqb c Ascii.zero then EmptyString else String c (c_string s)
  end.

Section repository.
Context {DB : Type} `{!Cassandra DB}.
Implicit Types (db : DB) (trade : Trade).

(** The strings are bound by [c_str()]. *)
Definition save_trade trade db : DB * bool :=
  execute_insert db
    (Bound (c_string (buyer_id trade)) (c_string (seller_id trade))
      (c_string (buyer_order_id trade)) (c_string (seller_order_id trade))
      (c_string (t_instrument trade)) (cass_time_from_epoch (t_timestamp trade))
      (volume trade) (t_price trade)).

(** A string is made of the pointer alone, the length is not used. *)
Definition get_column_string (c : column) : string := c_string (c_bytes c).
Definition get_column_float (v : float) : float := v.
Definition get_column_int64 (v : Z) : Z := v.

Definition convert_to_trade (r : row) : Trade :=
  MkTrade (get_column_string (rw_buyer_id r)) (get_column_string (rw_seller_id r))
    (get_column_string (rw_buyer_order_id r)) (get_column_string (rw_seller_order_id r))
    (get_column_string (rw_instrument r)) (get_column_float (rw_volume r))
    (get_column_float (rw_price r)) (get_column_int64 (rw_timestamp r)).

Definition get_all_trades db : list Trade :=
  match execute_select_all db with
  | Some rows => convert_to_trade <$> rows
  | None => []
  end.

(** The result of [cass_iterator_next] is not looked at: without a row the conversion reads past
    the end of the result. *)
Definition get_trade_by_primary_key (buyer seller : string) (timestamp : Z) db
    : outcome (option Trade) :=
  match execute_select_by_key db (c_string buyer, c_string seller, cass_time_from_epoch timestamp) with
  | None => Ret None
  | Some [] => Err OutOfBounds
  | Some (r :: _) => Ret (Some (convert_to_trade r))
  end.

Definition run_query (query : string) db : DB * bool := execute_query db (c_string query).

(** A turn of [process_messages] with a message; the status is ignored. *)
Definition process_trade db trade : DB := (save_trade trade db).1.
Definition process_trades db (trades : list Trade) : DB := foldl process_trade db trades.
End repository.

(** ** The queue of trades

    [enqueue] runs in the thread of a book, the turns of [process_messages] in the repository's. *)

Section queue.
Context {DB : Type} `{!Cassandra DB}.
Variables (moved : Trade → Trade) (capacity : nat).

Record trade_pipe := TradePipe { tp_ring : ring (T:=Trade); tp_db : DB }.
Implicit Types (p : trade_pipe) (trade : Trade).

Definition enqueue trade : M trade_pipe unit := λ p,
  match push capacity trade (tp_ring p) with
  | Ret r => (TradePipe r (tp_db p), Ret tt)
  | Err e => (p, Err e)
  end.
Definition consume_trade : M trade_pipe bool := λ p,
  match pop moved capacity (tp_ring p) with
  | Ret (Some trade, r) => (TradePipe r (process_trade (tp_db p) trade), Ret true)
  | Ret (None, r) => (TradePipe r (tp_db p), Ret false)
  | Err e => (p, Err e)
  end.
Fixpoint consume_trades (n : nat) : M trade_pipe unit :=
  match n with
  | 0 => mret tt
  | S n => _ ← consume_trade; consume_trades n
  end.

Lemma enqueue_all_ok trades : ∀ p queued,
  holds_queue capacity (tp_ring p) queued → length queued + length trades < capacity →
  ∃ r, forM trades enqueue p = (TradePipe r (tp_db p), Ret tt) ∧ holds_queue capacity r (queued ++ trades).
Proof.
  induction trades as [|trade trades IH]; intros p queued Hr Hroom; cbn [forM].
  { exists (tp_ring p). rewrite app_nil_r. by destruct p. }
  simpl in Hroom.
  destruct (push_holds capacity ltac:(lia) trade _ _ Hr) as (r&E&Hr'); [lia|].
  destruct (IH (TradePipe r (tp_db p)) (queued ++ [trade]) Hr') as (r'&E'&Hr2); [rewrite length_app; simpl; lia|].
  exists r'. erewrite bind_ok by (unfold enqueue; by rewrite E). by rewrite <-app_assoc in Hr2.
Qed.
Lemma consume_trades_ok trades : ∀ p,
  holds_queue capacity (tp_ring p) trades →
  ∃ r, consume_trades (length trades) p = (TradePipe r (process_trades (tp_db p) trades), Ret tt) ∧
    holds_queue capacity r [].
Proof.
  induction trades as [|trade trades IH]; intros p Hr; cbn [consume_trades length].
  { exists (tp_ring p). by destruct p. }
  assert (0 < capacity) as Hc by (pose proof (hq_room _ _ _ Hr); lia).
  destruct (pop_holds moved capacity Hc _ _ _ Hr) as (r&E&Hr').
  destruct (IH (TradePipe r (process_trade (tp_db p) trade)) Hr') as (r'&E'&Hr2).
  exists r'. erewrite bind_ok by (unfold consume_trade; by rewrite E). done.
Qed.

(** Trades that are handed over while there is room in the buffer are saved in their sequence. *)
Theorem enqueued_trades_are_saved p trades :
  holds_queue capacity (tp_ring p) [] → length trades < capacity →
  ∃ r, (forM trades enqueue;; consume_trades (length trades)) p
      = (TradePipe r (process_trades (tp_db p) trades), Ret tt) ∧ holds_queue capacity r [].
Proof.
  intros Hr Hroom. destruct (enqueue_all_ok trades p [] Hr Hroom) as (r&E&Hr').
  rewrite (bind_ok _ _ _ _ _ E). apply (consume_trades_ok trades (TradePipe r (tp_db p)) Hr').
Qed.
End queue.

(** ** What can be read again *)

Section laws.
Context {DB : Type} `{!Cassandra DB, !CassandraLaws DB}.
Implicit Types (db : DB) (trade : Trade).

(** A string without a zero byte. *)
Definition text (s : string) : Prop := c_string s = s.
Record texts trade : Prop := {
  tx_buyer_id : text (buyer_id trade);
  tx_seller_id : text (seller_id trade);
  tx_buyer_order_id : text (buyer_order_id trade);
  tx_seller_order_id : text (seller_order_id trade);
  tx_instrument : text (t_instrument trade)
}.
(** The column is followed by a zero byte. *)
Definition terminated (c : column) : Prop := String.get (c_length c) (c_bytes c) = Some Ascii.zero.
Record row_terminated (r : row) : Prop := {
  te_buyer_id : terminated (rw_buyer_id r);
  te_seller_id : terminated (rw_seller_id r);
  te_buyer_order_id : terminated (rw_buyer_order_id r);
  te_seller_order_id : terminated (rw_seller_order_id r);
  te_instrument : terminated (rw_instrument r)
}.

Lemma c_string_column c v : text v → text_shows c v → terminated c → get_column_string c = v.
Proof.
  unfold text, text_shows, terminated, get_column_string. destruct c as [s n]. simpl.
  revert n v. induction s as [|a s IH]; intros n v Hv Hs Ht; [by destruct n|]. destruct n as [|n]; simpl in *.
  - injection Ht as ->. by subst.
  - subst v. simpl in Hv. destruct (Ascii.eqb a Ascii.zero); [done|]. injection Hv as Hv.
    f_equal. by apply (IH n).
Qed.

(** What comes back of a trade: the time of day in nanoseconds instead of the moment. *)
Definition stored_trade trade : Trade :=
  MkTrade (buyer_id trade) (seller_id trade) (buyer_order_id trade) (seller_order_id trade)
    (t_instrument trade) (volume trade) (t_price trade) ((t_timestamp trade mod 86400) * 10 ^ 9)%Z.

Definition bound_of trade : bound :=
  Bound (buyer_id trade) (seller_id trade) (buyer_order_id trade) (seller_order_id trade)
    (t_instrument trade) ((t_timestamp trade mod 86400) * 10 ^ 9)%Z (volume trade) (t_price trade).
Definition trade_key_of trade : trade_key := key_of (bound_of trade).

Lemma save_trade_table trade db :
  texts trade → (0 ≤ t_timestamp trade)%Z → (save_trade trade db).2 = true →
  table (save_trade trade db).1 = <[trade_key_of trade := bound_of trade]> (table db).
Proof.
  unfold save_trade. intros [-> -> -> -> ->] Ht Hok. by rewrite insert_table, Hok, time_from_epoch.
Qed.

Lemma convert_shows r trade :
  texts trade → shows r (bound_of trade) → row_terminated r → convert_to_trade r = stored_trade trade.
Proof.
  intros [] [] []. unfold convert_to_trade, stored_trade. f_equal; try done; by apply c_string_column.
Qed.

Lemma select_key buyer seller timestamp :
  text buyer → text seller → (0 ≤ timestamp)%Z →
  (c_string buyer, c_string seller, cass_time_from_epoch timestamp)
    = (buyer, seller, ((timestamp mod 86400) * 10 ^ 9)%Z).
Proof. intros -> -> H. by rewrite time_from_epoch. Qed.
End laws.
