(* ===== verification/InstrumentFile.v ===== *)
(** * utils/file_utils.hpp: the file of the instruments

    A file is its characters.  [getline] and the two extractions of a line's [istringstream] are
    the standard library's, in the "C" locale: [>> symbol] skips white space and takes what is not
    white space, [>> value] skips white space, takes the longest run of characters that may stand
    in a decimal floating-point number and converts it, rounding to the nearest [float]. *)

From Stdlib Require Import Ascii.
From S2P Require Import Prelude Float.

Abbreviation chars := (list ascii).

(** ** Characters *)

Definition newline : ascii := "010".
Definition is_space (c : ascii) : bool :=
  let n := nat_of_ascii c in (n =? 32)%nat || (9 <=? n)%nat && (n <=? 13)%nat.
Definition digit_of (c : ascii) : option Z :=
  let n := nat_of_ascii c in
  if (48 <=? n)%nat && (n <=? 57)%nat then Some (Z.of_nat n - 48)%Z else None.

Definition skip_space : chars → chars :=
  fix go s := match s with c :: s' => if is_space c then go s' else s | [] => [] end.

(** The longest prefix of characters with a property, and the rest. *)
Fixpoint span (p : ascii → bool) (s : chars) : chars * chars :=
  match s with
  | c :: s' => if p c then let '(a, b) := span p s' in (c :: a, b) else ([], s)
  | [] => ([], [])
  end.
(** The digits a text starts with. *)
Fixpoint take_digits (s : chars) : list Z * chars :=
  match s with
  | c :: s' =>
      match digit_of c with
      | Some d => let '(ds, r) := take_digits s' in (d :: ds, r)
      | None => ([], s)
      end
  | [] => ([], [])
  end.
Definition number_of (ds : list Z) : Z := foldl (λ n d, 10 * n + d)%Z 0%Z ds.

(** ** The standard library's extractions *)

(** [iss >> symbol]; [None] sets the fail bit. *)
Definition read_word (s : chars) : option (chars * chars) :=
  match span (negb ∘ is_space) (skip_space s) with
  | ([], _) => None
  | r => Some r
  end.

(** The [float] nearest to [num / den], ties to even; [None] when it overflows. *)
Definition round_ratio (num den : Z) : option float :=
  let u := (num * 2 ^ funit binary32)%Z in
  let d := (den * 2 ^ Z.max 0 (Z.log2 (u / den) + 1 - fprec binary32))%Z in
  let q := (u / d)%Z in
  let r := (u mod d)%Z in
  let m := (if 2 * r <? d then q else if d <? 2 * r then q + 1
            else if Z.even q then q else q + 1)%Z in
  let n := (m * (d / den))%Z in
  if (2 ^ ftop binary32 <=? n)%Z then None else Some (Fin n).

Definition read_sign (s : chars) : bool * chars :=
  match s with
  | c :: s' => if Ascii.eqb c "-" then (true, s') else if Ascii.eqb c "+" then (false, s') else (false, s)
  | [] => (false, [])
  end.

(** [iss >> value]: digits with a decimal point, and an exponent when there is an [e]. *)
Definition read_float (s : chars) : option (float * chars) :=
  let '(neg, s) := read_sign (skip_space s) in
  let '(ds, s) := take_digits s in
  let '(fs, s) :=
    match s with
    | c :: s' => if Ascii.eqb c "." then take_digits s' else ([], s)
    | [] => ([], [])
    end in
  if bool_decide (ds ++ fs = []) then None else
  let '(ex, s) :=
    match s with
    | c :: s' =>
        if Ascii.eqb c "e" || Ascii.eqb c "E" then
          let '(eneg, s') := read_sign s' in
          let '(es, s') := take_digits s' in
          (if bool_decide (es = []) then None
           else Some (if eneg : bool then - number_of es else number_of es)%Z, s')
        else (Some 0%Z, s)
    | [] => (Some 0%Z, [])
    end in
  match ex with
  | None => None
  | Some ex =>
      let e := (ex - Z.of_nat (length fs))%Z in
      match round_ratio (number_of (ds ++ fs) * 10 ^ Z.max 0 e)%Z (10 ^ Z.max 0 (- e))%Z with
      | Some x => Some (if neg : bool then fneg x else x, s)
      | None => None
      end
  end.

(** [getline]: the lines of a text; what follows the last newline is a line unless it is empty. *)
Fixpoint lines_of (s : chars) : list chars :=
  match s with
  | [] => []
  | c :: s' =>
      if Ascii.eqb c newline then [] :: lines_of s'
      else match lines_of s' with
           | [] => [[c]]
           | l :: ls => (c :: l) :: ls
           end
  end.

(** ** The function *)

(** What a line contributes. *)
Definition parse_line (line : chars) : option (string * float) :=
  match read_word line with
  | None => None
  | Some (symbol, rest) =>
      match read_float rest with
      | None => None
      | Some (value, _) => Some (String.string_of_list_ascii symbol, value)
      end
  end.
(** [None] is a file that cannot be opened. *)
Definition read_instrument_init_data_from_file (input_file : option chars) : list (string * float) :=
  match input_file with
  | None => []
  | Some s => omap parse_line (lines_of s)
  end.

(** ** Reading what was written *)

Definition digit_char (d : Z) : ascii := ascii_of_nat (48 + Z.to_nat d).
#[local] Arguments digit_char _ : simpl never.
#[local] Arguments digit_of _ : simpl never.
#[local] Arguments is_space _ : simpl never.
Definition is_digit (d : Z) : Prop := (0 ≤ d ≤ 9)%Z.
Definition word (s : chars) : Prop := s ≠ [] ∧ Forall (λ c, is_space c = false) s.

(** The line of an instrument whose price has the digits [ds] and the decimals [fs]. *)
Definition line_of (symbol : chars) (ds fs : list Z) : chars :=
  symbol ++ " "%char :: (digit_char <$> ds) ++ "."%char :: (digit_char <$> fs).
Definition file_of (ls : list chars) : chars := concat ((λ l, l ++ [newline]) <$> ls).

Lemma is_digit_cases d (P : Z → Prop) :
  is_digit d → P 0%Z → P 1%Z → P 2%Z → P 3%Z → P 4%Z → P 5%Z → P 6%Z → P 7%Z → P 8%Z → P 9%Z → P d.
Proof.
  intros [H1 H2]. assert (d = 0 ∨ d = 1 ∨ d = 2 ∨ d = 3 ∨ d = 4 ∨ d = 5 ∨ d = 6 ∨ d = 7 ∨ d = 8 ∨ d = 9)%Z
    as H by lia. clear H1 H2. intros.
  destruct H as [->|[->|[->|[->|[->|[->|[->|[->|[->| ->]]]]]]]]]; assumption.
Qed.

Lemma digit_of_char d : is_digit d → digit_of (digit_char d) = Some d.
Proof. intros H. pattern d. apply is_digit_cases; [exact H|reflexivity..]. Qed.
Lemma digit_not_space d : is_digit d → is_space (digit_char d) = false.
Proof. intros H. pattern d. apply is_digit_cases; [exact H|reflexivity..]. Qed.
Lemma digit_not_sign d :
  is_digit d → Ascii.eqb (digit_char d) "-" = false ∧ Ascii.eqb (digit_char d) "+" = false.
Proof. intros H. pattern d. apply is_digit_cases; [exact H|split; reflexivity..]. Qed.

Lemma digit_of_point : digit_of "." = None.
Proof. reflexivity. Qed.
Lemma space_is_space : is_space " " = true.
Proof. reflexivity. Qed.
#[local] Opaque digit_char digit_of is_space.

Lemma take_digits_app ds c s :
  Forall is_digit ds → digit_of c = None →
  take_digits ((digit_char <$> ds) ++ c :: s) = (ds, c :: s).
Proof.
  intros Hds Hc. induction Hds as [|d ds Hd _ IH].
  - cbn [fmap list_fmap app take_digits]. rewrite Hc. reflexivity.
  - cbn [fmap list_fmap app take_digits]. rewrite (digit_of_char d Hd), IH. reflexivity.
Qed.
Lemma take_digits_all ds : Forall is_digit ds → take_digits (digit_char <$> ds) = (ds, []).
Proof.
  intros Hds. induction Hds as [|d ds Hd _ IH]; [reflexivity|].
  cbn [fmap list_fmap take_digits]. rewrite (digit_of_char d Hd), IH. reflexivity.
Qed.

Lemma span_app (p : ascii → bool) s1 c s2 :
  Forall (λ c, p c = true) s1 → p c = false → span p (s1 ++ c :: s2) = (s1, c :: s2).
Proof.
  intros H Hc. induction H as [|c' s1 Hc' _ IH]; simpl; [by rewrite Hc|]. by rewrite Hc', IH.
Qed.
Lemma span_all (p : ascii → bool) s : Forall (λ c, p c = true) s → span p s = (s, []).
Proof. induction 1 as [|c s Hc _ IH]; simpl; [done|]. by rewrite Hc, IH. Qed.

Lemma word_span s : word s → Forall (λ c, (negb ∘ is_space) c = true) s ∧ skip_space s = s ∧
  ∀ s', skip_space (s ++ s') = s ++ s'.
Proof.
  intros [Hne H]. split; [by eapply Forall_impl; [exact H|]; intros c Hc; simpl; rewrite Hc|].
  destruct H as [|c s Hc _]; [done|]. simpl. by rewrite Hc.
Qed.

Lemma read_word_ok symbol c s :
  word symbol → is_space c = true → read_word (symbol ++ c :: s) = Some (symbol, c :: s).
Proof.
  intros Hw Hc. destruct (word_span _ Hw) as (H&_&Hs). unfold read_word. rewrite Hs.
  rewrite span_app; [|done|simpl; by rewrite Hc]. destruct symbol; [by destruct Hw|done].
Qed.
Lemma read_word_all symbol : word symbol → read_word symbol = Some (symbol, []).
Proof.
  intros Hw. destruct (word_span _ Hw) as (H&Hs&_). unfold read_word. rewrite Hs, span_all by done.
  destruct symbol; [by destruct Hw|done].
Qed.

Lemma digits_head ds s :
  ds ≠ [] → Forall is_digit ds →
  skip_space (" "%char :: (digit_char <$> ds) ++ s) = (digit_char <$> ds) ++ s ∧
  read_sign ((digit_char <$> ds) ++ s) = (false, (digit_char <$> ds) ++ s).
Proof.
  intros Hne Hds. destruct Hds as [|d ds' Hd _]; [by destruct Hne|]. cbn [fmap list_fmap app skip_space read_sign].
  rewrite space_is_space, (digit_not_space d Hd). destruct (digit_not_sign d Hd) as [-> ->].
  split; reflexivity.
Qed.

Lemma read_float_ok ds fs :
  ds ≠ [] → Forall is_digit ds → Forall is_digit fs →
  read_float (" "%char :: (digit_char <$> ds) ++ "."%char :: (digit_char <$> fs))
    = (λ x, (x, [])) <$> round_ratio (number_of (ds ++ fs)) (10 ^ Z.of_nat (length fs)).
Proof.
  intros Hne Hds Hfs. unfold read_float.
  destruct (digits_head ds ("."%char :: (digit_char <$> fs)) Hne Hds) as [-> ->].
  rewrite (take_digits_app ds _ _ Hds digit_of_point). change (Ascii.eqb "." ".") with true.
  cbv iota beta. rewrite (take_digits_all fs Hfs).
  rewrite bool_decide_false by (by destruct ds). cbv iota beta.
  rewrite Z.max_l, Z.max_r, Z.pow_0_r, Z.mul_1_r by lia.
  replace (- (0 - Z.of_nat (length fs)))%Z with (Z.of_nat (length fs)) by lia.
  by destruct (round_ratio _ _).
Qed.

(** *** Numbers that are floats are read exactly *)

Lemma round_ratio_exact num den n :
  (0 < den)%Z → (0 ≤ num)%Z → fits binary32 n → (num * 2 ^ 149 = n * den)%Z →
  round_ratio num den = Some (Fin n).
Proof.
  intros Hd Hnum [Hlt Hgrid] Heq. assert (0 ≤ n)%Z as Hn by nia.
  unfold round_ratio. change (funit binary32) with 149%Z. rewrite Heq, Z.div_mul by lia.
  set (k := Z.max 0 (Z.log2 n + 1 - fprec binary32)).
  assert (grid binary32 n = k) as Hk by (unfold grid, k; by rewrite Z.abs_eq).
  rewrite Hk in Hgrid. assert (0 ≤ k)%Z by (unfold k; lia). clearbody k.
  destruct Hgrid as [m ->].
  assert (0 < 2 ^ k)%Z by (apply Z.pow_pos_nonneg; lia).
  replace (m * 2 ^ k * den)%Z with (m * (den * 2 ^ k))%Z by lia.
  rewrite Z.div_mul, Z.mod_mul by lia. rewrite (Z.mul_comm den), Z.div_mul by lia.
  destruct (Z.ltb_spec (2 * 0) (2 ^ k * den)); [|nia].
  destruct (Z.leb_spec (2 ^ ftop binary32) (m * 2 ^ k)); [lia|done].
Qed.

Lemma number_of_nonneg ds : Forall (Z.le 0) ds → (0 ≤ number_of ds)%Z.
Proof.
  intros H. unfold number_of. assert (∀ n, 0 ≤ n → 0 ≤ foldl (λ n d, 10 * n + d) n ds)%Z as Hf; [|by apply Hf].
  induction H as [|d ds Hd _ IH]; intros n Hn; simpl; [done|]. apply IH. lia.
Qed.
Lemma digits_nonneg ds : Forall is_digit ds → Forall (Z.le 0) ds.
Proof. intros H. eapply Forall_impl; [exact H|]. by intros d []. Qed.

(** *** Lines *)

Lemma lines_of_app l s : newline ∉ l → lines_of (l ++ newline :: s) = l :: lines_of s.
Proof.
  induction l as [|c l IH]; intros Hn; [done|]. rewrite not_elem_of_cons in Hn. destruct Hn as [Hc Hn].
  simpl. destruct (Ascii.eqb_spec c newline) as [->|_]; [done|]. by rewrite IH.
Qed.
Lemma lines_of_file ls : Forall (λ l, newline ∉ l) ls → lines_of (file_of ls) = ls.
Proof.
  unfold file_of. induction 1 as [|l ls Hl _ IH]; [done|]. csimpl. rewrite <-app_assoc. simpl.
  by rewrite lines_of_app, IH.
Qed.

Lemma parse_line_ok symbol ds fs n :
  word symbol → ds ≠ [] → Forall is_digit ds → Forall is_digit fs → fits binary32 n →
  (number_of (ds ++ fs) * 2 ^ 149 = n * 10 ^ Z.of_nat (length fs))%Z →
  parse_line (line_of symbol ds fs) = Some (String.string_of_list_ascii symbol, Fin n).
Proof.
  intros Hw Hne Hds Hfs Hfit Heq. unfold parse_line, line_of. rewrite read_word_ok by done.
  rewrite read_float_ok by done. rewrite (round_ratio_exact _ _ n); try done.
  - apply Z.pow_pos_nonneg; lia.
  - apply number_of_nonneg, digits_nonneg, Forall_app. by split.
Qed.
Lemma parse_line_word symbol : word symbol → parse_line symbol = None.
Proof. intros Hw. unfold parse_line. by rewrite read_word_all. Qed.

(** An entry of a file: an instrument with its digits, decimals and price, or a word that has no
    price next to it. *)
Definition entry : Type := chars * option (list Z * list Z * Z).
Definition entry_line (e : entry) : chars :=
  match e with (symbol, Some (ds, fs, _)) => line_of symbol ds fs | (symbol, None) => symbol end.
Definition entry_value (e : entry) : option (string * float) :=
  match e with
  | (symbol, Some (_, _, n)) => Some (String.string_of_list_ascii symbol, Fin n)
  | (_, None) => None
  end.
Definition entry_ok (e : entry) : Prop :=
  match e with
  | (symbol, Some (ds, fs, n)) =>
      word symbol ∧ ds ≠ [] ∧ Forall is_digit ds ∧ Forall is_digit fs ∧ fits binary32 n ∧
      (number_of (ds ++ fs) * 2 ^ 149 = n * 10 ^ Z.of_nat (length fs))%Z
  | (symbol, None) => word symbol
  end.

Lemma newline_is_space : is_space newline = true.
Proof. with_strategy transparent [is_space] reflexivity. Qed.
Lemma word_newline s : word s → newline ∉ s.
Proof.
  intros [_ H] Hin. rewrite Forall_forall in H. specialize (H _ Hin).
  rewrite newline_is_space in H. discriminate.
Qed.
Lemma digits_newline ds : Forall is_digit ds → newline ∉ digit_char <$> ds.
Proof.
  intros H (d&Heq&Hd)%list_elem_of_fmap. rewrite Forall_forall in H.
  pose proof (digit_not_space d (H d Hd)) as Hs. rewrite <-Heq, newline_is_space in Hs. discriminate.
Qed.
Lemma entry_newline e : entry_ok e → newline ∉ entry_line e.
Proof.
  destruct e as [symbol [[[ds fs] n]|]]; simpl; [|apply word_newline].
  intros (Hw%word_newline&_&Hds%digits_newline&Hfs%digits_newline&_). unfold line_of.
  rewrite elem_of_app, elem_of_cons, elem_of_app, elem_of_cons.
  intros [?|[?|[?|[?|?]]]]; auto; discriminate.
Qed.
Lemma entry_parsed e : entry_ok e → parse_line (entry_line e) = entry_value e.
Proof.
  destruct e as [symbol [[[ds fs] n]|]]; simpl; [|apply parse_line_word].
  intros (?&?&?&?&?&?). by apply parse_line_ok.
Qed.

Lemma file_read es :
  Forall entry_ok es →
  read_instrument_init_data_from_file (Some (file_of (entry_line <$> es))) = omap entry_value es.
Proof.
  intros Hes. unfold read_instrument_init_data_from_file. rewrite lines_of_file.
  - induction Hes as [|e es He _ IH]; [done|]. csimpl. by rewrite (entry_parsed e He), IH.
  - apply Forall_fmap. eapply Forall_impl; [exact Hes|]. intros e. apply entry_newline.
Qed.
