(* ===== verification/Exchange.v ===== *)
(** * exchange/exchange.cpp: the instruments and their books

    A request names an instrument; the exchange finds its book and the index of its worker
    thread, hands the worker a task and waits for its result.  [operator[]] of the two maps inserts
    an empty entry for a name it does not hold.  The order of a request is a new object, so
    [add_order] and [modify_order] take it by value and allocate it in the book's heap. *)

From S2P Require Import Prelude Float RBTree DataTypes OrderBook OBAdd Calendar Repository.

Record exchange := Exchange {
  instruments : gmap string (option book);
  instrument_idx : gmap string Z;
  workers : nat;
  working : bool
}.

Definition put_instruments (v : gmap string (option book)) (e : exchange) : exchange :=
  Exchange v (instrument_idx e) (workers e) (working e).
Definition put_instrument_idx (v : gmap string Z) (e : exchange) : exchange :=
  Exchange (instruments e) v (workers e) (working e).
Definition set_working (v : bool) : M exchange unit :=
  modify (λ e, Exchange (instruments e) (instrument_idx e) (workers e) v).

Definition u32 (z : Z) : Z := (z mod 2 ^ 32)%Z.

Section exchange.
(** [time(0)] *)
Variable now : Z.
Implicit Types (instrument : string) (e : exchange).

(** [_instruments[instrument]] and [_instrument_idx[instrument]] *)
Definition subscript_instruments instrument : M exchange unit :=
  modify (λ e, match instruments e !! instrument with
               | Some _ => e
               | None => put_instruments (<[instrument := None]> (instruments e)) e
               end).
Definition subscript_idx instrument : M exchange Z := λ e,
  match instrument_idx e !! instrument with
  | Some i => (e, Ret i)
  | None => (put_instrument_idx (<[instrument := 0%Z]> (instrument_idx e)) e, Ret 0%Z)
  end.

(** A method of the book behind the reference; an empty entry holds a null pointer. *)
Definition on_book {A} instrument (m : M book A) : M exchange A := λ e,
  match instruments e !! instrument with
  | Some (Some b) =>
      let '(b', r) := m b in (put_instruments (<[instrument := Some b']> (instruments e)) e, r)
  | _ => (e, Err NullDeref)
  end.

(** [enqueue_task] and [future.get()]: the task runs in the worker with that index. *)
Definition enqueue_task {A} (thread_id : Z) (task_function : M exchange A) : M exchange A :=
  n ← gets workers;
  if (thread_id <? Z.of_nat n)%Z then task_function else fail OutOfBounds.

Definition run_in_book {A} instrument (task : M book A) : M exchange A :=
  subscript_instruments instrument;;
  thread_id ← subscript_idx instrument;
  enqueue_task thread_id (on_book instrument task).

Definition add_order instrument (x : order) : M exchange OrderStatus :=
  run_in_book instrument (order ← alloc_order x; OrderBook.add_order now order).
Definition modify_order instrument (x : order) : M exchange OrderStatus :=
  run_in_book instrument (order ← alloc_order x; OrderBook.modify_order order).
Definition cancel_order instrument (order_id : string) : M exchange OrderStatus :=
  run_in_book instrument (OrderBook.cancel_order order_id).

(** The order is read from the store, in the calling thread. *)
Definition get_order {DB} `{!Database DB} `{!Archive} (db : DB) (order_id : string)
    : outcome (option order) := Repository.get order_id db.

(** The snapshot is taken in the calling thread. *)
Definition get_orderbook_snapshot instrument : M exchange Snapshot :=
  subscript_instruments instrument;;
  on_book instrument get_snapshot.

Definition instrument_exists instrument : M exchange bool :=
  gets (λ e, bool_decide (is_Some (instruments e !! instrument))).
Definition is_working : M exchange bool := gets working.

(** The constructor of a book, given what [order_repository->get_all()] returned. *)
Definition loaded_heap (loaded : list order) : gmap nat order :=
  list_to_map (zip (seq 0 (length loaded)) loaded).
Definition open_book instrument (price : float) (loaded : list order) : outcome book :=
  match load_orders (seq 0 (length loaded)) (new_book instrument price (loaded_heap loaded)) with
  | (b, Ret _) => Ret b
  | (_, Err err) => Err err
  end.

(** [emplace] does not replace an entry. *)
Definition emplace instrument (b : book) (m : gmap string (option book)) :=
  match m !! instrument with Some _ => m | None => <[instrument := Some b]> m end.

Definition add_instrument instrument (starting_price : float) (loaded : list order)
    : M exchange bool :=
  found ← instrument_exists instrument;
  if found : bool then mret false else
  modify (λ e, put_instrument_idx
    (<[instrument := u32 (Z.of_nat (size (instruments e)))]> (instrument_idx e)) e);;
  match open_book instrument starting_price loaded with
  | Ret b => modify (λ e, put_instruments (emplace instrument b (instruments e)) e);; mret true
  | Err err => fail err
  end.

(** The constructor, its loop over [instruments_info] from the index [idx]. *)
Fixpoint init_instruments (infos : list (string * float)) (loaded : list order) (idx : nat)
    : M exchange unit :=
  match infos with
  | [] => mret tt
  | (instrument, price) :: infos =>
      modify (λ e, put_instrument_idx
        (<[instrument := u32 (Z.of_nat idx)]> (instrument_idx e)) e);;
      match open_book instrument price loaded with
      | Ret b => modify (λ e, put_instruments (emplace instrument b (instruments e)) e)
      | Err err => fail err
      end;;
      init_instruments infos loaded (S idx)
  end.
Definition new_exchange (infos : list (string * float)) (loaded : list order)
    (ignore_working_hours : bool) : exchange * outcome unit :=
  (init_instruments infos loaded 0;;
   modify (λ e, Exchange (instruments e) (instrument_idx e) (length infos) ignore_working_hours))
    (Exchange ∅ ∅ 0 false).

(** ** The thread that opens and closes the exchange *)

(** The members of [std::tm] that the code uses. *)
Record tm := Tm { tm_sec : Z; tm_min : Z; tm_hour : Z; tm_mday : Z; tm_mon : Z; tm_year : Z }.

Definition opening_h : Z := 9.
Definition opening_m : Z := 30.
Definition closing_h : Z := 17.
Definition closing_m : Z := 30.

Definition at_opening (mday : Z) (local_time : tm) : tm :=
  Tm 0 opening_m opening_h mday (tm_mon local_time) (tm_year local_time).

(** The time a turn of the loop sleeps until, before [mktime] normalises it. *)
Definition target_time (local_time : tm) : outcome tm :=
  let curr_h := tm_hour local_time in
  let curr_m := tm_min local_time in
  if ((curr_h <? opening_h) || (curr_h =? opening_h) && (curr_m <? opening_m))%Z then
    Ret (at_opening (tm_mday local_time) local_time)
  else if ((curr_h <? closing_h) || (curr_h =? closing_h) && (curr_m <? closing_m))%Z then
    Ret (at_opening (tm_mday local_time) local_time)
  else
    match day_of_week (tm_mday local_time) (tm_mon local_time) (tm_year local_time) with
    | Ret dow =>
        let mday :=
          (if dow =? 5 then tm_mday local_time + 3
           else if dow =? 6 then tm_mday local_time + 2 else tm_mday local_time + 1)%Z in
        Ret (at_opening mday local_time)
    | Err err => Err err
    end.

Definition check_date_orders : M exchange unit :=
  names ← gets (λ e, (map_to_list (instruments e)).*1);
  forM names (λ instrument, on_book instrument (OrderBook.check_date_orders now)).

(** What the turn does once it has slept; the time of day is the one from before the sleep. *)
Definition after_sleep (local_time : tm) : M exchange unit :=
  let curr_h := tm_hour local_time in
  let curr_m := tm_min local_time in
  if ((curr_h =? opening_h) && (curr_m =? opening_m))%Z then set_working true
  else if ((curr_h =? closing_h) && (curr_m =? closing_m))%Z then
    set_working false;; check_date_orders
  else mret tt.

(** A turn that started at [local_time]: the sleep, and what follows it. *)
Definition is_working_turn (local_time : tm) : M exchange tm :=
  match target_time local_time with
  | Ret target => after_sleep local_time;; mret target
  | Err err => fail err
  end.
End exchange.
