(* ===== verification/ExchangeSpec.v ===== *)
(** * The exchange: routing, isolation, and the well-formed exchange

    An instrument is served when its book exists and its worker is one of the thread pool's.  The
    constructor makes an exchange that serves every instrument with a well-formed book, and adding
    orders keeps it so. *)

From S2P Require Import Prelude Float RBTree DataTypes OrderBook OBInv OBAdd Calendar Exchange.

Section routing.
Implicit Types (e : exchange) (inst : string) (b : book).

Definition serves e inst b : Prop :=
  instruments e !! inst = Some (Some b) ∧
  ∃ i, instrument_idx e !! inst = Some i ∧ (i < Z.of_nat (workers e))%Z.
Definition with_book inst b e : exchange :=
  put_instruments (<[inst := Some b]> (instruments e)) e.

(** A task of a served instrument runs on its book, and changes nothing else. *)
Lemma run_in_book_ok {A} e inst b (task : M book A) b' r :
  serves e inst b → task b = (b', r) → run_in_book inst task e = (with_book inst b' e, r).
Proof.
  intros (Hb&i&Hi&Hlt) Ht. unfold run_in_book, subscript_instruments. rewrite bind_modify, Hb.
  erewrite bind_ok by (unfold subscript_idx; rewrite Hi; reflexivity).
  unfold enqueue_task. rewrite bind_gets, (proj2 (Z.ltb_lt _ _)) by done.
  unfold on_book. by rewrite Hb, Ht.
Qed.

(** For a name that has no entry: an empty one is made, and then a null pointer is followed or
    the thread pool is indexed past its end. *)
Lemma run_in_book_unknown {A} e inst (task : M book A) :
  instruments e !! inst = None →
  ∃ e' err, run_in_book inst task e = (e', Err err) ∧ instruments e' = <[inst := None]> (instruments e).
Proof.
  intros Hn. unfold run_in_book, subscript_instruments. rewrite bind_modify, Hn.
  set (e1 := put_instruments _ e).
  assert (∃ e2 i, subscript_idx inst e1 = (e2, Ret i) ∧ instruments e2 = instruments e1) as (e2&i&E&He2).
  { unfold subscript_idx. destruct (instrument_idx e1 !! inst); eauto. }
  erewrite bind_ok by exact E. unfold enqueue_task. rewrite bind_gets.
  destruct (i <? _)%Z; [|by exists e2, OutOfBounds].
  exists e2, NullDeref. split; [|done]. unfold on_book. rewrite He2. unfold e1. simpl.
  by rewrite lookup_insert_eq.
Qed.
End routing.

(** No task opens or closes the exchange. *)
Section working.
Lemma keeps_working_on_book {A} inst (m : M book A) : keeps working (on_book inst m).
Proof. intros e. unfold on_book. case_match; [|done]. case_match; [|done]. by destruct (m _). Qed.
Lemma keeps_working_subscripts inst :
  keeps working (subscript_instruments inst) ∧ keeps working (subscript_idx inst).
Proof.
  split; intros e; unfold subscript_instruments, subscript_idx, modify; simpl; by case_match.
Qed.
Lemma keeps_working_run_in_book {A} inst (m : M book A) : keeps working (run_in_book inst m).
Proof.
  destruct (keeps_working_subscripts inst) as [H1 H2]. unfold run_in_book, enqueue_task.
  apply keeps_bind; [exact H1|intros _]. apply keeps_bind; [exact H2|intros i].
  apply keeps_bind; [apply keeps_gets|intros n]. case_match; [apply keeps_working_on_book|apply keeps_fail].
Qed.
Lemma keeps_working_snapshot inst : keeps working (get_orderbook_snapshot inst).
Proof.
  apply keeps_bind; [apply keeps_working_subscripts|intros _; apply keeps_working_on_book].
Qed.
End working.

Section invariant.
Variable now : Z.
Implicit Types (e : exchange) (inst : string) (b : book).

Definition exchange_ok e : Prop :=
  ∀ inst ob, instruments e !! inst = Some ob →
    ∃ b a, ob = Some b ∧ serves e inst b ∧ book_ok b a.

Lemma with_book_ok e inst b b' a' :
  exchange_ok e → serves e inst b → book_ok b' a' → exchange_ok (with_book inst b' e).
Proof.
  intros He (Hb&i&Hi&Hlt) Hb' j ob. unfold with_book, serves. simpl.
  destruct (decide (j = inst)) as [->|Hne].
  - rewrite lookup_insert_eq. intros [= <-]. exists b', a'. split_and!; [done..| |done].
    eauto.
  - rewrite lookup_insert_ne by done. apply He.
Qed.

Lemma add_order_routed e inst b x :
  exchange_ok e → instruments e !! inst = Some (Some b) → valid_order x →
  b_orders b !! o_id x = None →
  ∃ b' st, submit now x b = (b', Ret st) ∧
    Exchange.add_order now inst x e = (with_book inst b' e, Ret st) ∧
    exchange_ok (with_book inst b' e).
Proof.
  intros He Hi Hx Hid. destruct (He _ _ Hi) as (b0&a&[= <-]&Hs&Hb).
  destruct (alloc_order_ok b a x Hb Hx Hid) as (b1&ord&E1&Hb1&Hin&_).
  destruct (add_abs b1 a ord x) as [[st mp] a1] eqn:Ha.
  destruct (add_order_ok now _ _ _ _ _ _ _ Hb1 Hin Ha) as (b2&E2&Had).
  exists b2, st. assert (submit now x b = (b2, Ret st)) as E.
  { unfold submit. erewrite bind_ok by exact E1. exact E2. }
  split; [exact E|]. split; [by apply (run_in_book_ok _ _ b)|].
  eapply with_book_ok; [done|done|]. apply Had.
Qed.

(** *** The constructor *)

Definition init_ok e (k : nat) : Prop :=
  ∀ inst ob, instruments e !! inst = Some ob →
    ∃ b a i, ob = Some b ∧ book_ok b a ∧ instrument_idx e !! inst = Some i ∧ (0 ≤ i < Z.of_nat k)%Z.

Lemma u32_small z : (0 ≤ z < 2 ^ 32)%Z → u32 z = z.
Proof. apply Z.mod_small. Qed.

Lemma emplace_lookup inst b m j ob :
  emplace inst b m !! j = Some ob → (j = inst ∧ m !! inst = None ∧ ob = Some b) ∨ m !! j = Some ob.
Proof.
  unfold emplace. destruct (m !! inst) eqn:Hm; [by right|].
  rewrite lookup_insert_Some. naive_solver.
Qed.

Lemma open_book_nil inst price : open_book inst price [] = Ret (new_book inst price ∅).
Proof. done. Qed.

Lemma init_instruments_ok infos : ∀ k e,
  (Z.of_nat (k + length infos) ≤ 2 ^ 32)%Z → init_ok e k →
  ∃ e', init_instruments infos [] k e = (e', Ret tt) ∧ init_ok e' (k + length infos) ∧
    (∀ j, is_Some (instruments e' !! j) ↔ is_Some (instruments e !! j) ∨ j ∈ infos.*1) ∧
    workers e' = workers e.
Proof.
  induction infos as [|[inst price] infos IH]; intros k e Hk He;
    cbn [init_instruments length] in *.
  { exists e. rewrite Nat.add_0_r. split_and!; try done. intros j. csimpl. rewrite elem_of_nil. tauto. }
  rewrite bind_modify, open_book_nil. set (b := new_book inst price ∅). rewrite bind_modify. set (e1 := put_instruments _ _).
  destruct (IH (S k) e1) as (e'&E&Hok&Hex&Hw); [lia| |].
  - intros j ob Hj. unfold e1 in *. simpl in *.
    apply emplace_lookup in Hj as [(->&_&->)|Hj].
    + exists b, empty_abook, (u32 (Z.of_nat k)). split; [done|]. split; [apply new_book_ok|].
      rewrite lookup_insert_eq, u32_small by lia. split; [done|lia].
    + destruct (He _ _ Hj) as (b0&a0&i&->&Hb0&Hi&Hlt). destruct (decide (j = inst)) as [->|Hne].
      * exists b0, a0, (u32 (Z.of_nat k)). rewrite lookup_insert_eq, u32_small by lia.
        split; [done|]. split; [done|]. split; [done|lia].
      * exists b0, a0, i. rewrite lookup_insert_ne by done. split; [done|].
        split; [done|]. split; [done|lia].
  - exists e'. split; [exact E|]. split; [by replace (k + S (length infos)) with (S k + length infos) by lia|].
    split; [|by rewrite Hw]. intros j. csimpl. rewrite Hex, elem_of_cons. unfold e1. simpl. unfold emplace.
    destruct (instruments e !! inst) as [ob|] eqn:Hi.
    + split; [tauto|]. intros [?|[->|?]]; [tauto| |tauto]. left. by exists ob.
    + rewrite lookup_insert_is_Some. destruct (decide (inst = j)) as [<-|Hne]; [naive_solver|].
      naive_solver.
Qed.

Lemma new_exchange_ok infos ignore :
  (Z.of_nat (length infos) ≤ 2 ^ 32)%Z →
  ∃ e, new_exchange infos [] ignore = (e, Ret tt) ∧ exchange_ok e ∧
    (∀ j, is_Some (instruments e !! j) ↔ j ∈ infos.*1) ∧
    workers e = length infos ∧ working e = ignore.
Proof.
  intros Hk. destruct (init_instruments_ok infos 0 (Exchange ∅ ∅ 0 false)) as (e'&E&Hok&Hex&_).
  { done. } { intros inst ob. simpl. by rewrite lookup_empty. }
  unfold new_exchange. erewrite bind_ok by exact E. eexists. split; [reflexivity|]. split; [|split; [|done]].
  - intros inst ob Hi. destruct (Hok _ _ Hi) as (b&a&i&->&Hb&Hidx&Hlt). exists b, a.
    split; [done|]. split; [|done]. split; [done|]. exists i. split; [done|]. simpl in *. lia.
  - intros j. simpl. rewrite Hex. simpl. rewrite lookup_empty. split; [|auto].
    by intros [[? ?]|?].
Qed.

(** *** Adding an instrument *)

Lemma add_instrument_ok e inst price :
  instruments e !! inst = None →
  add_instrument inst price [] e =
    (put_instruments (<[inst := Some (new_book inst price ∅)]> (instruments e))
      (put_instrument_idx (<[inst := u32 (Z.of_nat (size (instruments e)))]> (instrument_idx e)) e),
     Ret true).
Proof.
  intros Hn. unfold add_instrument, instrument_exists. rewrite bind_gets, Hn.
  rewrite bool_decide_false by (by intros []). rewrite bind_modify.
  rewrite open_book_nil, bind_modify. unfold emplace. simpl. by rewrite Hn.
Qed.
End invariant.
