(* ===== verification/Independence.v ===== *)
(** * Instruments do not disturb each other

    Requests for several instruments come in some order, and the worker of each instrument handles
    those for its book.  What happens to a book, and what its clients are answered, is what the
    book alone does with its own requests; so two orders of arrival that agree on every instrument
    lead to the same exchange. *)

From S2P Require Import Prelude DataTypes OrderBook OBAdd Exchange ExchangeSpec.

(** The requests that a worker handles, as they reach the exchange and as its book runs them. *)
Inductive book_request :=
  | AddRequest (now : Z) (x : order)
  | ModifyRequest (x : order)
  | CancelRequest (order_id : string).

Definition on_the_book (r : book_request) : M book OrderStatus :=
  match r with
  | AddRequest now x => submit now x
  | ModifyRequest x => order ← alloc_order x; OrderBook.modify_order order
  | CancelRequest order_id => OrderBook.cancel_order order_id
  end.
Definition on_the_exchange (inst : string) (r : book_request) : M exchange OrderStatus :=
  match r with
  | AddRequest now x => Exchange.add_order now inst x
  | ModifyRequest x => Exchange.modify_order inst x
  | CancelRequest order_id => Exchange.cancel_order inst order_id
  end.

Section requests.
Context {St Req Ans : Type} (serve_one : Req → M St Ans).

(** Requests one after the other; one that fails leaves what it had changed. *)
Fixpoint serve_all (rs : list Req) (s : St) : St * list (outcome Ans) :=
  match rs with
  | [] => (s, [])
  | r :: rs =>
      let '(s1, a) := serve_one r s in
      let '(s2, rest) := serve_all rs s1 in (s2, a :: rest)
  end.
Lemma serve_all_cons r rs s :
  serve_all (r :: rs) s =
    ((serve_all rs (serve_one r s).1).1, (serve_one r s).2 :: (serve_all rs (serve_one r s).1).2).
Proof. simpl. destruct (serve_one r s) as [s1 a]. simpl. by destruct (serve_all rs s1). Qed.
End requests.

Abbreviation serve_book := (serve_all on_the_book).
Abbreviation serve_exchange := (serve_all (λ p, on_the_exchange p.1 p.2)).

(** What of a sequence belongs to an instrument; [names] tells whose each element is. *)
Definition for_instrument {A} (inst : string) (names : list string) (xs : list A) : list A :=
  (zip names xs) ≫= λ p, if decide (p.1 = inst) then [p.2] else [].
Definition requests_for inst (rs : list (string * book_request)) : list book_request :=
  for_instrument inst rs.*1 rs.*2.
Definition answers_for inst (rs : list (string * book_request)) (e : exchange)
    : list (outcome OrderStatus) :=
  for_instrument inst rs.*1 (serve_exchange rs e).2.

Section independence.
Implicit Types (e : exchange) (inst : string) (rs : list (string * book_request)).

Definition served e inst : Prop := ∃ b, serves e inst b.

Lemma for_instrument_cons {A} inst name names (x : A) xs :
  for_instrument inst (name :: names) (x :: xs) =
    if decide (name = inst) then x :: for_instrument inst names xs else for_instrument inst names xs.
Proof. unfold for_instrument. simpl. by case_decide. Qed.

Lemma requests_for_cons inst name r rs :
  requests_for inst ((name, r) :: rs) =
    if decide (name = inst) then r :: requests_for inst rs else requests_for inst rs.
Proof. apply for_instrument_cons. Qed.
Lemma requests_for_app inst rs rs' :
  requests_for inst (rs ++ rs') = requests_for inst rs ++ requests_for inst rs'.
Proof.
  induction rs as [|[name r] rs IH]; [done|]. cbn [app]. rewrite !requests_for_cons.
  case_decide; simpl; by rewrite IH.
Qed.
Lemma answers_for_cons inst name r rs e e1 a :
  on_the_exchange name r e = (e1, a) →
  answers_for inst ((name, r) :: rs) e =
    if decide (name = inst) then a :: answers_for inst rs e1 else answers_for inst rs e1.
Proof.
  intros E. unfold answers_for. rewrite serve_all_cons. cbn [fst snd fmap list_fmap]. rewrite E.
  apply for_instrument_cons.
Qed.

Lemma on_the_exchange_eq inst r : on_the_exchange inst r = run_in_book inst (on_the_book r).
Proof. by destruct r. Qed.
Lemma serves_with_book e inst b b' j c :
  serves e inst b → serves e j c →
  serves (with_book inst b' e) j (if decide (j = inst) then b' else c).
Proof.
  intros [Hb _] [Hc Hi]. split; [|done]. unfold with_book. simpl.
  case_decide as Hd; [subst; apply lookup_insert_eq|by rewrite lookup_insert_ne].
Qed.

(** Each book runs its own requests, with its own answers, and nothing else changes. *)
Lemma serve_exchange_books rs : ∀ e,
  (∀ inst, inst ∈ rs.*1 → served e inst) →
  let e' := (serve_exchange rs e).1 in
  (∀ inst b, serves e inst b →
    serves e' inst (serve_book (requests_for inst rs) b).1 ∧
    answers_for inst rs e = (serve_book (requests_for inst rs) b).2) ∧
  (∀ inst, ¬ served e inst → instruments e' !! inst = instruments e !! inst) ∧
  instrument_idx e' = instrument_idx e ∧ workers e' = workers e ∧ working e' = working e.
Proof.
  induction rs as [|[name r] rs IH]; intros e Hserved; cbn zeta; [by split_and!|].
  destruct (Hserved name) as [b0 Hb0]; [left|].
  destruct (on_the_book r b0) as [b1 a] eqn:E.
  assert (on_the_exchange name r e = (with_book name b1 e, a)) as Er.
  { rewrite on_the_exchange_eq. by apply (run_in_book_ok e name b0). }
  rewrite serve_all_cons. cbn [fst snd]. rewrite Er. cbn [fst snd].
  destruct (IH (with_book name b1 e)) as (H1&H2&H3).
  { intros j Hj. destruct (Hserved j) as [c Hc]; [by right|]. eexists. by eapply serves_with_book. }
  split_and!; [| |apply H3..].
  - intros inst b Hb. destruct (H1 inst _ (serves_with_book e name b0 b1 inst b Hb0 Hb)) as [Hs Ha].
    rewrite requests_for_cons, (answers_for_cons _ _ _ _ _ _ _ Er).
    destruct (decide (inst = name)) as [->|Hne].
    + rewrite !decide_True by done. assert (b = b0) as ->.
      { destruct Hb as [Hb _], Hb0 as [Hb0 _]. congruence. }
      rewrite serve_all_cons, E. cbn [fst snd]. split; [exact Hs|]. by rewrite Ha.
    + rewrite !decide_False by done. by split.
  - intros inst Hn. assert (inst ≠ name) as Hne by (intros ->; apply Hn; by exists b0).
    rewrite H2; [by apply lookup_insert_ne|]. intros [c [Hc Hi]]. apply Hn. exists c.
    split; [|done]. unfold with_book in Hc. simpl in Hc. by rewrite lookup_insert_ne in Hc.
Qed.

Lemma for_instrument_none {A} inst names : ∀ xs : list A,
  inst ∉ names → for_instrument inst names xs = [].
Proof.
  induction names as [|name names IH]; intros [|x xs]; try done.
  rewrite not_elem_of_cons, for_instrument_cons. intros [Hne Hn]. rewrite decide_False by done. by apply IH.
Qed.
Lemma requests_for_name inst rs : requests_for inst rs ≠ [] ↔ inst ∈ rs.*1.
Proof.
  induction rs as [|[name r] rs IH]; csimpl; [by rewrite elem_of_nil|].
  rewrite requests_for_cons, elem_of_cons. case_decide; naive_solver.
Qed.
#[export] Instance served_dec e inst : Decision (served e inst).
Proof.
  refine (cast_if (decide (is_Some (instruments e !! inst ≫= id) ∧
    from_option (λ i, i <? Z.of_nat (workers e))%Z false (instrument_idx e !! inst) = true)));
    unfold served, serves.
  - destruct a as [[b Hb] Hi]. apply bind_Some in Hb as ([c|]&Hc&Hb); [|done].
    destruct (instrument_idx e !! inst) as [i|] eqn:Ei; [|done]. apply Z.ltb_lt in Hi. eauto.
  - intros (b&Hb&i&Hi&Hlt). apply n. rewrite Hb, Hi. simpl. split; [eauto|by apply Z.ltb_lt].
Defined.

Lemma exchange_ext e1 e2 :
  instruments e1 = instruments e2 → instrument_idx e1 = instrument_idx e2 →
  workers e1 = workers e2 → working e1 = working e2 → e1 = e2.
Proof. destruct e1, e2; simpl; congruence. Qed.

Lemma same_requests_same_exchange e rs rs' :
  (∀ inst, inst ∈ rs.*1 → served e inst) →
  (∀ inst, requests_for inst rs = requests_for inst rs') →
  (serve_exchange rs e).1 = (serve_exchange rs' e).1 ∧
  ∀ inst, answers_for inst rs e = answers_for inst rs' e.
Proof.
  intros Hs Heq. assert (∀ inst, inst ∈ rs'.*1 → served e inst) as Hs'.
  { intros inst. rewrite <-requests_for_name, <-Heq, requests_for_name. apply Hs. }
  destruct (serve_exchange_books rs e Hs) as (H1&H2&Hi&Hw&Hr).
  destruct (serve_exchange_books rs' e Hs') as (H1'&H2'&Hi'&Hw'&Hr').
  split.
  - apply exchange_ext; [|congruence..]. apply map_eq. intros inst.
    destruct (decide (served e inst)) as [[b Hb]|Hn]; [|by rewrite H2, H2'].
    destruct (H1 _ _ Hb) as [[-> _] _], (H1' _ _ Hb) as [[-> _] _]. by rewrite Heq.
  - intros inst. destruct (decide (served e inst)) as [[b Hb]|Hn].
    + destruct (H1 _ _ Hb) as [_ ->], (H1' _ _ Hb) as [_ ->]. by rewrite Heq.
    + unfold answers_for. rewrite !for_instrument_none; [done|by intros ?%Hs'|by intros ?%Hs].
Qed.

(** C10: requests for different instruments commute.  When two sequences of requests (to add, to
    modify and to cancel) have the same requests in the same order for every instrument, however
    they are interleaved, the exchange ends in the same state and every client gets the same
    answer, failures included. *)
Theorem instruments_are_independent e rs rs' :
  (∀ inst, inst ∈ rs.*1 → served e inst) →
  (∀ inst, requests_for inst rs = requests_for inst rs') →
  (serve_exchange rs e).1 = (serve_exchange rs' e).1 ∧
  ∀ inst, answers_for inst rs e = answers_for inst rs' e.
Proof. apply same_requests_same_exchange. Qed.
End independence.
