(* ===== verification/Concurrency.v ===== *)
(** * The workers and the books together

    [Exchange.v] runs a task where it hands it to a worker.  Here the tasks go through the ring
    buffers: a request is handed to the worker with the index of its instrument, the steps of all
    producers and all workers are interleaved in any way, and a worker runs a task on its book when
    its [pop] has returned it.  What the books come to is what handling the requests one after the
    other makes of them. *)

From S2P Require Import Prelude DataTypes OrderBook RingBuffer ThreadPool Exchange ExchangeSpec.
From S2P Require Import Independence.

(** ** What a worker's buffer holds

    Every task that is handed to a worker has a property, so that every task that it has pushed and
    the one that is on its way have it. *)
Section carried.
Context {T : Type}.
Variables (moved : T → T) (initial : T) (capacity : nat) (P : T → Prop).
Hypothesis capacity_pos : 0 < capacity.
Implicit Types (w : system (T:=T)).

Definition carries w : Prop :=
  Forall P (pushed w) ∧
  match prod w with
  | PIdle => True
  | PLoop v | PRefresh v _ _ | PWrite v _ _ => P v
  | PStore _ => ∀ v, slots (ring_of w) !! write_pos (ring_of w) = Some v → P v
  end.

Lemma carries_published w : carries w → Forall P (published (prod w) (ring_of w)).
Proof.
  intros [_ Hp]. unfold published. destruct (prod w); try by constructor.
  destruct (_ !! _) as [v|] eqn:E; simpl; [by repeat constructor; apply Hp|constructor].
Qed.
Lemma carries_call w v : carries w → P v → carries (task_enqueue v w).
Proof. by intros [? _]. Qed.
Lemma carries_push w q r :
  positions capacity w → carries w → push_step capacity (prod w) (ring_of w) = Ret (q, r) →
  carries (System r q (cons w) (pushed w ++ published (prod w) (ring_of w)) (popped w)).
Proof.
  intros [_ _ _ _ P5 _] Hc E. split; [apply Forall_app; split; [apply Hc|by apply carries_published]|].
  destruct Hc as [_ Hp]. destruct w as [[rp rpc wp wpc sl] p c pu po]; simpl in *.
  destruct p; simpl in E; repeat case_decide; simplify_eq/=; try done.
  destruct P5 as [-> _]. intros v Hv. rewrite list_lookup_insert_eq in Hv by done.
  by injection Hv as <-.
Qed.
Lemma carries_next w : carries w → carries (process_messages w).
Proof. done. Qed.
(** A [pop] empties a slot other than the one that a [push] has just written. *)
Lemma carries_pop w c r :
  positions capacity w → (∃ n k m, queued capacity w n k m) → carries w →
  pop_step moved capacity (cons w) (ring_of w) = Ret (c, r) →
  carries (System r (prod w) c (pushed w) (popped w ++ returned (cons w))).
Proof using capacity_pos.
  intros [_ _ _ _ _ P6] (n&k&m&[_ _ Q3 Q4 Q5 _ _ Q8 Q9]) [Hpu Hp] E. split; [done|].
  destruct w as [[rp rpc wp wpc sl] p c0 pu po]; simpl in *. destruct p; try done.
  destruct c0 as [v0| |pos|pos|pos v0]; simpl in E; repeat case_decide; simplify_eq/=; try done.
  destruct (sl !! (k mod capacity)) as [v|] eqn:Hv; simplify_eq/=. intros v' Hv'. apply Hp.
  rewrite list_lookup_insert_ne in Hv'; [done|]. intros Heq. apply mod_inj in Heq; lia.
Qed.
End carried.

(** ** The execution *)

Section hall.
(** A task is a function that captured the book of an instrument and the request. *)
Local Abbreviation task := (string * book_request)%type.
Variables (moved : task → task) (initial : task) (ringbuffer_size : nat).
Local Abbreviation worker := (system (T:=task)).
Implicit Types (e : exchange) (t : task) (ts : list task) (p : list worker) (w : worker).

(** What running a task does: the request on the book it captured. *)
Definition run_task t : M exchange OrderStatus := on_book t.1 (on_the_book t.2).
Definition run_tasks ts e : exchange * list (outcome OrderStatus) := serve_all run_task ts e.

(** The pool and the exchange, the tasks whose [push] is over, in that order, those that the workers
    have run, in that order, and what they answered. *)
Record hall := Hall {
  hall_pool : list worker;
  hall_exchange : exchange;
  handed : list task;
  done_tasks : list task;
  answers : list (outcome OrderStatus)
}.
Implicit Types (h : hall).

(** A request is handed to the worker with its instrument's index; a push goes on, there is room
    where it writes; a worker that has run what it took starts its next [pop]; a [pop] goes on, and
    the worker runs what it returns. *)
Inductive hall_step : hall → hall → Prop :=
  | hall_enqueue p e hs ds rs idx t w p' :
      p !! idx = Some w → prod w = PIdle → instrument_idx e !! t.1 = Some (Z.of_nat idx) →
      enqueue idx t p = Ret p' → hall_step (Hall p e hs ds rs) (Hall p' e hs ds rs)
  | hall_push p e hs ds rs idx w q r :
      p !! idx = Some w → has_room ringbuffer_size w →
      push_step ringbuffer_size (prod w) (ring_of w) = Ret (q, r) →
      hall_step (Hall p e hs ds rs)
        (Hall (<[idx := System r q (cons w) (pushed w ++ published (prod w) (ring_of w)) (popped w)]> p)
           e (hs ++ published (prod w) (ring_of w)) ds rs)
  | hall_next p e hs ds rs idx w v :
      p !! idx = Some w → cons w = CIdle v →
      hall_step (Hall p e hs ds rs) (Hall (<[idx := process_messages w]> p) e hs ds rs)
  | hall_pop p e hs ds rs idx w c r :
      p !! idx = Some w → pop_step moved ringbuffer_size (cons w) (ring_of w) = Ret (c, r) →
      hall_step (Hall p e hs ds rs)
        (Hall (<[idx := System r (prod w) c (pushed w) (popped w ++ returned (cons w))]> p)
           (run_tasks (returned (cons w)) e).1 hs (ds ++ returned (cons w))
           (rs ++ (run_tasks (returned (cons w)) e).2)).

Definition new_hall (n : nat) e : hall := Hall (ThreadPool initial ringbuffer_size n) e [] [] [].

(** The pool makes the steps of [ThreadPool.v]. *)
Lemma hall_pool_step h h' : hall_step h h' → pool_step moved ringbuffer_size (hall_pool h) (hall_pool h').
Proof.
  destruct 1; simpl; [by eapply pool_enqueue|by apply pool_push|by eapply pool_next|by apply pool_pop].
Qed.

(** ** Where the tasks are *)

Section execution.
Context (e0 : exchange) (n : nat) (size_pos : 0 < ringbuffer_size).

(** The worker of a task. *)
Definition goes_to (idx : nat) t : Prop := instrument_idx e0 !! t.1 = Some (Z.of_nat idx).
#[local] Instance goes_to_dec idx t : Decision (goes_to idx t).
Proof. unfold goes_to. apply _. Defined.
Lemma goes_to_inj idx j t : goes_to idx t → goes_to j t → idx = j.
Proof. unfold goes_to. intros -> [= H]. by apply Nat2Z.inj. Qed.

Record tracked h : Prop := {
  tr_pool : rtc (pool_step moved ringbuffer_size) (ThreadPool initial ringbuffer_size n) (hall_pool h);
  tr_carries idx w : hall_pool h !! idx = Some w → carries (goes_to idx) w;
  tr_pushed idx w : hall_pool h !! idx = Some w → pushed w = filter (goes_to idx) (handed h);
  tr_popped idx w : hall_pool h !! idx = Some w → popped w = filter (goes_to idx) (done_tasks h);
  tr_routed : Forall (λ t, ∃ idx, idx < n ∧ goes_to idx t) (handed h ++ done_tasks h);
  tr_idx : instrument_idx (hall_exchange h) = instrument_idx e0;
  tr_run : (hall_exchange h, answers h) = run_tasks (done_tasks h) e0
}.

Lemma run_tasks_idx ts e : instrument_idx (run_tasks ts e).1 = instrument_idx e.
Proof.
  revert e. induction ts as [|t ts IH]; intros e; [done|]. unfold run_tasks in *.
  rewrite serve_all_cons. simpl. rewrite IH. unfold run_task, on_book.
  case_match; [|done]. case_match; [|done]. by destruct (on_the_book _ _).
Qed.
Lemma run_tasks_app ts ts' e :
  run_tasks (ts ++ ts') e =
    ((run_tasks ts' (run_tasks ts e).1).1, (run_tasks ts e).2 ++ (run_tasks ts' (run_tasks ts e).1).2).
Proof.
  revert e. induction ts as [|t ts IH]; intros e; unfold run_tasks in *; [exact (surjective_pairing _)|].
  cbn [app]. rewrite !serve_all_cons. cbn [fst snd]. by rewrite IH.
Qed.

(** Tasks of one worker at the end of a sequence. *)
Lemma filter_own idx j ts us :
  Forall (goes_to idx) us →
  filter (goes_to j) (ts ++ us) = filter (goes_to j) ts ++ (if decide (j = idx) then us else []).
Proof.
  intros Hus. rewrite filter_app. f_equal. destruct (decide (j = idx)) as [->|Hne].
  - induction Hus as [|t us Ht Hus IH]; [done|]. by rewrite filter_cons_True, IH.
  - induction Hus as [|t us Ht Hus IH]; [done|]. rewrite filter_cons_False; [done|].
    intros Ht'. apply Hne. by eapply goes_to_inj.
Qed.

Lemma reachable_worker h idx w :
  tracked h → hall_pool h !! idx = Some w →
  idx < n ∧ positions ringbuffer_size w ∧ ∃ n k c, queued ringbuffer_size w n k c.
Proof using size_pos.
  intros Ht Hw. destruct (pool_reachable moved initial ringbuffer_size n _ (tr_pool _ Ht)) as [Hl Hr].
  split; [rewrite <-Hl; by eapply lookup_lt_Some|].
  by apply (roomy_reachable moved initial ringbuffer_size size_pos), (Hr idx).
Qed.
Lemma returned_carried P w n' k c :
  queued ringbuffer_size w n' k c → carries P w → Forall P (returned (cons w)).
Proof.
  intros Hq [Hp _]. pose proof (qu_cons _ _ _ _ _ Hq) as Hc. unfold returned.
  destruct (cons w); try by constructor. destruct Hc as [_ Hv]. repeat constructor.
  rewrite Forall_forall in Hp. apply Hp. by eapply list_elem_of_lookup_2.
Qed.

Lemma new_tracked : tracked (new_hall n e0).
Proof.
  split; simpl; try done.
  - intros idx w [-> _]%lookup_replicate. by split.
  - by intros idx w [-> _]%lookup_replicate.
  - by intros idx w [-> _]%lookup_replicate.
Qed.

Lemma insert_worker (p : list worker) idx j w v :
  <[idx := w]> p !! j = Some v → (j = idx ∧ v = w) ∨ (j ≠ idx ∧ p !! j = Some v).
Proof. rewrite list_lookup_insert_Some. naive_solver. Qed.

Lemma hall_step_tracked h h' : tracked h → hall_step h h' → tracked h'.
Proof using size_pos.
  intros Ht Hs. assert (rtc (pool_step moved ringbuffer_size) (ThreadPool initial ringbuffer_size n)
    (hall_pool h')) as Hpool by (eapply rtc_r; [apply Ht|by apply hall_pool_step]).
  revert Ht Hpool. destruct Hs as [p e hs ds rs idx t w p' Hw Hi Hidx E|p e hs ds rs idx w q r Hw Hroom E
    |p e hs ds rs idx w v Hw Hi|p e hs ds rs idx w c r Hw E]; intros Ht Hpool;
    destruct (reachable_worker _ _ _ Ht Hw) as (Hlt&Hpos&nq&kq&cq&Hq);
    pose proof Ht as [T1 T2 T3 T4 T5 T6 T7]; simpl in *.
  - unfold enqueue in E. rewrite Hw in E. injection E as <-. split; simpl; try done.
    + intros j v Hv. apply insert_worker in Hv as [[-> ->]|[? Hv]]; [|by apply T2].
      apply carries_call; [by apply T2|]. unfold goes_to. by rewrite <-T6.
    + intros j v Hv. apply insert_worker in Hv as [[-> ->]|[? Hv]]; [exact (T3 _ _ Hw)|by apply T3].
    + intros j v Hv. apply insert_worker in Hv as [[-> ->]|[? Hv]]; [exact (T4 _ _ Hw)|by apply T4].
  - pose proof (carries_published _ _ (T2 _ _ Hw)) as Hpub. split; simpl; try done.
    + intros j v Hv. apply insert_worker in Hv as [[-> ->]|[? Hv]]; [|by apply T2].
      apply (carries_push ringbuffer_size); [done|by apply T2|done].
    + intros j v Hv. rewrite (filter_own _ _ _ _ Hpub).
      apply insert_worker in Hv as [[-> ->]|[? Hv]]; simpl.
      * rewrite decide_True by done. by rewrite (T3 _ _ Hw).
      * rewrite decide_False, app_nil_r by done. by apply T3.
    + intros j v Hv. apply insert_worker in Hv as [[-> ->]|[? Hv]]; [exact (T4 _ _ Hw)|by apply T4].
    + rewrite Forall_app in T5. rewrite !Forall_app. split_and!; [apply T5| |apply T5].
      eapply Forall_impl; [exact Hpub|]. eauto.
  - split; simpl; try done.
    + intros j v' Hv. apply insert_worker in Hv as [[-> ->]|[? Hv]]; [exact (T2 _ _ Hw)|by apply T2].
    + intros j v' Hv. apply insert_worker in Hv as [[-> ->]|[? Hv]]; [exact (T3 _ _ Hw)|by apply T3].
    + intros j v' Hv. apply insert_worker in Hv as [[-> ->]|[? Hv]]; [exact (T4 _ _ Hw)|by apply T4].
  - pose proof (returned_carried _ _ _ _ _ Hq (T2 _ _ Hw)) as Hret. split; simpl; try done.
    + intros j v Hv. apply insert_worker in Hv as [[-> ->]|[? Hv]]; [|by apply T2].
      apply (carries_pop moved ringbuffer_size); eauto.
    + intros j v Hv. apply insert_worker in Hv as [[-> ->]|[? Hv]]; [exact (T3 _ _ Hw)|by apply T3].
    + intros j v Hv. rewrite (filter_own _ _ _ _ Hret).
      apply insert_worker in Hv as [[-> ->]|[? Hv]]; simpl.
      * rewrite decide_True by done. by rewrite (T4 _ _ Hw).
      * rewrite decide_False, app_nil_r by done. by apply T4.
    + rewrite app_assoc, Forall_app. split; [done|]. eapply Forall_impl; [exact Hret|]. eauto.
    + by rewrite run_tasks_idx.
    + rewrite run_tasks_app. by destruct T7.
Qed.
Lemma tracked_reachable h : rtc hall_step (new_hall n e0) h → tracked h.
Proof using size_pos.
  apply (rtc_ind_r tracked); [apply new_tracked|]. intros. by eapply hall_step_tracked.
Qed.

(** ** What the requests come to *)

Lemma run_tasks_serve ts e :
  (∀ t, t ∈ ts → served e t.1) → run_tasks ts e = serve_exchange ts e.
Proof.
  unfold run_tasks. revert e. induction ts as [|[inst r] ts IH]; intros e Hs; [done|].
  destruct (Hs (inst, r)) as [b Hb]; [left|]. cbn [fst] in Hb. destruct (on_the_book r b) as [b' a] eqn:E.
  assert (run_task (inst, r) e = (with_book inst b' e, a)) as E1.
  { unfold run_task. cbn [fst snd]. unfold on_book. destruct Hb as [-> _]. by rewrite E. }
  assert (on_the_exchange inst r e = (with_book inst b' e, a)) as E2.
  { rewrite on_the_exchange_eq. by apply (run_in_book_ok e inst b). }
  rewrite !serve_all_cons. cbn [fst snd]. rewrite E1, E2. cbn [fst snd].
  rewrite IH; [done|]. intros t Ht. destruct (Hs t) as [c Hc]; [by right|].
  eexists. by eapply serves_with_book.
Qed.

Lemma requests_for_filter inst idx ts :
  instrument_idx e0 !! inst = Some (Z.of_nat idx) →
  requests_for inst (filter (goes_to idx) ts) = requests_for inst ts.
Proof.
  intros Hi. induction ts as [|[name r] ts IH]; [done|]. rewrite requests_for_cons.
  destruct (decide (goes_to idx (name, r))) as [Hg|Hg].
  - rewrite filter_cons_True by done. rewrite requests_for_cons. by rewrite IH.
  - rewrite filter_cons_False by done. rewrite IH, decide_False; [done|]. by intros ->.
Qed.
Lemma requests_for_routed inst ts :
  Forall (λ t, ∃ idx, idx < n ∧ goes_to idx t) ts → requests_for inst ts ≠ [] →
  ∃ idx, idx < n ∧ instrument_idx e0 !! inst = Some (Z.of_nat idx).
Proof.
  intros Hf Hne. apply requests_for_name in Hne as (t&->&Ht)%list_elem_of_fmap.
  rewrite Forall_forall in Hf. by apply Hf.
Qed.
(** What two sequences have for an instrument, when they agree on its worker's part. *)
Lemma requests_for_related (R : list book_request → list book_request → Prop) inst ts us :
  Forall (λ t, ∃ idx, idx < n ∧ goes_to idx t) (ts ++ us) → R [] [] →
  (∀ idx, idx < n → instrument_idx e0 !! inst = Some (Z.of_nat idx) →
     R (requests_for inst (filter (goes_to idx) ts)) (requests_for inst (filter (goes_to idx) us))) →
  R (requests_for inst ts) (requests_for inst us).
Proof.
  intros [Ht Hu]%Forall_app Hnil HR.
  destruct (decide (requests_for inst ts = [] ∧ requests_for inst us = [])) as [[-> ->]|Hne]; [done|].
  assert (∃ idx, idx < n ∧ instrument_idx e0 !! inst = Some (Z.of_nat idx)) as (idx&Hlt&Hi).
  { destruct (decide (requests_for inst ts = [])) as [E|Hts].
    2: by apply (requests_for_routed inst ts Ht).
    apply (requests_for_routed inst us Hu). tauto. }
  rewrite <-(requests_for_filter inst idx ts), <-(requests_for_filter inst idx us) by done. by apply HR.
Qed.

(** ** The workers can always finish *)

(** How far a [pop] is from returning. *)
Definition stage (c : consumer (T:=task)) : nat :=
  match c with CIdle _ => 5 | CLoad => 4 | CRefresh _ => 3 | CRead _ => 2 | CStore _ _ => 1 end.
(** A state with another worker at an index, and nothing else handed over. *)
Definition moves_to h idx w' h' : Prop :=
  rtc hall_step h h' ∧ hall_pool h' = <[idx := w']> (hall_pool h) ∧ handed h' = handed h.
Lemma moves_to_trans h1 idx w1 h2 w2 h3 : moves_to h1 idx w1 h2 → moves_to h2 idx w2 h3 → moves_to h1 idx w2 h3.
Proof.
  intros (R1&P1&H1) (R2&P2&H2). split; [by etrans|]. split; [|congruence].
  by rewrite P2, P1, list_insert_insert_eq.
Qed.

(** A worker that has not run all of its tasks can make a step towards running the next one. *)
Lemma worker_steps h idx w :
  tracked h → hall_pool h !! idx = Some w → popped w ≠ pushed w →
  ∃ h' w', moves_to h idx w' h' ∧ pushed w' = pushed w ∧
    (length (popped w') = S (length (popped w)) ∨
     (popped w' = popped w ∧ stage (cons w') < stage (cons w))).
Proof using size_pos.
  intros Ht Hw Hne. destruct (reachable_worker _ _ _ Ht Hw) as (_&Hpos&m&k&c&Hq).
  assert (k < m) as Hk.
  { destruct (decide (k = m)) as [->|]; [|destruct (qu_room _ _ _ _ _ Hq); lia].
    destruct Hne. rewrite (qu_popped _ _ _ _ _ Hq), <-(qu_pushed _ _ _ _ _ Hq). apply firstn_all. }
  destruct Hpos as [_ _ _ _ _ P6], Hq as [Q1 Q2 Q3 Q4 Q5 Q6 Q7 Q8 _].
  assert (∀ c' r', pop_step moved ringbuffer_size (cons w) (ring_of w) = Ret (c', r') →
    ∃ h', moves_to h idx (System r' (prod w) c' (pushed w) (popped w ++ returned (cons w))) h') as Hpop.
  { intros c' r' E. destruct h as [p e hs ds rs]. eexists.
    split; [apply rtc_once; by eapply hall_pop|done]. }
  destruct (cons w) as [v| |pos|pos|pos v] eqn:Ec; simpl in P6, Q7, Q8.
  - destruct h as [p e hs ds rs]. eexists _, (process_messages w).
    split; [split; [apply rtc_once; by eapply hall_next|done]|]. split; [done|right].
    split; [done|]. simpl. lia.
  - assert (∃ c' r', pop_step moved ringbuffer_size CLoad (ring_of w) = Ret (c', r') ∧ stage c' < 4)
      as (c'&r'&E&Hst) by (simpl; case_decide; eexists _, _; (split; [reflexivity|simpl; lia])).
    destruct (Hpop _ _ E) as [h' Hh']. eexists _, _. split; [exact Hh'|]. split; [done|right].
    split; [apply app_nil_r|exact Hst].
  - assert (∃ c' r', pop_step moved ringbuffer_size (CRefresh pos) (ring_of w) = Ret (c', r') ∧ stage c' < 3)
      as (c'&r'&E&Hst).
    { simpl. rewrite decide_False; [eexists _, _; (split; [reflexivity|simpl; lia])|].
      rewrite P6, Q5, Q4. intros Heq. apply mod_inj in Heq; lia. }
    destruct (Hpop _ _ E) as [h' Hh']. eexists _, _. split; [exact Hh'|]. split; [done|right].
    split; [apply app_nil_r|exact Hst].
  - assert (∃ c' r', pop_step moved ringbuffer_size (CRead pos) (ring_of w) = Ret (c', r') ∧ stage c' < 2)
      as (c'&r'&E&Hst).
    { simpl. rewrite P6, Q5, (Q7 k) by (done || lia).
      destruct (lookup_lt_is_Some_2 (pushed w) k) as [v ->]; [lia|].
      eexists _, _. split; [reflexivity|simpl; lia]. }
    destruct (Hpop _ _ E) as [h' Hh']. eexists _, _. split; [exact Hh'|]. split; [done|right].
    split; [apply app_nil_r|exact Hst].
  - destruct (Hpop _ _ eq_refl) as [h' Hh']. eexists _, _. split; [exact Hh'|]. split; [done|left].
    simpl. rewrite length_app. simpl. lia.
Qed.

Lemma moves_to_tracked h idx w h' : tracked h → moves_to h idx w h' → tracked h'.
Proof using size_pos. intros Ht [Hr _]. revert Ht. induction Hr; [done|]. eauto using hall_step_tracked. Qed.
Lemma moves_to_lookup h idx w w' h' :
  hall_pool h !! idx = Some w → moves_to h idx w' h' → hall_pool h' !! idx = Some w'.
Proof. intros Hw (_&->&_). apply list_lookup_insert_eq. by eapply lookup_lt_Some. Qed.

(** So it runs all of them. *)
Lemma worker_finishes idx : ∀ d h w,
  (length (pushed w) - length (popped w)) * 6 + stage (cons w) ≤ d →
  tracked h → hall_pool h !! idx = Some w →
  ∃ h' w', moves_to h idx w' h' ∧ popped w' = pushed w' ∧ pushed w' = pushed w.
Proof using size_pos.
  induction d as [|d IH]; intros h w Hd Ht Hw.
  { exfalso. destruct (cons w); simpl in Hd; lia. }
  destruct (reachable_worker _ _ _ Ht Hw) as (_&_&m&k&c&Hq).
  destruct (decide (length (popped w) = length (pushed w))) as [Hl|Hl].
  - exists h, w. split; [split; [apply rtc_refl|split; [by rewrite list_insert_id|done]]|].
    split; [|done]. rewrite (qu_popped _ _ _ _ _ Hq) in Hl |- *. rewrite length_take in Hl.
    apply take_ge. lia.
  - destruct (worker_steps h idx w Ht Hw) as (h1&w1&H1&Hp1&Hlt); [by intros E; rewrite E in Hl|].
    destruct (IH h1 w1) as (h2&w2&H2&Hd2&Hp2).
    + assert (length (popped w) ≤ length (pushed w)).
      { rewrite (qu_popped _ _ _ _ _ Hq), length_take. lia. }
      rewrite Hp1. destruct Hlt as [->|[-> Hlt]]; [|lia].
      assert (stage (cons w1) ≤ 5) by (destruct (cons w1); simpl; lia).
      assert (1 ≤ stage (cons w)) by (destruct (cons w); simpl; lia). lia.
    + by eapply moves_to_tracked.
    + by eapply moves_to_lookup.
    + exists h2, w2. split; [by eapply moves_to_trans|]. split; [done|]. congruence.
Qed.

(** From every state the workers can come to have run everything that was handed over. *)
Lemma workers_finish h :
  tracked h → ∃ h', rtc hall_step h h' ∧ handed h' = handed h ∧
    ∀ idx w, hall_pool h' !! idx = Some w → popped w = pushed w.
Proof using size_pos.
  intros Ht.
  assert (∀ m, ∃ h', rtc hall_step h h' ∧ tracked h' ∧ handed h' = handed h ∧
    ∀ idx w, idx < m → hall_pool h' !! idx = Some w → popped w = pushed w) as Hm.
  { induction m as [|m (h1&R1&T1&E1&D1)]; [exists h; split_and!; [done..|lia]|].
    destruct (hall_pool h1 !! m) as [w|] eqn:Hw.
    - destruct (worker_finishes m _ h1 w (le_n _) T1 Hw) as (h2&w2&H2&Hd&_). exists h2.
      split; [etrans; [exact R1|apply H2]|]. split; [by eapply moves_to_tracked|].
      split; [rewrite <-E1; apply H2|]. intros idx v Hlt Hv. destruct H2 as (_&Hp&_). rewrite Hp in Hv.
      apply insert_worker in Hv as [[-> ->]|[Hne Hv]]; [done|]. eapply D1; [|exact Hv]. lia.
    - exists h1. split_and!; [done..|]. intros idx v Hlt Hv.
      destruct (decide (idx = m)) as [->|]; [congruence|]. eapply D1; [|exact Hv]. lia. }
  destruct (Hm (length (hall_pool h))) as (h'&R&T&E&D). exists h'. split_and!; [done..|].
  intros idx w Hw. eapply D; [|exact Hw].
  destruct (pool_reachable moved initial ringbuffer_size n _ (tr_pool _ T)) as [Hl' _].
  destruct (pool_reachable moved initial ringbuffer_size n _ (tr_pool _ Ht)) as [Hl _].
  apply lookup_lt_Some in Hw. lia.
Qed.

Context (all_served : ∀ inst i, instrument_idx e0 !! inst = Some i → served e0 inst).

Lemma hall_serves h :
  tracked h → (hall_exchange h, answers h) = serve_exchange (done_tasks h) e0.
Proof using all_served.
  intros Ht. rewrite (tr_run _ Ht). apply run_tasks_serve. intros t Hin.
  pose proof (tr_routed _ Ht) as Hr. rewrite Forall_forall in Hr.
  destruct (Hr t) as (idx&_&Hg); [apply elem_of_app; by right|]. by eapply all_served.
Qed.
Lemma hall_prefix h inst :
  tracked h → requests_for inst (done_tasks h) `prefix_of` requests_for inst (handed h).
Proof using size_pos.
  intros Ht. apply requests_for_related; [|done|].
  - pose proof (tr_routed _ Ht) as Hr. rewrite !Forall_app in Hr |- *. tauto.
  - intros idx Hlt _.
    destruct (pool_reachable moved initial ringbuffer_size n _ (tr_pool _ Ht)) as [Hl _].
    destruct (lookup_lt_is_Some_2 (hall_pool h) idx) as [w Hw]; [lia|].
    destruct (reachable_worker _ _ _ Ht Hw) as (_&_&m&k&c&Hq).
    rewrite <-(tr_popped _ Ht _ _ Hw), <-(tr_pushed _ Ht _ _ Hw), (qu_popped _ _ _ _ _ Hq).
    rewrite <-(take_drop k (pushed w)) at 2. rewrite requests_for_app. by eexists.
Qed.
Lemma hall_all_done h inst :
  tracked h → (∀ idx w, hall_pool h !! idx = Some w → popped w = pushed w) →
  requests_for inst (done_tasks h) = requests_for inst (handed h).
Proof.
  intros Ht Hall. apply requests_for_related; [|done|].
  - pose proof (tr_routed _ Ht) as Hr. rewrite !Forall_app in Hr |- *. tauto.
  - intros idx Hlt _.
    destruct (pool_reachable moved initial ringbuffer_size n _ (tr_pool _ Ht)) as [Hl _].
    destruct (lookup_lt_is_Some_2 (hall_pool h) idx) as [w Hw]; [lia|].
    by rewrite <-(tr_popped _ Ht _ _ Hw), <-(tr_pushed _ Ht _ _ Hw), (Hall _ _ Hw).
Qed.
End execution.

(** The workers have run everything that was handed over. *)
Definition all_run h : Prop := ∀ idx w, hall_pool h !! idx = Some w → popped w = pushed w.

(** C11: the workers do what the exchange does without them.  In every interleaving of the requests'
    pushes with the workers, in which the pushes find room: the exchange and the answers are those of
    handling the requests that were run one after the other; each instrument's requests are run in
    the order in which they were handed over; the workers can come to have run all of them; and
    whenever they have, the exchange and every client's answers are what handling the requests one
    after the other in the order in which they were handed over gives. *)
Theorem workers_serve_the_exchange e0 h :
  0 < ringbuffer_size →
  (∀ inst i, instrument_idx e0 !! inst = Some i → served e0 inst) →
  rtc hall_step (new_hall (workers e0) e0) h →
  (hall_exchange h, answers h) = serve_exchange (done_tasks h) e0 ∧
  (∀ inst, requests_for inst (done_tasks h) `prefix_of` requests_for inst (handed h)) ∧
  (∃ h', rtc hall_step h h' ∧ handed h' = handed h ∧ all_run h') ∧
  (all_run h →
   hall_exchange h = (serve_exchange (handed h) e0).1 ∧
   ∀ inst, for_instrument inst (done_tasks h).*1 (answers h) = answers_for inst (handed h) e0).
Proof.
  intros Hsize Hserved Hr. pose proof (tracked_reachable e0 _ Hsize h Hr) as Ht.
  pose proof (hall_serves e0 _ Hserved h Ht) as Hrun. split; [done|].
  split; [intros inst; by apply (hall_prefix e0 (workers e0))|].
  split; [by apply (workers_finish e0 (workers e0))|]. intros Hall.
  destruct (same_requests_same_exchange e0 (done_tasks h) (handed h)) as [He Ha].
  - intros inst (t&->&Hin)%list_elem_of_fmap. pose proof (tr_routed _ _ _ Ht) as Hrt.
    rewrite Forall_forall in Hrt. destruct (Hrt t) as (idx&_&Hg); [apply elem_of_app; by right|].
    by eapply Hserved.
  - intros inst. by apply (hall_all_done e0 (workers e0)).
  - rewrite <-He, <-Hrun. split; [done|]. intros inst. rewrite <-Ha. unfold answers_for.
    by rewrite <-Hrun.
Qed.
End hall.
