(* ===== verification/Responses.v ===== *)
(** * server/handlers/response/: the objects of the replies

    A reply's body is an object of a class derived from Seastar's [json_base]: its elements hold a
    value once they were assigned one, and [register_params] tells the base class their names.
    Writing an object as text is Seastar's: a class states what the program relies on, that a
    reader of the text finds the elements that hold a value under their names, in their order. *)

From S2P Require Import Prelude Float DataTypes.

(** ** JSON *)

Local Unset Elimination Schemes.

Inductive json :=
  | JString (s : string)
  | JFloat (x : float)
  | JInt (z : Z)
  | JBool (b : bool)
  | JArray (l : list json)
  | JObject (members : list (string * json)).

Local Set Elimination Schemes.

(** Numbers that are no infinity and no NaN; Seastar throws on the others. *)
Fixpoint json_finite (j : json) : bool :=
  match j with
  | JFloat x => is_finite x
  | JArray l => forallb json_finite l
  | JObject ms => forallb (λ m, json_finite m.2) ms
  | _ => true
  end.

(** [stream_object], and a reader of JSON. *)
Class JsonText := {
  stream_object : json → string;
  read_json : string → option json
}.
Class JsonTextLaws `{!JsonText} : Prop := {
  read_stream j : json_finite j = true → read_json (stream_object j) = Some j
}.

(** [json_element]: assigning a value sets it, assigning another element copies the value, if
    there is one. *)
Abbreviation json_element := option (only parsing).

(** What the elements that hold a value make of an object. *)
Definition members (es : list (string * option json)) : list (string * json) :=
  omap (λ e, pair e.1 <$> e.2) es.

(** ** response/order_response.hpp *)

Record order_json := OrderJson {
  oj_id : json_element string;
  oj_instrument : json_element string;
  oj_user_id : json_element string;
  oj_timestamp : json_element Z;
  oj_qty : json_element float;
  oj_current_qty : json_element float;
  oj_price : json_element float;
  oj_stop_price : json_element float;
  oj_side : json_element Z;
  oj_cancelled : json_element bool;
  oj_params : json_element Z;
  oj_type : json_element Z
}.

Definition order_register_params (e : order_json) : list (string * option json) :=
  [("id", JString <$> oj_id e);
   ("instrument", JString <$> oj_instrument e);
   ("user_id", JString <$> oj_user_id e);
   ("timestamp", JInt <$> oj_timestamp e);
   ("qty", JFloat <$> oj_qty e);
   ("current_qty", JFloat <$> oj_current_qty e);
   ("price", JFloat <$> oj_price e);
   ("stop_price", JFloat <$> oj_stop_price e);
   ("side", JInt <$> oj_side e);
   ("cancelled", JBool <$> oj_cancelled e);
   ("params", JInt <$> oj_params e);
   ("type", JInt <$> oj_type e)]%string.

Definition new_order_json : order_json :=
  OrderJson None None None None None None None None None None None None.
(** The copying constructor and the copying assignment. *)
Definition order_json_copy (e : order_json) : order_json :=
  OrderJson (oj_id e) (oj_instrument e) (oj_user_id e) (oj_timestamp e) (oj_qty e)
    (oj_current_qty e) (oj_price e) (oj_stop_price e) (oj_side e) (oj_cancelled e) (oj_params e)
    (oj_type e).
Definition order_json_assign (this e : order_json) : order_json :=
  OrderJson (oj_id e) (oj_instrument e) (oj_user_id e) (oj_timestamp e) (oj_qty e)
    (oj_current_qty e) (oj_price e) (oj_stop_price e) (oj_side e) (oj_cancelled e) (oj_params e)
    (oj_type e).
Definition SeastarOrderJson (o : order) : order_json :=
  OrderJson (Some (get_id o)) (Some (get_instrument o)) (Some (get_user_id o))
    (Some (get_timestamp o)) (Some (get_initial_qty o)) (Some (get_qty o)) (Some (get_price o))
    (Some (get_stop_price o)) (Some (get_side_uint8 o)) (Some (is_cancelled o))
    (Some (get_params_uint64 o)) (Some (get_type_uint8 o)).

(** The numbers of the [OrderStatus]es, which an order's reply carries. *)
Definition status_uint8 (s : OrderStatus) : Z :=
  match s with
  | ACCEPTED => 0 | MATCHED => 1 | NOT_MATCHED => 2 | REJECTED => 3 | CANCELLED => 4
  | MODIFIED => 5 | NOT_FOUND => 6
  end.

Record order_info_json := OrderInfoJson {
  oi_order_id : json_element string;
  oi_status : json_element Z
}.
Definition order_info_register_params (e : order_info_json) : list (string * option json) :=
  [("order_id", JString <$> oi_order_id e); ("status", JInt <$> oi_status e)]%string.
Definition new_order_info_json : order_info_json := OrderInfoJson None None.
Definition order_info_json_copy (e : order_info_json) : order_info_json :=
  OrderInfoJson (oi_order_id e) (oi_status e).
Definition order_info_json_assign (this e : order_info_json) : order_info_json :=
  OrderInfoJson (oi_order_id e) (oi_status e).
Definition SeastarOrderInfoJson (order_id : string) (status : OrderStatus) : order_info_json :=
  OrderInfoJson (Some order_id) (Some (status_uint8 status)).

(** ** response/snapshot_response.hpp *)

Record spread_json := SpreadJson {
  sj_best_ask_price : json_element float;
  sj_market_price : json_element float;
  sj_best_bid_price : json_element float
}.
Definition spread_register_params (e : spread_json) : list (string * option json) :=
  [("best_ask_price", JFloat <$> sj_best_ask_price e);
   ("market_price", JFloat <$> sj_market_price e);
   ("best_bid_price", JFloat <$> sj_best_bid_price e)]%string.
Definition new_spread_json : spread_json := SpreadJson None None None.
Definition spread_json_copy (e : spread_json) : spread_json :=
  SpreadJson (sj_best_ask_price e) (sj_market_price e) (sj_best_bid_price e).
Definition spread_json_assign (this e : spread_json) : spread_json :=
  SpreadJson (sj_best_ask_price e) (sj_market_price e) (sj_best_bid_price e).
(** The assignment of another type, at [Spread]. *)
Definition spread_json_assign_spread (this : spread_json) (e : Spread) : spread_json :=
  SpreadJson (Some (best_ask_price e)) (Some (s_market_price e)) (Some (best_bid_price e)).
Definition SeastarSpreadJson (best_ask_price market_price best_bid_price : float) : spread_json :=
  SpreadJson (Some best_ask_price) (Some market_price) (Some best_bid_price).

Record limit_json := LimitJson { lj_price : json_element float; lj_qty : json_element float }.
Definition limit_register_params (e : limit_json) : list (string * option json) :=
  [("price", JFloat <$> lj_price e); ("qty", JFloat <$> lj_qty e)]%string.
Definition new_limit_json : limit_json := LimitJson None None.
Definition limit_json_copy (e : limit_json) : limit_json := LimitJson (lj_price e) (lj_qty e).
Definition limit_json_assign (this e : limit_json) : limit_json :=
  LimitJson (lj_price e) (lj_qty e).
(** The assignment of another type, at [SnapshotLimit]. *)
Definition limit_json_assign_limit (this : limit_json) (e : SnapshotLimit) : limit_json :=
  LimitJson (Some (sl_price e)) (Some (sl_qty e)).
Definition SeastarLimitJson (price qty : float) : limit_json := LimitJson (Some price) (Some qty).

Record snapshot_json := SnapshotJson {
  nj_asks : json_element (list limit_json);
  nj_bids : json_element (list limit_json);
  nj_spread : json_element spread_json
}.
Definition limit_object (e : limit_json) : json := JObject (members (limit_register_params e)).
Definition spread_object (e : spread_json) : json := JObject (members (spread_register_params e)).
Definition snapshot_register_params (e : snapshot_json) : list (string * option json) :=
  [("asks", (λ l, JArray (limit_object <$> l)) <$> nj_asks e);
   ("bids", (λ l, JArray (limit_object <$> l)) <$> nj_bids e);
   ("spread", spread_object <$> nj_spread e)]%string.
Definition new_snapshot_json : snapshot_json := SnapshotJson None None None.
Definition snapshot_json_copy (e : snapshot_json) : snapshot_json :=
  SnapshotJson (nj_asks e) (nj_bids e) (nj_spread e).
Definition snapshot_json_assign (this e : snapshot_json) : snapshot_json :=
  SnapshotJson (nj_asks e) (nj_bids e) (nj_spread e).

(** [emplace_back] copies the object that the loop made, and an element that is assigned a value
    assigns to the value it holds. *)
Fixpoint emplace_limits (limits : list SnapshotLimit) (temp : list limit_json) : list limit_json :=
  match limits with
  | [] => temp
  | limit :: limits =>
      emplace_limits limits
        (temp ++ [limit_json_copy (SeastarLimitJson (sl_price limit) (sl_qty limit))])
  end.
Definition SeastarSnapshotJson (snapshot : Snapshot) : snapshot_json :=
  let temp_asks := emplace_limits (asks snapshot) [] in
  let temp_bids := emplace_limits (bids snapshot) [] in
  SnapshotJson (Some temp_asks) (Some temp_bids)
    (Some (spread_json_assign new_spread_json
      (SeastarSpreadJson (best_ask_price (spread snapshot)) (s_market_price (spread snapshot))
        (best_bid_price (spread snapshot))))).

(** ** What a client reads *)

Definition order_object (e : order_json) : json := JObject (members (order_register_params e)).
Definition order_info_object (e : order_info_json) : json :=
  JObject (members (order_info_register_params e)).
Definition snapshot_object (e : snapshot_json) : json :=
  JObject (members (snapshot_register_params e)).

(** The value of a name in an object. *)
Definition member (j : json) (name : string) : option json :=
  match j with
  | JObject ms => (λ im, im.2.2) <$> list_find (λ m, m.1 = name) ms
  | _ => None
  end.

Lemma emplace_limits_ok limits : ∀ temp,
  emplace_limits limits temp
    = temp ++ ((λ limit, SeastarLimitJson (sl_price limit) (sl_qty limit)) <$> limits).
Proof.
  induction limits as [|limit limits IH]; intros temp; simpl; [by rewrite app_nil_r|].
  by rewrite IH, <-app_assoc.
Qed.
Lemma SeastarSnapshotJson_eq snapshot :
  SeastarSnapshotJson snapshot = SnapshotJson
    (Some ((λ limit, SeastarLimitJson (sl_price limit) (sl_qty limit)) <$> asks snapshot))
    (Some ((λ limit, SeastarLimitJson (sl_price limit) (sl_qty limit)) <$> bids snapshot))
    (Some (SeastarSpreadJson (best_ask_price (spread snapshot)) (s_market_price (spread snapshot))
      (best_bid_price (spread snapshot)))).
Proof. unfold SeastarSnapshotJson. by rewrite !emplace_limits_ok. Qed.

(** Copying an object keeps all of its elements. *)
Lemma json_copies :
  (∀ e, order_json_copy e = e) ∧ (∀ e, order_info_json_copy e = e) ∧ (∀ e, spread_json_copy e = e) ∧
  (∀ e, limit_json_copy e = e) ∧ (∀ e, snapshot_json_copy e = e).
Proof. split_and!; by intros []. Qed.
