(* ===== verification/Handlers.v ===== *)
(** * mappers/ and server/handlers/: from requests to the exchange

    The JSON documents are simdjson's: a document is a value of a type [doc] with its accessors.
    A reply is a status and a body; Seastar hands a handler a reply that says [ok]. *)

From S2P Require Import Prelude Float DataTypes OrderBook Exchange Repository Responses.

(** ** simdjson *)

Class Json (doc : Type) := {
  iterate : string → option doc;             (** [None] when the text is no document *)
  get_string : doc → string → option string;  (** [None] when a field is absent or of another type *)
  get_double : doc → string → option double;
  get_uint64 : doc → string → option Z
}.

(** ** mappers/orderjson_order_mapper.hpp *)

Section mapper.
Context {doc : Type} `{!Json doc}.

Definition get_order_side (side : string) : Side :=
  if String.eqb side "BUY" then BUY else if String.eqb side "SELL" then SELL else UNKOWN.
Definition get_order_type (type : string) : OrderType :=
  if String.eqb type "MARKET" then MARKET else LIMIT.
Definition get_order_params (params : Z) : OrderParams := params.

(** A conversion of a field that fails throws. *)
Definition field {A B} (v : option A) (k : A → outcome B) : outcome B :=
  match v with Some a => k a | None => Err JsonError end.

Definition map_json_to_order (now : Z) (order_json : doc) : outcome order :=
  let order_id := default ""%string (get_string order_json "order_id") in
  field (get_string order_json "instrument") (λ instrument,
  field (get_string order_json "user_id") (λ user_id,
  field (get_double order_json "qty") (λ qty,
  field (get_double order_json "price") (λ price,
  field (get_string order_json "side") (λ side,
  field (get_string order_json "type") (λ type,
  field (get_uint64 order_json "params") (λ params,
  let order_side := get_order_side side in
  let order_type := get_order_type type in
  let params := get_order_params params in
  field (if (params_and params GTD =? GTD)%Z || (params_and params GFD =? GFD)%Z
         then get_uint64 order_json "expire_time" else Some (u64 (-1))) (λ expire_time,
  if (params =? STOP)%Z then
    field (get_double order_json "stop_price") (λ stop_price,
    Ret (new_stop_order now order_id instrument user_id (narrow qty) (narrow price)
      (narrow stop_price) order_side params order_type (i64 expire_time)))
  else
    Ret (new_order now order_id instrument user_id (narrow qty) (narrow price) order_side params
      order_type (i64 expire_time)))))))))).
End mapper.

(** ** server/handlers/ *)

Inductive status_type := ok | no_content | bad_request | not_found | not_acceptable.
#[export] Instance status_type_eq_dec : EqDecision status_type.
Proof. solve_decision. Defined.

Inductive body :=
  | NoBody
  | Message (text : string)
  | OrderInfo (info : order_info_json)
  | OrderBody (o : order_json)
  | SnapshotBody (s : snapshot_json).
Record reply := Reply { r_status : status_type; r_body : body }.
Definition set_status (s : status_type) (rep : reply) : reply := Reply s (r_body rep).
Definition write_body (b : body) (rep : reply) : reply := Reply (r_status rep) b.
Definition new_reply : reply := Reply ok NoBody.

(** [stream_object] takes a copy of the object that it writes. *)
Definition body_json (b : body) : option json :=
  match b with
  | NoBody => None
  | Message text => Some (JString text)
  | OrderInfo info => Some (order_info_object (order_info_json_copy info))
  | OrderBody o => Some (order_object (order_json_copy o))
  | SnapshotBody s => Some (snapshot_object (snapshot_json_copy s))
  end.
Definition body_text `{!JsonText} (b : body) : option string := stream_object <$> body_json b.

Record request := Request { param : gmap string string; content : string }.
(** [get_path_param] of a parameter that is absent is the empty string. *)
Definition get_path_param (req : request) (key : string) : string :=
  default ""%string (param req !! key).

Definition INSTRUMENT_KEY : string := "instrument".
Definition ORDER_ID_KEY : string := "order_id".

Section handlers.
Context {doc : Type} `{!Json doc} {DB : Type} `{!Database DB} `{!Archive}.
(** [time(0)], and the identifier [UUIDGenerator::generate] gives. *)
Variables (now : Z) (generated : string).
Implicit Types (req : request) (rep : reply).

(** A check that fails has written the reply. *)
Definition validate_parameter (parameter : string) req rep (message : string) : bool * reply :=
  match param req !! parameter with
  | Some _ => (true, rep)
  | None => (false, set_status bad_request (write_body (Message message) rep))
  end.

Definition validate_instrument_parameter req rep : M exchange (bool * reply) :=
  let '(valid, rep) := validate_parameter INSTRUMENT_KEY req rep "invalid instrument parameter" in
  if negb valid then mret (false, rep) else
  let instrument := get_path_param req INSTRUMENT_KEY in
  exists_ ← instrument_exists instrument;
  if exists_ : bool then mret (true, rep)
  else mret (false, write_body (Message ("instrument " ++ instrument ++ " doesn't exist"))
                      (set_status not_found rep)).

Definition validate_order_side (order_side : Side) rep : bool * reply :=
  if bool_decide (order_side = UNKOWN) then
    (false, write_body (Message "order side can only be BUY or SELL") (set_status bad_request rep))
  else (true, rep).

Definition check_if_exchange_is_working rep : M exchange (bool * reply) :=
  working ← is_working;
  mret (if working : bool then (true, rep)
        else (false, write_body (Message "exchange is not working currently.")
                       (set_status no_content rep))).

Definition lift {A} (o : outcome A) : M exchange A :=
  match o with Ret a => mret a | Err e => fail e end.

Definition CreateOrderHandler_handle req rep : M exchange reply :=
  '(valid, rep) ← validate_instrument_parameter req rep;
  if negb valid then mret rep else
  doc ← lift (field (iterate (content req)) Ret);
  order ← lift (map_json_to_order now doc);
  let '(valid, rep) := validate_order_side (get_side order) rep in
  if negb valid then mret rep else
  '(working, rep) ← check_if_exchange_is_working rep;
  if negb working then mret rep else
  let order := set_id generated order in
  order_status ← Exchange.add_order now (get_path_param req INSTRUMENT_KEY) order;
  mret (write_body (OrderInfo (SeastarOrderInfoJson (get_id order) order_status)) rep).

Definition GetOrderHandler_handle (db : DB) req rep : M exchange reply :=
  let '(valid, rep) := validate_parameter ORDER_ID_KEY req rep "invalid order parameter" in
  if negb valid then mret rep else
  '(working, rep) ← check_if_exchange_is_working rep;
  if negb working then mret rep else
  order ← lift (Exchange.get_order db (get_path_param req ORDER_ID_KEY));
  match order with
  | None => mret (set_status not_found rep)
  | Some order => mret (write_body (OrderBody (SeastarOrderJson order)) (set_status ok rep))
  end.

Definition CancelOrderHandler_handle req rep : M exchange reply :=
  let '(valid, rep) := validate_parameter ORDER_ID_KEY req rep "invalid order parameter" in
  if negb valid then mret rep else
  '(working, rep) ← check_if_exchange_is_working rep;
  if negb working then mret rep else
  '(valid, rep) ← validate_instrument_parameter req rep;
  if negb valid then mret rep else
  order_status ← Exchange.cancel_order (get_path_param req INSTRUMENT_KEY)
                   (get_path_param req ORDER_ID_KEY);
  mret (match order_status with
        | NOT_FOUND => set_status not_found rep
        | CANCELLED => set_status ok rep
        | REJECTED => set_status not_acceptable rep
        | _ => rep
        end).

Definition UpdateOrderHandler_handle req rep : M exchange reply :=
  '(valid, rep) ← validate_instrument_parameter req rep;
  if negb valid then mret rep else
  '(working, rep) ← check_if_exchange_is_working rep;
  if negb working then mret rep else
  doc ← lift (field (iterate (content req)) Ret);
  order ← lift (map_json_to_order now doc);
  order_status ← Exchange.modify_order (get_path_param req INSTRUMENT_KEY) order;
  mret (write_body (OrderInfo (SeastarOrderInfoJson (get_id order) order_status)) rep).

(** The checks of [OrderBookInfoHandler], which has its own. *)
Definition info_validate_parameter (parameter : string) req rep (message : string) : bool * reply :=
  match param req !! parameter with
  | Some _ => (true, rep)
  | None => (false, set_status bad_request (write_body (Message message) rep))
  end.
Definition info_validate_instrument_parameter req rep : M exchange (bool * reply) :=
  let '(valid, rep) := info_validate_parameter INSTRUMENT_KEY req rep "invalid instrument parameter" in
  if negb valid then mret (false, rep) else
  let instrument := get_path_param req INSTRUMENT_KEY in
  exists_ ← instrument_exists instrument;
  if exists_ : bool then mret (true, rep)
  else mret (false, write_body (Message ("instrument " ++ instrument ++ " doesn't exist"))
                      (set_status not_found rep)).

Definition SnapshotHandler_handle req rep : M exchange reply :=
  '(valid, rep) ← info_validate_instrument_parameter req rep;
  if negb valid then mret rep else
  snapshot ← get_orderbook_snapshot (get_path_param req INSTRUMENT_KEY);
  mret (write_body (SnapshotBody (SeastarSnapshotJson snapshot)) rep).
End handlers.
