(* ===== verification/Session.v ===== *)
(** * Sessions: any sequence of requests that are answered

    The requests of the five routes and the turns of the clock thread as a relation on exchanges;
    a turn that throws or runs into undefined behaviour is no step.  Every step keeps the exchange
    well formed and its instruments. *)

From S2P Require Import Prelude Float RBTree DataTypes OrderBook OBInv OBAdd OBCancel OBQuery OBLoad.
From S2P Require Import Calendar Repository Exchange ExchangeSpec Handlers.

(** ** Operations of a book that keep it well formed when they return *)

Definition safe {A} (m : M book A) : Prop :=
  ∀ b a b' v, book_ok b a → m b = (b', Ret v) → ∃ a', book_ok b' a'.

Section stays_ok.
Implicit Types (e : exchange) (inst : string).

(** The exchange is well formed and has the instruments it had. *)
Definition stays_ok e e' : Prop :=
  exchange_ok e' ∧ ∀ j, is_Some (instruments e' !! j) ↔ is_Some (instruments e !! j).

Lemma stays_ok_refl e : exchange_ok e → stays_ok e e.
Proof. done. Qed.
Lemma stays_ok_trans e1 e2 e3 : stays_ok e1 e2 → stays_ok e2 e3 → stays_ok e1 e3.
Proof. intros [_ H12] [H3 H23]. split; [done|]. intros j. by rewrite H23. Qed.

Lemma with_book_kept e inst b b' a' :
  exchange_ok e → serves e inst b → book_ok b' a' → stays_ok e (with_book inst b' e).
Proof.
  intros He Hs Hb. split; [by eapply with_book_ok|]. intros j. unfold with_book. simpl.
  rewrite lookup_insert_is_Some. destruct (decide (inst = j)) as [<-|Hne]; [|naive_solver].
  destruct Hs as [-> _]. naive_solver.
Qed.

Lemma on_book_kept {A} (m : M book A) e inst e' v :
  safe m → exchange_ok e → is_Some (instruments e !! inst) →
  on_book inst m e = (e', Ret v) → stays_ok e e'.
Proof.
  intros Hm He [ob Hi] E. destruct (He _ _ Hi) as (b&a&->&Hs&Hb). unfold on_book in E. rewrite Hi in E.
  destruct (m b) as [b' r] eqn:Em. injection E as <- ->.
  destruct (Hm _ _ _ _ Hb Em) as [a' Hb']. by eapply with_book_kept.
Qed.

Lemma run_in_book_kept {A} (m : M book A) e inst e' v :
  safe m → exchange_ok e → is_Some (instruments e !! inst) →
  run_in_book inst m e = (e', Ret v) → stays_ok e e'.
Proof.
  intros Hm He [ob Hi] E. destruct (He _ _ Hi) as (b&a&->&Hs&Hb).
  destruct (m b) as [b' r] eqn:Em. rewrite (run_in_book_ok e inst b m b' r Hs Em) in E.
  injection E as <- ->. destruct (Hm _ _ _ _ Hb Em) as [a' Hb']. by eapply with_book_kept.
Qed.

Lemma safe_reads {A} (m : M book A) : reads m → safe m.
Proof. intros Hm b a b' v Hb E. apply reads_inv in E as ->; [eauto|done]. Qed.
Lemma safe_cancel id : safe (OrderBook.cancel_order id).
Proof. intros b a b' v Hb E. apply (cancel_returns _ _ _ _ _ Hb) in E as [-> _]. eauto. Qed.
Lemma safe_check_dates now : safe (OrderBook.check_date_orders now).
Proof. intros b a b' [] Hb E. by eapply check_date_orders_returns. Qed.

(** The closing of the exchange visits every book. *)
Lemma check_books_kept now names : ∀ e e',
  exchange_ok e → (∀ inst, inst ∈ names → is_Some (instruments e !! inst)) →
  forM names (λ inst, on_book inst (OrderBook.check_date_orders now)) e = (e', Ret tt) → stays_ok e e'.
Proof.
  induction names as [|inst names IH]; intros e e' He Hn; cbn [forM]; [by intros [= <-]|].
  intros (e1&v&E1&E)%bind_inv.
  assert (stays_ok e e1) as H1.
  { eapply on_book_kept; [apply safe_check_dates|done|by apply Hn; left|exact E1]. }
  eapply stays_ok_trans; [exact H1|]. eapply IH; [apply H1| |exact E].
  intros j Hj. apply (proj2 H1), Hn. by right.
Qed.

Lemma set_working_kept v e : exchange_ok e → stays_ok e (set_working v e).1.
Proof. done. Qed.

Lemma clock_kept now local_time e e' target :
  exchange_ok e → is_working_turn now local_time e = (e', Ret target) → stays_ok e e'.
Proof.
  intros He. unfold is_working_turn. destruct (target_time local_time) as [t|]; [|done].
  intros (e1&[]&E1&E)%bind_inv. injection E as <- _. unfold after_sleep in E1.
  destruct (_ && _); [by injection E1 as <-|]. destruct (_ && _); [|by injection E1 as <-].
  apply bind_inv in E1 as (e2&[]&E2&E1). pose proof (set_working_kept false e He) as H2.
  rewrite E2 in H2. eapply stays_ok_trans; [exact H2|]. unfold check_date_orders in E1.
  rewrite bind_gets in E1. eapply check_books_kept; [apply H2| |exact E1].
  intros inst ([j ob]&->&Hin)%list_elem_of_fmap. apply elem_of_map_to_list in Hin. by exists ob.
Qed.
End stays_ok.

(** ** The handlers *)

Section handlers.
Context {doc : Type} `{!Json doc} {DB : Type} `{!Database DB} `{!Archive}.
Implicit Types (e : exchange) (inst : string) (req : request) (rep : reply).

(** The checks change nothing; the one of the instrument succeeds for an instrument there is. *)
Lemma validate_instrument_result e req rep :
  ∃ valid rep', validate_instrument_parameter req rep e = (e, Ret (valid, rep')) ∧
    (valid = true → is_Some (instruments e !! get_path_param req INSTRUMENT_KEY)).
Proof.
  unfold validate_instrument_parameter. destruct (validate_parameter _ _ _ _) as [[] rep1]; cbn [negb].
  - unfold instrument_exists. rewrite bind_gets. case_bool_decide; eexists _, _; by split.
  - eexists _, _. by split.
Qed.
Lemma info_validate_instrument_result e req rep :
  ∃ valid rep', info_validate_instrument_parameter req rep e = (e, Ret (valid, rep')) ∧
    (valid = true → is_Some (instruments e !! get_path_param req INSTRUMENT_KEY)).
Proof.
  unfold info_validate_instrument_parameter.
  destruct (info_validate_parameter _ _ _ _) as [[] rep1]; cbn [negb].
  - unfold instrument_exists. rewrite bind_gets. case_bool_decide; eexists _, _; by split.
  - eexists _, _. by split.
Qed.
Lemma check_working_result e rep :
  ∃ open rep', check_if_exchange_is_working rep e = (e, Ret (open, rep')).
Proof. unfold check_if_exchange_is_working, is_working. rewrite bind_gets. by destruct (working e); eexists _, _. Qed.

(** What the theorems ask of a request that creates an order: the price is a number, the quantity
    positive, and the generated identifier is not one of the book's. *)
Definition proper now generated e req : Prop :=
  ∀ d x b, iterate (content req) = Some d → map_json_to_order now d = Ret x →
    instruments e !! get_path_param req INSTRUMENT_KEY = Some (Some b) →
    is_nan (o_price x) = false ∧ qty_ok (o_current_qty x) ∧ b_orders b !! generated = None.

(** ... and of one that updates an order: it is not a stop order that rests. *)
Definition no_resting_stop now e req : Prop :=
  ∀ d y b o x, iterate (content req) = Some d → map_json_to_order now d = Ret y →
    instruments e !! get_path_param req INSTRUMENT_KEY = Some (Some b) →
    b_orders b !! o_id y = Some o → b_oh b !! o = Some x → has_param x STOP = false.

Lemma mapped_order now d x :
  map_json_to_order now d = Ret x → o_cancelled x = false ∧ o_prev x = None ∧ o_next x = None.
Proof. unfold map_json_to_order, field. intros Hm. repeat case_match; by simplify_eq/=. Qed.

(** A check whose failure answers the request. *)
Ltac checked E spec Hv :=
  let valid := fresh "valid" in let rep := fresh "rep" in let Ev := fresh "Ev" in
  destruct spec as (valid&rep&Ev&Hv); rewrite (bind_ok _ _ _ _ _ Ev) in E;
  destruct valid; cbn [negb] in E; [clear Ev|by injection E as <- _].

Lemma create_kept now generated req rep e e' rep' :
  exchange_ok e → proper now generated e req →
  CreateOrderHandler_handle now generated req rep e = (e', Ret rep') → stays_ok e e'.
Proof.
  intros He Hp E. unfold CreateOrderHandler_handle in E.
  checked E (validate_instrument_result e req rep) Hi. destruct (Hi eq_refl) as [ob Hob].
  destruct (He _ _ Hob) as (b&a&->&Hs&Hb).
  destruct (iterate (content req)) as [d|] eqn:Hd; [|done]. cbn [field lift] in E. rewrite bind_ret in E.
  destruct (map_json_to_order now d) as [x|] eqn:Hx; [|done]. cbn [lift] in E. rewrite bind_ret in E.
  destruct (validate_order_side _ _) as [[] rep1]; cbn [negb] in E; [|by injection E as <- _].
  destruct (check_working_result e rep1) as (open&rep2&Ew). rewrite (bind_ok _ _ _ _ _ Ew) in E.
  destruct open; cbn [negb] in E; [|by injection E as <- _].
  destruct (Hp d x b Hd Hx Hob) as (Hprice&Hq&Hid). destruct (mapped_order _ _ _ Hx) as (Hc&Hpr&Hnx).
  destruct (add_order_routed now e _ b (set_id generated x) He Hob) as (b'&st&E1&E2&He');
    [by split|done|].
  rewrite (bind_ok _ _ _ _ _ E2) in E. injection E as <- _. split; [done|].
  intros j. unfold with_book. simpl. rewrite lookup_insert_is_Some.
  destruct (decide (get_path_param req INSTRUMENT_KEY = j)) as [<-|Hne]; [|naive_solver].
  rewrite Hob. naive_solver.
Qed.

Lemma get_kept (db : DB) req rep e e' rep' :
  exchange_ok e → GetOrderHandler_handle db req rep e = (e', Ret rep') → stays_ok e e'.
Proof.
  intros He E. unfold GetOrderHandler_handle in E.
  destruct (validate_parameter _ _ _ _) as [[] rep1]; cbn [negb] in E; [|by injection E as <- _].
  destruct (check_working_result e rep1) as (open&rep2&Ew). rewrite (bind_ok _ _ _ _ _ Ew) in E.
  destruct open; cbn [negb] in E; [|by injection E as <- _].
  destruct (Exchange.get_order _ _) as [[o|]|]; [| |done]; by injection E as <- _.
Qed.

Lemma cancel_kept req rep e e' rep' :
  exchange_ok e → CancelOrderHandler_handle req rep e = (e', Ret rep') → stays_ok e e'.
Proof.
  intros He E. unfold CancelOrderHandler_handle in E.
  destruct (validate_parameter _ _ _ _) as [[] rep1]; cbn [negb] in E; [|by injection E as <- _].
  destruct (check_working_result e rep1) as (open&rep2&Ew). rewrite (bind_ok _ _ _ _ _ Ew) in E.
  destruct open; cbn [negb] in E; [|by injection E as <- _].
  checked E (validate_instrument_result e req rep2) Hi.
  apply bind_inv in E as (e1&st&E1&E). injection E as <- _.
  eapply run_in_book_kept; [apply safe_cancel|done|by apply Hi|exact E1].
Qed.

Lemma update_kept now req rep e e' rep' :
  exchange_ok e → no_resting_stop now e req →
  UpdateOrderHandler_handle now req rep e = (e', Ret rep') → stays_ok e e'.
Proof.
  intros He Hp E. unfold UpdateOrderHandler_handle in E.
  checked E (validate_instrument_result e req rep) Hi. destruct (Hi eq_refl) as [ob Hob].
  destruct (He _ _ Hob) as (b&a&->&Hs&Hb).
  destruct (check_working_result e rep0) as (open&rep2&Ew). rewrite (bind_ok _ _ _ _ _ Ew) in E.
  destruct open; cbn [negb] in E; [|by injection E as <- _].
  destruct (iterate (content req)) as [d|] eqn:Hd; [|done]. cbn [field lift] in E. rewrite bind_ret in E.
  destruct (map_json_to_order now d) as [y|] eqn:Hy; [|done]. cbn [lift] in E. rewrite bind_ret in E.
  apply bind_inv in E as (e1&st&E1&E). injection E as <- _. unfold Exchange.modify_order in E1.
  set (ord := fresh (dom (b_oh b))). assert (b_oh b !! ord = None) as Hnew.
  { apply not_elem_of_dom. apply is_fresh. }
  pose proof (grown_ok b a ord y Hb Hnew) as Hb1. set (b1 := set_oh _ b) in Hb1.
  destruct (OrderBook.modify_order ord b1) as [b2 r] eqn:Em.
  assert ((order ← alloc_order y; OrderBook.modify_order order) b = (b2, r)) as Er.
  { unfold alloc_order. by erewrite bind_ok by reflexivity. }
  rewrite (run_in_book_ok e _ b _ b2 r Hs Er) in E1. injection E1 as <- ->.
  apply (modify_returns b1 a ord y _ _ Hb1) in Em as [-> _]; [by eapply with_book_kept| |].
  - apply lookup_insert_eq.
  - intros o x Ho Hx. eapply (Hp d y b o); try done. unfold b1 in Hx. simpl in Hx.
    rewrite lookup_insert_ne in Hx; [done|]. intros <-.
    apply (bk_map _ _ Hb) in Ho as [Hin _].
    destruct (in_book_lookup b a ord Hb Hin) as [z Hz]. by rewrite Hnew in Hz.
Qed.

Lemma snapshot_kept req rep e e' rep' :
  exchange_ok e → SnapshotHandler_handle req rep e = (e', Ret rep') → stays_ok e e'.
Proof.
  intros He E. unfold SnapshotHandler_handle in E.
  checked E (info_validate_instrument_result e req rep) Hi. specialize (Hi eq_refl).
  apply bind_inv in E as (e1&st&E1&E). injection E as <- _. unfold get_orderbook_snapshot in E1.
  unfold subscript_instruments in E1. rewrite bind_modify in E1. destruct Hi as [ob Hob].
  rewrite Hob in E1. eapply on_book_kept; [apply safe_reads, reads_get_snapshot|done|by exists ob|exact E1].
Qed.

(** ** Sessions *)

Inductive exchange_step : exchange → exchange → Prop :=
  | step_create now generated req rep e e' rep' :
      proper now generated e req →
      CreateOrderHandler_handle now generated req rep e = (e', Ret rep') → exchange_step e e'
  | step_get (db : DB) req rep e e' rep' :
      GetOrderHandler_handle db req rep e = (e', Ret rep') → exchange_step e e'
  | step_cancel req rep e e' rep' :
      CancelOrderHandler_handle req rep e = (e', Ret rep') → exchange_step e e'
  | step_update now req rep e e' rep' :
      no_resting_stop now e req →
      UpdateOrderHandler_handle now req rep e = (e', Ret rep') → exchange_step e e'
  | step_snapshot req rep e e' rep' :
      SnapshotHandler_handle req rep e = (e', Ret rep') → exchange_step e e'
  | step_clock now local_time e e' target :
      is_working_turn now local_time e = (e', Ret target) → exchange_step e e'.

Lemma exchange_step_kept e e' : exchange_ok e → exchange_step e e' → stays_ok e e'.
Proof.
  intros He Hs. revert He. destruct Hs as [now generated req rep e1 e2 rep' Hp E|db req rep e1 e2 rep' E|req rep e1 e2 rep' E
    |now req rep e1 e2 rep' Hp E|req rep e1 e2 rep' E|now t e1 e2 target E]; intros He.
  - by eapply create_kept.
  - by eapply get_kept.
  - by eapply cancel_kept.
  - by eapply update_kept.
  - by eapply snapshot_kept.
  - by eapply clock_kept.
Qed.

Lemma session_kept e e' : exchange_ok e → rtc exchange_step e e' → stays_ok e e'.
Proof.
  intros He Hr. induction Hr as [e|e1 e2 e3 Hs _ IH]; [by apply stays_ok_refl|].
  pose proof (exchange_step_kept _ _ He Hs) as H12. eapply stays_ok_trans; [exact H12|].
  apply IH, H12.
Qed.
End handlers.
