(* ===== verification/WebSocketClient.v ===== *)
(** * server/websocket/websocket_client.cpp: the client of another exchange's stream

    The client starts one asynchronous operation after the other, each with the member that is
    called when it completes.  What the operations do is Asio's and Beast's: an operation that was
    started may complete at any time, with an error or without one, and a read appends what it
    received to the buffer first.  An error is its message. *)

From Stdlib Require Import Strings.Byte.
From S2P Require Import Prelude.

Section websocket.
(** The results of resolving a host, the end of a connection, the version that Beast gives itself,
    and OpenSSL's function. *)
Context {results_type endpoint_type : Type}.
Variables (BOOST_BEAST_VERSION_STRING : string) (SSL_set_tlsext_host_name : string → bool).

Inductive operation :=
  | async_resolve (host port : string)
  | async_connect (results : results_type)
  | async_ssl_handshake
  | async_handshake (host target : string)
  | async_write (message : string)
  | async_read.
Inductive callback :=
  | cb_on_resolve | cb_on_connect | cb_on_ssl_handshake | cb_on_handshake | cb_on_write | cb_on_read.

(** The members, the options of the stream, the operations that were started and those that are not
    complete, and what was printed. *)
Record client := Client {
  host_ : string;
  port_ : string;
  subscribe_message_ : string;
  buffer_ : list byte;
  expiry : option Z;               (** of the lowest layer, in seconds *)
  suggested_timeouts : bool;
  user_agent : option string;
  tls_host_name : option string;
  started : list operation;
  pending : list (operation * callback);
  cerr : list string;
  cout : list (list byte)
}.
Implicit Types (c : client) (ec : option string).

Definition WebSocketClient (host port subscribe_message : string) : client :=
  Client host port subscribe_message [] None false None None [] [] [] [].

Definition set_buffer (buf : list byte) c : client :=
  Client (host_ c) (port_ c) (subscribe_message_ c) buf (expiry c) (suggested_timeouts c) (user_agent c)
    (tls_host_name c) (started c) (pending c) (cerr c) (cout c).
Definition set_expiry (secs : option Z) c : client :=
  Client (host_ c) (port_ c) (subscribe_message_ c) (buffer_ c) secs (suggested_timeouts c) (user_agent c)
    (tls_host_name c) (started c) (pending c) (cerr c) (cout c).
Definition set_options (agent : string) c : client :=
  Client (host_ c) (port_ c) (subscribe_message_ c) (buffer_ c) (expiry c) true (Some agent)
    (tls_host_name c) (started c) (pending c) (cerr c) (cout c).
Definition set_tls_host_name (name : string) c : client :=
  Client (host_ c) (port_ c) (subscribe_message_ c) (buffer_ c) (expiry c) (suggested_timeouts c)
    (user_agent c) (Some name) (started c) (pending c) (cerr c) (cout c).
Definition set_pending (ops : list (operation * callback)) c : client :=
  Client (host_ c) (port_ c) (subscribe_message_ c) (buffer_ c) (expiry c) (suggested_timeouts c)
    (user_agent c) (tls_host_name c) (started c) ops (cerr c) (cout c).
Definition start (op : operation) (cb : callback) c : client :=
  Client (host_ c) (port_ c) (subscribe_message_ c) (buffer_ c) (expiry c) (suggested_timeouts c)
    (user_agent c) (tls_host_name c) (started c ++ [op]) (pending c ++ [(op, cb)]) (cerr c) (cout c).
Definition print_error (line : string) c : client :=
  Client (host_ c) (port_ c) (subscribe_message_ c) (buffer_ c) (expiry c) (suggested_timeouts c)
    (user_agent c) (tls_host_name c) (started c) (pending c) (cerr c ++ [line]) (cout c).
Definition print (text : list byte) c : client :=
  Client (host_ c) (port_ c) (subscribe_message_ c) (buffer_ c) (expiry c) (suggested_timeouts c)
    (user_agent c) (tls_host_name c) (started c) (pending c) (cerr c) (cout c ++ [text]).
(** [consume] takes bytes from the front of the buffer. *)
Definition consume (n : nat) c : client := set_buffer (drop n (buffer_ c)) c.

(** ** The members *)

Definition run c : client := start (async_resolve (host_ c) (port_ c)) cb_on_resolve c.

Definition on_fail (message failed_operation : string) c : client :=
  print_error (failed_operation ++ ": " ++ message) c.

Definition on_resolve ec (results : results_type) c : client :=
  match ec with
  | Some message => on_fail message "resolve" c
  | None =>
      let c := set_expiry (Some 30%Z) c in
      start (async_connect results) cb_on_connect c
  end.
Definition on_connect ec (ep : endpoint_type) c : client :=
  match ec with
  | Some message => on_fail message "connect" c
  | None =>
      let c := set_expiry (Some 30%Z) c in
      if negb (SSL_set_tlsext_host_name (host_ c)) then
        print_error "SSL_set_tlsext_host_name: error " c
      else
        let c := set_tls_host_name (host_ c) c in
        start async_ssl_handshake cb_on_ssl_handshake c
  end.
Definition on_ssl_handshake ec c : client :=
  match ec with
  | Some message => on_fail message "ssl_handshake" c
  | None =>
      let c := set_expiry None c in
      let c := set_options (BOOST_BEAST_VERSION_STRING ++ " websocket-client-async-ssl") c in
      start (async_handshake (host_ c) "/") cb_on_handshake c
  end.
Definition on_handshake ec c : client :=
  match ec with
  | Some message => on_fail message "handshake" c
  | None => start (async_write (subscribe_message_ c)) cb_on_write c
  end.
Definition on_write ec (bytes_transferred : nat) c : client :=
  match ec with
  | Some message => on_fail message "write" c
  | None => start async_read cb_on_read c
  end.
Definition on_read ec (bytes_transferred : nat) c : client :=
  match ec with
  | Some message => on_fail message "read" c
  | None =>
      let c := consume bytes_transferred c in
      start async_read cb_on_read c
  end.
Definition on_close ec c : client :=
  match ec with
  | Some message => on_fail message "close" c
  | None => print (buffer_ c) c
  end.

(** ** Executions *)

(** What an operation completes with: an error or none, and its results. *)
Inductive completes : callback → (client → client) → Prop :=
  | resolved ec results : completes cb_on_resolve (on_resolve ec results)
  | connected ec ep : completes cb_on_connect (on_connect ec ep)
  | ssl_shaken ec : completes cb_on_ssl_handshake (on_ssl_handshake ec)
  | shaken ec : completes cb_on_handshake (on_handshake ec)
  | written ec n : completes cb_on_write (on_write ec n)
  | received ec text :
      completes cb_on_read (λ c, on_read ec (length text) (set_buffer (buffer_ c ++ text) c)).

Inductive client_step : client → client → Prop :=
  | step_complete c before op cb after handler :
      pending c = before ++ (op, cb) :: after → completes cb handler →
      client_step c (handler (set_pending (before ++ after) c)).

(** ** The protocol *)

Variables (host port message : string).

(** The first operations of the protocol, and the member that each of them completes with. *)
Definition protocol (results : results_type) (n : nat) : list operation :=
  take n [async_resolve host port; async_connect results; async_ssl_handshake;
          async_handshake host "/"; async_write message] ++ replicate (n - 5) async_read.
Definition callback_of (op : operation) : callback :=
  match op with
  | async_resolve _ _ => cb_on_resolve
  | async_connect _ => cb_on_connect
  | async_ssl_handshake => cb_on_ssl_handshake
  | async_handshake _ _ => cb_on_handshake
  | async_write _ => cb_on_write
  | async_read => cb_on_read
  end.

(** After [n] operations of the protocol: the last of them is not complete, or it failed. *)
Record follows (n : nat) (results : results_type) c : Prop := {
  fo_members : host_ c = host ∧ port_ c = port ∧ subscribe_message_ c = message;
  fo_started : started c = protocol results n;
  fo_some : 0 < n;
  fo_pending :
    (∃ op, pending c = [(op, callback_of op)] ∧ last (started c) = Some op ∧ cerr c = [] ∧
       buffer_ c = []) ∨
    (pending c = [] ∧ ∃ line, cerr c = [line]);
  fo_name : 3 ≤ n → tls_host_name c = Some host;
  fo_silent : cout c = []
}.

Lemma run_follows results : follows 1 results (run (WebSocketClient host port message)).
Proof. split; try done; [lia|left|intros; lia]. by exists (async_resolve host port). Qed.

(** An operation that fails ends the protocol. *)
Lemma failed_follows n results c buf secs line :
  follows n results c → cerr c = [] →
  follows n results (print_error line (set_buffer buf (set_expiry secs (set_pending [] c)))).
Proof.
  intros [Hm Hs Hn _ Hname Hout] Herr. split; try done. right. split; [done|]. simpl.
  rewrite Herr. by exists line.
Qed.

Lemma protocol_late n results : 6 ≤ n → last (protocol results n) = Some async_read.
Proof.
  intros Hn. unfold protocol. destruct (n - 5) as [|k] eqn:Hk; [lia|].
  by rewrite replicate_S_end, app_assoc, last_snoc.
Qed.
Lemma protocol_S n results : 5 ≤ n → protocol results (S n) = protocol results n ++ [async_read].
Proof.
  intros Hn. unfold protocol. rewrite !take_ge by (simpl; lia).
  replace (S n - 5) with (S (n - 5)) by lia. by rewrite replicate_S_end, app_assoc.
Qed.

(** The next operation of the protocol is started. *)
Lemma start_follows n results op c :
  host_ c = host ∧ port_ c = port ∧ subscribe_message_ c = message → pending c = [] → cerr c = [] →
  buffer_ c = [] → cout c = [] → (2 ≤ n → tls_host_name c = Some host) →
  started c ++ [op] = protocol results (S n) →
  follows (S n) results (start op (callback_of op) c).
Proof.
  intros Hm Hpend Herr Hbuf Hout Hname Hs. split; try done; simpl.
  - lia.
  - left. exists op. rewrite Hpend, last_snoc. by split_and!.
  - intros Hn. apply Hname. lia.
Qed.

Ltac following :=
  simpl; auto with lia;
  repeat match goal with E : _ = _ |- context [?f ?c] => is_var c; rewrite E end; done.

(** A completion leads to the next operation or to the end. *)
Lemma step_follows n results c c' :
  follows n results c → client_step c c' → ∃ n' results', follows n' results' c'.
Proof.
  intros Hf Hst. revert Hf. destruct Hst as [c0 before op cb after handler Hops Hc]. intros Hf.
  pose proof Hf as [(Hh&Hp&Hm) Hs Hn Hpend Hname Hout].
  destruct Hpend as [(op'&E&Hlast&Herr&Hbuf)|(E&_)]; rewrite E in Hops; [|by destruct before].
  destruct before as [|? before]; [|by destruct before]. injection Hops as -> <- <-. simpl.
  rewrite Hs in Hlast.
  pose proof (λ buf secs line, failed_follows n results c0 buf secs line Hf Herr) as Hfail.
  destruct (decide (6 ≤ n)) as [H6|H6].
  { rewrite protocol_late in Hlast by done. injection Hlast as <-.
    inversion Hc as [| | | | |ec text Ht]; subst.
    destruct ec as [msg|]; [exists n, results|exists (S n), results].
    - apply (Hfail _ (expiry c0)).
    - apply (start_follows n results async_read); simpl; try done.
      + rewrite Hbuf. by apply drop_ge.
      + intros _. apply Hname. lia.
      + by rewrite Hs, protocol_S by lia. }
  assert (n = 1 ∨ n = 2 ∨ n = 3 ∨ n = 4 ∨ n = 5) as Hcases by lia.
  destruct Hcases as [->|[->|[->|[->| ->]]]]; cbn in Hlast; injection Hlast as <-.
  all: inversion Hc as [ec rs|ec ep|ec|ec|ec k|]; subst;
    (destruct ec as [msg|]; [eexists _, results; apply (Hfail (buffer_ c0) (expiry c0))|]).
  - exists 2, rs. apply (start_follows 1 rs (async_connect rs)); following.
  - unfold on_connect. simpl. destruct (SSL_set_tlsext_host_name _); simpl;
      [|exists 2, results; apply (Hfail (buffer_ c0) (Some 30%Z))].
    exists 3, results. apply (start_follows 2 results async_ssl_handshake); following.
  - exists 4, results. apply (start_follows 3 results (async_handshake _ "/")); following.
  - exists 5, results. apply (start_follows 4 results (async_write _)); following.
  - exists 6, results. apply (start_follows 5 results async_read); following.
Qed.

(** C40: whatever completes, and however: the client connects to its host, shakes hands, writes its
    message once and then reads for ever.  It waits for one operation at a time, which is the last one it
    started, and ends with one line of error when that one fails; while it reads its buffer is empty. *)
Theorem client_follows_its_protocol `{!Inhabited results_type} c :
  rtc client_step (run (WebSocketClient host port message)) c →
  (∃ n results, 0 < n ∧ started c = protocol results n ∧ (3 ≤ n → tls_host_name c = Some host)) ∧
  ((∃ op, last (started c) = Some op ∧ pending c = [(op, callback_of op)] ∧ cerr c = [] ∧
      buffer_ c = []) ∨
   (pending c = [] ∧ ∃ line, cerr c = [line])) ∧
  cout c = [].
Proof.
  intros Hr.
  assert (∃ n results, follows n results c) as (n&results&[_ Hs Hn Hp Hname Hout]).
  { revert Hr. apply (rtc_ind_r (λ c, ∃ n results, follows n results c)).
    - exists 1, inhabitant. apply run_follows.
    - intros c1 c2 _ Hs (n&results&Hf). by eapply step_follows. }
  split; [by exists n, results|]. split; [|done].
  destruct Hp as [(op&H1&H2&H3&H4)|Hp]; [left; by exists op|by right].
Qed.
End websocket.

(** A client whose host refuses the connection. *)
Lemma client_follows_its_protocol_witness :
  ∃ c : client (results_type:=nat), rtc (client_step (endpoint_type:=unit) "Boost.Beast" (λ _, true))
      (run (WebSocketClient "host" "443" "subscribe")) c ∧
    last (started c) = Some (async_connect 1) ∧ cerr c = ["connect: refused"]%string ∧ cout c = [].
Proof.
  eexists. assert (rtc (client_step (endpoint_type:=unit) "Boost.Beast" (λ _, true))
    (run (WebSocketClient "host" "443" "subscribe"))
    (on_connect (λ _, true) (Some "refused"%string) tt (set_pending [] (on_resolve None 1
       (set_pending [] (run (WebSocketClient "host" "443" "subscribe"))))))) as Hr.
  { eapply rtc_l; [eapply (step_complete _ _ _ []); [reflexivity|apply (resolved _ _ None 1)]|].
    apply rtc_once. eapply (step_complete _ _ _ []); [reflexivity|apply connected]. }
  split; [exact Hr|]. split; [reflexivity|]. split; [reflexivity|].
  destruct (client_follows_its_protocol "Boost.Beast" (λ _, true) "host" "443" "subscribe" _ Hr)
    as (_&_&Hout).
  exact Hout.
Defined.
