(* ===== verification/Server.v ===== *)
(** * server/server.cpp, main.cpp: the routes and the start of the program

    The matching of paths and the choice of a rule are Seastar's: a class states what
    [routes::add] and the look-up of a request do on paths that are made of segments.  A server is
    the exchange behind the handlers with its routes and the address it listens on. *)

From Stdlib Require Import Ascii.
From S2P Require Import Prelude Float DataTypes OrderBook Exchange Repository Responses Handlers.
From S2P Require Import InstrumentFile.

(** ** Seastar's routes *)

Inductive operation_type := GET | POST | PUT.
#[export] Instance operation_type_eq_dec : EqDecision operation_type.
Proof. solve_decision. Defined.

(** What [add_str] and [add_param] add to a [match_rule]. *)
Inductive matcher := StrMatcher (str : string) | ParamMatcher (name : string).

(** The handlers that the server has. *)
Inductive handler :=
  | _create_order_handler
  | _update_order_handler
  | _get_order_handler
  | _cancel_order_handler
  | _snapshot_handler.

Record match_rule := MatchRule { rule_handler : handler; matchers : list matcher }.
Definition new_match_rule (h : handler) : match_rule := MatchRule h [].
Definition add_str (str : string) (r : match_rule) : match_rule :=
  MatchRule (rule_handler r) (matchers r ++ [StrMatcher str]).
Definition add_param (name : string) (r : match_rule) : match_rule :=
  MatchRule (rule_handler r) (matchers r ++ [ParamMatcher name]).

(** A segment of a path, in which nothing is encoded, and the path of some segments. *)
Definition slash : ascii := "/".
Definition percent : ascii := "%".
Definition segment (s : string) : Prop :=
  s ≠ ""%string ∧ Forall (λ c, c ≠ slash ∧ c ≠ percent) (String.list_ascii_of_string s).
#[export] Instance segment_dec s : Decision (segment s) := _.
Definition path_of (segs : list string) : string := String.concat "" (String.append "/" <$> segs).

(** A rule whose strings are one segment each: every matcher takes one segment of the path, a
    parameter's is its value. *)
Definition one_segment (m : matcher) : Prop :=
  match m with
  | StrMatcher str => ∃ s, segment s ∧ str = ("/" ++ s)%string
  | ParamMatcher _ => True
  end.
Definition param_names (ms : list matcher) : list string :=
  omap (λ m, match m with ParamMatcher name => Some name | StrMatcher _ => None end) ms.
Fixpoint match_segments (ms : list matcher) (segs : list string) : option (gmap string string) :=
  match ms, segs with
  | [], [] => Some ∅
  | StrMatcher str :: ms, s :: segs =>
      if decide (str = ("/" ++ s)%string) then match_segments ms segs else None
  | ParamMatcher name :: ms, s :: segs => insert name s <$> match_segments ms segs
  | _, _ => None
  end.

(** The rule that was added first is tried first. *)
Class Routes (R : Type) := {
  no_routes : R;
  routes_add : match_rule → operation_type → R → R;
  routes_get : operation_type → string → R → option (handler * gmap string string)
}.
Class RoutesLaws (R : Type) `{!Routes R} : Prop := {
  get_no_routes op path : routes_get op path no_routes = None;
  get_add rule op op' segs rs :
    Forall one_segment (matchers rule) → NoDup (param_names (matchers rule)) → Forall segment segs →
    routes_get op' (path_of segs) (routes_add rule op rs) =
      match routes_get op' (path_of segs) rs with
      | Some r => Some r
      | None =>
          if decide (op' = op) then pair (rule_handler rule) <$> match_segments (matchers rule) segs
          else None
      end
}.

(** ** server/server.cpp *)

Definition create_order_route : match_rule :=
  let new_route := new_match_rule _create_order_handler in
  let new_route := add_str "/orders" new_route in
  let new_route := add_param INSTRUMENT_KEY new_route in
  add_str "/create" new_route.
Definition update_order_route : match_rule :=
  let update_route := new_match_rule _update_order_handler in
  let update_route := add_str "/orders" update_route in
  let update_route := add_param INSTRUMENT_KEY update_route in
  add_str "/update" update_route.
Definition get_order_route : match_rule :=
  let get_route := new_match_rule _get_order_handler in
  let get_route := add_str "/orders" get_route in
  let get_route := add_param INSTRUMENT_KEY get_route in
  add_param ORDER_ID_KEY get_route.
Definition cancel_order_route : match_rule :=
  let cancel_route := new_match_rule _cancel_order_handler in
  let cancel_route := add_str "/orders" cancel_route in
  let cancel_route := add_param INSTRUMENT_KEY cancel_route in
  let cancel_route := add_str "/cancel" cancel_route in
  add_param ORDER_ID_KEY cancel_route.
Definition get_orderbook_snapshot_route : match_rule :=
  let get_orderbook_snapshot_route := new_match_rule _snapshot_handler in
  let get_orderbook_snapshot_route := add_str "/orderbook" get_orderbook_snapshot_route in
  let get_orderbook_snapshot_route := add_param INSTRUMENT_KEY get_orderbook_snapshot_route in
  add_str "/snapshot" get_orderbook_snapshot_route.

Section server.
Context {R : Type} `{!Routes R}.

Definition set_routes (routes : R) : R :=
  let routes := routes_add create_order_route POST routes in
  let routes := routes_add update_order_route PUT routes in
  let routes := routes_add get_order_route GET routes in
  let routes := routes_add cancel_order_route PUT routes in
  routes_add get_orderbook_snapshot_route GET routes.

(** The constructor takes a name, too, and does not keep it. *)
Record server := Server {
  _address : string;
  _port : Z;
  _exchange : exchange;
  _routes : R;
  _listens : option (string * Z)
}.
Definition SeastarServer (name address : string) (port : Z) (e : exchange) : server :=
  Server address port e no_routes None.
Definition start (s : server) : server :=
  Server (_address s) (_port s) (_exchange s) (set_routes (_routes s)) (Some (_address s, _port s)).

(** ** Requests *)

Context {doc : Type} `{!Json doc} {DB : Type} `{!Database DB} `{!Archive}.

Definition handle (now : Z) (generated : string) (db : DB) (h : handler) (req : request)
    : M exchange reply :=
  match h with
  | _create_order_handler => CreateOrderHandler_handle now generated req new_reply
  | _update_order_handler => UpdateOrderHandler_handle now req new_reply
  | _get_order_handler => GetOrderHandler_handle db req new_reply
  | _cancel_order_handler => CancelOrderHandler_handle req new_reply
  | _snapshot_handler => SnapshotHandler_handle req new_reply
  end.
(** What the server does with a request line and a body; [None] when no rule matches, which
    Seastar answers. *)
Definition serve (now : Z) (generated : string) (db : DB) (rs : R) (op : operation_type)
    (path body : string) : M exchange (option reply) :=
  match routes_get op path rs with
  | Some (h, params) => Some <$> handle now generated db h (Request params body)
  | None => mret None
  end.

(** ** main.cpp *)

Record configuration := Configuration {
  server_name : string;
  server_address : string;
  server_port : Z;
  trade_repository_address : string;
  trade_repository_batch_size : Z;
  rocksdb_dir : string;
  ringbuffer_size : Z;
  instrument_init_file : string
}.
Definition default_configuration : configuration :=
  Configuration "UnlimitedExchange" "0.0.0.0" 8000 "172.17.0.2" 1 "./order_rocksdb" 1024
    "../init/instruments.txt".

(** What the command line gives for an option, of the types that [main] registers them with; parsing
    it is Boost's. *)
Record command_line := CommandLine {
  text_option : string → option string;
  number_option : string → option Z
}.
Definition app_configuration (given : command_line) : configuration :=
  let text name preset := default preset (text_option given name) in
  let number name preset := default preset (number_option given name) in
  let flags := default_configuration in
  Configuration
    (text "server_name" (server_name flags))
    (text "server_address" (server_address flags))
    (number "server_port" (server_port flags))
    (text "trade_repository_address" (trade_repository_address flags))
    (number "trade_repository_batch_size" (trade_repository_batch_size flags))
    (text "rocksdb_dir" (rocksdb_dir flags))
    (number "ringbuffer_size" (ringbuffer_size flags))
    (text "instrument_init_file" (instrument_init_file flags)).

(** The files of instruments and the databases are there by name; each book reads the whole order
    repository. *)
Definition main (config : configuration) (files : string → option chars) (databases : string → DB)
    : outcome server :=
  let _order_repository := databases (rocksdb_dir config) in
  let instruments_info := read_instrument_init_data_from_file (files (instrument_init_file config)) in
  match (if bool_decide (instruments_info = []) then Ret [] else get_all _order_repository) with
  | Err err => Err err
  | Ret orders =>
      match new_exchange instruments_info orders false with
      | (_, Err err) => Err err
      | (exchange, Ret _) =>
          Ret (start (SeastarServer (server_name config) (server_address config)
                        (server_port config) exchange))
      end
  end.
End server.
