(* ===== verification/SysTypes.v ===== *)
(** * The types of the numbers, from the files to the replies

    The invariant of [OBTypes.v] for the whole program: the exchange that [main] makes of the file
    of instruments and the stored orders is typed, every request and every turn of the clock thread
    keeps it typed, whether it is answered or fails, and the numbers of the replies are typed. *)

From S2P Require Import Prelude Float RBTree DataTypes OrderBook OBAdd OBTypes.
From S2P Require Import InstrumentFile Repository Exchange Responses Handlers Server.

(** ** Prices from the file of instruments *)

Section prices.
Open Scope Z_scope.

Lemma take_digits_nonneg s : Forall (Z.le 0) (take_digits s).1.
Proof.
  induction s as [|c s IH]; simpl; [done|]. destruct (digit_of c) as [d|] eqn:E; [|done].
  destruct (take_digits s) as [ds r]. cbn [fst] in *. apply Forall_cons. split; [|done].
  unfold digit_of in E. destruct (_ && _) eqn:E2; [|done]. injection E as <-.
  apply andb_true_iff in E2 as [H%Nat.leb_le _]. lia.
Qed.

Lemma f32_neg x : f32 x → f32 (fneg x).
Proof.
  destruct x as [n| |]; [|done..]. intros [Hb Hd]. unfold in_format, fits, grid. simpl.
  rewrite Z.abs_opp. split; [done|]. by apply Z.divide_opp_r.
Qed.
Lemma round_ratio_typed num den x : 0 ≤ num → 0 < den → round_ratio num den = Some x → f32 x.
Proof.
  intros Hn Hd. unfold round_ratio. set (u := num * _). set (k := Z.max 0 _).
  assert (0 ≤ u) by (apply Z.mul_nonneg_nonneg; [done|by apply Z.pow_nonneg]).
  assert (0 < 2 ^ k) by (apply Z.pow_pos_nonneg; lia).
  assert (u / (den * 2 ^ k) < 2 ^ 24) as Hq.
  { rewrite <-Z.div_div by lia. apply Z.div_lt_upper_bound; [lia|]. rewrite <-Z.pow_add_r by lia.
    destruct (decide (u / den = 0)) as [->|Hne]; [apply Z.pow_pos_nonneg; lia|].
    assert (0 < u / den) by (pose proof (Z.div_pos u den); lia).
    destruct (Z.log2_spec (u / den)) as [_ Hl]; [done|].
    assert (2 ^ Z.succ (Z.log2 (u / den)) ≤ 2 ^ (k + 24)); [|lia].
    apply Z.pow_le_mono_r; [lia|]. unfold k, binary32. simpl fprec. lia. }
  assert (0 ≤ u / (den * 2 ^ k)) by (apply Z.div_pos; nia).
  rewrite (Z.mul_comm den (2 ^ k)), Z.div_mul, (Z.mul_comm (2 ^ k) den) by lia.
  set (m := if _ <? _ then _ else _). assert (0 ≤ m ≤ 2 ^ 24) as Hm by (unfold m; repeat case_match; lia).
  case_match eqn:E; [done|]. intros [= <-]. apply Z.leb_gt in E.
  apply (fits_scaled binary32); [done|lia|simpl; lia|]. rewrite Z.abs_eq; [done|nia].
Qed.

Lemma read_float_typed s x r : read_float s = Some (x, r) → f32 x.
Proof.
  unfold read_float. destruct (read_sign _) as [neg s1].
  pose proof (take_digits_nonneg s1) as Hds. destruct (take_digits s1) as [ds s2]. simpl in Hds.
  set (p := match s2 with [] => _ | _ => _ end). assert (Forall (Z.le 0) p.1) as Hfs.
  { unfold p. repeat case_match; [done|apply take_digits_nonneg|done]. }
  destruct p as [fs s3]. simpl in Hfs. case_bool_decide; [done|].
  set (q := match s3 with [] => _ | _ => _ end). destruct q as [[ex|] s4]; [|done].
  case_match eqn:E; [|done]. intros [= <- <-].
  apply round_ratio_typed in E; [case_match; [by apply f32_neg|done]|..].
  - apply Z.mul_nonneg_nonneg; [|by apply Z.pow_nonneg]. by apply number_of_nonneg, Forall_app.
  - apply Z.pow_pos_nonneg; lia.
Qed.
Lemma read_file_typed input :
  Forall (λ info, f32 info.2) (read_instrument_init_data_from_file input).
Proof.
  destruct input as [s|]; simpl; [|done]. apply Forall_forall. intros [symbol x] Hin.
  apply list_elem_of_omap in Hin as (line&_&Hl). unfold parse_line in Hl. repeat case_match; [|done..].
  simplify_eq/=. by eapply read_float_typed.
Qed.
End prices.

(** ** What the libraries return *)

(** simdjson's [get_uint64] is a [uint64_t]; an archive is read into members of their types. *)
Class JsonTypes (doc : Type) `{!Json doc} : Prop := {
  get_uint64_typed (d : doc) key v : get_uint64 d key = Some v → uint64 v
}.
Class ArchiveTypes `{!Archive} : Prop := {
  iarchive_typed text a : iarchive text = Some a → typed_order (deserialize a)
}.

(** ** The exchange *)

Record typed_exchange (e : exchange) : Prop := {
  ty_books inst b : instruments e !! inst = Some (Some b) → typed_book b;
  ty_idx inst i : instrument_idx e !! inst = Some i → (0 ≤ i < 2 ^ 32)%Z
}.

Section exchange.
Variable now : Z.
Hypothesis Hnow : int64 now.
Implicit Types (inst : string) (e : exchange).

Abbreviation keeps_types m := (maintains typed_exchange m (λ _, True)) (only parsing).

Lemma u32_typed z : (0 ≤ u32 z < 2 ^ 32)%Z.
Proof. by apply Z.mod_pos_bound. Qed.
Lemma put_book_typed inst ob e :
  typed_exchange e → (∀ b, ob = Some b → typed_book b) →
  typed_exchange (put_instruments (<[inst := ob]> (instruments e)) e).
Proof.
  intros [Hb Hi] Hob. split; [|done]. intros j b. simpl.
  rewrite lookup_insert_Some. intros [[_ ->]|[_ Hj]]; [by apply Hob|by eapply Hb].
Qed.
Lemma put_idx_typed inst i e :
  typed_exchange e → (0 ≤ i < 2 ^ 32)%Z →
  typed_exchange (put_instrument_idx (<[inst := i]> (instrument_idx e)) e).
Proof.
  intros [Hb Hi] Hr. split; [done|]. intros j k. simpl.
  rewrite lookup_insert_Some. intros [[_ ->]|[_ Hj]]; [done|by eapply Hi].
Qed.
Lemma subscript_instruments_typed inst : keeps_types (subscript_instruments inst).
Proof. apply maintains_modify. intros e He. case_match; [done|]. by apply put_book_typed. Qed.
Lemma subscript_idx_typed inst : keeps_types (subscript_idx inst).
Proof.
  intros e He. split; [|done]. unfold subscript_idx. case_match; [done|]. by apply put_idx_typed.
Qed.
Lemma on_book_typed {A} inst (m : M book A) Q :
  maintains typed_book m Q → maintains typed_exchange (on_book inst m) Q.
Proof.
  intros Hm e He. unfold on_book. case_match eqn:E; [|done]. case_match; [|done]. subst.
  destruct (Hm b) as [Hb HQ]; [by eapply ty_books|]. destruct (m b) as [b' r]. split; [|done].
  apply put_book_typed; [done|]. by intros ? [= <-].
Qed.
Lemma run_in_book_typed {A} inst (m : M book A) Q :
  maintains typed_book m Q → maintains typed_exchange (run_in_book inst m) Q.
Proof.
  intros Hm. unfold run_in_book. eapply maintains_bind; [apply subscript_instruments_typed|].
  intros _ _. eapply maintains_bind; [apply subscript_idx_typed|]. intros i _. unfold enqueue_task.
  eapply maintains_bind; [by apply (maintains_gets _ _ (λ _, True))|]. intros n _.
  case_match; [by apply on_book_typed|done].
Qed.

Lemma exchange_add_typed inst x : typed_order x → keeps_types (Exchange.add_order now inst x).
Proof using Hnow.
  intros Hx. apply run_in_book_typed.
  eapply maintains_bind; [by apply alloc_order_typed|intros order _; by apply add_order_typed].
Qed.
Lemma exchange_modify_typed inst x : typed_order x → keeps_types (Exchange.modify_order inst x).
Proof.
  intros Hx. apply run_in_book_typed.
  eapply maintains_bind; [by apply alloc_order_typed|intros order _; apply modify_order_typed].
Qed.
Lemma exchange_cancel_typed inst id : keeps_types (Exchange.cancel_order inst id).
Proof. apply run_in_book_typed, cancel_order_typed. Qed.
Lemma exchange_snapshot_typed inst :
  maintains typed_exchange (get_orderbook_snapshot inst) typed_snapshot.
Proof.
  eapply maintains_bind; [apply subscript_instruments_typed|]. intros _ _.
  apply on_book_typed, get_snapshot_typed.
Qed.

(** The clock thread. *)
Lemma set_working_typed v : keeps_types (set_working v).
Proof. apply maintains_modify. by intros e []. Qed.
Lemma check_dates_typed : keeps_types (check_date_orders now).
Proof.
  eapply maintains_bind; [by apply (maintains_gets _ _ (λ _, True))|]. intros names _.
  apply (maintains_forM _ (λ _, True)); [by apply Forall_true|]. intros inst _.
  apply on_book_typed, check_date_orders_typed.
Qed.
Lemma clock_typed local_time : keeps_types (is_working_turn now local_time).
Proof.
  unfold is_working_turn. destruct (target_time _); [|done].
  apply (maintains_bind _ _ _ (λ _, True)); [|intros; by apply maintains_ret].
  unfold after_sleep. case_match; [apply set_working_typed|]. case_match; [|by apply maintains_ret].
  eapply maintains_bind; [apply set_working_typed|intros _ _; apply check_dates_typed].
Qed.

(** The constructor and the instruments that are added later. *)
Lemma open_book_typed inst price loaded b :
  f32 price → Forall typed_order loaded → open_book inst price loaded = Ret b → typed_book b.
Proof.
  intros Hp Hl. unfold open_book.
  destruct (load_orders_typed (seq 0 (length loaded)) (new_book inst price (loaded_heap loaded)))
    as [Hb _].
  - apply new_book_typed; [done|]. intros o x Hx%elem_of_list_to_map_2.
    apply elem_of_zip_r in Hx. rewrite Forall_forall in Hl. by apply Hl.
  - by destruct (load_orders _ _) as [b' []]; intros [= <-].
Qed.
Lemma emplace_typed inst b e :
  typed_exchange e → typed_book b → typed_exchange (put_instruments (emplace inst b (instruments e)) e).
Proof.
  intros He Hb. unfold emplace. case_match; [by destruct He|].
  apply put_book_typed; [done|]. by intros ? [= <-].
Qed.
Lemma add_instrument_typed inst price loaded :
  f32 price → Forall typed_order loaded → keeps_types (add_instrument inst price loaded).
Proof.
  intros Hp Hl. unfold add_instrument.
  eapply maintains_bind; [by apply (maintains_gets _ _ (λ _, True))|]. intros found _.
  destruct found; [by apply maintains_ret|].
  eapply maintains_bind; [apply maintains_modify; intros e He; apply put_idx_typed; [done|apply u32_typed]|].
  intros _ _. destruct (open_book inst price loaded) as [b|] eqn:E; [|done].
  apply (maintains_bind _ _ _ (λ _, True)); [|intros _ _; by apply maintains_ret].
  apply maintains_modify. intros e He. apply emplace_typed; [done|by eapply open_book_typed].
Qed.
Lemma init_instruments_typed infos loaded : ∀ idx,
  Forall (λ info, f32 info.2) infos → Forall typed_order loaded →
  keeps_types (init_instruments infos loaded idx).
Proof.
  induction infos as [|[inst price] infos IH]; intros idx Hp Hl; simpl; [by apply maintains_ret|].
  apply Forall_cons in Hp as [Hp Hps].
  eapply maintains_bind; [apply maintains_modify; intros e He; apply put_idx_typed; [done|apply u32_typed]|].
  intros _ _. apply (maintains_bind _ _ _ (λ _, True)); [|intros _ _; by apply IH].
  destruct (open_book inst price loaded) as [b|] eqn:E; [|done].
  apply maintains_modify. intros e He. apply emplace_typed; [done|by eapply open_book_typed].
Qed.
Lemma new_exchange_typed infos loaded ignore :
  Forall (λ info, f32 info.2) infos → Forall typed_order loaded →
  typed_exchange (new_exchange infos loaded ignore).1.
Proof.
  intros Hp Hl. unfold new_exchange.
  assert (keeps_types (init_instruments infos loaded 0;;
    modify (λ e, Exchange (instruments e) (instrument_idx e) (length infos) ignore))) as H.
  { eapply maintains_bind; [by apply init_instruments_typed|]. intros _ _.
    apply maintains_modify. by intros e []. }
  by apply H.
Qed.
End exchange.

(** ** The handlers and their replies *)

(** An element of a reply that holds a value holds one of its type. *)
Definition element {A} (P : A → Prop) (e : option A) : Prop := ∀ v, e = Some v → P v.
Definition uint8 (z : Z) : Prop := (0 ≤ z < 2 ^ 8)%Z.
Record typed_order_json (j : order_json) : Prop := {
  tj_timestamp : element int64 (oj_timestamp j);
  tj_qty : element f32 (oj_qty j);
  tj_current_qty : element f32 (oj_current_qty j);
  tj_price : element f32 (oj_price j);
  tj_stop_price : element f32 (oj_stop_price j);
  tj_side : element uint8 (oj_side j);
  tj_params : element uint64 (oj_params j);
  tj_type : element uint8 (oj_type j)
}.
Definition typed_limit_json (j : limit_json) : Prop := element f32 (lj_price j) ∧ element f32 (lj_qty j).
Definition typed_spread_json (j : spread_json) : Prop :=
  element f32 (sj_best_ask_price j) ∧ element f32 (sj_market_price j) ∧
  element f32 (sj_best_bid_price j).
Definition typed_body (b : body) : Prop :=
  match b with
  | NoBody | Message _ => True
  | OrderInfo info => element uint8 (oi_status info)
  | OrderBody o => typed_order_json o
  | SnapshotBody s =>
      element (Forall typed_limit_json) (nj_asks s) ∧ element (Forall typed_limit_json) (nj_bids s) ∧
      element typed_spread_json (nj_spread s)
  end.
Definition typed_reply (rep : reply) : Prop := typed_body (r_body rep).

Lemma element_some {A} (P : A → Prop) v : P v → element P (Some v).
Proof. by intros HP ? [= <-]. Qed.

Lemma SeastarOrderJson_typed x : typed_order x → typed_order_json (SeastarOrderJson x).
Proof.
  intros []. split; apply element_some; try done.
  - unfold get_side_uint8, uint8. case_match; lia.
  - unfold get_type_uint8, uint8. case_match; lia.
Qed.
Lemma SeastarOrderInfoJson_typed id st : element uint8 (oi_status (SeastarOrderInfoJson id st)).
Proof. apply element_some. unfold uint8. by destruct st. Qed.
Lemma SeastarSnapshotJson_typed s : typed_snapshot s → typed_body (SnapshotBody (SeastarSnapshotJson s)).
Proof.
  intros [Ha Hb []]. rewrite SeastarSnapshotJson_eq. simpl.
  split_and!; apply element_some; [| |split_and!; by apply element_some].
  - apply Forall_fmap. eapply Forall_impl; [exact Ha|]. intros x []. split; by apply element_some.
  - apply Forall_fmap. eapply Forall_impl; [exact Hb|]. intros x []. split; by apply element_some.
Qed.

Section handlers.
Context {doc : Type} `{!Json doc} {DB : Type} `{!Database DB} `{!Archive}.
Context (HJ : JsonTypes doc) (HA : ArchiveTypes).
Variables (now : Z) (generated : string).
Hypothesis Hnow : int64 now.
Implicit Types (req : request) (rep : reply).

Lemma field_ret {A B} (v : option A) (k : A → outcome B) b :
  field v k = Ret b → ∃ a, v = Some a ∧ k a = Ret b.
Proof. destruct v; simpl; eauto. done. Qed.
Lemma map_json_to_order_typed (d : doc) x : map_json_to_order now d = Ret x → typed_order x.
Proof using Hnow HJ.
  unfold map_json_to_order.
  do 6 (intros (?&?&Hx)%field_ret; revert Hx). intros (params&Hp&Hx)%field_ret; revert Hx.
  intros (expire&He&Hx)%field_ret; revert Hx.
  apply get_uint64_typed in Hp. clear He. destruct (_ =? STOP)%Z; [intros (?&?&Hx)%field_ret; revert Hx|];
    intros [= <-]; apply new_stop_order_typed; auto with lob.
Qed.
Lemma stored_typed (db : DB) id x : Repository.get id db = Ret (Some x) → typed_order x.
Proof using HA.
  unfold Repository.get. repeat case_match; [|done..]. intros [= <-]. by eapply iarchive_typed.
Qed.
Lemma get_all_typed (db : DB) os : get_all db = Ret os → Forall typed_order os.
Proof using HA.
  unfold get_all. revert os. induction (Entries db) as [|[k v] es IH]; intros os; simpl.
  { by intros [= <-]. }
  destruct (iarchive v) as [a|] eqn:E; [|done]. destruct (read_all es) as [os'|]; [|done].
  intros [= <-]. constructor; [by eapply iarchive_typed|by apply IH].
Qed.

(** A check writes at most a message. *)
Lemma validate_parameter_typed p req rep m :
  typed_reply rep → typed_reply (validate_parameter p req rep m).2.
Proof. unfold validate_parameter. by case_match. Qed.
Lemma instrument_exists_typed inst :
  maintains typed_exchange (instrument_exists inst) (λ _, True).
Proof. by apply maintains_gets. Qed.
Lemma validate_instrument_typed req rep :
  typed_reply rep →
  maintains typed_exchange (validate_instrument_parameter req rep) (λ p, typed_reply p.2).
Proof.
  intros Hr. unfold validate_instrument_parameter.
  pose proof (validate_parameter_typed INSTRUMENT_KEY req rep "invalid instrument parameter" Hr) as Hp.
  destruct (validate_parameter _ _ _ _) as [[] rep']; simpl in *; [|by apply maintains_ret].
  eapply maintains_bind; [apply instrument_exists_typed|]. intros [] _; by apply maintains_ret.
Qed.
Lemma info_validate_instrument_typed req rep :
  typed_reply rep →
  maintains typed_exchange (info_validate_instrument_parameter req rep) (λ p, typed_reply p.2).
Proof. apply validate_instrument_typed. Qed.
Lemma check_working_typed rep :
  typed_reply rep →
  maintains typed_exchange (check_if_exchange_is_working rep) (λ p, typed_reply p.2).
Proof.
  intros Hr. eapply maintains_bind; [by apply (maintains_gets _ _ (λ _, True))|].
  intros [] _; by apply maintains_ret.
Qed.
Lemma lift_typed {A} (o : outcome A) Q :
  (∀ a, o = Ret a → Q a) → maintains typed_exchange (lift o) Q.
Proof. intros HQ. destruct o; [by apply maintains_ret, HQ|done]. Qed.

(** A check whose failure answers the request. *)
Ltac checked lem :=
  eapply maintains_bind; [by apply lem|intros [[] ?rep] ?Hrep; simpl in *; [|by apply maintains_ret]].
Ltac decoded :=
  eapply maintains_bind; [by apply (lift_typed _ (λ _, True))|intros d _];
  eapply maintains_bind; [apply lift_typed, map_json_to_order_typed|intros x Hx].

Lemma create_typed req rep : typed_reply rep →
  maintains typed_exchange (CreateOrderHandler_handle (doc:=doc) now generated req rep) typed_reply.
Proof using Hnow HJ.
  intros Hr. unfold CreateOrderHandler_handle. checked validate_instrument_typed. decoded.
  unfold validate_order_side. case_bool_decide; [by apply maintains_ret|]. simpl.
  checked check_working_typed.
  eapply maintains_bind; [by apply exchange_add_typed, set_id_typed|]. intros st _.
  apply maintains_ret, SeastarOrderInfoJson_typed.
Qed.
Lemma update_typed req rep : typed_reply rep →
  maintains typed_exchange (UpdateOrderHandler_handle (doc:=doc) now req rep) typed_reply.
Proof using Hnow HJ.
  intros Hr. unfold UpdateOrderHandler_handle. checked validate_instrument_typed.
  checked check_working_typed. decoded.
  eapply maintains_bind; [by apply exchange_modify_typed|]. intros st _.
  apply maintains_ret, SeastarOrderInfoJson_typed.
Qed.
Lemma get_typed (db : DB) req rep : typed_reply rep →
  maintains typed_exchange (GetOrderHandler_handle db req rep) typed_reply.
Proof using HA.
  intros Hr. unfold GetOrderHandler_handle.
  pose proof (validate_parameter_typed ORDER_ID_KEY req rep "invalid order parameter" Hr) as Hp.
  destruct (validate_parameter _ _ _ _) as [[] rep']; simpl in *; [|by apply maintains_ret].
  checked check_working_typed. eapply maintains_bind; [apply lift_typed; intros a E; exact E|].
  intros [x|] E; apply maintains_ret; [|done]. by apply SeastarOrderJson_typed, (stored_typed db _ _ E).
Qed.
Lemma cancel_typed_reply req rep : typed_reply rep →
  maintains typed_exchange (CancelOrderHandler_handle req rep) typed_reply.
Proof.
  intros Hr. unfold CancelOrderHandler_handle.
  pose proof (validate_parameter_typed ORDER_ID_KEY req rep "invalid order parameter" Hr) as Hp.
  destruct (validate_parameter _ _ _ _) as [[] rep']; simpl in *; [|by apply maintains_ret].
  checked check_working_typed. checked validate_instrument_typed.
  eapply maintains_bind; [apply exchange_cancel_typed|]. intros st _. apply maintains_ret. by destruct st.
Qed.
Lemma snapshot_typed req rep : typed_reply rep →
  maintains typed_exchange (SnapshotHandler_handle req rep) typed_reply.
Proof.
  intros Hr. unfold SnapshotHandler_handle. checked info_validate_instrument_typed.
  eapply maintains_bind; [apply exchange_snapshot_typed|]. intros s Hs.
  by apply maintains_ret, SeastarSnapshotJson_typed.
Qed.
Lemma handle_typed (db : DB) h req :
  maintains typed_exchange (handle (doc:=doc) now generated db h req) typed_reply.
Proof using Hnow HJ HA.
  destruct h; [by apply create_typed|by apply update_typed|by apply get_typed
    |by apply cancel_typed_reply|by apply snapshot_typed].
Qed.
Lemma serve_typed {R} `{!Routes R} (db : DB) (rs : R) op path text :
  maintains typed_exchange (serve (doc:=doc) now generated db rs op path text) (from_option typed_reply True).
Proof using Hnow HJ HA.
  unfold serve. destruct (routes_get op path rs) as [[h params]|]; [|by apply maintains_ret].
  apply maintains_fmap. apply handle_typed.
Qed.
End handlers.

(** ** The program *)

(** What happens while the server runs: a request, with the time at which it is handled, the
    identifier that is generated for it and the store as it is then; a turn of the clock thread. *)
Inductive event (DB : Type) :=
  | Requested (now : Z) (generated : string) (db : DB) (op : operation_type) (path text : string)
  | ClockTurn (now : Z) (local_time : tm).
Arguments Requested {DB}.
Arguments ClockTurn {DB}.
Definition event_time {DB} (ev : event DB) : Z :=
  match ev with Requested now _ _ _ _ _ => now | ClockTurn now _ => now end.

Section program.
Context {doc : Type} `{!Json doc} {DB : Type} `{!Database DB} `{!Archive}.
Context {R : Type} `{!Routes R}.
Context (HJ : JsonTypes doc) (HA : ArchiveTypes).

Definition run_event (rs : R) (ev : event DB) : M exchange (option reply) :=
  match ev with
  | Requested now generated db op path text => serve (doc:=doc) now generated db rs op path text
  | ClockTurn now local_time => (λ _, None) <$> is_working_turn now local_time
  end.
(** An event that fails leaves what it had changed, and the next one follows. *)
Fixpoint run_events (rs : R) (evs : list (event DB)) (e : exchange)
    : exchange * list (outcome (option reply)) :=
  match evs with
  | [] => (e, [])
  | ev :: evs =>
      let '(e1, r) := run_event rs ev e in
      let '(e2, rest) := run_events rs evs e1 in (e2, r :: rest)
  end.
Definition typed_answer (r : outcome (option reply)) : Prop :=
  match r with Ret (Some rep) => typed_reply rep | _ => True end.

Lemma run_event_typed rs ev :
  int64 (event_time ev) →
  maintains typed_exchange (run_event rs ev) (from_option typed_reply True).
Proof using HJ HA.
  destruct ev as [now generated db op path text|now t]; simpl; intros Hnow.
  - by apply serve_typed.
  - by apply maintains_fmap, clock_typed.
Qed.
Lemma run_events_typed rs evs : ∀ e,
  Forall (λ ev, int64 (event_time ev)) evs → typed_exchange e →
  typed_exchange (run_events rs evs e).1 ∧ Forall typed_answer (run_events rs evs e).2.
Proof using HJ HA.
  induction evs as [|ev evs IH]; intros e Hevs He; simpl; [by split|].
  apply Forall_cons in Hevs as [Hev Hevs].
  destruct (run_event_typed rs ev Hev e He) as [H1 HQ]. destruct (run_event rs ev e) as [e1 r].
  destruct (IH e1 Hevs H1) as [H2 Hrest]. destruct (run_events rs evs e1) as [e2 rest].
  split; [done|]. constructor; [|done]. destruct r as [[rep|]|]; try done. by apply (HQ (Some rep)).
Qed.

Lemma main_typed config files (databases : string → DB) (srv : server (R:=R)) :
  main config files databases = Ret srv → typed_exchange (_exchange srv).
Proof using HA.
  unfold main. set (infos := read_instrument_init_data_from_file _).
  destruct (if bool_decide _ then _ else _) as [os|] eqn:E; [|done].
  assert (Forall typed_order os) as Hos.
  { case_bool_decide; [by injection E as <-|by eapply get_all_typed]. }
  pose proof (new_exchange_typed infos os false (read_file_typed _) Hos) as He.
  destruct (new_exchange infos os false) as [e [[]|]]; [|done]. by intros [= <-].
Qed.

(** C7: the machine's types hold the numbers of the program.  From the file of instruments and the
    stored orders to the replies, whatever requests the server gets (of any text, in any order,
    answered or failing halfway) and whenever the clock thread turns: every price and quantity in
    the books is a value of [float], every volume of a level one of [double], every counter, flag
    set, time and worker index is in the range of its type, and so are the numbers of every
    reply. *)
Theorem numbers_keep_their_types config files (databases : string → DB) (srv : server (R:=R)) evs :
  main config files databases = Ret srv → Forall (λ ev, int64 (event_time ev)) evs →
  typed_exchange (run_events (_routes srv) evs (_exchange srv)).1 ∧
  Forall typed_answer (run_events (_routes srv) evs (_exchange srv)).2.
Proof using HJ HA.
  intros Hm Hevs. apply run_events_typed; [done|by eapply main_typed].
Qed.
End program.
