(* ===== verification/ClockThread.v ===== *)
(** * main.cpp, exchange.cpp, utils/seastar_signal_catcher.hpp: the running program and its end

    The main thread waits for a signal and then takes the program down, the clock thread of the
    exchange goes through its loop, requests are answered and time passes: the steps of these are
    interleaved in any way.  Time is in seconds; the local time and [mktime] are the C library's,
    in some time zone.  A sleep ends when its target has come, or later. *)

From S2P Require Import Prelude Float DataTypes OrderBook Calendar Exchange ExchangeSpec Repository.
From S2P Require Import Responses Handlers Server.

Open Scope Z_scope.

(** ** The C library *)

Class Time := {
  localtime : Z → tm;
  mktime : tm → Z
}.
Definition second_of_day (local : tm) : Z := 3600 * tm_hour local + 60 * tm_min local + tm_sec local.
Definition opening_second : Z := 3600 * opening_h + 60 * opening_m.
Definition closing_second : Z := 3600 * closing_h + 60 * closing_m.
Definition day_seconds : Z := 86400.
(** A time zone without daylight saving time, [zone] seconds east: [mktime] takes a day of the
    month that is too large as a day of a month that follows. *)
Class TimeLaws `{!Time} := {
  zone : Z;
  local_fields t :
    0 ≤ tm_sec (localtime t) < 60 ∧ 0 ≤ tm_min (localtime t) < 60 ∧ 0 ≤ tm_hour (localtime t) < 24;
  local_second t : second_of_day (localtime t) = (t + zone) mod day_seconds;
  mktime_opening t k :
    0 ≤ k → mktime (at_opening (tm_mday (localtime t) + k) (localtime t)) =
              t - (t + zone) mod day_seconds + k * day_seconds + opening_second
}.

(** What the clock thread sleeps until. *)
Section calendar.
Context `{HT : Time, HL : !TimeLaws}.

Lemma second_of_day_bounds t : 0 ≤ second_of_day (localtime t) < day_seconds.
Proof. rewrite local_second. by apply Z.mod_pos_bound. Qed.

Lemma before_second h m local :
  0 ≤ tm_sec local < 60 → 0 ≤ tm_min local < 60 → 0 ≤ m < 60 →
  (tm_hour local <? h) || ((tm_hour local =? h) && (tm_min local <? m))
    = (second_of_day local <? 3600 * h + 60 * m).
Proof.
  intros. unfold second_of_day. apply eq_bool_prop_intro.
  rewrite orb_True, andb_True, !Is_true_true, !Z.ltb_lt, Z.eqb_eq. lia.
Qed.

(** What the thread sleeps until: half past nine of this day, when it is not closing time yet, and
    otherwise of one of the next three. *)
Lemma target_before_closing t :
  second_of_day (localtime t) < closing_second →
  ∃ target, target_time (localtime t) = Ret target ∧
    mktime target = t - second_of_day (localtime t) + opening_second.
Proof.
  intros Hs. destruct (local_fields t) as (Hsec&Hmin&Hhour).
  assert (mktime (at_opening (tm_mday (localtime t)) (localtime t)) =
    t - second_of_day (localtime t) + opening_second) as Hm.
  { pose proof (mktime_opening t 0 ltac:(lia)) as H. rewrite Z.add_0_r in H. rewrite H, local_second. lia. }
  unfold target_time. rewrite !before_second by (done || unfold opening_m, closing_m; lia).
  case_match; [by eexists|]. rewrite (proj2 (Z.ltb_lt _ _)) by exact Hs. by eexists.
Qed.
Lemma target_after_closing t target :
  closing_second ≤ second_of_day (localtime t) → target_time (localtime t) = Ret target →
  ∃ k, 1 ≤ k ≤ 3 ∧
    mktime target = t - second_of_day (localtime t) + k * day_seconds + opening_second.
Proof.
  intros Hs. destruct (local_fields t) as (Hsec&Hmin&Hhour).
  unfold target_time. rewrite !before_second by (done || unfold opening_m, closing_m; lia).
  rewrite !(proj2 (Z.ltb_ge _ _)) by (unfold closing_second, closing_h, closing_m, opening_h, opening_m in *; lia).
  destruct (day_of_week _ _ _) as [dow|]; [|done]. intros [= <-].
  set (mday := if dow =? 5 then _ else _).
  assert (∃ k, 1 ≤ k ≤ 3 ∧ mday = tm_mday (localtime t) + k) as (k&Hk&->).
  { unfold mday. destruct (dow =? 5); [by exists 3|]. destruct (dow =? 6); [by exists 2|by exists 1]. }
  exists k. split; [done|]. rewrite mktime_opening, local_second by lia. lia.
Qed.
End calendar.

(** ** utils/seastar_signal_catcher.hpp *)

(** [_cond] holds the fibers that wait, which are told once. *)
Record StopSignal := MkStopSignal { _caught : bool; waiting : bool }.
Definition new_stop_signal : StopSignal := MkStopSignal false false.
Definition broadcast (s : StopSignal) : StopSignal := MkStopSignal (_caught s) false.
Definition signaled (s : StopSignal) : StopSignal :=
  if _caught s then s else broadcast (MkStopSignal true (waiting s)).
(** [_cond.wait] with a predicate waits unless the predicate holds. *)
Definition wait (s : StopSignal) : StopSignal :=
  if _caught s then s else MkStopSignal (_caught s) true.
Definition stopping (s : StopSignal) : bool := _caught s.

(** ** The program while it runs *)

(** What is left of the main thread once the server listens: the wait, [server.stop()], and the
    destructors of the variables, the youngest first. *)
Inductive main_statement :=
  | WaitForSignal
  | StopServer
  | DestroyServer
  | ExchangeRequestStop
  | ExchangeJoin
  | DestroyExchangeMembers
  | DestroyTradeRepository
  | DestroyOrderRepository
  | RestoreSignals.
#[export] Instance main_statement_eq_dec : EqDecision main_statement.
Proof. solve_decision. Defined.

(** [Exchange::~Exchange], for an exchange with a clock thread. *)
Definition exchange_destructor : list main_statement :=
  [ExchangeRequestStop; ExchangeJoin; DestroyExchangeMembers].
Definition main_end : list main_statement :=
  [WaitForSignal; StopServer; DestroyServer] ++ exchange_destructor ++
  [DestroyTradeRepository; DestroyOrderRepository; RestoreSignals].

(** Where the loop of [is_working_thread] stands; a sleep has the local time from before it. *)
Inductive clock_position :=
  | AtTest
  | Sleeping (local_time : tm) (until : Z)
  | Ended.

Record program := Program {
  wall : Z;
  stop_signal : StopSignal;
  stop_requested : bool;
  clock : clock_position;
  market : exchange;
  main_rest : list main_statement
}.

Section program.
Context `{!Time}.
Context {doc : Type} `{!Json doc} {DB : Type} `{!Database DB} `{!Archive} {R : Type} `{!Routes R}.
Variable (routes : R).
Implicit Types (p : program) (e : exchange).

(** A step of [Exchange::is_working_thread]. *)
Definition clock_step p : outcome program :=
  let '(Program w sig stop c e m) := p in
  match c with
  | AtTest =>
      if stop : bool then Ret (Program w sig stop Ended e m) else
      let local_time := localtime w in
      match target_time local_time with
      | Ret target => Ret (Program w sig stop (Sleeping local_time (mktime target)) e m)
      | Err err => Err err
      end
  | Sleeping local_time until =>
      if w <? until then Ret p else
      match after_sleep w local_time e with
      | (e', Ret _) => Ret (Program w sig stop AtTest e' m)
      | (_, Err err) => Err err
      end
  | Ended => Ret p
  end.

(** A step of the main thread; the wait and the join may have to be tried again. *)
Definition main_step p : program :=
  let '(Program w sig stop c e m) := p in
  match m with
  | [] => p
  | WaitForSignal :: m' =>
      Program w (wait sig) stop c e (if stopping sig then m' else m)
  | ExchangeRequestStop :: m' => Program w sig true c e m'
  | ExchangeJoin :: m' =>
      match c with Ended => Program w sig stop c e m' | _ => p end
  | _ :: m' => Program w sig stop c e m'
  end.

(** While the server is not stopped, requests are answered or fail. *)
Definition request_step p now generated (db : DB) op path text : program :=
  let '(Program w sig stop c e m) := p in
  Program w sig stop c
    (if decide (StopServer ∈ m) then (serve (doc:=doc) now generated db routes op path text e).1 else e) m.

(** The destructor of the signal catcher puts handlers that do nothing. *)
Definition signal_step p : program :=
  let '(Program w sig stop c e m) := p in
  Program w (if decide (RestoreSignals ∈ m) then signaled sig else sig) stop c e m.

Inductive program_step : program → program → Prop :=
  | step_clock p p' : clock_step p = Ret p' → program_step p p'
  | step_main p : program_step p (main_step p)
  | step_time w sig stop c e m seconds :
      0 ≤ seconds →
      program_step (Program w sig stop c e m) (Program (w + seconds) sig stop c e m)
  | step_signal p : program_step p (signal_step p)
  | step_request p now generated db op path text :
      program_step p (request_step p now generated db op path text).

(** The program when its exchange was made and its server listens. *)
Definition running (w : Z) (e : exchange) : program :=
  Program w new_stop_signal false AtTest e main_end.

(** ** Requests do not open or close the exchange *)

Lemma keeps_working_lift {A} (o : outcome A) : keeps working (lift o).
Proof. by destruct o. Qed.
#[local] Hint Resolve keeps_working_run_in_book keeps_working_lift keeps_working_snapshot : lob.

Lemma keeps_working_serve now generated (db : DB) op path text :
  keeps working (serve (doc:=doc) now generated db routes op path text).
Proof.
  unfold serve. case_match; [|apply keeps_ret]. case_match. apply keeps_fmap. unfold handle.
  case_match; unfold CreateOrderHandler_handle, UpdateOrderHandler_handle, GetOrderHandler_handle,
    CancelOrderHandler_handle, SnapshotHandler_handle, validate_instrument_parameter,
    info_validate_instrument_parameter, check_if_exchange_is_working, instrument_exists, is_working, Exchange.add_order,
    Exchange.modify_order, Exchange.cancel_order;
    repeat (intros; keeps_step).
Qed.

(** ** A turn of the clock thread *)

(** A step to the sleep and a step from it do what [is_working_turn] does. *)
Lemma clock_turn w w' sig e m target :
  target_time (localtime w) = Ret target → mktime target ≤ w' →
  clock_step (Program w sig false AtTest e m)
    = Ret (Program w sig false (Sleeping (localtime w) (mktime target)) e m) ∧
  clock_step (Program w' sig false (Sleeping (localtime w) (mktime target)) e m)
    = match is_working_turn w' (localtime w) e with
      | (e', Ret _) => Ret (Program w' sig false AtTest e' m)
      | (_, Err err) => Err err
      end.
Proof.
  intros Ht Hw. unfold clock_step, is_working_turn. rewrite Ht, (proj2 (Z.ltb_ge _ _)) by done.
  split; [done|]. unfold mbind, M_bind. by destruct (after_sleep _ _ e) as [e' []].
Qed.

(** ** What holds of every state of the program *)

(** The main thread does its statements in order; when it has done four of them the clock thread is
    asked to stop, and when it has done five the clock thread is at its end; a sleep ends at what its
    local time asks for. *)
Definition main_sound (m : list main_statement) (stop : bool) (c : clock_position) : Prop :=
  ∃ n, m = drop n main_end ∧ ((4 ≤ n)%nat → stop = true) ∧ ((5 ≤ n)%nat → c = Ended).
Definition sleep_sound (w : Z) (c : clock_position) : Prop :=
  match c with
  | Sleeping local until =>
      ∃ t target, t ≤ w ∧ local = localtime t ∧ target_time local = Ret target ∧ until = mktime target
  | _ => True
  end.
Definition sound p : Prop :=
  main_sound (main_rest p) (stop_requested p) (clock p) ∧ sleep_sound (wall p) (clock p).

Lemma running_sound w e : sound (running w e).
Proof. split; [|done]. exists 0%nat. split_and!; [done|lia..]. Qed.

Lemma clock_step_sound p p' : sound p → clock_step p = Ret p' → sound p'.
Proof.
  intros [(n&Hm&Hs&Hj) Hc] E. destruct p as [w sig stop c e m]. simpl in *.
  destruct c as [|local until|].
  - destruct stop; [injection E as <-; split; [by exists n|done]|].
    destruct (target_time _) as [target|] eqn:Et; [|done].
    injection E as <-. split; simpl; [|by exists w, target].
    exists n. split_and!; [done..|]. intros Hn. by specialize (Hj Hn).
  - destruct (w <? until); [injection E as <-; split; [by exists n|done]|].
    destruct (after_sleep _ _ _) as [e' [[]|]]; [|done]. injection E as <-. split; [|done].
    exists n. split_and!; [done..|]. intros Hn. by specialize (Hj Hn).
  - injection E as <-. split; [by exists n|done].
Qed.
(** The state before the statement with a number. *)
Ltac at_statement n := exists n; split_and!; [done|intros; first [done|lia|auto with lia]..].
Lemma main_step_sound p : sound p → sound (main_step p).
Proof.
  intros [(n&Hm&Hs&Hj) Hc]. destruct p as [w sig stop c e m]. cbn in Hm, Hs, Hj, Hc. subst m.
  destruct n as [|[|[|[|[|[|[|[|[|n]]]]]]]]]; cbn.
  - destruct (stopping sig); (split; [|done]); [at_statement 1%nat|at_statement 0%nat].
  - split; [at_statement 2%nat|done].
  - split; [at_statement 3%nat|done].
  - split; [at_statement 4%nat|done].
  - destruct c; (split; [|done]); [at_statement 4%nat|at_statement 4%nat|at_statement 5%nat].
  - split; [at_statement 6%nat|done].
  - split; [at_statement 7%nat|done].
  - split; [at_statement 8%nat|done].
  - split; [at_statement 9%nat|done].
  - rewrite drop_nil. split; [at_statement 9%nat|done].
Qed.
Lemma program_step_sound p p' : sound p → program_step p p' → sound p'.
Proof.
  intros Hp Hs. revert Hp. destruct Hs as [p p' E|p|w sig stop c e m seconds Hsec|[w sig stop c e m]
    |[w sig stop c e m] now generated db op path text]; intros Hp.
  - by eapply clock_step_sound.
  - by apply main_step_sound.
  - destruct Hp as [Hm Hc]. split; [done|]. destruct c; try done. simpl in *.
    destruct Hc as (t&target&?&?). exists t, target. split; [lia|done].
  - done.
  - done.
Qed.
Lemma steps_sound p p' : rtc program_step p p' → sound p → sound p'.
Proof. induction 1; [done|]. intros. eauto using program_step_sound. Qed.

(** ** The end of the program *)

(** A sleep is not interrupted, and the main thread does not get past the join before its end. *)
Definition sleeps_on (local : tm) (until : Z) p : Prop :=
  (clock p = Sleeping local until ∧ ExchangeJoin ∈ main_rest p) ∨ until ≤ wall p.

Lemma sleeps_on_step local until p p' :
  program_step p p' → sleeps_on local until p → sleeps_on local until p'.
Proof.
  intros Hs. destruct Hs as [p p' E|p|w sig stop c e m seconds Hsec|[w sig stop c e m]
    |[w sig stop c e m] now generated db op path text]; unfold sleeps_on; simpl; intros Hp.
  - destruct p as [w sig stop c e m]. simpl in *. destruct Hp as [[-> Hm]|Hw].
    + destruct (Z.ltb_spec w until); [injection E as <-; by left|].
      destruct (after_sleep _ _ _) as [e' [[]|]]; [|done]. injection E as <-. by right.
    + right. destruct c as [|local' until'|].
      * destruct stop; [by injection E as <-|]. destruct (target_time _); [by injection E as <-|done].
      * destruct (w <? until'); [by injection E as <-|].
        destruct (after_sleep _ _ _) as [e' [[]|]]; [by injection E as <-|done].
      * by injection E as <-.
  - destruct p as [w sig stop c e m]. simpl in *. destruct Hp as [[-> Hm]|Hw].
    + left. destruct m as [|[] m]; simpl; try (split; [done|set_solver]).
      destruct (stopping sig); (split; [done|set_solver]).
    + right. destruct m as [|[] m]; simpl; try done. by destruct c.
  - destruct Hp as [?|?]; [by left|right; lia].
  - done.
  - done.
Qed.
Lemma sleeps_on_steps local until p p' :
  rtc program_step p p' → sleeps_on local until p → sleeps_on local until p'.
Proof. induction 1; [done|]. intros. eauto using sleeps_on_step. Qed.

(** The clock thread comes to its end once it is asked to, unless the turn it is in fails. *)
Lemma clock_ends p :
  stop_requested p = true →
  (∃ p', rtc program_step p p' ∧ clock p' = Ended ∧ stop_requested p' = true ∧ main_rest p' = main_rest p) ∨
  (∃ p' err, rtc program_step p p' ∧ clock_step p' = Err err).
Proof.
  destruct p as [w sig stop c e m]. simpl. intros ->.
  assert (∀ w e, ∃ p', rtc program_step (Program w sig true AtTest e m) p' ∧ clock p' = Ended ∧
    stop_requested p' = true ∧ main_rest p' = m) as Htest.
  { intros w' e'. eexists. split; [apply rtc_once, step_clock; reflexivity|done]. }
  destruct c as [|local until|].
  - left. apply Htest.
  - set (p1 := Program (w + Z.max 0 (until - w)) sig true (Sleeping local until) e m).
    assert (rtc program_step (Program w sig true (Sleeping local until) e m) p1) as H1
      by (apply rtc_once, step_time; lia).
    destruct (clock_step p1) as [p2|err] eqn:E2; [left|right; by exists p1, err].
    assert (∃ w2 e2, p2 = Program w2 sig true AtTest e2 m) as (w2&e2&->).
    { simpl in E2. rewrite (proj2 (Z.ltb_ge _ _)) in E2 by lia.
      destruct (after_sleep _ _ _) as [e' [[]|]]; [|done]. injection E2 as <-. eauto. }
    destruct (Htest w2 e2) as (p'&Hr&Hp'). exists p'. split; [|done].
    etrans; [exact H1|]. by eapply rtc_l; [apply step_clock|].
  - left. by eexists.
Qed.

(** The main thread can do its next statement, unless the turn of the clock thread fails. *)
Lemma main_goes_on p :
  sound p → main_rest p ≠ [] →
  (∃ p1, rtc program_step p p1 ∧ sound p1 ∧ (length (main_rest p1) < length (main_rest p))%nat) ∨
  (∃ p1 err, rtc program_step p p1 ∧ clock_step p1 = Err err).
Proof.
  intros Hp Hne. pose proof Hp as [(k&Hm&Hs&Hj) Hc]. destruct p as [w sig stop c e m]. simpl in *.
  destruct (decide (head m = Some WaitForSignal)) as [Hw|Hw].
  { set (p0 := Program w (signaled sig) stop c e m). assert (sound p0) as Hp0 by exact Hp.
    assert (RestoreSignals ∈ m) as Hin.
    { subst m. destruct k as [|k]; [by apply (bool_decide_unpack _)|].
      exfalso. by do 9 (destruct k as [|k]; [done|]). }
    left. exists (main_step p0). split; [|split; [by apply main_step_sound|]].
    - eapply rtc_l; [apply step_signal|]. simpl. rewrite decide_True by done.
      apply rtc_once, step_main.
    - destruct m as [|[] m]; try done. simpl. by destruct sig as [[] []]; simpl; lia. }
  destruct (decide (head m = Some ExchangeJoin)) as [Hx|Hx].
  { assert (stop = true) as ->.
    { apply Hs. subst m. do 4 (destruct k as [|k]; [done|]). lia. }
    destruct (clock_ends (Program w sig true c e m) eq_refl) as [(p1&Hr&Hce&Hst&Hm1)|?]; [|by right].
    left. exists (main_step p1). split; [eapply rtc_r; [exact Hr|apply step_main]|]. split.
    - apply main_step_sound. eapply steps_sound; [exact Hr|exact Hp].
    - destruct p1 as [w1 sig1 stop1 c1 e1 m1]. simpl in *. subst c1 m1.
      destruct m as [|[] m]; try done. simpl. lia. }
  left. exists (main_step (Program w sig stop c e m)).
  split; [apply rtc_once, step_main|]. split; [by apply main_step_sound|].
  destruct m as [|[] m]; try done; simpl; lia.
Qed.
(** From every state of the program its end can come. *)
Lemma program_ends p :
  sound p → ∃ p', rtc program_step p p' ∧ (main_rest p' = [] ∨ ∃ err, clock_step p' = Err err).
Proof.
  remember (length (main_rest p)) as n eqn:Hn. revert p Hn.
  induction n as [n IH] using lt_wf_ind. intros p -> Hp.
  destruct (decide (main_rest p = [])) as [Hnil|Hne]; [exists p; split; [done|by left]|].
  destruct (main_goes_on p Hp Hne) as [(p1&Hr&Hp1&Hl)|(p1&err&Hr&E)].
  - destruct (IH _ Hl p1 eq_refl Hp1) as (p'&Hr'&Hp'). exists p'. split; [by etrans|done].
  - exists p1. split; [done|right; by exists err].
Qed.

Section laws.
Context (HL : TimeLaws).

Definition after_closing (local : tm) : Prop := closing_second ≤ second_of_day local.
Definition in_opening_hours (local : tm) : Prop :=
  opening_second ≤ second_of_day local < closing_second.

(** C22: taking the program down waits for the clock thread's sleep.  In every state that the
    running program can reach, whatever the interleaving of its threads, requests, signals and
    time, when the clock thread sleeps the main thread does not come to its end before the sleep
    does; the end can come from there, unless the turn of the clock thread fails once it wakes up;
    and a sleep that began after closing time ends at half past nine, nine and a half hours or
    more after it began. *)
Theorem stopping_waits_for_the_morning w e p local until :
  rtc program_step (running w e) p → clock p = Sleeping local until →
  (∀ p', rtc program_step p p' → main_rest p' = [] → until ≤ wall p') ∧
  (∃ p', rtc program_step p p' ∧ (main_rest p' = [] ∨ ∃ err, clock_step p' = Err err)) ∧
  ∃ t, t ≤ wall p ∧ local = localtime t ∧
    (after_closing local → t + opening_second < until ∧ (until + zone) mod day_seconds = opening_second).
Proof.
  intros Hr Hc. pose proof (steps_sound _ _ Hr (running_sound w e)) as Hp.
  destruct Hp as [(n&Hm&Hs&Hj) Hsl]. pose proof Hsl as Hsl'. unfold sleep_sound in Hsl'. rewrite Hc in Hsl'.
  destruct Hsl' as (t&target&Ht&->&Htg&->). split_and!.
  - intros p' Hr' Hnil. eapply sleeps_on_steps in Hr' as [[_ Hin]|Hw]; [|done|].
    + rewrite Hnil in Hin. by apply elem_of_nil in Hin.
    + left. split; [exact Hc|]. rewrite Hm. destruct (decide (5 ≤ n)%nat) as [H5|H5].
      * by rewrite (Hj H5) in Hc.
      * do 5 (destruct n as [|n]; [by apply (bool_decide_unpack _)|]). lia.
  - apply program_ends. split; [by exists n|done].
  - exists t. split; [done|]. split; [done|]. intros Ha.
    destruct (target_after_closing t target Ha Htg) as (k&Hk&->).
    pose proof (second_of_day_bounds t) as Hb. split; [unfold day_seconds in *; lia|].
    rewrite local_second. unfold day_seconds, opening_second, opening_h, opening_m.
    replace (_ + zone) with (34200 + ((t + zone) / 86400 + k) * 86400) by
      (pose proof (Z.div_mod (t + zone) 86400); lia).
    by rewrite Z.mod_add.
Qed.

(** Between half past nine and half past five the clock thread never sleeps: from the test of
    its loop two of its steps lead back to the test, at the same second; so it makes any number of
    turns within a second. *)
Theorem clock_thread_spins_all_day w sig e m n :
  in_opening_hours (localtime w) →
  ∃ e', nsteps (λ p p', clock_step p = Ret p') (2 * n)
    (Program w sig false AtTest e m) (Program w sig false AtTest e' m) ∧
    instruments e' = instruments e.
Proof.
  intros [Ho Hcl]. destruct (target_before_closing w Hcl) as (target&Ht&Htime).
  assert (∀ e, ∃ e', clock_step (Program w sig false (Sleeping (localtime w) (mktime target)) e m)
    = Ret (Program w sig false AtTest e' m) ∧ instruments e' = instruments e) as Hturn.
  { intros e0. simpl. rewrite (proj2 (Z.ltb_ge _ _)) by lia. unfold after_sleep.
    destruct (_ && _); [by eexists|]. destruct (_ && _) eqn:Hx; [|by eexists].
    exfalso. apply andb_true_iff in Hx as [Hh%Z.eqb_eq Hm%Z.eqb_eq].
    destruct (local_fields w) as (Hsec&_&_). unfold second_of_day in Hcl. rewrite Hh, Hm in Hcl.
    unfold closing_second in Hcl. lia. }
  revert e. induction n as [|n IH]; intros e; [exists e; split; [constructor|done]|].
  destruct (Hturn e) as (e1&E1&H1). destruct (IH e1) as (e2&E2&H2). exists e2.
  replace (2 * S n)%nat with (S (S (2 * n))) by lia. split; [|congruence].
  eapply nsteps_l; [|eapply nsteps_l; [exact E1|exact E2]]. simpl. by rewrite Ht.
Qed.

(** The second of a day that is a number of seconds after a given one. *)
Lemma second_later t w :
  0 ≤ w - t + second_of_day (localtime t) < day_seconds →
  second_of_day (localtime w) = w - t + second_of_day (localtime t).
Proof.
  intros Hw. rewrite (local_second w). rewrite (local_second t) in Hw |- *. symmetry.
  apply (Z.mod_unique _ _ ((t + zone) / day_seconds)); [by left|].
  pose proof (Z.div_mod (t + zone) day_seconds ltac:(done)). lia.
Qed.
Lemma second_next_day t w :
  day_seconds ≤ w - t + second_of_day (localtime t) < 2 * day_seconds →
  second_of_day (localtime w) = w - t + second_of_day (localtime t) - day_seconds.
Proof.
  intros Hw. rewrite (local_second w). rewrite (local_second t) in Hw |- *. symmetry.
  apply (Z.mod_unique _ _ ((t + zone) / day_seconds + 1)); [left; unfold day_seconds in *; lia|].
  pose proof (Z.div_mod (t + zone) day_seconds ltac:(done)). lia.
Qed.
(** A minute of the day, by its second. *)
Lemma at_minute t h m :
  (tm_hour (localtime t) =? h) && (tm_min (localtime t) =? m) = true →
  3600 * h + 60 * m ≤ second_of_day (localtime t) < 3600 * h + 60 * m + 60.
Proof.
  intros [Hh%Z.eqb_eq Hm%Z.eqb_eq]%andb_true_iff. destruct (local_fields t) as (?&_&_).
  unfold second_of_day. lia.
Qed.
Lemma minute_of t h m :
  0 ≤ m < 60 → 3600 * h + 60 * m ≤ second_of_day (localtime t) < 3600 * h + 60 * m + 60 →
  (tm_hour (localtime t) =? h) && (tm_min (localtime t) =? m) = true.
Proof.
  intros Hm. destruct (local_fields t) as (?&?&?). unfold second_of_day. intros.
  apply andb_true_iff. rewrite !Z.eqb_eq. lia.
Qed.
Lemma after_sleep_idle now t e :
  ¬ (opening_second ≤ second_of_day (localtime t) < opening_second + 60) →
  second_of_day (localtime t) < closing_second → after_sleep now (localtime t) e = (e, Ret tt).
Proof.
  intros Ho Hc. unfold after_sleep. destruct (_ && _) eqn:E1; [by apply at_minute in E1|].
  destruct (tm_hour _ =? closing_h) eqn:E2, (tm_min _ =? closing_m) eqn:E3; try done.
  assert (closing_second ≤ second_of_day (localtime t)); [|lia].
  apply (at_minute t closing_h closing_m). by rewrite E2, E3.
Qed.

(** C23: the exchange opens at half past nine, if the clock thread gets on in time.  From the test
    of its loop before the opening it sleeps, without waking up earlier, until half past nine of
    that day; and when it wakes up within the minute, its next three steps open the exchange. *)
Theorem the_exchange_opens w sig e m :
  second_of_day (localtime w) < opening_second →
  let opening := w - second_of_day (localtime w) + opening_second in
  let asleep w' e' := Program w' sig false (Sleeping (localtime w) opening) e' m in
  clock_step (Program w sig false AtTest e m) = Ret (asleep w e) ∧
  (∀ w' e', w' < opening → clock_step (asleep w' e') = Ret (asleep w' e')) ∧
  ∀ w' e', opening ≤ w' < opening + 60 →
    nsteps (λ p p', clock_step p = Ret p') 3 (asleep w' e')
      (Program w' sig false AtTest (set_working true e').1 m).
Proof.
  intros Ho opening asleep. assert (opening_second < closing_second) by done. split_and!.
  - destruct (target_before_closing w) as (target&Ht&Htime); [lia|]. simpl. by rewrite Ht, Htime.
  - intros w' e' Hw. simpl. by rewrite (proj2 (Z.ltb_lt _ _)).
  - intros w' e' Hw. assert (second_of_day (localtime w') = w' - opening + opening_second) as Hs.
    { rewrite (second_later w w'); [lia|].
      unfold opening, day_seconds, opening_second, opening_h, opening_m in *. lia. }
    destruct (target_before_closing w') as (target&Ht&Htime); [unfold opening_second, closing_second, opening_h, opening_m, closing_h, closing_m in *; lia|].
    apply (nsteps_l _ _ _ (Program w' sig false AtTest e' m)).
    { simpl. rewrite (proj2 (Z.ltb_ge _ _)) by lia. by rewrite after_sleep_idle by lia. }
    apply (nsteps_l _ _ _ (Program w' sig false (Sleeping (localtime w') (mktime target)) e' m)).
    { simpl. by rewrite Ht. }
    apply nsteps_once. simpl. rewrite (proj2 (Z.ltb_ge _ _)) by lia. unfold after_sleep.
    rewrite minute_of; [done|unfold opening_m; lia|fold opening_second; lia].
Qed.

Lemma wall_mono p p' : program_step p p' → wall p ≤ wall p'.
Proof.
  destruct 1 as [p p' E|p|w sig stop c e m seconds Hsec|[w sig stop c e m]
    |[w sig stop c e m] now generated db op path text]; simpl; try lia.
  - destruct p as [w sig stop c e m]. simpl in E. repeat case_match; simplify_eq/=; lia.
  - destruct p as [w sig stop c e m]. simpl. repeat case_match; simpl; lia.
Qed.

(** An open exchange whose clock thread does not wake up before a time. *)
Definition open_until (next : Z) p : Prop :=
  working (market p) = true ∧
  match clock p with Sleeping _ until => next ≤ until | _ => True end.
Lemma open_until_step next p p' :
  program_step p p' →
  (∀ target, target_time (localtime (wall p)) = Ret target → next ≤ mktime target) →
  wall p < next → open_until next p → open_until next p'.
Proof.
  destruct 1 as [p p' E|p|w sig stop c e m seconds Hsec|[w sig stop c e m]
    |[w sig stop c e m] now generated db op path text]; unfold open_until; simpl; intros Ht Hlt [Hw Hc].
  - destruct p as [w sig stop c e m]. simpl in *. destruct c as [|local until|].
    + destruct stop; [by injection E as <-|]. destruct (target_time _) as [target|]; [|done].
      injection E as <-. split; [done|]. by apply Ht.
    + rewrite (proj2 (Z.ltb_lt _ _)) in E by lia. by injection E as <-.
    + by injection E as <-.
  - destruct p as [w sig stop c e m]. simpl in *. destruct m as [|[] m]; simpl; try done.
    by destruct c.
  - done.
  - done.
  - split; [|done]. case_decide; [|done]. by rewrite keeps_working_serve.
Qed.

(** C24: an exchange that is open after closing time stays open until half past nine of the next day,
    unless its clock thread is still in a sleep that ends before that: from the test of its loop, or
    from a sleep until then or longer, whatever requests, signals and turns of the clock thread come,
    early or late. *)
Theorem the_exchange_stays_open_all_night p p' :
  let next := wall p - second_of_day (localtime (wall p)) + day_seconds + opening_second in
  working (market p) = true → after_closing (localtime (wall p)) →
  (∀ local until, clock p = Sleeping local until → next ≤ until) →
  rtc program_step p p' → wall p' < next → working (market p') = true.
Proof.
  intros next Hw Ha Hc Hr.
  cut (wall p ≤ wall p' ∧ (wall p' < next → open_until next p')).
  { intros [_ Hcut] Hlt. by apply Hcut. }
  revert Hr. apply (rtc_ind_r (λ p', wall p ≤ wall p' ∧ (wall p' < next → open_until next p'))).
  { split; [lia|]. intros _. split; [done|]. destruct (clock p) as [|local until|]; eauto. }
  intros p1 p2 _ Hs [Hle H1]. pose proof (wall_mono _ _ Hs) as Hmono. split; [lia|].
  intros Hlt. eapply open_until_step; [exact Hs| |lia|apply H1; lia].
  intros target Ht. assert (wall p1 < next) by lia. unfold after_closing in Ha.
  pose proof (second_of_day_bounds (wall p)) as Hb.
  set (t := wall p) in *. set (w := wall p1) in *.
  destruct (decide (w - t + second_of_day (localtime t) < day_seconds)) as [Hday|Hday].
  - assert (second_of_day (localtime w) = w - t + second_of_day (localtime t)) as Hsec
      by (apply second_later; lia).
    destruct (target_after_closing w target) as (k&Hk&->); [lia|done|].
    rewrite Hsec. unfold next, day_seconds in *. lia.
  - assert (second_of_day (localtime w) = w - t + second_of_day (localtime t) - day_seconds) as Hsec.
    { apply second_next_day. unfold next, opening_second, opening_h, opening_m, day_seconds in *. lia. }
    destruct (target_before_closing w) as (target'&Ht'&Htime).
    { rewrite Hsec. unfold next in *.
      unfold closing_second, closing_h, closing_m, opening_second, opening_h, opening_m in *. lia. }
    rewrite Ht in Ht'. injection Ht' as <-. rewrite Htime, Hsec. unfold next. lia.
Qed.
End laws.
End program.

Close Scope Z_scope.
