(* ===== verification/ServerSpec.v ===== *)
(** * What the server's routes and its clock let through

    The paths that the server answers as a table, and sessions of requests and turns of the clock
    thread: while the exchange is closed no request changes it, and only a turn that starts in the
    minute of the opening opens it. *)

From S2P Require Import Prelude Float RBTree DataTypes OrderBook OBInv OBCancel OBQuery OBLoad.
From S2P Require Import Calendar Repository Exchange ExchangeSpec Responses Handlers Session Server.

(** ** The paths *)

Definition api (op : operation_type) (segs : list string)
    : option (handler * gmap string string) :=
  match op, segs with
  | POST, [a; inst; b] =>
      if decide (a = "orders" ∧ b = "create")%string
      then Some (_create_order_handler, {[ INSTRUMENT_KEY := inst ]}) else None
  | PUT, [a; inst; b] =>
      if decide (a = "orders" ∧ b = "update")%string
      then Some (_update_order_handler, {[ INSTRUMENT_KEY := inst ]}) else None
  | PUT, [a; inst; b; id] =>
      if decide (a = "orders" ∧ b = "cancel")%string
      then Some (_cancel_order_handler, {[ INSTRUMENT_KEY := inst; ORDER_ID_KEY := id ]}) else None
  | GET, [a; inst; b] =>
      if decide (a = "orders")%string
      then Some (_get_order_handler, {[ INSTRUMENT_KEY := inst; ORDER_ID_KEY := b ]})
      else if decide (a = "orderbook" ∧ b = "snapshot")%string
      then Some (_snapshot_handler, {[ INSTRUMENT_KEY := inst ]}) else None
  | _, _ => None
  end.

Ltac segment := apply (bool_decide_unpack _); vm_compute; exact I.

Lemma one_segment_str s : segment s → one_segment (StrMatcher ("/" ++ s)).
Proof. simpl. eauto. Qed.

(** Comparing a matcher's string with a segment. *)
Lemma decide_slash {A} (s t : string) (x y : A) :
  (if decide (("/" ++ s)%string = ("/" ++ t)%string) then x else y) = (if decide (s = t) then x else y).
Proof. destruct (decide (s = t)) as [->|Hne]; case_decide as Hd; try done. by injection Hd. Qed.

Section routes.
Context {R : Type} `{!Routes R, !RoutesLaws R}.

Lemma routes_ok :
  Forall (λ r, Forall one_segment (matchers r) ∧ NoDup (param_names (matchers r)))
    [create_order_route; update_order_route; get_order_route; cancel_order_route;
     get_orderbook_snapshot_route].
Proof.
  assert (∀ s, s ∈ ["orders"; "create"; "update"; "cancel"; "orderbook"; "snapshot"]%string →
    one_segment (StrMatcher ("/" ++ s))) as Hs.
  { intros s Hs. apply one_segment_str. repeat (apply elem_of_cons in Hs as [->|Hs]; [segment|]).
    by apply elem_of_nil in Hs. }
  repeat constructor; try (apply Hs; set_solver); vm_compute; set_solver.
Qed.

Lemma routes_api op segs :
  Forall segment segs → routes_get op (path_of segs) (set_routes (R:=R) no_routes) = api op segs.
Proof.
  intros Hs. pose proof routes_ok as Hok. rewrite !Forall_cons in Hok.
  destruct Hok as ([? ?]&[? ?]&[? ?]&[? ?]&[? ?]&_).
  unfold set_routes. rewrite !get_add, get_no_routes by done. clear.
  destruct op; simpl; unfold api;
    (destruct segs as [|a [|i [|c [|d [|? ?]]]]]; simpl;
     rewrite ?(decide_slash "orders" a), ?(decide_slash "orderbook" a),
       ?(decide_slash "create" c), ?(decide_slash "update" c), ?(decide_slash "cancel" c),
       ?(decide_slash "snapshot" c));
    repeat case_decide; naive_solver.
Qed.
End routes.

(** ** While the exchange is closed *)

Section closed.
Context {R : Type} `{!Routes R} {doc : Type} `{!Json doc} {DB : Type} `{!Database DB} `{!Archive}.
Implicit Types (e : exchange) (req : request) (rep : reply) (inst : string).

Lemma closed_check e rep :
  working e = false →
  check_if_exchange_is_working rep e = (e, Ret (false, write_body
    (Message "exchange is not working currently.") (set_status no_content rep))).
Proof. intros Hw. unfold check_if_exchange_is_working, is_working. by rewrite bind_gets, Hw. Qed.

Ltac closed Hw E :=
  match type of E with
  | (validate_instrument_parameter ?req ?rep ≫= _) ?e = _ =>
      let v := fresh "valid" in let r := fresh "rep" in let Ev := fresh "Ev" in
      destruct (validate_instrument_result e req rep) as (v&r&Ev&_);
      rewrite (bind_ok _ _ _ _ _ Ev) in E; destruct v; cbn [negb] in E; [|by injection E as <- _]
  | context [validate_parameter ?a ?b ?c ?d] =>
      destruct (validate_parameter a b c d) as [[] ?]; cbn [negb] in E; [|by injection E as <- _]
  | context [check_if_exchange_is_working ?rep] =>
      rewrite (bind_ok _ _ _ _ _ (closed_check _ rep Hw)) in E; by injection E as <- _
  end.

Lemma closed_handle now generated (db : DB) h req e e' rep :
  exchange_ok e → working e = false →
  handle (doc:=doc) now generated db h req e = (e', Ret rep) → e' = e.
Proof.
  intros He Hw E. destruct h; unfold handle in E.
  - unfold CreateOrderHandler_handle in E. closed Hw E.
    destruct (iterate (content req)) as [d|]; [|done]. cbn [field lift] in E. rewrite bind_ret in E.
    destruct (map_json_to_order now d) as [x|]; [|done]. cbn [lift] in E. rewrite bind_ret in E.
    destruct (validate_order_side _ _) as [[] ?]; cbn [negb] in E; [|by injection E as <- _].
    closed Hw E.
  - unfold UpdateOrderHandler_handle in E. closed Hw E. closed Hw E.
  - unfold GetOrderHandler_handle in E. closed Hw E. closed Hw E.
  - unfold CancelOrderHandler_handle in E. closed Hw E. closed Hw E.
  - unfold SnapshotHandler_handle in E.
    destruct (info_validate_instrument_result e req new_reply) as (v&r&Ev&Hi).
    rewrite (bind_ok _ _ _ _ _ Ev) in E. destruct v; cbn [negb] in E; [|by injection E as <- _].
    destruct (Hi eq_refl) as [ob Hob]. destruct (He _ _ Hob) as (b&a&->&_&_).
    apply bind_inv in E as (e1&sn&E1&E). injection E as <- _.
    unfold get_orderbook_snapshot, subscript_instruments in E1. rewrite bind_modify, Hob in E1.
    unfold on_book in E1. rewrite Hob in E1. destruct (get_snapshot b) as [b' res] eqn:Es.
    apply reads_inv in Es as ->; [|apply reads_get_snapshot]. injection E1 as <- _.
    unfold put_instruments. rewrite insert_id by done. by destruct e.
Qed.

(** Requests that are answered, and turns of the clock thread that start at certain times. *)
Inductive server_step (rs : R) (times : tm → Prop) : exchange → exchange → Prop :=
  | step_serve now generated (db : DB) op path body e e' r :
      serve (doc:=doc) now generated db rs op path body e = (e', Ret r) → server_step rs times e e'
  | step_turn now t e e' target :
      times t → is_working_turn now t e = (e', Ret target) → server_step rs times e e'.

Lemma closed_serve now generated (db : DB) rs op path body e e' r :
  exchange_ok e → working e = false →
  serve (doc:=doc) now generated db rs op path body e = (e', Ret r) → e' = e.
Proof.
  intros He Hw. unfold serve. destruct (routes_get op path rs) as [[h params]|]; [|by intros [= ->]].
  unfold fmap, M_fmap. destruct (handle _ _ _ _ _ _) as [e1 [rep|]] eqn:E; [|done].
  intros [= <- _]. by eapply closed_handle.
Qed.

Definition opening_minute (t : tm) : Prop := tm_hour t = opening_h ∧ tm_min t = opening_m.

Lemma keeps_working_dates now : keeps working (check_date_orders now).
Proof.
  unfold check_date_orders. keeps_step; [apply keeps_gets|]. apply keeps_forM. intros inst.
  apply keeps_working_on_book.
Qed.

(** A turn opens the exchange exactly when it starts in the minute of the opening. *)
Lemma turn_working now t e e' target :
  is_working_turn now t e = (e', Ret target) → working e = false →
  working e' = true ↔ opening_minute t.
Proof.
  unfold is_working_turn, opening_minute. destruct (target_time t) as [tg|]; [|done]. intros E Hw.
  apply bind_inv in E as (e1&[]&E1&E). injection E as <- _. unfold after_sleep in E1.
  destruct ((tm_hour t =? opening_h) && (tm_min t =? opening_m))%Z eqn:Ho.
  { injection E1 as <-. simpl. split; [lia|done]. }
  split; [|lia]. intros Hopen. exfalso.
  destruct ((tm_hour t =? closing_h) && (tm_min t =? closing_m))%Z.
  - apply bind_inv in E1 as (e2&[]&E2&E1). injection E2 as <-.
    pose proof (keeps_working_dates now (set_working false e).1) as Hk. simpl in *. rewrite E1 in Hk.
    simpl in Hk. congruence.
  - injection E1 as <-. congruence.
Qed.

Lemma closed_step rs times e e' :
  (∀ t, times t → ¬ opening_minute t) → exchange_ok e → working e = false →
  server_step rs times e e' → stays_ok e e' ∧ working e' = false.
Proof.
  intros Ht He Hw Hs. revert He Hw.
  destruct Hs as [now g db op path body e e' r E|now t e e' target Hin E]; intros He Hw.
  - apply closed_serve in E as ->; [|done..]. by split; [apply stays_ok_refl|].
  - split; [by eapply clock_kept|]. apply not_true_is_false. intros Hw'.
    apply (Ht t Hin). by apply (turn_working _ _ _ _ _ E Hw).
Qed.

Lemma closed_session rs times e e' :
  (∀ t, times t → ¬ opening_minute t) → exchange_ok e → working e = false →
  rtc (server_step rs times) e e' → stays_ok e e' ∧ working e' = false.
Proof.
  intros Ht He Hw Hr. induction Hr as [e|e1 e2 e3 Hs _ IH]; [by split; [apply stays_ok_refl|]|].
  destruct (closed_step _ _ _ _ Ht He Hw Hs) as [H12 Hw2]. destruct (IH (proj1 H12) Hw2) as [H23 Hw3].
  split; [by eapply stays_ok_trans|done].
Qed.
End closed.
