(* ===== verification/Pipeline.v ===== *)
(** * The books, the thread of the order repository, and the database

    The repository has one ring buffer: every book pushes into it the orders that it hands over, and
    the repository's thread pops them and writes each order as it is at that moment, since the queue
    holds shared pointers.  The state is the books, the ring buffer and the database.  The pushes of
    different books are taken one at a time here: two at the same moment can lose an order
    ([SysProps.concurrent_pushes_lose_a_value]). *)

From S2P Require Import Prelude Float RBTree DataTypes OrderBook OBMatch OBBook OBOps OBInv OBAdd.
From S2P Require Import OBQuery OBRestart RingBuffer Repository Exchange.

(** A [shared_ptr] to an order: the object of a book, which is named by its instrument. *)
Definition message : Type := string * oid.
(** A slot of the buffer holds such a pointer or null, and null when it was moved from. *)
Definition moved_pointer (m : option message) : option message := None.

Section pipeline.
Context {DB : Type} `{!Database DB} `{!Archive}.
Variable capacity : nat.
Local Abbreviation push := (push capacity).
Local Abbreviation pop := (pop moved_pointer capacity).
Local Abbreviation holds_queue := (holds_queue capacity).

Record pipeline := Pipeline {
  p_books : gmap string book;
  p_ring : ring (T:=option message);
  p_db : DB
}.
Implicit Types (p : pipeline) (b : book) (db : DB) (m : message) (inst : string).

(** [OrderRepository::enqueue] *)
Definition enqueue m : M pipeline unit := λ p,
  match push (Some m) (p_ring p) with
  | Ret r => (Pipeline (p_books p) r (p_db p), Ret tt)
  | Err e => (p, Err e)
  end.

(** An operation of a book, with its calls of [enqueue]: what it adds to [order_queue]. *)
Definition calls b b' : list oid := drop (length (order_queue b)) (order_queue b').
Definition in_book {A} inst (op : M book A) : M pipeline A := λ p,
  match p_books p !! inst with
  | None => (p, Err NullDeref)
  | Some b =>
      let '(b', r) := op b in
      match forM (calls b b') (λ o, enqueue (inst, o))
              (Pipeline (<[inst := b']> (p_books p)) (p_ring p) (p_db p)) with
      | (p', Ret _) => (p', r)
      | (p', Err e) => (p', Err e)
      end
  end.

(** The object that a message points to. *)
Definition object p m : option order := b ← p_books p !! m.1; b_oh b !! m.2.
Definition objects p (ms : list message) : list order := omap (object p) ms.

(** A turn of [process_messages]: [pop], and the handling of what it found, if anything. *)
Definition consume : M pipeline bool := λ p,
  match pop (p_ring p) with
  | Err e => (p, Err e)
  | Ret (None, r) => (Pipeline (p_books p) r (p_db p), Ret false)
  | Ret (Some None, r) => (Pipeline (p_books p) r (p_db p), Err NullDeref)
  | Ret (Some (Some m), r) =>
      match object p m with
      | None => (Pipeline (p_books p) r (p_db p), Err UseAfterFree)
      | Some x => (Pipeline (p_books p) r (process_message (p_db p) x), Ret true)
      end
  end.
(** Some turns, and how many of them found a message. *)
Fixpoint consume_n (n : nat) : M pipeline nat :=
  match n with
  | 0 => mret 0
  | S n => found ← consume; k ← consume_n n; mret (if found : bool then S k else k)
  end.

(** Orders with their instruments and the times at which they are handled. *)
Fixpoint submit_all (xs : list (string * (Z * order))) : M pipeline (list OrderStatus) :=
  match xs with
  | [] => mret []
  | (inst, (now, x)) :: xs =>
      st ← in_book inst (submit now x);
      rest ← submit_all xs;
      mret (st :: rest)
  end.
Definition new_pipeline (infos : list (string * float)) db : pipeline :=
  Pipeline (list_to_map ((λ i, (i.1, new_book i.1 i.2 ∅)) <$> infos)) (new_ring None capacity) db.

(** The books are well formed, the messages [ms] are in the buffer, and their objects exist. *)
Record pipe_ok p (ms : list message) : Prop := {
  pi_books inst b : p_books p !! inst = Some b → ∃ a, book_ok b a;
  pi_ring : holds_queue (p_ring p) (Some <$> ms);
  pi_objects m : m ∈ ms → is_Some (object p m)
}.

Lemma new_pipeline_ok infos db : 0 < capacity → pipe_ok (new_pipeline infos db) [].
Proof.
  intros Hc. split; [|by apply new_holds_queue|by intros m ?%elem_of_nil].
  intros inst b Hb. simpl in Hb. apply elem_of_list_to_map_2, list_elem_of_fmap in Hb as ([i pr]&[= -> ->]&_).
  eexists. apply new_book_ok.
Qed.
Lemma new_pipeline_book infos db inst :
  inst ∈ infos.*1 → ∃ b, p_books (new_pipeline infos db) !! inst = Some b.
Proof.
  intros Hi. destruct (p_books _ !! inst) as [b|] eqn:Hb; [by exists b|]. simpl in Hb.
  apply not_elem_of_list_to_map_2 in Hb. destruct Hb. by rewrite <-list_fmap_compose.
Qed.

Lemma pipe_capacity p ms : pipe_ok p ms → 0 < capacity.
Proof. intros [_ Hr _]. pose proof (hq_room _ _ _ Hr). lia. Qed.

(** ** Submitting an order *)

Lemma enqueue_ok p ms m :
  holds_queue (p_ring p) (Some <$> ms) → S (length ms) < capacity →
  ∃ r, enqueue m p = (Pipeline (p_books p) r (p_db p), Ret tt) ∧ holds_queue r (Some <$> ms ++ [m]).
Proof.
  intros Hr Hroom.
  destruct (push_holds capacity ltac:(lia) (Some m) _ _ Hr) as (r&E&Hr'); [by rewrite length_fmap|].
  exists r. unfold enqueue. rewrite E. split; [done|]. by rewrite fmap_app.
Qed.

Lemma object_insert p inst b' r db m :
  object (Pipeline (<[inst := b']> (p_books p)) r db) m =
    if decide (m.1 = inst) then b_oh b' !! m.2 else object p m.
Proof.
  unfold object. simpl. case_decide as Hm; [by rewrite Hm, lookup_insert_eq|by rewrite lookup_insert_ne].
Qed.

(** The static members of the object of a message. *)
Definition object_static p m := static <$> object p m.
Lemma object_static_Some p m v : object_static p m = Some v → is_Some (object p m).
Proof. unfold object_static. destruct (object p m); [eauto|done]. Qed.
Lemma object_kept p p' m :
  object_static p' m = object_static p m → is_Some (object p m) → is_Some (object p' m).
Proof.
  intros E [y Hy]. apply (object_static_Some p' m (static y)). rewrite E. unfold object_static. by rewrite Hy.
Qed.

(** An order that is submitted is answered as by its book alone; its object is pushed. *)
Lemma submit_in_book p ms inst b a now x :
  pipe_ok p ms → S (length ms) < capacity → p_books p !! inst = Some b → book_ok b a →
  valid_order x → b_orders b !! o_id x = None →
  ∃ b' st ord r, let p' := Pipeline (<[inst := b']> (p_books p)) r (p_db p) in
    submit now x b = (b', Ret st) ∧ in_book inst (submit now x) p = (p', Ret st) ∧
    pipe_ok p' (ms ++ [(inst, ord)]) ∧ object_static p' (inst, ord) = Some (static x) ∧
    (∀ m, is_Some (object p m) → object_static p' m = object_static p m) ∧
    (∀ id, id ≠ o_id x → b_orders b !! id = None → b_orders b' !! id = None).
Proof.
  intros [Hbooks Hring Hobj] Hroom Hi Hb Hx Hid.
  destruct (submit_ok now b a x Hb Hx Hid) as (b'&a'&st&ord&E&Hb'&_&Hq&_&Hord&Hst&Hids).
  set (p1 := Pipeline (<[inst := b']> (p_books p)) (p_ring p) (p_db p)).
  destruct (enqueue_ok p1 ms (inst, ord) Hring Hroom) as (r&Er&Hr).
  exists b', st, ord, r. cbv zeta.
  assert (∀ m, is_Some (object p m) →
    object_static (Pipeline (<[inst := b']> (p_books p)) r (p_db p)) m = object_static p m) as Hold.
  { intros m Hm. unfold object_static. rewrite object_insert. case_decide as Heq; [|done].
    unfold object in *. rewrite Heq, Hi in *. by apply Hst. }
  assert (object_static (Pipeline (<[inst := b']> (p_books p)) r (p_db p)) (inst, ord) = Some (static x))
    as Hnew by (unfold object_static; rewrite object_insert, decide_True by done; exact Hord).
  split; [done|]. split; [|split; [split|by split_and!]].
  - unfold in_book. rewrite Hi, E. unfold calls. rewrite Hq, drop_app_length. cbn [forM].
    by rewrite (bind_ok _ _ _ _ _ Er).
  - simpl. intros inst' b0. rewrite lookup_insert_Some. intros [[_ <-]|[_ ?]]; [by exists a'|by eapply Hbooks].
  - exact Hr.
  - intros m. rewrite elem_of_app, list_elem_of_singleton. intros [Hm| ->].
    + eapply object_kept; [by apply Hold, Hobj|by apply Hobj].
    + by eapply object_static_Some.
Qed.

(** Which order a message is about. *)
Definition message_of p m (r : string * (Z * order)) : Prop :=
  m.1 = r.1 ∧ object_static p m = Some (static r.2.2).

Lemma message_of_kept p p' m r :
  (∀ m, is_Some (object p m) → object_static p' m = object_static p m) →
  message_of p m r → message_of p' m r.
Proof.
  intros Hold [Hi Hs]. split; [done|]. rewrite Hold; [done|]. by eapply object_static_Some.
Qed.

(** A sequence of orders for the books, for which there is room in the buffer. *)
Lemma submit_all_ok xs : ∀ p ms,
  pipe_ok p ms → length ms + length xs < capacity →
  Forall (λ r, is_Some (p_books p !! r.1) ∧ valid_order r.2.2) xs → NoDup (o_id <$> xs.*2.*2) →
  (∀ inst b x, p_books p !! inst = Some b → x ∈ xs.*2.*2 → b_orders b !! o_id x = None) →
  ∃ p' sts ms', submit_all xs p = (p', Ret sts) ∧ pipe_ok p' (ms ++ ms') ∧ p_db p' = p_db p ∧
    Forall2 (message_of p') ms' xs ∧
    (∀ m, is_Some (object p m) → object_static p' m = object_static p m).
Proof.
  induction xs as [|[inst [now x]] xs IH]; intros p ms Hp Hroom Hv Hnd Hid; cbn [submit_all].
  { exists p, [], []. rewrite app_nil_r. by split_and!. }
  apply Forall_cons in Hv as [[[b Hi] Hx] Hv]. simpl in Hi, Hx, Hroom.
  csimpl in Hnd. apply NoDup_cons in Hnd as [Hnx Hnd].
  destruct (pi_books _ _ Hp inst b Hi) as [a Hb].
  destruct (submit_in_book p ms inst b a now x Hp ltac:(lia) Hi Hb Hx) as (b'&st&ord&r&_&E&Hp1&Hord&Hold&Hids).
  { apply (Hid inst); [done|]. csimpl. left. }
  set (p1 := Pipeline _ r _) in *.
  destruct (IH p1 (ms ++ [(inst, ord)]) Hp1) as (p'&sts&ms'&E'&Hp'&Hdb&Hms&Hold').
  { rewrite length_app. simpl. lia. }
  { eapply Forall_impl; [exact Hv|]. intros [i r'] [Hi' ?]. split; [|done]. simpl in *.
    rewrite lookup_insert_is_Some. destruct (decide (inst = i)); auto. }
  { done. }
  { intros i b0 y. simpl. rewrite lookup_insert_Some. intros Hb0 Hy.
    assert (b_orders b !! o_id y = None) as Hn by (apply (Hid inst); [done|csimpl; by right]).
    destruct Hb0 as [[_ <-]|[_ Hb0]]; [|apply (Hid i); [done|csimpl; by right]].
    apply Hids; [|done]. intros Heq. apply Hnx. rewrite <-Heq. by apply list_elem_of_fmap_2. }
  exists p', (st :: sts), ((inst, ord) :: ms'). rewrite (bind_ok _ _ _ _ _ E), (bind_ok _ _ _ _ _ E').
  split; [done|]. split; [by rewrite <-app_assoc in Hp'|]. split; [done|]. split.
  - constructor; [|done]. by eapply message_of_kept.
  - intros m Hm. rewrite Hold', Hold; [done..|]. eapply object_kept; [by apply Hold|done].
Qed.

(** ** The queue is emptied *)

Lemma consume_ok p m ms :
  pipe_ok p (m :: ms) →
  ∃ x r, let p' := Pipeline (p_books p) r (process_message (p_db p) x) in
    object p m = Some x ∧ consume p = (p', Ret true) ∧ pipe_ok p' ms.
Proof.
  intros Hp. pose proof (pipe_capacity _ _ Hp) as Hc. destruct Hp as [Hb Hr Ho].
  destruct (pop_holds moved_pointer capacity Hc _ _ _ Hr) as (r&E&Hr').
  destruct (Ho m) as [x Hx]; [left|]. exists x, r. cbv zeta. split; [done|]. split.
  - unfold consume. by rewrite E, Hx.
  - split; [done|done|]. intros m' Hm. apply (Ho m'). by right.
Qed.
Lemma consume_nothing p : pipe_ok p [] → consume p = (p, Ret false).
Proof.
  intros Hp. pose proof (pipe_capacity _ _ Hp) as Hc. destruct Hp as [_ Hr _]. unfold consume.
  rewrite (pop_holds_nothing moved_pointer capacity Hc _ Hr). by destruct p.
Qed.

(** Handling the pending messages takes as many turns as there are, and writes the orders as they
    are now. *)
Lemma consume_pending ms : ∀ p,
  pipe_ok p ms →
  ∃ r, let p' := Pipeline (p_books p) r (process_messages (p_db p) (objects p ms)) in
    consume_n (length ms) p = (p', Ret (length ms)) ∧ pipe_ok p' [].
Proof.
  induction ms as [|m ms IH]; intros p Hp; cbv zeta; simpl.
  { exists (p_ring p). by destruct p. }
  destruct (consume_ok p m ms Hp) as (x&r&Hx&E&Hp1). destruct (IH _ Hp1) as (r'&E'&Hp').
  exists r'. rewrite (bind_ok _ _ _ _ _ E), (bind_ok _ _ _ _ _ E'). unfold objects in *. csimpl.
  rewrite Hx. by split.
Qed.

Lemma objects_ids p ms xs :
  Forall2 (message_of p) ms xs → o_id <$> objects p ms = o_id <$> xs.*2.*2.
Proof.
  unfold objects. induction 1 as [|m r ms xs [_ Hm] _ IH]; [done|]. csimpl. unfold object_static in Hm.
  destruct (object p m) as [y|]; [|done]. simpl in Hm. unfold static in Hm. injection Hm as Hm.
  csimpl. by rewrite Hm, IH.
Qed.
End pipeline.
Arguments pipeline DB : clear implicits.

(** ** What the messages leave in the store *)

Definition dead (x : order) : bool := is_cancelled x || is_fullfilled x.

Lemma message_abs_ne m x id : id ≠ o_id x → message_abs m x !! id = m !! id.
Proof.
  intros Hne. unfold message_abs. destruct (_ || _); [by apply lookup_delete_ne|by apply lookup_insert_ne].
Qed.
Lemma message_abs_eq m x : message_abs m x !! o_id x = if dead x then None else Some x.
Proof. unfold message_abs, dead. destruct (_ || _); [apply lookup_delete_eq|apply lookup_insert_eq]. Qed.

(** Messages about different orders: each of them is the last about its order. *)
Lemma messages_distinct os : ∀ m,
  NoDup (o_id <$> os) →
  (∀ x, x ∈ os → foldl message_abs m os !! o_id x = if dead x then None else Some x) ∧
  (∀ id, id ∉ o_id <$> os → foldl message_abs m os !! id = m !! id).
Proof.
  induction os as [|y os IH]; intros m Hnd; csimpl.
  { split; [by intros x ?%elem_of_nil|done]. }
  csimpl in Hnd. apply NoDup_cons in Hnd as [Hy Hnd]. destruct (IH (message_abs m y) Hnd) as [H1 H2].
  split.
  - intros x [->|Hx]%elem_of_cons; [|by apply H1]. rewrite H2 by done. apply message_abs_eq.
  - intros id [Hne Hid]%not_elem_of_cons. rewrite H2 by done. by apply message_abs_ne.
Qed.

Section frame.
Context {DB : Type} `{!Database DB, !DatabaseLaws DB, !Archive}.
Implicit Types (db : DB).

(** A message about another order leaves what is stored of this one, whether it is written or
    not. *)
Lemma message_frame db x id : id ≠ o_id x → get id (process_message db x) = get id db.
Proof.
  intros Hne. unfold get, process_message, save, remove, get_id. destruct (_ || _).
  - rewrite get_delete. destruct (Delete _ _).2; [|done]. by rewrite decide_False.
  - rewrite get_put. destruct (Put _ _ _).2; [|done]. by rewrite decide_False.
Qed.

Lemma read_all_in es os k v :
  read_all es = Ret os → (k, v) ∈ es → ∃ a, iarchive v = Some a ∧ deserialize a ∈ os.
Proof.
  revert os. induction es as [|[k' v'] es IH]; intros os E; [by intros ?%elem_of_nil|].
  simpl in E. destruct (iarchive v') as [a|] eqn:Ha; [|done].
  destruct (read_all es) as [os'|] eqn:Hes; [|done]. injection E as <-.
  intros [[= -> ->]|Hin]%elem_of_cons; [exists a; split; [done|left]|].
  destruct (IH os' eq_refl Hin) as (a'&?&?). exists a'. split; [done|by right].
Qed.

(** An order that can be read by its identifier is among those that a book loads. *)
Lemma get_in_all db id x os : get id db = Ret (Some x) → get_all db = Ret os → x ∈ os.
Proof.
  unfold get, get_all. destruct (Get db id) as [v|] eqn:Hg; [|done]. intros E Hall.
  apply entries_get in Hg. destruct (read_all_in _ _ _ _ Hall Hg) as (a&Ha&Hin).
  rewrite Ha in E. by injection E as <-.
Qed.
End frame.

(** ** Opening a book from stored orders *)

Lemma loaded_heap_lookup loaded i : loaded_heap loaded !! i = loaded !! i.
Proof.
  unfold loaded_heap. assert (∀ n k, (list_to_map (zip (seq n (length loaded)) loaded) : gmap nat order) !! k
    = if decide (n ≤ k) then loaded !! (k - n) else None) as H; [|rewrite H, decide_True by lia; f_equal; lia].
  induction loaded as [|x loaded IH]; intros n k; csimpl.
  { rewrite lookup_empty. by case_decide. }
  destruct (decide (k = n)) as [->|Hne].
  - by rewrite lookup_insert_eq, decide_True, Nat.sub_diag by lia.
  - rewrite lookup_insert_ne, IH by done. destruct (decide (S n ≤ k)).
    + rewrite decide_True by lia. by replace (k - n) with (S (k - S n)) by lia.
    + by rewrite decide_False by lia.
Qed.

(** Every stored order that is no stop order rests in the book again, with the quantity it was
    stored with. *)
Lemma open_book_ok instrument price loaded :
  Forall loadable loaded →
  ∃ b bids asks, open_book instrument price loaded = Ret b ∧
    get_bids b = (b, Ret bids) ∧ get_asks b = (b, Ret asks) ∧
    ∀ i x, loaded !! i = Some x → has_param x STOP = false →
      i ∈ (if is_buy x then bids else asks) ∧ o_current_qty <$> b_oh b !! i = Some (o_current_qty x).
Proof.
  intros Hl. destruct (load_orders_ok (seq 0 (length loaded)) (new_book instrument price (loaded_heap loaded))
    empty_abook) as (b&a&E&Hs&Hlv&Hq).
  { apply new_book_sides. } { apply NoDup_seq. }
  { intros i Hi%elem_of_seq. split; [by intros ?%elem_of_nil|]. simpl.
    destruct (lookup_lt_is_Some_2 loaded i) as [x Hx]; [lia|]. exists x. rewrite loaded_heap_lookup.
    split; [done|]. by eapply Forall_lookup_1. }
  exists b, (lorders (a_levels a Bids)), (lorders (a_levels a Asks)).
  unfold open_book. rewrite E. split; [done|]. split; [by apply side_read, Hs|].
  split; [by apply side_read, Hs|]. intros i x Hi Hstop.
  assert (i ∈ lorders (a_levels a (own_side (is_buy x)))) as Hin.
  { apply Hlv. right. split; [apply elem_of_seq; apply lookup_lt_Some in Hi; lia|]. exists x. simpl.
    by rewrite loaded_heap_lookup. }
  split; [by destruct (is_buy x)|]. rewrite Hq. simpl. by rewrite loaded_heap_lookup, Hi.
Qed.
