(* ===== verification/EndToEnd.v ===== *)
(** * What the parts do together

    The properties of the consumer thread of a ring buffer, of the server from its request lines
    to its replies, and of a book with the thread and the database that store its orders. *)

From S2P Require Import Prelude Float RBTree DataTypes OrderBook OBMatch OBBook OBOps OBInv OBAdd OBCancel.
From S2P Require Import OBQuery OBRestart RingBuffer RingLive Calendar Repository InstrumentFile.
From S2P Require Import Exchange ExchangeSpec Responses Handlers Session Server ServerSpec Pipeline.

(** ** The ring buffer *)

Section buffers.
Context {T : Type}.
Variables (moved : T → T) (initial : T) (capacity : nat).

(** C14: in an infinite execution in which the producer finds room and the consumer gets its turn again
    and again, every value that is pushed is popped, at its place in the queue. *)
Theorem every_pushed_value_is_popped exec i k v :
  0 < capacity → fair_execution moved initial capacity exec →
  pushed (exec i) !! k = Some v → ∃ j, i ≤ j ∧ popped (exec j) !! k = Some v.
Proof.
  intros Hc Hx Hv.
  destruct (popped_reaches moved initial capacity Hc exec Hx k i) as (j&Hij&Hk); [by eapply lookup_lt_Some|].
  exists j. split; [done|].
  destruct (exec_queued moved initial capacity Hc exec Hx j) as [_ (n&m&c&Hq)].
  destruct (exec_grows moved initial capacity exec Hx i j Hij) as [Hpre _].
  pose proof (qu_popped _ _ _ _ _ Hq) as Hp. rewrite Hp in Hk |- *.
  rewrite length_take in Hk. rewrite lookup_take_lt by lia. by eapply prefix_lookup_Some.
Qed.
End buffers.

(** ** The server *)

Section server.
Context {R : Type} `{!Routes R, !RoutesLaws R} {doc : Type} `{!Json doc}.
Context {DB : Type} `{!Database DB} `{!Archive}.
Implicit Types (e : exchange) (inst : string).


(** A path with a slash in front of "orders", an instrument and "create". *)
Lemma create_segments inst : segment inst → Forall segment ["orders"; inst; "create"]%string.
Proof. intros Hi. constructor; [segment|]. constructor; [done|]. constructor; [segment|constructor]. Qed.

Lemma create_path_closed now generated (db : DB) inst body d x e :
  working e = false → segment inst → is_Some (instruments e !! inst) → iterate body = Some d →
  map_json_to_order now d = Ret x → o_side x ≠ UNKOWN →
  ∃ rep, serve now generated db (set_routes (R:=R) no_routes) POST (path_of ["orders"; inst; "create"]%string)
      body e = (e, Ret (Some rep)) ∧ r_status rep = no_content.
Proof.
  intros Hw Hseg Hi Hd Hx Hside. unfold serve. rewrite routes_api by by apply create_segments.
  cbn [api]. rewrite decide_True by done. cbn [handle].
  unfold fmap, M_fmap, CreateOrderHandler_handle, validate_instrument_parameter, validate_parameter,
    get_path_param. cbn [param]. rewrite lookup_singleton_eq. cbn [negb default from_option].
  unfold instrument_exists. rewrite bind_assoc, bind_gets, bool_decide_true by done.
  rewrite bind_ret. cbn [negb content]. rewrite Hd. cbn [field lift]. rewrite bind_ret, Hx.
  cbn [lift]. rewrite bind_ret. unfold validate_order_side, get_side. rewrite bool_decide_false by done.
  cbn [negb]. rewrite (bind_ok _ _ _ _ _ (closed_check e new_reply Hw)). cbn [negb].
  eexists. split; [reflexivity|done].
Qed.

(** C25: the program that is started with an empty store listens on its address, with the
    instruments of its file, and is closed; it stays closed, whatever requests it answers and
    however often its clock thread turns, until a turn starts in the minute of the opening, so every
    order it is sent on a day on which it was started later is refused. *)
Theorem late_start_refuses_orders config files (databases : string → DB) :
  get_all (databases (rocksdb_dir config)) = Ret [] →
  let infos := read_instrument_init_data_from_file (files (instrument_init_file config)) in
  (Z.of_nat (length infos) ≤ 2 ^ 32)%Z →
  ∃ s, main config files databases = Ret s ∧
    _listens s = Some (server_address config, server_port config) ∧
    ∀ e, rtc (server_step (R:=R) (doc:=doc) (DB:=DB) (_routes s) (λ t, ¬ opening_minute t)) (_exchange s) e →
      working e = false ∧ (∀ inst, is_Some (instruments e !! inst) ↔ inst ∈ infos.*1) ∧
      ∀ now generated (db : DB) inst body d x,
        segment inst → inst ∈ infos.*1 → iterate body = Some d → map_json_to_order now d = Ret x →
        o_side x ≠ UNKOWN →
        ∃ rep, serve now generated db (_routes s) POST (path_of ["orders"; inst; "create"]%string) body e
          = (e, Ret (Some rep)) ∧ r_status rep = no_content.
Proof.
  intros Hall infos Hlen. destruct (new_exchange_ok infos false Hlen) as (e0&E&He&Hi&_&Hw).
  eexists. unfold main. fold infos. split; [|split].
  - assert ((if bool_decide (infos = []) then Ret [] else get_all (databases (rocksdb_dir config)))
      = Ret []) as -> by (rewrite Hall; by destruct (bool_decide _)).
    rewrite E. reflexivity.
  - reflexivity.
  - simpl. intros e Hr. apply (closed_session (DB:=DB)) in Hr as [[He' Hi'] Hw']; [|done..].
    split; [done|]. split; [intros inst; by rewrite Hi', Hi|].
    intros now generated db inst body d x Hseg Hin Hd Hx Hside.
    eapply create_path_closed; try done. by apply Hi', Hi.
Qed.
End server.

(** *** What a client reads *)

Section texts.
Context `{!JsonText, !JsonTextLaws}.

Definition finite_order (o : order) : bool :=
  is_finite (o_qty o) && is_finite (o_current_qty o) && is_finite (o_price o) && is_finite (o_stop_price o).
Definition finite_limit (l : SnapshotLimit) : bool := is_finite (sl_price l) && is_finite (sl_qty l).
Definition finite_spread (s : Spread) : bool :=
  is_finite (best_ask_price s) && is_finite (s_market_price s) && is_finite (best_bid_price s).

(** A level and a spread as JSON. *)
Definition limit_member (l : SnapshotLimit) : json :=
  JObject [("price", JFloat (sl_price l)); ("qty", JFloat (sl_qty l))]%string.
Definition spread_member (s : Spread) : json :=
  JObject [("best_ask_price", JFloat (best_ask_price s)); ("market_price", JFloat (s_market_price s));
           ("best_bid_price", JFloat (best_bid_price s))]%string.

Lemma body_read b j : body_json b = Some j → json_finite j = true → (body_text b ≫= read_json) = Some j.
Proof. intros Hb Hj. unfold body_text. rewrite Hb. simpl. by apply read_stream. Qed.

Lemma finite_limits ls :
  Forall (λ l, finite_limit l = true) ls → forallb json_finite (limit_member <$> ls) = true.
Proof.
  induction 1 as [|l ls Hl _ IH]; [done|]. csimpl. rewrite IH. unfold finite_limit in Hl.
  apply andb_true_iff in Hl as [-> ->]. done.
Qed.

(** C26: a client that reads the text of a reply finds in it, under its name, every member of the order
    that was asked for, the identifier and the status of the order that was created, and of a snapshot
    the price and the volume of each level in the order of the levels, and the three prices. *)
Theorem reply_bodies_can_be_read o id st sn :
  finite_order o = true → Forall (λ l, finite_limit l = true) (asks sn ++ bids sn) →
  finite_spread (spread sn) = true →
  (∃ j, body_text (OrderBody (SeastarOrderJson o)) ≫= read_json = Some j ∧
    (member j <$> ["id"; "instrument"; "user_id"; "timestamp"; "qty"; "current_qty"; "price"; "stop_price";
                   "side"; "cancelled"; "params"; "type"])%string =
    Some <$> [JString (o_id o); JString (o_instrument o); JString (o_user_id o); JInt (o_timestamp o);
              JFloat (o_qty o); JFloat (o_current_qty o); JFloat (o_price o); JFloat (o_stop_price o);
              JInt (get_side_uint8 o); JBool (o_cancelled o); JInt (o_params o); JInt (get_type_uint8 o)]) ∧
  (∃ j, body_text (OrderInfo (SeastarOrderInfoJson id st)) ≫= read_json = Some j ∧
    member j "order_id" = Some (JString id) ∧ member j "status" = Some (JInt (status_uint8 st))) ∧
  (∃ j, body_text (SnapshotBody (SeastarSnapshotJson sn)) ≫= read_json = Some j ∧
    member j "asks" = Some (JArray (limit_member <$> asks sn)) ∧
    member j "bids" = Some (JArray (limit_member <$> bids sn)) ∧
    member j "spread" = Some (spread_member (spread sn))).
Proof.
  unfold finite_order, finite_spread. rewrite !andb_true_iff, Forall_app.
  intros [[[H1 H2] H3] H4] [Ha Hb] [[H5 H6] H7]. split; [|split].
  - eexists. split; [apply body_read; [reflexivity|]|reflexivity]. unfold is_finite in *. simpl.
    unfold get_initial_qty, get_qty, get_price, get_stop_price.
    by destruct (o_qty o), (o_current_qty o), (o_price o), (o_stop_price o).
  - eexists. split; [by apply body_read|]. by split.
  - eexists. split; [apply body_read; [reflexivity|]|].
    + unfold snapshot_json_copy. rewrite SeastarSnapshotJson_eq. cbn.
      rewrite <-!list_fmap_compose. change (limit_object ∘ _) with limit_member.
      by rewrite !finite_limits, H5, H6, H7.
    + rewrite SeastarSnapshotJson_eq. cbn. by rewrite <-!list_fmap_compose.
Qed.
End texts.

(** ** What is stored *)

Section stored.
Context {DB : Type} `{!Database DB, !DatabaseLaws DB, !Archive, !ArchiveLaws}.
Variable capacity : nat.
Implicit Types (db : DB) (b : book) (p : pipeline DB) (inst : string).
Local Abbreviation in_book := (in_book capacity).
Local Abbreviation submit_all := (submit_all capacity).
Local Abbreviation new_pipeline := (new_pipeline capacity).
Local Abbreviation consume := (consume capacity).
Local Abbreviation consume_n := (consume_n capacity).
Local Abbreviation pipe_ok := (pipe_ok capacity).

(** C18: valid orders, with different identifiers, are submitted to the books of the instruments, fewer
    than the ring buffer of the order repository has slots, before its thread comes.  Then the thread
    needs one turn for each of them, finds nothing more, and as long as its writes succeed the store,
    which was empty, holds every order that is still alive as the matching left it, but for its stop
    price, and no order that was filled or cancelled, and no other. *)
Theorem late_thread_stores_the_final_orders infos xs db :
  length xs < capacity → Forall (λ r, r.1 ∈ infos.*1 ∧ valid_order r.2.2) xs →
  NoDup (o_id <$> xs.*2.*2) → (∀ id, Get db id = None) →
  ∃ p sts ms, submit_all xs (new_pipeline infos db) = (p, Ret sts) ∧
    Forall2 (λ m r, m.1 = r.1 ∧ ∃ x, object p m = Some x ∧ static x = static r.2.2) ms xs ∧
    let final := objects p ms in
    (Forall (λ x, finite (serialize x) = true) final → writes_ok db final = true →
     ∃ p', consume_n (length xs) p = (p', Ret (length xs)) ∧ consume p' = (p', Ret false) ∧
       p_books p' = p_books p ∧
       (∀ x, x ∈ final → get (o_id x) (p_db p') = Ret (if dead x then None else Some (reloaded x))) ∧
       ∀ id, id ∉ o_id <$> xs.*2.*2 → get id (p_db p') = Ret None).
Proof.
  intros Hroom Hv Hnd Hdb.
  destruct (submit_all_ok capacity xs (new_pipeline infos db) []) as (p&sts&ms&E&Hp&Hpdb&Hms&_).
  { apply new_pipeline_ok. lia. } { done. }
  { eapply Forall_impl; [exact Hv|]. intros r [Hi ?]. split; [|done].
    destruct (new_pipeline_book capacity infos db r.1 Hi) as [b Hb]. by exists b. }
  { done. }
  { intros inst b x Hb _. simpl in Hb.
    apply elem_of_list_to_map_2, list_elem_of_fmap in Hb as ([i pr]&[= -> ->]&_). done. }
  exists p, sts, ms. split; [done|]. pose proof (objects_ids p ms xs Hms) as Hids. simpl in Hp. split.
  { eapply Forall2_impl; [exact Hms|]. intros m r [Hi Hs]. split; [done|]. unfold object_static in Hs.
    destruct (object p m) as [x|]; [|done]. exists x. by apply (inj Some) in Hs. }
  intros final Hfin Hw. destruct (consume_pending capacity ms p Hp) as (r&Ec&Hp').
  rewrite (Forall2_length _ _ _ Hms) in Ec. eexists. split; [exact Ec|].
  split; [by apply consume_nothing|]. split; [done|]. simpl. rewrite Hpdb. simpl.
  assert (holds db ∅) as Hh.
  { split; [|intros id o; by rewrite lookup_empty]. intros id. unfold get. by rewrite Hdb, lookup_empty. }
  destruct (messages_hold _ _ _ Hh Hfin Hw) as [Hget _].
  destruct (messages_distinct final ∅) as [Hd Hn]; [by unfold final; rewrite Hids|]. split.
  - intros x Hx. rewrite Hget, Hd by done. by destruct (dead x).
  - intros id Hid. rewrite Hget, Hn; [by rewrite lookup_empty|]. unfold final. by rewrite Hids.
Qed.

(** C19: when the thread keeps up with the book, a resting order stays in the store as it was, whatever a
    later order takes of it, be it all of it: the later order's message is the only one that its match
    sends.  A book that is opened from that store has the order back with its whole quantity. *)
Theorem stored_orders_go_stale p inst b a o y now x instrument price :
  1 < capacity → pipe_ok p [] → p_books p !! inst = Some b → book_ok b a →
  b_oh b !! o = Some y → has_param y STOP = false → get (o_id y) (p_db p) = Ret (Some (reloaded y)) →
  valid_order x → b_orders b !! o_id x = None → o_id x ≠ o_id y →
  ∃ b' st p1 p', submit now x b = (b', Ret st) ∧ in_book inst (submit now x) p = (p1, Ret st) ∧
    p_books p1 !! inst = Some b' ∧
    consume p1 = (p', Ret true) ∧ consume p' = (p', Ret false) ∧ pipe_ok p' [] ∧
    get (o_id y) (p_db p') = Ret (Some (reloaded y)) ∧
    ∀ stored, get_all (p_db p') = Ret stored → Forall loadable stored →
      ∃ b2 bids asks i, open_book instrument price stored = Ret b2 ∧
        get_bids b2 = (b2, Ret bids) ∧ get_asks b2 = (b2, Ret asks) ∧
        stored !! i = Some (reloaded y) ∧ i ∈ (if is_buy y then bids else asks) ∧
        o_current_qty <$> b_oh b2 !! i = Some (o_current_qty y).
Proof.
  intros Hc Hp Hi Hb Ho Hstop Hget Hx Hid Hne.
  destruct (submit_in_book capacity p [] inst b a now x Hp Hc Hi Hb Hx Hid)
    as (b'&st&ord&r&Es&E&Hp1&Hord&_). simpl in Hp1.
  destruct (consume_ok capacity _ _ _ Hp1) as (x'&r'&Hx'&Ec&Hp').
  unfold object_static in Hord. rewrite Hx' in Hord. simpl in Hord. unfold static in Hord.
  injection Hord as Hxid _ _ _ _.
  assert (get (o_id y) (process_message (p_db p) x') = Ret (Some (reloaded y))) as Hkeep.
  { rewrite message_frame by congruence. done. }
  eexists b', st, _, _. split; [exact Es|]. split; [exact E|]. split; [simpl; apply lookup_insert_eq|].
  split; [exact Ec|]. split; [by apply consume_nothing|]. split; [exact Hp'|]. split; [exact Hkeep|].
  simpl. intros stored Hall Hl. destruct (open_book_ok instrument price stored Hl) as (b2&bids&asks&E2&Eb&Ea&Hin).
  pose proof (get_in_all _ _ _ _ Hkeep Hall) as [i Hs]%list_elem_of_lookup.
  destruct (Hin i _ Hs Hstop) as [H1 H2]. exists b2, bids, asks, i. by split_and!.
Qed.
End stored.
