(* ===== verification/Examples.v ===== *)
(** * A book to look at

    Concrete orders, books and trees for the witnesses of the properties. *)

From S2P Require Import Prelude Float RBTree RBSpec RBInsert RBIter DataTypes OrderBook.
From S2P Require Import OBRep OBMatch OBBook OBOps OBInv OBAdd.

(** ** Building a book *)

(** The book after some requests, with what it holds according to the specification. *)
Fixpoint build (xs : list (Z * order)) (b : book) (a : abook) : book * abook :=
  match xs with
  | [] => (b, a)
  | (now, x) :: xs =>
      let ord := fresh (dom (b_oh b)) in
      build xs (submit now x b).1 (add_abs (set_oh (<[ord := x]> (b_oh b)) b) a ord x).2
  end.

Lemma build_ok xs : ∀ b a,
  book_ok b a → Forall (λ p, valid_order p.2) xs → NoDup (o_id <$> xs.*2) →
  (∀ x, x ∈ xs.*2 → b_orders b !! o_id x = None) →
  book_ok (build xs b a).1 (build xs b a).2.
Proof.
  induction xs as [|[now x] xs IH]; intros b a Hb Hv Hnd Hid; [done|]. cbn [build].
  apply Forall_cons in Hv as [Hx Hv]. csimpl in Hnd. apply NoDup_cons in Hnd as [Hnx Hnd].
  destruct (alloc_order_ok b a x Hb Hx) as (b1&ord&E1&Hb1&Hin&Ho1&_); [apply Hid; left|].
  assert (b1 = set_oh (<[ord := x]> (b_oh b)) b ∧ ord = fresh (dom (b_oh b))) as [Eb Eo].
  { unfold alloc_order in E1. by injection E1 as <- <-. }
  rewrite <-Eo, <-Eb. destruct (add_abs b1 a ord x) as [[st mp] a1] eqn:Ha.
  destruct (add_order_ok now _ _ _ _ _ _ _ Hb1 Hin Ha) as (b2&E2&Had).
  assert (submit now x b = (b2, Ret st)) as -> by (unfold submit; by rewrite (bind_ok _ _ _ _ _ E1)).
  cbn [fst snd]. apply IH; [apply Had|done|done|].
  intros y Hy. eapply added_ids; [exact Hb1|exact Hin|exact Ha|exact Had| |].
  - intros Heq. apply Hnx. rewrite <-Heq. by apply list_elem_of_fmap_2.
  - rewrite Ho1. apply Hid. by right.
Qed.

(** The book with the object of a new order. *)
Definition with_new_order (b : book) (x : order) : book :=
  set_oh (<[fresh (dom (b_oh b)) := x]> (b_oh b)) b.
Lemma with_new_order_ok b a x :
  book_ok b a → valid_order x → b_orders b !! o_id x = None →
  book_ok (with_new_order b x) a ∧ incoming (with_new_order b x) a (fresh (dom (b_oh b))) x.
Proof.
  intros Hb Hx Hid. destruct (alloc_order_ok _ _ x Hb Hx Hid) as (b1&ord&E&Hb1&Hin&_).
  unfold alloc_order in E. injection E as <- <-. by split.
Qed.

(** Whole numbers as floats. *)
Definition whole_float (z : Z) : float := Fin (z * 2 ^ 149).
Definition request_order (id : string) (side : Side) (qty price : Z) (params : OrderParams)
    (type : OrderType) : order :=
  new_order 1000 id "ACME" "user" (whole_float qty) (whole_float price) side params type (-1).

Lemma request_valid id side qty price params type :
  (0 < qty ≤ 2 ^ 24)%Z → valid_order (request_order id side qty price params type).
Proof.
  intros Hq. split; try done. exists (qty * 2 ^ 149)%Z. split; [done|]. split; [lia|].
  apply fits_whole. lia.
Qed.

(** Two asks at one price, one at a higher price, two bids. *)
Definition requests : list (Z * order) :=
  [(1, request_order "a1" SELL 5 100 GTC LIMIT); (2, request_order "a2" SELL 7 100 GTC LIMIT);
   (3, request_order "a3" SELL 10 101 GTC LIMIT); (4, request_order "b1" BUY 4 90 GTC LIMIT);
   (5, request_order "b2" BUY 6 95 GTC LIMIT)]%Z.
Definition start : book := new_book "ACME" (whole_float 100) ∅.
Definition example : book * abook := build requests start empty_abook.

Lemma start_ok : book_ok start empty_abook.
Proof. apply new_book_ok. Qed.

Lemma example_ok : book_ok example.1 example.2.
Proof.
  apply build_ok; [apply start_ok| | |done].
  - repeat constructor; by apply request_valid.
  - apply (bool_decide_unpack _). vm_compute. exact I.
Qed.

Example example_asks : (get_asks example.1).2 = Ret [0; 1; 2].
Proof. vm_compute. reflexivity. Qed.
