(* ===== verification/SysProps.v ===== *)
(** * What the rest of the exchange does

    The properties of the ring buffer and the thread pool, the two stores, the calendar and the
    instrument file, the exchange and the request handlers. *)

From S2P Require Import Prelude Float RBTree DataTypes OrderBook OBMatch OBBook OBOps OBInv OBAdd OBCancel.
From S2P Require Import OBQuery OBProps.
From S2P Require Import RingBuffer ThreadPool Calendar Repository TradeRepository.
From S2P Require Import InstrumentFile Exchange ExchangeSpec Responses Handlers Session.

(** ** The ring buffer *)

Section buffers.
Context {T : Type}.
Variables (moved : T → T) (initial : T) (capacity : nat).
Local Abbreviation step := (step moved capacity).
Local Abbreviation roomy := (roomy moved capacity).
Local Abbreviation new_system := (new_system initial capacity).

(** C15: in every interleaving of the two threads the positions stay inside the array: no step
    reads or writes past its end. *)
Theorem ring_never_out_of_bounds s :
  0 < capacity → rtc step new_system s →
  (∃ p r, push_step capacity (prod s) (ring_of s) = Ret (p, r)) ∧
  (∃ c r, pop_step moved capacity (cons s) (ring_of s) = Ret (c, r)).
Proof.
  intros Hc Hs. destruct (reachable_positions moved initial capacity Hc s Hs) as [P1 P2 P3 P4 P5 P6].
  unfold sized in P1. split.
  - destruct (prod s); simpl; repeat case_decide; eauto. destruct P5 as [-> _]. lia.
  - destruct (cons s) as [| | |pos|]; simpl; repeat case_decide; eauto. subst pos.
    destruct (lookup_lt_is_Some_2 (slots (ring_of s)) (read_pos (ring_of s))) as [v ->]; [lia|]. eauto.
Qed.

(** C12: as long as the consumer keeps up, that is, no [push] writes while the position after
    the next one is the consumer's, the values come out in the order in which they went in, none
    lost and none twice, and a [pop] that finds nothing has returned everything. *)
Theorem ring_is_a_queue s :
  0 < capacity → rtc roomy new_system s →
  popped s `prefix_of` pushed s ∧
  ∀ pos r, cons s = CRefresh pos →
    pop_step moved capacity (cons s) (ring_of s) = Ret (CIdle None, r) → popped s = pushed s.
Proof.
  intros Hc Hs. destruct (roomy_reachable moved initial capacity Hc s Hs) as [Hp (n&k&c&Hq)].
  destruct Hq as [Q1 Q2 Q3 Q4 Q5 Q6 _ _ _]. split.
  - rewrite Q2. exists (drop k (pushed s)). by rewrite take_drop.
  - intros pos r Hcons. rewrite Hcons. pose proof (ps_cons _ _ Hp) as P6. rewrite Hcons in P6.
    simpl. case_decide as Hd; [|done]. intros _. rewrite Q2. apply take_ge.
    assert (k = n); [|lia]. apply (mod_inj capacity Hc); [lia|lia|]. congruence.
Qed.

(** The test for a full buffer never succeeds: in every reachable state the producer's cached
    position is zero and the next position is not, so no [push] ever waits for the consumer. *)
Theorem push_never_waits s v :
  0 < capacity → rtc step new_system s →
  read_pos_cache (ring_of s) = 0 ∧
  ∃ r, push capacity v (ring_of s) = Ret r ∧ read_pos r = read_pos (ring_of s) ∧
    slots r !! write_pos (ring_of s) = Some v.
Proof.
  intros Hc Hs. destruct (reachable_positions moved initial capacity Hc s Hs) as [P1 P2 P3 P4 _ _].
  unfold sized in P1. split; [done|]. rewrite push_ok by (done || lia).
  eexists. split; [done|]. split; [done|]. simpl. apply list_lookup_insert_eq. lia.
Qed.

(** A producer that is a whole buffer ahead loses it: after as many pushes as the buffer has
    slots, and no [pop] in between, a [pop] finds nothing. *)
Theorem full_ring_looks_empty vs :
  0 < capacity → length vs = capacity →
  ∃ r, push_all capacity vs (new_ring initial capacity) = Ret r ∧ pop moved capacity r = Ret (None, r).
Proof.
  intros Hc Hl.
  destruct (push_all_ok capacity Hc vs (new_ring initial capacity) 0) as (sl&E&_).
  { apply length_replicate. } { done. } { simpl. by rewrite Nat.Div0.mod_0_l. }
  eexists. split; [exact E|]. simpl. rewrite Hl, Nat.Div0.mod_same. by apply pop_empty.
Qed.

(** C33: the buffer is not made for two producers: when two threads push at the same moment to a
    buffer whose consumer has caught up, one of the interleavings finishes both pushes without an
    error, and a consumer finds the second value and then nothing: the first one is lost. *)
Theorem concurrent_pushes_lose_a_value s v1 v2 :
  1 < capacity → rtc step new_system s → read_pos (ring_of s) = write_pos (ring_of s) →
  write_pos_cache (ring_of s) = write_pos (ring_of s) →
  ∃ turns r r', race capacity turns (PLoop v1) (PLoop v2) (ring_of s) = Ret (PIdle, PIdle, r) ∧
    pop moved capacity r = Ret (Some v2, r') ∧ pop moved capacity r' = Ret (None, r').
Proof.
  intros Hc Hs He Hk.
  destruct (reachable_positions moved initial capacity ltac:(lia) s Hs) as [P1 P2 P3 P4 _ _].
  pose proof (race_ok capacity ltac:(lia) v1 v2 (ring_of s) P1 P4 P3) as E.
  eexists _, _, _. split; [exact E|]. rewrite (pop_next _ _ v2); simpl.
  - split; [done|]. apply pop_empty; simpl; congruence.
  - congruence.
  - rewrite He. unfold wrap. case_decide; lia.
  - rewrite He. apply list_lookup_insert_eq. by rewrite P1.
Qed.
End buffers.

(** ** The thread pool *)

Section workers.
Context {task : Type}.
Variables (moved : task → task) (initial : task) (size : nat).

(** In every interleaving of the pool's threads in which the producers find room, every worker
    runs the tasks it was handed in the order in which it was handed them, no task twice, and a
    task is handed to the worker with the index that was asked for, if the pool has one. *)
Theorem tasks_run_in_order n p :
  0 < size → rtc (pool_step moved size) (ThreadPool initial size n) p →
  (∀ idx w, p !! idx = Some w → popped w `prefix_of` pushed w) ∧
  (∀ idx f, n ≤ idx → ThreadPool.enqueue idx f p = Err OutOfBounds) ∧
  (∀ idx f, idx < n → ∃ w p', p !! idx = Some w ∧ ThreadPool.enqueue idx f p = Ret p' ∧
    p' !! idx = Some (task_enqueue f w) ∧ ∀ j, j ≠ idx → p' !! j = p !! j).
Proof.
  intros Hc Hp. destruct (pool_reachable moved initial size n p Hp) as [Hl Hw]. split; [|split].
  - intros idx w Hi. destruct (roomy_reachable moved initial size Hc w (Hw _ _ Hi)) as [_ (m&k&c&Hq)].
    rewrite (qu_popped _ _ _ _ _ Hq). exists (drop k (pushed w)). by rewrite take_drop.
  - intros idx f Hi. unfold ThreadPool.enqueue. by rewrite lookup_ge_None_2 by lia.
  - intros idx f Hi. destruct (lookup_lt_is_Some_2 p idx) as [w Hi']; [lia|]. exists w. unfold ThreadPool.enqueue.
    rewrite Hi'. eexists. split; [done|]. split; [done|]. split.
    + rewrite list_lookup_insert_eq; [done|lia].
    + intros j Hj. by rewrite list_lookup_insert_ne.
Qed.
End workers.

(** ** The order store *)

Section store.
Context {DB : Type} `{!Database DB, !DatabaseLaws DB, !Archive, !ArchiveLaws}.
Implicit Types (db : DB) (o : order).

(** The last of the messages that are about an order. *)
Definition last_message (id : string) (os : list order) : option order :=
  list.last (filter (λ o, o_id o = id) os).

Lemma last_message_snoc id os o :
  last_message id (os ++ [o]) = if decide (o_id o = id) then Some o else last_message id os.
Proof.
  unfold last_message. rewrite filter_app, filter_cons, filter_nil. case_decide; [apply last_snoc|].
  by rewrite app_nil_r.
Qed.
Lemma messages_last m os id :
  foldl message_abs m os !! id =
    match last_message id os with
    | Some o => if is_cancelled o || is_fullfilled o then None else Some o
    | None => m !! id
    end.
Proof.
  induction os as [|o os IH] using rev_ind; [done|]. rewrite foldl_snoc, last_message_snoc.
  unfold message_abs at 1. case_decide as Hd; [subst|].
  - destruct (_ || _); [apply lookup_delete_eq|apply lookup_insert_eq].
  - destruct (_ || _); [by rewrite lookup_delete_ne|by rewrite lookup_insert_ne].
Qed.

(** C29: after a sequence of messages whose writes all succeed, about orders with finite numbers, the
    store answers a query for an identifier with the order of the last message about it, but for its
    stop price, which is not stored, or with nothing when that order was cancelled or filled; about an
    identifier that no message was about it answers what it answered before. *)
Theorem store_follows_the_messages db (m : gmap string order) os id :
  holds db m → Forall (λ o, finite (serialize o) = true) os → writes_ok db os = true →
  get id (process_messages db os) = Ret
    match last_message id os with
    | Some o => if is_cancelled o || is_fullfilled o then None else Some (reloaded o)
    | None => reloaded <$> m !! id
    end.
Proof.
  intros Hdb Hf Hw. destruct (messages_hold _ _ _ Hdb Hf Hw) as [-> _]. rewrite messages_last.
  destruct (last_message id os) as [o|]; [|done]. by destruct (_ || _).
Qed.

(** An order that is stored and read again has lost its stop price, and only that: every
    other member but the links is kept. *)
Theorem stop_price_is_not_stored db o :
  finite (serialize o) = true → (save o db).2 = true →
  get (o_id o) (save o db).1 = Ret (Some (reloaded o)) ∧ o_stop_price (reloaded o) = Fin 0 ∧
  static (reloaded o) = static o ∧ o_current_qty (reloaded o) = o_current_qty o ∧
  o_params (reloaded o) = o_params o ∧ o_cancelled (reloaded o) = o_cancelled o.
Proof.
  intros Hf Hs. unfold get, save in *. rewrite get_put.
  unfold get_id in *. rewrite Hs, decide_True by done. by rewrite iarchive_oarchive.
Qed.
End store.

(** ** The trade store *)

Section trades.
Context {DB : Type} `{!Cassandra DB, !CassandraLaws DB}.
Implicit Types (db : DB) (trade : Trade).

Lemma stored_trade_found db trade key_trade rs :
  texts trade → texts key_trade → (0 ≤ t_timestamp key_trade)%Z →
  trade_key_of trade = trade_key_of key_trade →
  table db !! trade_key_of trade = Some (bound_of trade) →
  execute_select_by_key db (trade_key_of key_trade) = Some rs → Forall row_terminated rs →
  get_trade_by_primary_key (buyer_id key_trade) (seller_id key_trade) (t_timestamp key_trade) db
    = Ret (Some (stored_trade trade)).
Proof.
  intros Htx Hkx Ht Hkey Htab Hrs Hte. unfold get_trade_by_primary_key.
  rewrite select_key; [|apply Hkx..|done].
  change (buyer_id key_trade, seller_id key_trade, _) with (trade_key_of key_trade). rewrite Hrs.
  apply select_by_key_table in Hrs. rewrite <-Hkey, Htab in Hrs. simpl in Hrs.
  apply Forall2_cons_inv_r in Hrs as (r&rs'&Hsh&_&->). apply Forall_cons in Hte as [Hte _].
  by rewrite convert_shows with (trade:=trade).
Qed.

(** A trade that was saved can be read by its buyer, its seller and its moment; of the moment only
    the time of day comes back, in nanoseconds since midnight, the other members are kept. *)
Theorem saved_trade_loses_its_date db trade rs :
  texts trade → (0 ≤ t_timestamp trade)%Z → (save_trade trade db).2 = true →
  execute_select_by_key (save_trade trade db).1 (trade_key_of trade) = Some rs →
  Forall row_terminated rs →
  get_trade_by_primary_key (buyer_id trade) (seller_id trade) (t_timestamp trade)
      (save_trade trade db).1
    = Ret (Some (MkTrade (buyer_id trade) (seller_id trade) (buyer_order_id trade)
        (seller_order_id trade) (t_instrument trade) (volume trade) (t_price trade)
        ((t_timestamp trade mod 86400) * 10 ^ 9)%Z)).
Proof.
  intros Htx Ht Hok Hrs Hte. apply (stored_trade_found _ trade trade rs); try done.
  by rewrite save_trade_table, lookup_insert_eq.
Qed.

(** Two trades of the same buyer and seller at the same second of the day, on whatever days, have
    one row: the later one takes the earlier one's place, and a query for the earlier one returns
    the later one. *)
Theorem trade_of_the_same_second_is_overwritten db t1 t2 rs :
  texts t1 → texts t2 → (0 ≤ t_timestamp t1)%Z → (0 ≤ t_timestamp t2)%Z →
  buyer_id t1 = buyer_id t2 → seller_id t1 = seller_id t2 →
  (t_timestamp t1 mod 86400 = t_timestamp t2 mod 86400)%Z →
  (save_trade t2 (save_trade t1 db).1).2 = true →
  execute_select_by_key (save_trade t2 (save_trade t1 db).1).1 (trade_key_of t1) = Some rs →
  Forall row_terminated rs →
  get_trade_by_primary_key (buyer_id t1) (seller_id t1) (t_timestamp t1)
      (save_trade t2 (save_trade t1 db).1).1
    = Ret (Some (stored_trade t2)).
Proof.
  intros H1 H2 Ht1 Ht2 Hb Hs Hm Hok Hrs Hte.
  assert (trade_key_of t2 = trade_key_of t1) as Hkey.
  { unfold trade_key_of, key_of, bound_of. simpl. by rewrite Hb, Hs, Hm. }
  apply (stored_trade_found _ t2 t1 rs); try done. by rewrite save_trade_table, lookup_insert_eq.
Qed.

(** A query for a trade that is not in the table does not answer that there is none: it converts a
    row that the result does not have. *)
Theorem missing_trade_reads_past_the_result db buyer seller timestamp rs :
  text buyer → text seller → (0 ≤ timestamp)%Z →
  table db !! (buyer, seller, ((timestamp mod 86400) * 10 ^ 9)%Z) = None →
  execute_select_by_key db (buyer, seller, ((timestamp mod 86400) * 10 ^ 9)%Z) = Some rs →
  get_trade_by_primary_key buyer seller timestamp db = Err OutOfBounds.
Proof.
  intros Hb Hs Ht Hn Hrs. unfold get_trade_by_primary_key. rewrite select_key, Hrs by done.
  apply select_by_key_table in Hrs. unfold trade_key in *. rewrite Hn in Hrs.
  by apply Forall2_nil_inv_r in Hrs as ->.
Qed.
End trades.

(** ** The exchange *)

Section exchanges.
Variable now : Z.
Implicit Types (e : exchange) (inst : string).

(** C30: the program starts with the instruments of its file: a line with a word and a decimal number
    that is a [float] gives the instrument of that name with exactly that price, a line with a
    single word gives nothing, and the exchange has the file's instruments and no others. *)
Theorem exchange_starts_from_its_file es ignore :
  Forall entry_ok es → (Z.of_nat (length es) ≤ 2 ^ 32)%Z →
  read_instrument_init_data_from_file (Some (file_of (entry_line <$> es))) = omap entry_value es ∧
  ∃ e, new_exchange (read_instrument_init_data_from_file (Some (file_of (entry_line <$> es)))) [] ignore
      = (e, Ret tt) ∧ exchange_ok e ∧
    ∀ inst, is_Some (instruments e !! inst) ↔ inst ∈ (omap entry_value es).*1.
Proof.
  intros Hes Hl. rewrite (file_read es Hes). split; [done|].
  assert (length (omap entry_value es) ≤ length es) as Hlen.
  { clear. induction es as [|e es IH]; [done|]. csimpl. destruct (entry_value e); simpl; lia. }
  destruct (new_exchange_ok (omap entry_value es) ignore) as (e&E&He&Hi&_); [|by exists e].
  etrans; [|exact Hl]. by apply Nat2Z.inj_le.
Qed.

(** A valid order for one of the instruments is answered with the status of that
    instrument's book, changes that book only, and leaves an exchange that serves its
    instruments. *)
Theorem orders_reach_their_book e inst b x :
  exchange_ok e → instruments e !! inst = Some (Some b) → valid_order x →
  b_orders b !! o_id x = None →
  ∃ e' b' st, submit now x b = (b', Ret st) ∧ Exchange.add_order now inst x e = (e', Ret st) ∧
    exchange_ok e' ∧ instruments e' = <[inst := Some b']> (instruments e) ∧
    working e' = working e.
Proof.
  intros He Hi Hx Hid. destruct (add_order_routed now e inst b x He Hi Hx Hid) as (b'&st&E1&E2&He').
  by exists (with_book inst b' e), b', st.
Qed.

(** An instrument that is added later has a book but no worker: every order for it indexes
    the thread pool past its end. *)
Theorem added_instrument_has_no_worker e inst price :
  instruments e !! inst = None → workers e ≤ size (instruments e) →
  (Z.of_nat (size (instruments e)) < 2 ^ 32)%Z →
  ∃ e1, add_instrument inst price [] e = (e1, Ret true) ∧
    instrument_exists inst e1 = (e1, Ret true) ∧
    ∀ x, Exchange.add_order now inst x e1 = (e1, Err OutOfBounds).
Proof.
  intros Hn Hw Hs. eexists. split; [by apply add_instrument_ok|]. split.
  - unfold instrument_exists, gets. simpl. by rewrite lookup_insert_eq.
  - intros x. unfold Exchange.add_order, run_in_book, subscript_instruments.
    rewrite bind_modify. simpl instruments. rewrite lookup_insert_eq.
    erewrite bind_ok by (unfold subscript_idx; simpl; rewrite lookup_insert_eq; reflexivity).
    unfold enqueue_task. rewrite bind_gets, u32_small by lia.
    rewrite (proj2 (Z.ltb_ge _ _)); [done|]. simpl. lia.
Qed.

(** A request for a name the exchange does not hold fails, and leaves an empty entry, so
    that the exchange takes the instrument for an existing one from then on. *)
Theorem unknown_instrument_is_inserted e inst x :
  instruments e !! inst = None →
  ∃ e' err, Exchange.add_order now inst x e = (e', Err err) ∧
    instruments e' = <[inst := None]> (instruments e) ∧
    instrument_exists inst e' = (e', Ret true).
Proof.
  intros Hn. destruct (run_in_book_unknown e inst (submit now x) Hn) as (e'&err&E&He').
  exists e', err. split; [exact E|]. split; [done|].
  unfold instrument_exists, gets. by rewrite He', lookup_insert_eq.
Qed.

(** C36: for every date whose year is an [int] of 1 or more, with months counted from one,
    [day_of_week] is the day of the week, Sunday being zero, up to the year 1717986918; for the dates
    of every later year, years being counted from March, its sums leave the range of [int]. *)
Theorem day_of_week_correct d m y :
  (1 ≤ d ≤ month_length m y)%Z → (1 ≤ m ≤ 12)%Z → (1 ≤ y < 2 ^ 31)%Z →
  day_of_week d m y =
    if (y - (if m <? 3 then 1 else 0) <=? 1717986918)%Z then Ret (day_number d m y mod 7)%Z
    else Err IntOverflow.
Proof.
  intros Hd Hm Hy. pose proof (month_length_le m y).
  destruct (Z.leb_spec (y - (if m <? 3 then 1 else 0)) 1717986918)%Z.
  - by apply day_of_week_ok; [lia..|].
  - apply day_of_week_overflow. unfold last_year. split; [done|]. destruct (m <? 3)%Z; lia.
Qed.

(** The turn of the clock thread that starts at closing time sleeps until the next day's
    opening, or longer, before it stores that the exchange is closed; in January it reads the
    table of [day_of_week] before its start. *)
Theorem closing_is_stored_in_the_morning t e :
  tm_hour t = closing_h → tm_min t = closing_m → (1 ≤ tm_mday t ≤ 31)%Z → (0 ≤ tm_mon t < 12)%Z →
  (1 ≤ tm_year t ≤ last_year)%Z →
  if (tm_mon t =? 0)%Z then is_working_turn now t e = (e, Err OutOfBounds)
  else ∃ target, is_working_turn now t e = (after_sleep now t;; mret target) e ∧
    (tm_mday t < tm_mday target)%Z ∧ tm_hour target = opening_h ∧ tm_min target = opening_m.
Proof.
  intros Hh Hm Hd Hmon Hy. unfold is_working_turn, target_time. rewrite Hh, Hm.
  change ((closing_h <? opening_h) || (closing_h =? opening_h) && (closing_m <? opening_m))%Z with false.
  change ((closing_h <? closing_h) || (closing_h =? closing_h) && (closing_m <? closing_m))%Z with false.
  cbv beta iota. destruct (Z.eqb_spec (tm_mon t) 0) as [->|Hne]; [by rewrite day_of_week_month_zero|].
  assert (tm_year t - (if tm_mon t <? 3 then 1 else 0) ≤ last_year)%Z by (destruct (tm_mon t <? 3)%Z; lia).
  rewrite day_of_week_ok by lia. eexists. split; [reflexivity|]. simpl.
  split; [|done]. destruct (_ =? 5)%Z; [lia|]. destruct (_ =? 6)%Z; lia.
Qed.
End exchanges.

(** ** Requests *)

Section requests.
Context {doc : Type} `{!Json doc}.
Variables (now : Z) (generated : string).
Implicit Types (e : exchange) (req : request).
Local Abbreviation create := (CreateOrderHandler_handle (doc:=doc) now generated).

(** C34: a request to create an order is refused, and the exchange left as it is, when it names
    no instrument (bad request) or an unknown one (not found), when the side is neither of the
    two (bad request), and when the exchange is closed (no content). *)
Theorem create_order_refused e req rep :
  (param req !! INSTRUMENT_KEY = None →
    ∃ rep', create req rep e = (e, Ret rep') ∧ r_status rep' = bad_request) ∧
  (∀ inst, param req !! INSTRUMENT_KEY = Some inst → instruments e !! inst = None →
    ∃ rep', create req rep e = (e, Ret rep') ∧ r_status rep' = not_found) ∧
  (∀ inst d x, param req !! INSTRUMENT_KEY = Some inst → is_Some (instruments e !! inst) →
    iterate (content req) = Some d → map_json_to_order now d = Ret x → o_side x = UNKOWN →
    ∃ rep', create req rep e = (e, Ret rep') ∧ r_status rep' = bad_request) ∧
  (∀ inst d x, param req !! INSTRUMENT_KEY = Some inst → is_Some (instruments e !! inst) →
    iterate (content req) = Some d → map_json_to_order now d = Ret x → o_side x ≠ UNKOWN →
    working e = false →
    ∃ rep', create req rep e = (e, Ret rep') ∧ r_status rep' = no_content).
Proof.
  assert (∀ inst, param req !! INSTRUMENT_KEY = Some inst →
    validate_instrument_parameter req rep e =
      (e, Ret (if bool_decide (is_Some (instruments e !! inst)) then (true, rep)
               else (false, write_body (Message ("instrument " ++ inst ++ " doesn't exist"))
                      (set_status not_found rep))))) as Hv.
  { intros inst Hi. unfold validate_instrument_parameter, validate_parameter, get_path_param.
    rewrite Hi. simpl. unfold instrument_exists. rewrite bind_gets. by destruct (bool_decide _). }
  unfold CreateOrderHandler_handle. split; [|split; [|split]].
  - intros Hn. eexists. unfold validate_instrument_parameter, validate_parameter. rewrite Hn.
    cbn [negb]. rewrite bind_ret. split; [reflexivity|done].
  - intros inst Hi Hn. rewrite (bind_ok _ _ _ _ _ (Hv inst Hi)), bool_decide_false.
    + eexists. split; [reflexivity|done].
    + rewrite Hn. by intros [].
  - intros inst d x Hi Hs Hd Hx Hside. rewrite (bind_ok _ _ _ _ _ (Hv inst Hi)), bool_decide_true by done.
    cbn [negb]. rewrite Hd. cbn [field lift]. rewrite bind_ret, Hx. cbn [lift]. rewrite bind_ret.
    unfold validate_order_side, get_side. rewrite bool_decide_true by done.
    eexists. split; [reflexivity|done].
  - intros inst d x Hi Hs Hd Hx Hside Hw. rewrite (bind_ok _ _ _ _ _ (Hv inst Hi)), bool_decide_true by done.
    cbn [negb]. rewrite Hd. cbn [field lift]. rewrite bind_ret, Hx. cbn [lift]. rewrite bind_ret.
    unfold validate_order_side, get_side. rewrite bool_decide_false by done. cbn [negb].
    unfold check_if_exchange_is_working, is_working. rewrite bind_assoc, bind_gets, Hw.
    rewrite bind_ret. eexists. split; [reflexivity|done].
Qed.

(** The mapper reads the stop price only when the flags are [STOP] and nothing else; with
    any other flag next to it the stop price is zero, so at a positive market price a buy order
    waits and a sell order does not, whatever the request asked for. *)
Theorem stop_price_ignored_with_other_flags d x mp :
  map_json_to_order now d = Ret x → o_params x ≠ STOP → fltb (Fin 0) mp = true →
  o_stop_price x = Fin 0 ∧ stop_waits x mp = is_buy x.
Proof.
  intros Hx Hp Hmp. assert (o_stop_price x = Fin 0) as H0.
  { unfold map_json_to_order, field in Hx. repeat case_match; simplify_eq/=; try done.
    all: by match goal with H : (_ =? STOP)%Z = true |- _ => apply Z.eqb_eq in H end. }
  split; [done|]. unfold stop_waits, get_stop_price. rewrite H0, Hmp.
  destruct (is_buy x); simpl; [done|].
  by rewrite (less_asym (λ x, is_nan x = false) fltb (Fin 0) mp) by (done || by destruct mp).
Qed.

(** *** Requests that are served *)

Lemma instrument_found e req rep inst :
  param req !! INSTRUMENT_KEY = Some inst → is_Some (instruments e !! inst) →
  validate_instrument_parameter req rep e = (e, Ret (true, rep)).
Proof.
  intros Hi Hs. unfold validate_instrument_parameter, validate_parameter, get_path_param. rewrite Hi.
  simpl. unfold instrument_exists. by rewrite bind_gets, bool_decide_true.
Qed.
Lemma exchange_open e rep :
  working e = true → check_if_exchange_is_working rep e = (e, Ret (true, rep)).
Proof. intros Hw. unfold check_if_exchange_is_working, is_working. by rewrite bind_gets, Hw. Qed.

(** C9: a request to create an order with a proper price and quantity, for an instrument of an open
    exchange, is answered with the new identifier and the status that the instrument's book gives
    the order; the exchange stays well-formed and only that book changes. *)
Theorem create_order_served e req rep inst b d x :
  exchange_ok e → working e = true → param req !! INSTRUMENT_KEY = Some inst →
  instruments e !! inst = Some (Some b) → iterate (content req) = Some d →
  map_json_to_order now d = Ret x → o_side x ≠ UNKOWN → is_nan (o_price x) = false →
  qty_ok (o_current_qty x) → b_orders b !! generated = None →
  ∃ e' b' st, submit now (set_id generated x) b = (b', Ret st) ∧
    create req rep e
      = (e', Ret (write_body (OrderInfo (SeastarOrderInfoJson generated st)) rep)) ∧
    exchange_ok e' ∧ instruments e' = <[inst := Some b']> (instruments e).
Proof.
  intros He Hw Hi Hb Hd Hx Hside Hp Hq Hid. destruct (mapped_order _ _ _ Hx) as (Hc&Hpr&Hnx).
  destruct (add_order_routed now e inst b (set_id generated x) He Hb) as (b'&st&E1&E2&He'); [by split|done|].
  exists (with_book inst b' e), b', st. split; [done|]. split; [|done].
  unfold CreateOrderHandler_handle.
  rewrite (bind_ok _ _ _ _ _ (instrument_found e req rep inst Hi ltac:(by eexists))). cbn [negb].
  rewrite Hd. cbn [field lift]. rewrite bind_ret, Hx. cbn [lift]. rewrite bind_ret.
  unfold validate_order_side, get_side. rewrite bool_decide_false by done. cbn [negb].
  rewrite (bind_ok _ _ _ _ _ (exchange_open e rep Hw)). cbn [negb].
  unfold get_path_param. rewrite Hi. cbn [default from_option].
  by rewrite (bind_ok _ _ _ _ _ E2).
Qed.

(** C39: a request to cancel a resting order takes the order's entry out of the index, and then the
    program reads the entry it has erased: there is no reply, and the order repository is not told.  The
    order is marked as cancelled, and taken out of its side, which is left as it was without it; but a
    stop order that rests is looked for among the waiting ones and stays in its level. *)
Theorem cancel_request_fails e req rep inst id b o :
  exchange_ok e → working e = true → param req !! INSTRUMENT_KEY = Some inst →
  param req !! ORDER_ID_KEY = Some id → instruments e !! inst = Some (Some b) →
  b_orders b !! id = Some o →
  ∃ e' b' x bids asks, CancelOrderHandler_handle req rep e = (e', Err UseAfterErase) ∧
    instruments e' = <[inst := Some b']> (instruments e) ∧
    b_orders b' !! id = None ∧ order_queue b' = order_queue b ∧
    b_oh b !! o = Some x ∧ (∃ x', b_oh b' !! o = Some x' ∧ o_cancelled x' = true) ∧
    get_bids b = (b, Ret bids) ∧ get_asks b = (b, Ret asks) ∧ o ∈ (if is_buy x then bids else asks) ∧
    if has_param x STOP
    then (∀ s, limits_of s b' = limits_of s b) ∧ b_lh b' = b_lh b ∧ b_oh b' = <[o := cancel x]> (b_oh b)
    else get_bids b' = (b', Ret (filter (λ o', o' ≠ o) bids)) ∧
         get_asks b' = (b', Ret (filter (λ o', o' ≠ o) asks)).
Proof.
  intros He Hw Hi Ho Hb Hid. destruct (He _ _ Hb) as (b0&a&[= <-]&Hserves&Hbook).
  destruct (cancel_never_returns b a id o Hbook Hid) as (b'&x&E&Hn&Hq&Hx&Hleft).
  exists (with_book inst b' e), b', x, (lorders (a_levels a Bids)), (lorders (a_levels a Asks)).
  split_and!; [|done..| |by apply side_orders_ok|by apply side_orders_ok| |].
  - unfold CancelOrderHandler_handle, validate_parameter. rewrite Ho. cbn [negb].
    rewrite (bind_ok _ _ _ _ _ (exchange_open e rep Hw)). cbn [negb].
    rewrite (bind_ok _ _ _ _ _ (instrument_found e req rep inst Hi ltac:(by eexists))). cbn [negb].
    unfold get_path_param. rewrite Hi, Ho. cbn [default from_option].
    apply bind_err. unfold Exchange.cancel_order. by eapply run_in_book_ok.
  - destruct (has_param x STOP); [|apply Hleft]. destruct Hleft as (_&_&->).
    exists (cancel x). split; [apply lookup_insert_eq|done].
  - destruct (entry_level _ _ _ _ Hbook Hid) as (x0&l&os&Hx0&_&_&_&Hl&Hos&_).
    rewrite Hx in Hx0. injection Hx0 as <-.
    assert (o ∈ lorders (a_levels a (own_side (is_buy x)))) by (apply in_lorders; eauto).
    by destruct (is_buy x).
  - destruct (has_param x STOP); [done|].
    destruct (withdrawn_sides b a o b' Hbook Hleft) as (a'&Hb'&Hs).
    rewrite <-!Hs. split; by apply side_orders_ok.
Qed.

Lemma get_snapshot_ok b a :
  book_ok b a → a_levels a Bids ≠ [] →
  ∃ sp, get_spread b = (b, Ret sp) ∧
    get_snapshot b = (b, Ret (MkSnapshot (level_entry b <$> (a_levels a Asks).*1)
      (level_entry b <$> (a_levels a Bids).*1) sp)).
Proof.
  intros Hb Hne. eexists. split; [by apply get_spread_ok|]. unfold get_snapshot.
  erewrite bind_ok by (by apply (snapshot_side_ok b a Asks)).
  erewrite bind_ok by (by apply (snapshot_side_ok b a Bids)).
  by erewrite bind_ok by (by apply get_spread_ok).
Qed.

(** A request for the snapshot of an instrument that has a bid is answered with the price and the
    volume of every level of the two sides, in the order of the levels, and with the book's
    spread, and changes nothing; it does so while the exchange is closed, too. *)
Theorem snapshot_reply_shows_the_book e req rep inst b a :
  param req !! INSTRUMENT_KEY = Some inst → instruments e !! inst = Some (Some b) →
  book_ok b a → a_levels a Bids ≠ [] →
  ∃ sp, get_spread b = (b, Ret sp) ∧
    SnapshotHandler_handle req rep e = (e, Ret (write_body (SnapshotBody (SnapshotJson
      (Some ((λ l, SeastarLimitJson (sl_price (level_entry b l)) (sl_qty (level_entry b l)))
        <$> (a_levels a Asks).*1))
      (Some ((λ l, SeastarLimitJson (sl_price (level_entry b l)) (sl_qty (level_entry b l)))
        <$> (a_levels a Bids).*1))
      (Some (SeastarSpreadJson (best_ask_price sp) (s_market_price sp) (best_bid_price sp))))) rep)).
Proof.
  intros Hi Hb Hbook Hne. destruct (get_snapshot_ok b a Hbook Hne) as (sp&Hsp&E). exists sp.
  split; [done|].
  unfold SnapshotHandler_handle, info_validate_instrument_parameter, info_validate_parameter.
  unfold get_path_param. rewrite Hi. cbn [negb default from_option].
  rewrite bind_assoc. unfold instrument_exists. rewrite bind_gets, bool_decide_true by by eexists.
  rewrite bind_ret. cbn [negb]. unfold get_orderbook_snapshot, subscript_instruments, Datatypes.id.
  rewrite bind_assoc, bind_modify, Hb.
  erewrite bind_ok.
  2: { unfold on_book. rewrite Hb, E. reflexivity. }
  rewrite SeastarSnapshotJson_eq. simpl asks. simpl bids. rewrite <-!list_fmap_compose.
  f_equal. unfold put_instruments. rewrite insert_id by done. by destruct e.
Qed.

(** A request for an order is answered from the store, with the last state of the order the store
    was told of, its stop price left out; an order it does not hold is not found. *)
Theorem get_order_replies_from_the_store {DB : Type} `{!Database DB, !DatabaseLaws DB, !Archive, !ArchiveLaws}
    e (db : DB) req rep id (m : gmap string order) :
  working e = true → param req !! ORDER_ID_KEY = Some id → holds db m →
  GetOrderHandler_handle db req rep e
    = (e, Ret (match m !! id with
               | Some o => Reply ok (OrderBody (SeastarOrderJson (reloaded o)))
               | None => set_status not_found rep
               end)).
Proof.
  intros Hw Hi [Hg _]. unfold GetOrderHandler_handle, validate_parameter, get_path_param. rewrite Hi.
  cbn [negb default from_option]. rewrite (bind_ok _ _ _ _ _ (exchange_open e rep Hw)). cbn [negb].
  unfold Exchange.get_order, Datatypes.id. rewrite Hg. cbn [lift]. rewrite bind_ret.
  by destruct (m !! id).
Qed.
End requests.

(** ** Sessions *)

Section sessions.
Context {doc : Type} `{!Json doc} {DB : Type} `{!Database DB} `{!Archive}.

(** C35: the constructor, when no orders are stored, makes an exchange with exactly the given
    instruments, and whatever requests are answered and turns of the clock thread done after that, in any
    order, it keeps them: every one has a worker and a well-formed book that can be read and whose bids
    are all below its asks.  The requests are those of [exchange_step]: one that creates an order has a
    price that is a number, a positive quantity and a generated identifier that its book does not have
    ([proper]), and one that updates an order does not name a stop order that rests
    ([no_resting_stop]); the others are any. *)
Theorem exchange_stays_well_formed infos ignore :
  (Z.of_nat (length infos) ≤ 2 ^ 32)%Z →
  ∃ e, new_exchange infos [] ignore = (e, Ret tt) ∧ working e = ignore ∧
    ∀ e', rtc (exchange_step (doc:=doc) (DB:=DB)) e e' →
      (∀ inst, is_Some (instruments e' !! inst) ↔ inst ∈ infos.*1) ∧
      ∀ inst ob, instruments e' !! inst = Some ob →
        ∃ b a bids asks, ob = Some b ∧ serves e' inst b ∧ book_ok b a ∧
          get_bids b = (b, Ret bids) ∧ get_asks b = (b, Ret asks) ∧
          ∀ o1 o2, o1 ∈ bids → o2 ∈ asks →
            fltb (oprice_of (b_oh b) o1) (oprice_of (b_oh b) o2) = true.
Proof.
  intros Hl. destruct (new_exchange_ok infos ignore Hl) as (e&E&He&Hi&_&Hw).
  exists e. split; [done|]. split; [done|]. intros e' Hr.
  destruct (session_kept e e' He Hr) as [He' Hi']. split; [intros inst; by rewrite Hi', Hi|].
  intros inst ob Hob. destruct (He' _ _ Hob) as (b&a&->&Hs&Hb).
  eexists b, a, _, _. split_and!; [done..|by apply side_orders_ok|by apply side_orders_ok|].
  intros o1 o2. by apply bids_below_asks.
Qed.
End sessions.
