(* ===== verification/TreeWitnesses.v ===== *)
(** * Witnesses for the tree

    The properties of the tree applied at concrete inputs. *)

From S2P Require Import Prelude Float RBTree RBSpec RBRep RBInsert RBIter RBDelete RBTraverse RBProps.

#[local] Instance ltb_StrictWeak : StrictWeak (λ _ : Z, True) Z.ltb.
Proof. split; intros; rewrite ?Z.ltb_lt, ?Z.ltb_ge in *; lia. Qed.

Definition keyed (ks : list Z) : rbtree Z :=
  foldl (λ tr k, (insert Z.ltb k tr).1) (empty_tree 0%Z) ks.

Lemma keyed_ok ks :
  ∃ its, tree_rep Z.ltb (keyed ks) its ∧ its.*2 = foldl (λ l k, sinsert Z.ltb k l) [] ks.
Proof.
  unfold keyed. generalize (empty_with (λ _ : Z, True) Z.ltb 0%Z).
  generalize (empty_tree 0%Z) (@nil Z). induction ks as [|k ks IH]; intros tr l Ht; simpl.
  { destruct Ht as (its&Ht&Hits&_). by exists its. }
  destruct (insert_with (λ _ : Z, True) Z.ltb tr l k I Ht) as (tr'&E&Ht').
  rewrite E. by apply IH.
Qed.

Lemma forall_true (l : list Z) : Forall (λ _, True) l.
Proof. by apply Forall_true. Qed.
Lemma keyed_nonempty its : its.*2 = [1; 2; 3]%Z → its ≠ @nil (nat * Z).
Proof. by intros H ->. Qed.

Lemma tree_refines_sorted_list_witness :
  ∃ tr, serve_all Z.ltb [RInsert 2; RInsert 1; RRemove 2; RFind 2; RFind 1]%Z (empty_tree 0%Z)
      = (tr, Ret [ADone; ADone; ARemoved true; AFound None; AFound (Some 1%Z)]) ∧
    tree_with (λ _, True) Z.ltb tr [1%Z].
Proof.
  exact (tree_refines_sorted_list (λ _, True) Z.ltb 0%Z
    [RInsert 2; RInsert 1; RRemove 2; RFind 2; RFind 1]%Z (Forall_true _ _ (λ _, I))).
Defined.

Lemma remove_keeps_other_nodes_witness :
  ∃ tr', remove Z.ltb 2%Z (keyed [2; 1; 3]%Z) = (tr', Ret true).
Proof.
  destruct (keyed_ok [2; 1; 3]%Z) as (its&Ht&Hits).
  assert (sfind Z.ltb 2%Z its.*2 = Some 2%Z) as Hf by (rewrite Hits; reflexivity).
  destruct (remove_keeps_other_nodes (λ _, True) Z.ltb 2%Z _ its 2%Z I (forall_true _) Ht Hf)
    as (tr'&_&_&_&E&_).
  exists tr'. exact E.
Defined.

Lemma iteration_in_order_witness :
  (it ← rbegin; collect_loop (fuel_of (keyed [2; 1; 3]%Z)) predecessor it) (keyed [2; 1; 3]%Z)
    = (keyed [2; 1; 3]%Z, Ret [3; 2; 1]%Z).
Proof.
  destruct (keyed_ok [2; 1; 3]%Z) as (its&Ht&Hits). change (its.*2 = [1; 2; 3]%Z) in Hits.
  destruct (iteration_in_order Z.ltb _ its Ht (keyed_nonempty _ Hits)) as (_&H&_).
  rewrite Hits in H. exact H.
Defined.

Lemma bounds_split_the_tree_witness :
  ∃ lo up, range Z.ltb 2%Z 2%Z (keyed [2; 1; 3]%Z) = (keyed [2; 1; 3]%Z, Ret (lo, up)) ∧ lo ≠ up.
Proof.
  destruct (keyed_ok [2; 1; 3]%Z) as (its&Ht&Hits). change (its.*2 = [1; 2; 3]%Z) in Hits.
  destruct (bounds_split_the_tree (λ _, True) Z.ltb 2%Z _ its I (forall_true _) Ht
    (keyed_nonempty _ Hits)) as (lo&up&_&_&_&E&_).
  exists lo, up. split; [exact E|].
  assert ((range Z.ltb 2%Z 2%Z (keyed [2; 1; 3]%Z)).2 = Ret (2, 4)) as H by (vm_compute; reflexivity).
  rewrite E in H. injection H as -> ->. discriminate.
Defined.

Lemma search_is_logarithmic_witness :
  ∃ p its, search_loop Z.ltb 5 (root (keyed [2; 1; 3]%Z)) 3%Z (keyed [2; 1; 3]%Z)
    = (keyed [2; 1; 3]%Z, Ret p) ∧ tree_rep Z.ltb (keyed [2; 1; 3]%Z) its ∧ (p, 3%Z) ∈ its.
Proof.
  destruct (keyed_ok [2; 1; 3]%Z) as (its&Ht&Hits). change (its.*2 = [1; 2; 3]%Z) in Hits.
  assert (length its = 3) as Hl by (rewrite <-(length_fmap snd), Hits; reflexivity).
  assert (Forall (λ _, True) its.*2) as HP by (apply Forall_true; done).
  assert (2 * Nat.log2 (length its + 1) < 5) as Hlog by (rewrite Hl; vm_compute; lia).
  destruct (search_is_logarithmic (λ _, True) Z.ltb 3%Z _ its 5 I HP Ht Hlog) as (p&E&_&Hp).
  rewrite Hits in Hp. exists p, its. split; [exact E|]. split; [exact Ht|exact Hp].
Defined.

Lemma last_dangles_after_the_only_element_witness :
  ∃ tr', remove Z.ltb 7%Z (keyed [7%Z]) = (tr', Ret true) ∧ last tr' = (tr', Err UseAfterFree).
Proof.
  destruct (keyed_ok [7%Z]) as ([|[p k] [|[p' k'] its]]&Ht&Hits);
    [discriminate Hits| |discriminate Hits].
  injection Hits as ->.
  destruct (last_dangles_after_the_only_element (λ _, True) Z.ltb 7%Z _ p 7%Z I I Ht eq_refl eq_refl)
    as (tr'&E&_&Hl&_).
  exists tr'. split; [exact E|exact Hl].
Defined.

Lemma clear_leaves_the_ends_witness :
  ∃ tr', clear (keyed [2; 1; 3]%Z) = (tr', Ret tt) ∧ nodes tr' !! first_ptr tr' = None.
Proof.
  destruct (keyed_ok [2; 1; 3]%Z) as (its&Ht&Hits). change (its.*2 = [1; 2; 3]%Z) in Hits.
  destruct (clear_leaves_the_ends Z.ltb _ its Ht (keyed_nonempty _ Hits)) as (tr'&E&_&_&Hn&Hf&_).
  exists tr'. split; [exact E|exact (Hn _ Hf)].
Defined.

Lemma iterators_step_between_neighbours_witness :
  ∃ p q, forward_next_post p (keyed [2; 1]%Z) = (keyed [2; 1]%Z, Ret (p, q)) ∧
    reverse_next_post q (keyed [2; 1]%Z) = (keyed [2; 1]%Z, Ret (q, p)).
Proof.
  destruct (keyed_ok [2; 1]%Z) as ([|[p k] [|[q k'] [|[r k''] its]]]&Ht&Hits);
    [discriminate Hits|discriminate Hits| |discriminate Hits].
  destruct (iterators_step_between_neighbours Z.ltb _ [] p k q k' [] Ht) as (E1&_&E2&_).
  exists p, q. split; [exact E1|exact E2].
Defined.

Lemma prints_write_every_key_witness :
  in_order_print (keyed [2; 1; 3]%Z) = (keyed [2; 1; 3]%Z, Ret [1; 2; 3]%Z).
Proof.
  destruct (keyed_ok [2; 1; 3]%Z) as (its&Ht&Hits). change (its.*2 = [1; 2; 3]%Z) in Hits.
  destruct (prints_write_every_key Z.ltb _ its Ht) as (_&_&E&_). rewrite Hits in E. exact E.
Defined.

Lemma destructor_leaks_the_sentinel_witness :
  ∃ tr' n, destroy (keyed [2; 1; 3]%Z) = (tr', Ret tt) ∧ nodes tr' = {[nil_ptr := n]}.
Proof.
  destruct (keyed_ok [2; 1; 3]%Z) as (its&Ht&_).
  destruct (destructor_leaks_the_sentinel Z.ltb _ its Ht) as (tr'&n&E&Hn&_).
  exists tr', n. split; [exact E|exact Hn].
Defined.
