(* ===== verification/BookWitnesses.v ===== *)
(** * Witnesses for the order book

    The properties of the order book applied at concrete inputs. *)

From S2P Require Import Prelude Float RBTree RBSpec RBInsert RBIter RBDelete RBProps.
From S2P Require Import DataTypes OrderBook OBRep OBMatch OBBook OBOps OBPriority OBInv OBAdd.
From S2P Require Import OBCancel OBQuery OBLoad OBProps Examples.

(** ** The order book *)

#[local] Opaque example start.

(** The example with a new order at the next free address. *)
Definition with_order (x : order) : book := with_new_order example.1 x.
Definition new_oid : oid := fresh (dom (b_oh example.1)).

#[local] Opaque with_order new_oid.

Lemma with_order_ok x :
  valid_order x → b_orders example.1 !! o_id x = None →
  book_ok (with_order x) example.2 ∧ incoming (with_order x) example.2 new_oid x.
Proof.
  intros Hx Hid. exact (with_new_order_ok example.1 example.2 x example_ok Hx Hid).
Qed.

Definition buy8 : order := request_order "n" BUY 8 100 GTC LIMIT.
Definition buy8_aon : order := request_order "n" BUY 6 100 AON LIMIT.
Definition buy_ioc : order := request_order "n" BUY 20 100 IOC LIMIT.
Definition bid95 : order := request_order "n" BUY 3 95 GTC LIMIT.

Lemma buy8_valid : valid_order buy8.
Proof. by apply request_valid. Qed.
Lemma buy8_fresh : b_orders example.1 !! o_id buy8 = None.
Proof. vm_compute. reflexivity. Qed.
Lemma buy8_ok : book_ok (with_order buy8) example.2 ∧ incoming (with_order buy8) example.2 new_oid buy8.
Proof. apply with_order_ok; [by apply request_valid|by vm_compute]. Qed.
Lemma buy8_aon_ok :
  book_ok (with_order buy8_aon) example.2 ∧ incoming (with_order buy8_aon) example.2 new_oid buy8_aon.
Proof. apply with_order_ok; [by apply request_valid|by vm_compute]. Qed.
Lemma buy_ioc_ok :
  book_ok (with_order buy_ioc) example.2 ∧ incoming (with_order buy_ioc) example.2 new_oid buy_ioc.
Proof. apply with_order_ok; [by apply request_valid|by vm_compute]. Qed.
Lemma bid95_ok :
  book_ok (with_order bid95) example.2 ∧ incoming (with_order bid95) example.2 new_oid bid95.
Proof. apply with_order_ok; [by apply request_valid|by vm_compute]. Qed.

Lemma submit_refines_witness :
  ∃ b' a', submit 9 buy8 example.1 = (b', Ret MATCHED) ∧ book_ok b' a'.
Proof.
  pose proof (submit_refines 9 example.1 example.2 buy8 example_ok buy8_valid buy8_fresh) as H.
  cbv zeta in H.
  destruct (add_abs _ _ _ _) as [[st mp] a'] eqn:E in H.
  destruct H as (b'&Hs&Hb&_).
  exists b', a'. split; [|exact Hb]. rewrite Hs. f_equal. f_equal.
  change st with ((st, mp, a').1.1). rewrite <-E. vm_compute. reflexivity.
Defined.

(** The asks of the example have two levels. *)
Lemma example_levels : length (a_levels example.2 Asks) < 3.
Proof. vm_compute. lia. Qed.
Lemma matching_ends_witness :
  ∃ b' v, match_order 9 new_oid Asks (with_order buy8) = (b', Ret v) ∧
    (it ← in_limits Asks (λ _, begin);
     match_loop 9 3 Asks new_oid (has_param buy8 AON) (is_buy buy8) (get_type buy8) it [] []) (with_order buy8)
      = (b', Ret v).
Proof.
  destruct buy8_ok as [Hb Hin].
  destruct (matching_ends 9 (with_order buy8) example.2 new_oid buy8 Hb Hin) as (b'&v&E&H).
  exists b', v. split; [exact E|exact (H 3 example_levels)].
Defined.

Lemma book_never_crosses_witness :
  ∃ b sts bids asks, run_orders requests start = (b, Ret sts) ∧ length sts = 5 ∧
    get_bids b = (b, Ret bids) ∧ get_asks b = (b, Ret asks) ∧
    ∀ o1 o2, o1 ∈ bids → o2 ∈ asks → fltb (oprice_of (b_oh b) o1) (oprice_of (b_oh b) o2) = true.
Proof.
  apply (book_never_crosses "ACME" (whole_float 100) requests).
  - repeat constructor; by apply request_valid.
  - apply (bool_decide_unpack _). vm_compute. exact I.
Defined.

Lemma no_trade_is_recorded_witness :
  ∃ b, run_orders (requests ++ [(6%Z, buy8)]) start
      = (b, Ret [ACCEPTED; ACCEPTED; ACCEPTED; ACCEPTED; ACCEPTED; MATCHED]) ∧ trade_queue b = [] ∧
    length (order_queue b) = 6.
Proof.
  destruct (no_trade_is_recorded "ACME" (whole_float 100) (requests ++ [(6%Z, buy8)]))
    as (b&sts&E&Ht&_&Hq).
  - repeat constructor; by apply request_valid.
  - apply (bool_decide_unpack _). vm_compute. exact I.
  - exists b. split; [|split; [exact Ht|exact (Forall2_length _ _ _ Hq)]]. change (new_book "ACME" (whole_float 100) ∅) with start in E.
    rewrite E. f_equal. change (Ret sts) with ((b, Ret sts).2). rewrite <-E. vm_compute. reflexivity.
Defined.

Lemma price_time_priority_witness :
  ∃ b' st a', place_order 9 new_oid (with_order buy8) = (b', Ret st) ∧ book_ok b' a' ∧
    taken (side_queue (with_order buy8) example.2 Asks) (side_queue b' a' Asks).
Proof.
  exact (price_time_priority 9 _ _ _ buy8 (proj1 buy8_ok) (proj2 buy8_ok) eq_refl).
Defined.

Lemma all_or_none_witness :
  ∃ b' st a' x', add_order 9 new_oid (with_order buy8_aon) = (b', Ret st) ∧ book_ok b' a' ∧
    b_oh b' !! new_oid = Some x' ∧
    (o_current_qty x' = Fin 0 ∨ o_cancelled x' = true).
Proof.
  destruct (all_or_none 9 _ _ _ buy8_aon (proj1 buy8_aon_ok) (proj2 buy8_aon_ok) eq_refl (or_introl eq_refl)
    eq_refl) as (b'&st&a'&x'&E&Hb&Hx&H).
  exists b', st, a', x'. split; [exact E|]. split; [exact Hb|]. split; [exact Hx|].
  cbv zeta in H. destruct H as [(_&?&_)|(_&_&?&_)]; auto.
Defined.

Lemma immediate_orders_never_rest_witness :
  ∃ b' a', add_order 9 new_oid (with_order buy_ioc) = (b', Ret NOT_MATCHED) ∧ new_oid ∉ all_orders a'.
Proof.
  destruct (immediate_orders_never_rest 9 _ _ _ buy_ioc (proj1 buy_ioc_ok) (proj2 buy_ioc_ok) eq_refl)
    as (b'&st&a'&E&_&Hn&_).
  exists b', a'. split; [|exact Hn]. rewrite E. f_equal. change (Ret st) with ((b', Ret st).2). rewrite <-E.
  vm_compute. reflexivity.
Defined.

Lemma limit_price_respected_witness :
  ∃ b' st a', place_order 9 new_oid (with_order buy8) = (b', Ret st) ∧ book_ok b' a' ∧
    (2, whole_float 10) ∈ side_queue b' a' Asks.
Proof.
  apply (limit_price_respected 9 _ _ _ buy8 2 _ (proj1 buy8_ok) (proj2 buy8_ok)).
  - vm_compute. right. right. left.
  - vm_compute. reflexivity.
Defined.

Lemma quantities_conserved_witness :
  ∃ b' st a' x', place_order 9 new_oid (with_order buy8) = (b', Ret st) ∧ book_ok b' a' ∧
    b_oh b' !! new_oid = Some x' ∧
    (qval (whole_float 8) - qval (o_current_qty x')
      = total (side_queue (with_order buy8) example.2 Asks) - total (side_queue b' a' Asks))%Z.
Proof.
  apply (quantities_conserved 9 _ _ _ buy8 (proj1 buy8_ok) (proj2 buy8_ok)).
  - by exists 8%Z.
  - assert (side_queue (with_order buy8) example.2 (opposite_side (is_buy buy8))
      = [(0, whole_float 5); (1, whole_float 7); (2, whole_float 10)]) as -> by (vm_compute; reflexivity).
    repeat constructor; simpl; [by exists 5%Z|by exists 7%Z|by exists 10%Z].
Defined.

Lemma accepted_order_waits_its_turn_witness :
  ∃ b' a' before behind, book_ok b' a' ∧ lorders (a_levels example.2 Bids) = before ++ behind ∧
    lorders (a_levels a' Bids) = before ++ new_oid :: behind.
Proof.
  destruct (accepted_order_waits_its_turn 9 _ _ _ bid95 (add_order 9 new_oid (with_order bid95)).1
    (proj1 bid95_ok) (proj2 bid95_ok) eq_refl) as (a'&l1&l2&Hb&H1&H2&_).
  - rewrite (surjective_pairing (add_order 9 new_oid (with_order bid95))) at 1. f_equal.
  - exists (add_order 9 new_oid (with_order bid95)).1, a', l1, l2.
    split; [exact Hb|]. split; [exact H1|exact H2].
Defined.

Lemma sides_listed_by_price_witness :
  ∃ bids asks, get_bids example.1 = (example.1, Ret bids) ∧ get_asks example.1 = (example.1, Ret asks) ∧
    StronglySorted (by_price (b_oh example.1) Bids) bids.
Proof.
  destruct (sides_listed_by_price _ _ example_ok) as (bids&asks&E1&E2&_&_&H&_).
  exists bids, asks. split; [exact E1|]. split; [exact E2|exact H].
Defined.

Lemma snapshot_lists_levels_witness :
  ∃ asks, get_snapshot_asks example.1 = (example.1, Ret asks) ∧ length asks = 2.
Proof.
  destruct (snapshot_lists_levels _ _ example_ok) as (asks&bids&E&_&H&_).
  exists asks. split; [exact E|]. rewrite H, length_fmap. vm_compute. reflexivity.
Defined.

Lemma example_bids_nonempty : a_levels example.2 Bids ≠ [].
Proof. vm_compute. discriminate. Qed.
Lemma spread_reports_the_worst_bid_witness :
  ∃ sp, get_spread example.1 = (example.1, Ret sp) ∧ best_bid_price sp = whole_float 90.
Proof.
  destruct (spread_reports_the_worst_bid _ _ example_ok example_bids_nonempty)
    as (sp&l0&E&_&_&_&_).
  exists sp. split; [exact E|]. assert (Ret sp = (get_spread example.1).2) as H by (by rewrite E).
  assert ((get_spread example.1).2
    = Ret (MkSpread (whole_float 90) (whole_float 100) (whole_float 100))) as H' by (vm_compute; reflexivity).
  rewrite H' in H. by injection H as ->.
Defined.

Lemma example_lookup :
  ∃ x, b_oh example.1 !! 1 = Some x ∧ b_orders example.1 !! "a2"%string = Some 1 ∧ has_param x STOP = false.
Proof. eexists. split; [vm_compute; reflexivity|]. split; vm_compute; reflexivity. Qed.

Lemma cancel_reads_the_erased_entry_witness :
  ∃ b', cancel_order "a2" example.1 = (b', Err UseAfterErase) ∧ b_orders b' !! "a2"%string = None.
Proof.
  destruct example_lookup as (x&Hx&Hid&Hs).
  destruct (cancel_reads_the_erased_entry _ _ _ _ _ example_ok Hid Hx Hs) as (b'&E&_&Hn&_).
  exists b'. split; [exact E|exact Hn].
Defined.

(** A replacement for the order "a2". *)
Definition new_a2 : order := request_order "a2" SELL 1 100 GTC LIMIT.
Definition modified : book := set_oh (<[9 := new_a2]> (b_oh example.1)) example.1.
Lemma modified_ok : book_ok modified example.2.
Proof. apply grown_ok; [exact example_ok|vm_compute; reflexivity]. Qed.
Lemma modified_lookup :
  ∃ x, b_oh modified !! 1 = Some x ∧ b_orders modified !! "a2"%string = Some 1 ∧ has_param x STOP = false.
Proof. eexists. split; [vm_compute; reflexivity|]. split; vm_compute; reflexivity. Qed.
Lemma modified_new : b_oh modified !! 9 = Some new_a2.
Proof. vm_compute. reflexivity. Qed.
Lemma modified_fresh : 9 ∉ all_orders example.2.
Proof.
  assert (all_orders example.2 = [0; 1; 2; 4; 3]) as -> by (vm_compute; reflexivity).
  apply (bool_decide_unpack _). vm_compute. exact I.
Qed.

Lemma modify_reads_the_erased_entry_witness :
  ∃ b' a', modify_order 9 modified = (b', Err UseAfterErase) ∧ 9 ∉ all_orders a'.
Proof.
  destruct modified_lookup as (x&Hx&Hid&Hs).
  destruct (modify_reads_the_erased_entry _ _ 9 new_a2 1 x modified_ok modified_new Hid Hx Hs modified_fresh)
    as (b'&a'&E&_&_&Hn).
  exists b', a'. split; [exact E|exact Hn].
Defined.

(** ** Stop orders, expiring orders, loaded orders *)

Definition stop_request (id : string) (time price : Z) (params : OrderParams) (expire : Z) : order :=
  new_stop_order time id "ACME" "user" (whole_float 3) (whole_float price) (whole_float 90) BUY params
    LIMIT expire.
Lemma stop_request_valid id time price params expire :
  valid_order (stop_request id time price params expire).
Proof.
  split; try done. exists (3 * 2 ^ 149)%Z. split; [done|]. split; [lia|]. apply fits_whole. lia.
Qed.

Definition stop1 : order := stop_request "s1" 2000 80 STOP (-1).
Lemma stop1_fresh : b_orders example.1 !! o_id stop1 = None.
Proof. vm_compute. reflexivity. Qed.
Lemma stop1_waits : stop_waits stop1 (b_market_price example.1) = true.
Proof. vm_compute. reflexivity. Qed.

Lemma waiting_stop_order_cannot_be_cancelled_witness :
  ∃ b' a' o, submit 9 stop1 example.1 = (b', Ret ACCEPTED) ∧ o ∈ a_stops a' Bids ∧
    cancel_order "s1" b' = (b', Ret NOT_FOUND).
Proof.
  destruct (waiting_stop_order_cannot_be_cancelled 9 example.1 example.2 stop1 example_ok
    (stop_request_valid _ _ _ _ _) stop1_fresh eq_refl stop1_waits) as (b'&a'&o&E&_&Ho&_&Hc).
  exists b', a', o. split; [exact E|]. split; [exact Ho|exact Hc].
Defined.

(** A stop order that is executed at once and rests, and its replacement. *)
Definition triggered : order :=
  new_stop_order 2000 "s5" "ACME" "user" (whole_float 3) (whole_float 80) (whole_float 200) BUY STOP
    LIMIT (-1).
Definition book5 : book * abook := build (requests ++ [(6%Z, triggered)]) start empty_abook.
Definition modified5 : book :=
  set_oh (<[9 := stop_request "s5" 3000 85 STOP (-1)]> (b_oh book5.1)) book5.1.
Lemma book5_ok : book_ok book5.1 book5.2.
Proof.
  apply build_ok; [apply start_ok| | |].
  - unfold requests. repeat constructor; try by apply request_valid.
    exists (3 * 2 ^ 149)%Z. split; [done|]. split; [lia|]. apply fits_whole. lia.
  - apply (bool_decide_unpack _). vm_compute. exact I.
  - intros x _. reflexivity.
Qed.
Lemma modified5_ok : book_ok modified5 book5.2.
Proof. apply grown_ok; [exact book5_ok|vm_compute; reflexivity]. Qed.
Lemma modified5_order :
  ∃ x, b_orders modified5 !! "s5"%string = Some 5 ∧ b_oh modified5 !! 5 = Some x ∧
    has_param x STOP = true ∧ is_buy x = true.
Proof. eexists. split; [vm_compute; reflexivity|]. split_and!; vm_compute; reflexivity. Qed.
Lemma modified5_new : b_oh modified5 !! 9 = Some (stop_request "s5" 3000 85 STOP (-1)).
Proof. vm_compute. reflexivity. Qed.

Lemma modified_stop_order_stays_in_its_level_witness :
  ∃ b', modify_order 9 modified5 = (b', Ret MODIFIED) ∧ 5 ∈ lorders (a_levels book5.2 Bids) ∧
    limits_of Bids b' = limits_of Bids modified5.
Proof.
  destruct modified5_order as (x&Hid&Hx&Hs&Hbuy).
  destruct (modified_stop_order_stays_in_its_level _ _ 9 _ 5 x modified5_ok modified5_new eq_refl Hid Hx Hs
    ltac:(discriminate)) as (b'&stops&E&_&Ho&Hl&_). rewrite Hbuy in Ho.
  exists b'. split; [exact E|]. split; [exact Ho|exact (Hl Bids)].
Defined.

(** A stop order that expires, as the only order with an expiration date. *)
Definition dated : order := stop_request "s2" 2000 80 STOP_GTD 100000.
Definition book2 : book * abook := build (requests ++ [(6%Z, dated)]) start empty_abook.
Lemma book2_ok : book_ok book2.1 book2.2.
Proof.
  apply build_ok; [apply start_ok| | |].
  - unfold requests. repeat constructor; (by apply request_valid) || apply stop_request_valid.
  - apply (bool_decide_unpack _). vm_compute. exact I.
  - intros x _. reflexivity.
Qed.
Lemma book2_dates : a_dates book2.2 = [5].
Proof. vm_compute. reflexivity. Qed.
Lemma book2_stops : a_stops book2.2 Bids = [5].
Proof. vm_compute. reflexivity. Qed.
Lemma book2_order :
  ∃ x, b_oh book2.1 !! 5 = Some x ∧ due 9 x = false ∧ o_price x = whole_float 80 ∧ o_timestamp x = 2000%Z.
Proof. eexists. split; [vm_compute; reflexivity|]. split; [|split]; vm_compute; reflexivity. Qed.

Lemma end_of_day_stops_at_the_first_witness : check_date_orders 9 book2.1 = (book2.1, Ret tt).
Proof.
  destruct book2_order as (x&Hx&Hd&_).
  exact (end_of_day_stops_at_the_first 9 _ _ _ _ x book2_ok book2_dates Hx Hd).
Defined.

(** Another stop order at the same price and in the same second. *)
Definition stop3 : order := stop_request "s3" 2000 80 STOP (-1).
Definition book3 : book := with_new_order book2.1 stop3.
Definition oid3 : oid := fresh (dom (b_oh book2.1)).
Lemma oid3_eq : oid3 = 6.
Proof. vm_compute. reflexivity. Qed.
Lemma stop3_fresh : b_orders book2.1 !! o_id stop3 = None.
Proof. vm_compute. reflexivity. Qed.
Lemma book3_ok : book_ok book3 book2.2 ∧ incoming book3 book2.2 oid3 stop3.
Proof. exact (with_new_order_ok book2.1 book2.2 stop3 book2_ok (stop_request_valid _ _ _ _ _) stop3_fresh). Qed.
Lemma stop3_waits : stop_waits stop3 (b_market_price book3) = true.
Proof. vm_compute. reflexivity. Qed.
Lemma book3_order :
  ∃ y, b_oh book3 !! 5 = Some y ∧ o_price y = o_price stop3 ∧ o_timestamp y = o_timestamp stop3.
Proof. eexists. split; [vm_compute; reflexivity|]. split; vm_compute; reflexivity. Qed.
Lemma five_in_stops : 5 ∈ a_stops book2.2 (own_side (is_buy stop3)).
Proof. change (own_side (is_buy stop3)) with Bids. rewrite book2_stops. left. Qed.
Lemma five_not_listed : 5 ∉ all_orders book2.2.
Proof.
  assert (all_orders book2.2 = [0; 1; 2; 4; 3]) as -> by (vm_compute; reflexivity).
  apply (bool_decide_unpack _). vm_compute. exact I.
Qed.
Lemma five_other : 5 ≠ oid3.
Proof. rewrite oid3_eq. discriminate. Qed.

Lemma stop_order_is_replaced_witness :
  ∃ b' a', add_order 9 oid3 book3 = (b', Ret ACCEPTED) ∧ oid3 ∈ a_stops a' Bids ∧ 5 ∉ a_stops a' Bids.
Proof.
  destruct book3_order as (y&Hy&Hp&Ht).
  destruct (stop_order_is_replaced 9 _ _ _ _ 5 y (proj1 book3_ok) (proj2 book3_ok) eq_refl stop3_waits
    five_in_stops five_other five_not_listed Hy Hp Ht) as (b'&a'&E&_&Hi&Hn&_).
  exists b', a'. split; [exact E|]. split; [exact Hi|exact Hn].
Defined.

Lemma loaded_orders_cannot_be_cancelled_witness :
  cancel_order "s1"
      (load_orders [0] (new_book "ACME" (whole_float 100) {[0 := stop1]})).1
    = ((load_orders [0] (new_book "ACME" (whole_float 100) {[0 := stop1]})).1, Ret NOT_FOUND).
Proof.
  exact (loaded_orders_cannot_be_cancelled "ACME" (whole_float 100) {[0 := stop1]} [0]
    _ _ "s1" (surjective_pairing _)).
Defined.

(** ** A filled order *)

Definition filled7 : order :=
  set_o_current_qty (Fin 0) (set_limit_parent 1 (request_order "f" SELL 7 100 GTC LIMIT)).
Definition limit7 : limit :=
  set_l_ends (Some 0) (Some 0) (increase_volume (whole_float 7) (new_limit (whole_float 100))).
Definition filled_book : book :=
  set_lh {[1 := limit7]} (new_book "ACME" (whole_float 100) {[0 := filled7]}).

Lemma filled_level : level_list (b_oh filled_book) (b_lh filled_book) 1 [0] limit7.
Proof.
  split; try done. apply NoDup_singleton.
Qed.

Lemma filled_order_leaves_its_volume_witness :
  ∃ b' lim', remove_limit_order 0 filled_book = (b', Ret tt) ∧ b_lh b' !! 1 = Some lim' ∧
    l_active_volume lim' = Fin (7 * 2 ^ 1074) ∧ l_number_of_active_orders lim' = (2 ^ 64 - 1)%Z.
Proof.
  destruct (filled_order_leaves_its_volume filled_book 1 limit7 [] 0 [] filled7 (7 * 2 ^ 1074)
    filled_level eq_refl eq_refl eq_refl) as (b'&lim'&E&Hl&Hv&Hn).
  - vm_compute. reflexivity.
  - lia.
  - split; [vm_compute; reflexivity|]. exists (7 * 2 ^ 50)%Z. vm_compute. reflexivity.
  - reflexivity.
  - exists b', lim'. split; [exact E|]. split; [apply Hl|]. split; [exact Hv|exact Hn].
Defined.

(** ** Limits *)

Lemma example_level : ∃ l, (l, [0; 1]) ∈ a_levels example.2 Asks.
Proof. eexists. vm_compute. left. Qed.

Lemma limits_know_their_orders_witness :
  ∃ l, all_active_orders l example.1 = (example.1, Ret [0; 1]) ∧
    limit_side l example.1 = (example.1, Ret SELL).
Proof.
  destruct example_level as [l Hl]. exists l.
  exact (limits_know_their_orders example.1 example.2 Asks l [0; 1] example_ok Hl).
Defined.

Lemma serialising_a_limit_drops_its_orders_witness :
  ∃ l b' numbers, (serialize_limit l example.1) = (b', Ret (numbers, [0; 1])) ∧
    all_active_orders l b' = (b', Ret []).
Proof.
  destruct example_level as [l Hl]. exists l.
  destruct (serialising_a_limit_drops_its_orders example.1 example.2 Asks l [0; 1] example_ok Hl
    ltac:(discriminate)) as (b'&p&n1&n2&v1&v2&lim&E&Ha&_).
  exists b', (p, n1, n2, v1, v2). split; [exact E|exact Ha].
Defined.



(** ** What the market price and the flags become *)

(** An ask is filled, and then a bid meets the level it has left. *)
Definition emptied : book * abook :=
  build [(1%Z, request_order "a1" SELL 5 100 GTC LIMIT); (2%Z, request_order "n1" BUY 5 100 GTC LIMIT)]
    start empty_abook.
Definition bid150 : order := request_order "n2" BUY 3 150 GTC LIMIT.
Definition emptied_oid : oid := fresh (dom (b_oh emptied.1)).
Lemma emptied_ok : book_ok emptied.1 emptied.2.
Proof.
  apply build_ok; [apply start_ok|repeat constructor; by apply request_valid| |].
  - apply (bool_decide_unpack _). vm_compute. exact I.
  - intros x _. vm_compute. reflexivity.
Qed.
Lemma bid150_ok :
  book_ok (with_new_order emptied.1 bid150) emptied.2 ∧
  incoming (with_new_order emptied.1 bid150) emptied.2 emptied_oid bid150.
Proof.
  apply (with_new_order_ok emptied.1 emptied.2 bid150 emptied_ok); [by apply request_valid|].
  vm_compute. reflexivity.
Qed.
Lemma emptied_level : ∃ l, a_levels emptied.2 (opposite_side (is_buy bid150)) = [(l, [])] ∧
  calculate_cross_price (o_price bid150) (price_of (b_lh (with_new_order emptied.1 bid150)) l)
    (get_type bid150) (is_buy bid150) = Some (whole_float 150).
Proof. eexists. split; vm_compute; reflexivity. Qed.
Lemma market_price_moves_without_a_trade_witness :
  ∃ b' st, place_order 9 emptied_oid (with_new_order emptied.1 bid150) = (b', Ret st) ∧
    b_market_price b' = whole_float 150.
Proof.
  destruct emptied_level as (l&Hl&Hc).
  destruct (market_price_moves_without_a_trade 9 _ _ _ _ l _ (proj1 bid150_ok) (proj2 bid150_ok) eq_refl Hl Hc)
    as (b'&st&x'&E&Hp&_).
  exists b', st. split; [exact E|exact Hp].
Defined.

(** An all-or-none stop order for more than there is, at the market's price. *)
Definition stop_aon : order :=
  new_stop_order 2000 "s6" "ACME" "user" (whole_float 20) (whole_float 100) (whole_float 200) BUY
    (Z.lor STOP AON) MARKET (-1).
Lemma stop_aon_valid : valid_order stop_aon.
Proof. split; try done. exists (20 * 2 ^ 149)%Z. split; [done|]. split; [lia|]. apply fits_whole. lia. Qed.
Lemma stop_aon_ok :
  book_ok (with_order stop_aon) example.2 ∧ incoming (with_order stop_aon) example.2 new_oid stop_aon.
Proof. apply with_order_ok; [exact stop_aon_valid|by vm_compute]. Qed.
Lemma stop_aon_passes : waits (with_order stop_aon) stop_aon = false.
Proof. vm_compute. reflexivity. Qed.
Lemma triggered_market_order_loses_its_flags_witness :
  ∃ b' st x', add_order 9 new_oid (with_order stop_aon) = (b', Ret st) ∧
    b_oh b' !! new_oid = Some x' ∧ o_params x' = IOC ∧ o_current_qty x' = whole_float 8.
Proof.
  destruct (triggered_market_order_loses_its_flags 9 _ _ _ stop_aon (proj1 stop_aon_ok) (proj2 stop_aon_ok)
    eq_refl eq_refl stop_aon_passes) as (b'&st&a'&x'&E&_&Hx&Hpar&_).
  exists b', st, x'. split; [exact E|]. split; [exact Hx|]. split; [exact Hpar|].
  assert ((b_oh (add_order 9 new_oid (with_order stop_aon)).1 !! new_oid) = Some x') as Hx' by (by rewrite E).
  assert (o_current_qty <$> (b_oh (add_order 9 new_oid (with_order stop_aon)).1 !! new_oid)
    = Some (whole_float 8)) as Hq by (vm_compute; reflexivity).
  rewrite Hx' in Hq. by injection Hq.
Defined.
