(* ===== verification/SysWitnesses.v ===== *)
(** * Witnesses for the rest of the exchange

    The properties of SysProps.v applied at concrete inputs, with a concrete database, archive,
    trade table and JSON reader. *)

From S2P Require Import Prelude Float RBTree DataTypes OrderBook OBMatch OBInv OBAdd.
From S2P Require Import OBCancel OBQuery RingBuffer ThreadPool Calendar Repository TradeRepository.
From S2P Require Import InstrumentFile Exchange ExchangeSpec Responses Handlers Session Examples SysProps.

(** ** The ring buffer *)

Definition moved0 (_ : nat) : nat := 0.
Definition ring1 : ring := Ring 0 0 1 0 [7; 0].
(** A value has been pushed. *)
Definition state1 : system := System ring1 PIdle (CIdle None) [7] [].

Lemma state1_reachable : rtc (roomy moved0 2) (new_system 0 2) state1.
Proof.
  eapply rtc_l; [split; [by apply (step_call_push _ _ _ 7)|by right]|].
  eapply rtc_l; [split; [by eapply step_push|by right]|].
  eapply rtc_l; [split; [by eapply step_push|by right]|].
  eapply rtc_l; [split; [by eapply step_push|by right]|]. apply rtc_refl.
Qed.
Lemma state1_steps : rtc (step moved0 2) (new_system 0 2) state1.
Proof.
  eapply rtc_subrel; [|exact state1_reachable]. by intros s s' [H _].
Qed.
(** A [push] has been called. *)
Definition state1_called : system := System (Ring 0 0 0 0 [0; 0]) (PLoop 7) (CIdle None) [] [].
Lemma two_positive : 0 < 2.
Proof. lia. Qed.

Lemma ring_never_out_of_bounds_witness :
  ∃ p r, push_step 2 PIdle ring1 = Ret (p, r).
Proof. exact (proj1 (ring_never_out_of_bounds moved0 0 2 state1 two_positive state1_steps)). Defined.

Lemma ring_is_a_queue_witness : [] `prefix_of` [7].
Proof. exact (proj1 (ring_is_a_queue moved0 0 2 state1 two_positive state1_reachable)). Defined.

Lemma push_never_waits_witness : ∃ r, push 2 9 ring1 = Ret r ∧ slots r !! 1 = Some 9.
Proof.
  destruct (push_never_waits moved0 0 2 state1 9 two_positive state1_steps) as (_&r&E&_&Hs).
  exists r. split; [exact E|exact Hs].
Defined.

Lemma full_ring_looks_empty_witness :
  ∃ r, push_all 2 [7; 8] (new_ring 0 2) = Ret r ∧ pop moved0 2 r = Ret (None, r).
Proof. exact (full_ring_looks_empty moved0 0 2 [7; 8] two_positive eq_refl). Defined.

Lemma concurrent_pushes_lose_a_value_witness :
  ∃ turns r r', race 2 turns (PLoop 7) (PLoop 8) (new_ring 0 2) = Ret (PIdle, PIdle, r) ∧
    pop moved0 2 r = Ret (Some 8, r') ∧ pop moved0 2 r' = Ret (None, r').
Proof.
  exact (concurrent_pushes_lose_a_value moved0 0 2 (new_system 0 2) 7 8 ltac:(lia)
    (rtc_refl _ _) eq_refl eq_refl).
Defined.

(** ** The order store *)

(** A database that keeps every write, and an archive of the digits of a number. *)
#[local] Instance map_database : Database (gmap string string) := {
  Put db k v := (<[k := v]> db, true);
  Delete db k := (delete k db, true);
  Get db k := db !! k;
  Entries db := map_to_list db
}.
#[local] Instance map_database_laws : DatabaseLaws (gmap string string).
Proof.
  split; simpl; intros.
  - case_decide as Hd; [subst; apply lookup_insert_eq|by apply lookup_insert_ne].
  - case_decide as Hd; [subst; apply lookup_delete_eq|by apply lookup_delete_ne].
  - apply elem_of_map_to_list.
Qed.

Fixpoint digits (p : positive) : string :=
  match p with
  | xH => EmptyString
  | xO p => String Ascii.zero (digits p)
  | xI p => String Ascii.one (digits p)
  end.
Fixpoint number (s : string) : positive :=
  match s with
  | EmptyString => xH
  | String c s => if Ascii.eqb c Ascii.one then xI (number s) else xO (number s)
  end.
Lemma number_digits p : number (digits p) = p.
Proof. induction p as [p IH|p IH|]; simpl; by rewrite ?IH. Qed.

#[local] Instance fl_countable : Countable fl.
Proof.
  refine (inj_countable'
    (λ x, match x with Fin n => inl n | Inf s => inr (Some s) | NaN => inr None end)
    (λ x, match x with inl n => Fin n | inr (Some s) => Inf s | inr None => NaN end) _).
  by intros [].
Defined.
#[local] Instance Side_countable : Countable Side.
Proof.
  refine (inj_countable' (λ x, match x with UNKOWN => 0 | BUY => 1 | SELL => 2 end)
    (λ x, match x with 0 => UNKOWN | 1 => BUY | _ => SELL end) _).
  by intros [].
Defined.
#[local] Instance OrderType_countable : Countable OrderType.
Proof.
  refine (inj_countable' (λ x, match x with MARKET => true | LIMIT => false end)
    (λ x : bool, if x then MARKET else LIMIT) _).
  by intros [].
Defined.

Definition archived_tuple : Type :=
  string * string * string * Z * (fl * fl * fl) * bool * Side * OrderType * Z * Z.
Definition to_tuple (a : archived) : archived_tuple :=
  (ar_id a, ar_instrument a, ar_user_id a, ar_timestamp a, (ar_qty a, ar_current_qty a, ar_price a),
   ar_cancelled a, ar_side a, ar_type a, ar_params a, ar_expire_time a).
Definition of_tuple (t : archived_tuple) : archived :=
  match t with
  | (id, instrument, user, time, (qty, current, price), cancelled, side, type, params, expire) =>
      Archived id instrument user time qty current price cancelled side type params expire
  end.

#[local] Instance digit_archive : Archive := {
  oarchive a := digits (encode (to_tuple a));
  iarchive s := of_tuple <$> decode (number s)
}.
#[local] Instance digit_archive_laws : ArchiveLaws.
Proof.
  split. intros a _. unfold iarchive, oarchive. simpl. rewrite number_digits, decode_encode.
  by destruct a.
Qed.

Definition stored : order := request_order "a1" SELL 5 100 GTC LIMIT.
Definition cancelled2 : order := cancel (request_order "a2" SELL 5 100 GTC LIMIT).

Lemma stored_finite : Forall (λ o, finite (serialize o) = true) [stored; cancelled2].
Proof. repeat constructor. Qed.

Lemma empty_store_holds : holds (∅ : gmap string string) ∅.
Proof.
  split; [|intros id o; by rewrite lookup_empty]. intros id. by rewrite lookup_empty.
Qed.
Lemma store_follows_the_messages_witness :
  get "a1" (process_messages (∅ : gmap string string) [stored; cancelled2]) = Ret (Some (reloaded stored)) ∧
  get "a2" (process_messages (∅ : gmap string string) [stored; cancelled2]) = Ret None.
Proof.
  split.
  - exact (store_follows_the_messages (∅ : gmap string string) ∅ [stored; cancelled2] "a1"
      empty_store_holds stored_finite eq_refl).
  - exact (store_follows_the_messages (∅ : gmap string string) ∅ [stored; cancelled2] "a2"
      empty_store_holds stored_finite eq_refl).
Defined.

Definition stop_stored : order :=
  new_stop_order 1 "s" "ACME" "user" (whole_float 5) (whole_float 100) (whole_float 90) BUY STOP LIMIT 0.
Lemma stop_stored_saved : (save stop_stored (∅ : gmap string string)).2 = true.
Proof. reflexivity. Qed.
Lemma stop_price_is_not_stored_witness :
  o_stop_price stop_stored = whole_float 90 ∧
  get "s" (save stop_stored (∅ : gmap string string)).1 = Ret (Some (reloaded stop_stored)) ∧
  o_stop_price (reloaded stop_stored) = Fin 0.
Proof.
  destruct (stop_price_is_not_stored (∅ : gmap string string) stop_stored eq_refl stop_stored_saved) as (E&Hs&_).
  split; [reflexivity|]. split; [exact E|exact Hs].
Defined.

(** ** The exchange *)

Definition infos : list (string * float) := [("ACME"%string, whole_float 100); ("EMCA"%string, whole_float 7)].
Definition market : exchange := (new_exchange infos [] true).1.

Lemma infos_small : (Z.of_nat (length infos) ≤ 2 ^ 32)%Z.
Proof. simpl. lia. Qed.
Lemma market_ok : exchange_ok market.
Proof.
  destruct (new_exchange_ok infos true infos_small) as (e&E&He&_). unfold market. by rewrite E.
Qed.

(** The file "ACME 100.5", with a second line that has no price. *)
Definition file_entries : list entry :=
  [(String.list_ascii_of_string "ACME", Some ([1; 0; 0], [5], 201 * 2 ^ 148)%Z);
   (String.list_ascii_of_string "EMCA", None)].
Lemma file_entries_ok : Forall entry_ok file_entries.
Proof.
  repeat constructor; try (vm_compute; (discriminate || reflexivity)).
  exists (201 * 2 ^ 16)%Z. vm_compute. reflexivity.
Qed.
Lemma exchange_starts_from_its_file_witness :
  read_instrument_init_data_from_file (Some (String.list_ascii_of_string ("ACME 100.5" ++ String newline
      ("EMCA" ++ String newline "")))) = [("ACME"%string, Fin (201 * 2 ^ 148))] ∧
  ∃ e, new_exchange [("ACME"%string, Fin (201 * 2 ^ 148))] [] true = (e, Ret tt).
Proof.
  destruct (exchange_starts_from_its_file file_entries true file_entries_ok) as (E&e&He&_);
    [simpl; lia|].
  split; [exact E|]. rewrite E in He. exists e. exact He.
Defined.

Definition acme : book := new_book "ACME" (whole_float 100) ∅.
Lemma market_acme : instruments market !! "ACME"%string = Some (Some acme).
Proof. vm_compute. reflexivity. Qed.
Definition buy5 : order := request_order "n" BUY 5 100 GTC LIMIT.
Lemma buy5_valid : valid_order buy5.
Proof. by apply request_valid. Qed.
Lemma buy5_fresh : b_orders acme !! o_id buy5 = None.
Proof. reflexivity. Qed.

Lemma orders_reach_their_book_witness :
  ∃ e' st, Exchange.add_order 9 "ACME" buy5 market = (e', Ret st) ∧ exchange_ok e'.
Proof.
  destruct (orders_reach_their_book 9 market "ACME" acme buy5 market_ok market_acme buy5_valid buy5_fresh)
    as (e'&b'&st&_&E&He&_).
  exists e', st. split; [exact E|exact He].
Defined.

Lemma market_newco : instruments market !! "NEWCO"%string = None.
Proof. vm_compute. reflexivity. Qed.
Lemma market_workers : workers market ≤ size (instruments market).
Proof. vm_compute. lia. Qed.
Lemma market_size : (Z.of_nat (size (instruments market)) < 2 ^ 32)%Z.
Proof. vm_compute. reflexivity. Qed.

Lemma added_instrument_has_no_worker_witness :
  ∃ e1, add_instrument "NEWCO" (whole_float 3) [] market = (e1, Ret true) ∧
    Exchange.add_order 9 "NEWCO" buy5 e1 = (e1, Err OutOfBounds).
Proof.
  destruct (added_instrument_has_no_worker 9 market "NEWCO" (whole_float 3) market_newco market_workers
    market_size) as (e1&E&_&Ha).
  exists e1. split; [exact E|exact (Ha buy5)].
Defined.

Lemma unknown_instrument_is_inserted_witness :
  ∃ e' err, Exchange.add_order 9 "NEWCO" buy5 market = (e', Err err) ∧
    instrument_exists "NEWCO" e' = (e', Ret true).
Proof.
  destruct (unknown_instrument_is_inserted 9 market "NEWCO" buy5 market_newco) as (e'&err&E&_&Hi).
  exists e', err. split; [exact E|exact Hi].
Defined.

(** 14 July of 1789 was a Tuesday; far enough in the future there are no days of the week. *)
Lemma day_of_week_correct_witness :
  day_of_week 14 7 1789 = Ret 2%Z ∧ (day_number 14 7 1789 mod 7 = 2)%Z ∧
  day_of_week 1 3 1717986919 = Err IntOverflow.
Proof.
  split; [|split; [vm_compute; reflexivity|]].
  - rewrite (day_of_week_correct 14 7 1789); [vm_compute; reflexivity|vm_compute; split; discriminate|lia..].
  - rewrite (day_of_week_correct 1 3 1717986919); [reflexivity|vm_compute; split; discriminate|lia|lia].
Defined.

(** A Monday in March and one in January, at closing time. *)
Lemma closing_is_stored_in_the_morning_witness :
  is_working_turn 9 (Tm 0 30 17 5 0 126) market = (market, Err OutOfBounds) ∧
  ∃ target, is_working_turn 9 (Tm 0 30 17 2 2 126) market
      = (after_sleep 9 (Tm 0 30 17 2 2 126);; mret target) market ∧ (2 < tm_mday target)%Z.
Proof.
  split.
  - apply (closing_is_stored_in_the_morning 9 (Tm 0 30 17 5 0 126) market);
      (reflexivity || (unfold last_year; simpl; lia)).
  - destruct (closing_is_stored_in_the_morning 9 (Tm 0 30 17 2 2 126) market eq_refl eq_refl)
      as (target&E&Hd&_); [unfold last_year; simpl; lia..|].
    exists target. split; [exact E|exact Hd].
Defined.

(** ** Requests *)

(** A document with the fields of an order. *)
Record fields := Fields { strings : gmap string string; numbers : gmap string Z; flags : Z }.
Definition order_text (params : Z) : fields :=
  Fields {[ "instrument" := "ACME"; "user_id" := "user"; "side" := "BUY"; "type" := "LIMIT" ]}%string
    {[ "qty" := 5; "price" := 80; "stop_price" := 90; "expire_time" := 100000 ]}%string%Z params.
#[local] Instance sample_json : Json fields := {
  iterate text := Some (order_text (if String.eqb text "stop" then STOP_GTC else GTC));
  get_string d key := strings d !! key;
  get_double d key := (λ z, Fin (z * 2 ^ 1074)) <$> numbers d !! key;
  get_uint64 d key := if String.eqb key "params" then Some (flags d) else numbers d !! key
}.

Definition closed_market : exchange := (new_exchange infos [] false).1.
Definition buy_request : request := Request {[ INSTRUMENT_KEY := "ACME" ]}%string "buy".

Lemma buy_request_order :
  ∃ x, map_json_to_order 9 (order_text GTC) = Ret x ∧ o_side x ≠ UNKOWN.
Proof. eexists. split; [vm_compute; reflexivity|]. discriminate. Qed.

Lemma create_order_refused_witness :
  ∃ rep', CreateOrderHandler_handle (doc:=fields) 9 "id" buy_request new_reply closed_market
      = (closed_market, Ret rep') ∧ r_status rep' = no_content.
Proof.
  destruct buy_request_order as (x&Hx&Hs).
  destruct (create_order_refused (doc:=fields) 9 "id" closed_market buy_request new_reply) as (_&_&_&H).
  apply (H "ACME"%string (order_text GTC) x); [reflexivity|by eexists|reflexivity|exact Hx|exact Hs|reflexivity].
Defined.

Lemma stop_request_order :
  ∃ x, map_json_to_order 9 (order_text STOP_GTC) = Ret x ∧ o_params x ≠ STOP.
Proof. eexists. split; [vm_compute; reflexivity|]. discriminate. Qed.
Lemma stop_price_ignored_with_other_flags_witness :
  ∃ x, map_json_to_order 9 (order_text STOP_GTC) = Ret x ∧ o_stop_price x = Fin 0 ∧
    stop_waits x (whole_float 100) = true.
Proof.
  destruct stop_request_order as (x&Hx&Hp).
  destruct (stop_price_ignored_with_other_flags 9 (order_text STOP_GTC) x (whole_float 100) Hx Hp eq_refl)
    as [H0 Hw].
  exists x. split; [exact Hx|]. split; [exact H0|]. rewrite Hw.
  vm_compute in Hx. injection Hx as <-. reflexivity.
Defined.

(** An order in the book of "ACME". *)
Definition open_market : exchange :=
  with_book "ACME" (build [(1%Z, request_order "b1" BUY 4 90 GTC LIMIT)] acme empty_abook).1 market.
Definition acme2 : book := (build [(1%Z, request_order "b1" BUY 4 90 GTC LIMIT)] acme empty_abook).1.
Definition acme2_abs : abook :=
  (build [(1%Z, request_order "b1" BUY 4 90 GTC LIMIT)] acme empty_abook).2.

Lemma acme2_ok : book_ok acme2 acme2_abs.
Proof.
  apply build_ok; [apply new_book_ok|repeat constructor; by apply request_valid| |done].
  apply NoDup_singleton.
Qed.
Lemma open_market_ok : exchange_ok open_market.
Proof.
  destruct (market_ok "ACME"%string (Some acme) market_acme) as (b&a&[= <-]&Hs&_).
  exact (with_book_ok _ _ _ _ _ market_ok Hs acme2_ok).
Qed.
Lemma open_market_acme : instruments open_market !! "ACME"%string = Some (Some acme2).
Proof. apply lookup_insert_eq. Qed.
Lemma open_market_working : working open_market = true.
Proof. vm_compute. reflexivity. Qed.
Lemma acme2_order :
  ∃ x, b_orders acme2 !! "b1"%string = Some 0 ∧ b_oh acme2 !! 0 = Some x ∧ has_param x STOP = false.
Proof. eexists. split; [vm_compute; reflexivity|]. split; vm_compute; reflexivity. Qed.
Lemma acme2_bids : a_levels acme2_abs Bids ≠ [].
Proof. vm_compute. discriminate. Qed.
Lemma acme2_no_id : b_orders acme2 !! "id"%string = None.
Proof. vm_compute. reflexivity. Qed.

Lemma buy_mapped :
  ∃ x, map_json_to_order 9 (order_text GTC) = Ret x ∧ o_side x ≠ UNKOWN ∧ is_nan (o_price x) = false ∧
    qty_ok (o_current_qty x).
Proof.
  eexists. split; [vm_compute; reflexivity|]. split; [discriminate|]. split; [reflexivity|].
  exists (5 * 2 ^ 149)%Z. split; [vm_compute; reflexivity|]. split; [lia|apply fits_whole; lia].
Qed.

Lemma buy_document : iterate (content buy_request) = Some (order_text GTC).
Proof. reflexivity. Qed.

Lemma create_order_served_witness :
  ∃ e' st, CreateOrderHandler_handle (doc:=fields) 9 "id" buy_request new_reply open_market
      = (e', Ret (Reply ok (OrderInfo (SeastarOrderInfoJson "id" st)))) ∧ exchange_ok e'.
Proof.
  destruct buy_mapped as (x&Hx&Hs&Hp&Hq).
  destruct (create_order_served (doc:=fields) 9 "id" open_market buy_request new_reply "ACME" acme2
    (order_text GTC) x open_market_ok open_market_working eq_refl open_market_acme buy_document Hx Hs Hp Hq
    acme2_no_id) as (e'&b'&st&_&E&He&_).
  exists e', st. split; [exact E|exact He].
Defined.

Definition cancel_request : request :=
  Request {[ INSTRUMENT_KEY := "ACME"; ORDER_ID_KEY := "b1" ]}%string "".
Lemma cancel_request_fails_witness :
  ∃ e' b', CancelOrderHandler_handle cancel_request new_reply open_market = (e', Err UseAfterErase) ∧
    b_orders b' !! "b1"%string = None ∧ get_bids b' = (b', Ret []).
Proof.
  destruct acme2_order as (x&Hid&Hx).
  destruct (cancel_request_fails open_market cancel_request new_reply "ACME" "b1" acme2 0 open_market_ok
    open_market_working eq_refl eq_refl open_market_acme Hid)
    as (e'&b'&x'&bids&asks&E&_&Hn&_&Hx'&_&Hbids&_&_&H).
  exists e', b'. split; [exact E|]. split; [exact Hn|].
  assert (bids = [0]) as -> by (vm_compute in Hbids; injection Hbids as <-; reflexivity).
  assert (has_param x' STOP = false) as Hs by (vm_compute in Hx'; injection Hx' as <-; reflexivity).
  rewrite Hs in H. exact (proj1 H).
Defined.

Lemma snapshot_reply_shows_the_book_witness :
  ∃ s, SnapshotHandler_handle buy_request new_reply open_market
      = (open_market, Ret (Reply ok (SnapshotBody s))) ∧ length <$> nj_bids s = Some 1.
Proof.
  destruct (snapshot_reply_shows_the_book open_market buy_request new_reply "ACME" acme2 acme2_abs eq_refl
    open_market_acme acme2_ok acme2_bids) as (sp&_&E).
  eexists. split; [exact E|]. vm_compute. reflexivity.
Defined.

Definition get_request : request := Request {[ ORDER_ID_KEY := "a2" ]}%string "".
Lemma get_order_replies_from_the_store_witness :
  GetOrderHandler_handle (∅ : gmap string string) get_request new_reply open_market
    = (open_market, Ret (set_status not_found new_reply)).
Proof.
  exact (get_order_replies_from_the_store open_market (∅ : gmap string string) get_request new_reply "a2" ∅
    open_market_working eq_refl empty_store_holds).
Defined.

(** ** The thread pool *)

Definition pool1 : list (system (T:=nat)) := [state1_called; FunctionTask 0 2].

Lemma pool1_reachable : rtc (pool_step moved0 2) (ThreadPool 0 2 2) pool1.
Proof.
  eapply rtc_l; [by eapply (pool_enqueue _ _ _ 0 7)|]. apply rtc_refl.
Qed.

Lemma tasks_run_in_order_witness :
  ThreadPool.enqueue 5 9 pool1 = Err OutOfBounds ∧ ∃ p', ThreadPool.enqueue 1 9 pool1 = Ret p'.
Proof.
  destruct (tasks_run_in_order moved0 0 2 2 pool1 two_positive pool1_reachable) as (_&H1&H2).
  split; [apply H1; lia|]. destruct (H2 1 9) as (w&p'&_&E&_); [lia|]. exists p'. exact E.
Defined.

(** ** The trade store *)

Definition text_column (s : string) : column := Column (s ++ String Ascii.zero "") (String.length s).
Definition row_of (v : bound) : row :=
  Row (text_column (bd_buyer_id v)) (text_column (bd_seller_id v)) (text_column (bd_buyer_order_id v))
    (text_column (bd_seller_order_id v)) (text_column (bd_instrument v)) (bd_timestamp v)
    (bd_volume v) (bd_price v).

#[local] Instance map_cassandra : Cassandra (gmap trade_key bound) := {
  execute_insert db r := (<[key_of r := r]> db, true);
  execute_select_all db := Some (row_of <$> (map_to_list db).*2);
  execute_select_by_key db k := Some (row_of <$> option_list (db !! k));
  execute_query db _ := (db, true);
  cass_time_from_epoch secs := ((secs mod 86400) * 10 ^ 9)%Z
}.

Lemma text_column_shows s : text_shows (text_column s) s.
Proof. unfold text_shows. induction s as [|c s IH]; [done|]. simpl in *. by rewrite IH. Qed.
Lemma text_column_terminated s : terminated (text_column s).
Proof. unfold terminated. by induction s as [|c s IH]. Qed.
Lemma row_of_shows v : shows (row_of v) v.
Proof. split; try done; apply text_column_shows. Qed.
Lemma row_of_terminated v : row_terminated (row_of v).
Proof. split; apply text_column_terminated. Qed.
Lemma rows_of_show vs : Forall2 shows (row_of <$> vs) vs.
Proof. induction vs as [|v vs IH]; constructor; [apply row_of_shows|done]. Qed.

#[local] Instance map_cassandra_laws : CassandraLaws (gmap trade_key bound).
Proof.
  refine {| table db := db |}; simpl.
  - done.
  - intros db k rs [= <-]. apply rows_of_show.
  - intros db rs [= <-]. eexists. split; [apply rows_of_show|done].
  - done.
Defined.

Definition no_trades : gmap trade_key bound := ∅.
Definition trade1 : Trade :=
  MkTrade "u1" "u2" "o1" "o2" "ACME" (whole_float 3) (whole_float 100) 90000.
(** A day later, at the same time. *)
Definition trade2 : Trade :=
  MkTrade "u1" "u2" "o3" "o4" "ACME" (whole_float 8) (whole_float 101) 176400.

Lemma trade1_texts : texts trade1.
Proof. by split. Qed.
Lemma trade2_texts : texts trade2.
Proof. by split. Qed.
Lemma one_row_terminated v : Forall row_terminated [row_of v].
Proof. constructor; [apply row_of_terminated|constructor]. Qed.

Lemma saved_trade_loses_its_date_witness :
  get_trade_by_primary_key "u1" "u2" 90000 (save_trade trade1 no_trades).1
    = Ret (Some (MkTrade "u1" "u2" "o1" "o2" "ACME" (whole_float 3) (whole_float 100) (3600 * 10 ^ 9)%Z)).
Proof.
  assert (0 ≤ t_timestamp trade1)%Z as Ht by (simpl; lia).
  assert (execute_select_by_key (save_trade trade1 no_trades).1 (trade_key_of trade1)
    = Some [row_of (bound_of trade1)]) as Hs by (vm_compute; reflexivity).
  exact (saved_trade_loses_its_date no_trades trade1 _ trade1_texts Ht eq_refl Hs (one_row_terminated _)).
Defined.

Lemma trade_of_the_same_second_is_overwritten_witness :
  get_trade_by_primary_key "u1" "u2" 90000 (save_trade trade2 (save_trade trade1 no_trades).1).1
    = Ret (Some (stored_trade trade2)).
Proof.
  assert (0 ≤ t_timestamp trade1)%Z as Ht1 by (simpl; lia).
  assert (0 ≤ t_timestamp trade2)%Z as Ht2 by (simpl; lia).
  assert (execute_select_by_key (save_trade trade2 (save_trade trade1 no_trades).1).1 (trade_key_of trade1)
    = Some [row_of (bound_of trade2)]) as Hs by (vm_compute; reflexivity).
  exact (trade_of_the_same_second_is_overwritten no_trades trade1 trade2 _ trade1_texts trade2_texts Ht1 Ht2
    eq_refl eq_refl eq_refl eq_refl Hs (one_row_terminated _)).
Defined.

Lemma missing_trade_reads_past_the_result_witness :
  get_trade_by_primary_key "u1" "u2" 90000 no_trades = Err OutOfBounds.
Proof.
  assert (0 ≤ 90000)%Z as Ht by lia.
  exact (missing_trade_reads_past_the_result no_trades "u1" "u2" 90000 [] eq_refl eq_refl Ht eq_refl eq_refl).
Defined.

(** ** A session *)

Lemma acme_no_id : b_orders acme !! "id"%string = None.
Proof. vm_compute. reflexivity. Qed.
Lemma market_working : working market = true.
Proof. vm_compute. reflexivity. Qed.
Lemma buy_proper : proper (doc:=fields) 9 "id" market buy_request.
Proof.
  intros d x b Hd Hx Hb. destruct buy_mapped as (y&Hy&_&Hp&Hq).
  change (iterate (content buy_request)) with (Some (order_text GTC)) in Hd. injection Hd as <-.
  rewrite Hy in Hx. injection Hx as <-.
  change (get_path_param buy_request INSTRUMENT_KEY) with "ACME"%string in Hb.
  rewrite market_acme in Hb. injection Hb as <-. split; [exact Hp|]. split; [exact Hq|exact acme_no_id].
Qed.
Lemma buy_step :
  ∃ e', exchange_step (doc:=fields) (DB:=gmap string string) market e' ∧
    is_Some (instruments e' !! "ACME"%string).
Proof.
  destruct buy_mapped as (x&Hx&Hs&Hp&Hq).
  destruct (create_order_served (doc:=fields) 9 "id" market buy_request new_reply "ACME" acme
    (order_text GTC) x market_ok market_working eq_refl market_acme buy_document Hx Hs Hp Hq
    acme_no_id) as (e'&b'&st&_&E&_&Hi).
  exists e'. split; [exact (step_create 9 "id" _ _ _ _ _ buy_proper E)|].
  rewrite Hi, lookup_insert_eq. by eexists.
Qed.

(** After a request that creates an order. *)
Lemma exchange_stays_well_formed_witness :
  ∃ e' b bids asks, rtc (exchange_step (doc:=fields) (DB:=gmap string string)) market e' ∧
    instruments e' !! "ACME"%string = Some (Some b) ∧
    get_bids b = (b, Ret bids) ∧ get_asks b = (b, Ret asks).
Proof.
  destruct (exchange_stays_well_formed (doc:=fields) (DB:=gmap string string) infos true infos_small)
    as (e&E&_&H).
  assert (e = market) as -> by (unfold market; by rewrite E).
  destruct buy_step as (e'&Hstep&[ob Hob]). destruct (H e' (rtc_once _ _ Hstep)) as [_ Hbook].
  destruct (Hbook _ _ Hob) as (b&a&bids&asks&->&_&_&Hbids&Hasks&_).
  exists e', b, bids, asks. split; [exact (rtc_once _ _ Hstep)|]. split; [exact Hob|]. by split.
Defined.
