(* ===== verification/EndWitnesses.v ===== *)
(** * Witnesses for what the parts do together

    The properties of EndToEnd.v applied at concrete inputs, with a concrete table of routes and a
    concrete text of JSON values. *)

From Stdlib Require Import Ascii.
From S2P Require Import Prelude Float RBTree DataTypes OrderBook OBMatch OBBook OBOps OBInv OBAdd.
From S2P Require Import OBCancel OBQuery OBRestart RingBuffer RingLive Calendar Repository InstrumentFile.
From S2P Require Import Exchange ExchangeSpec Responses Handlers Session Server ServerSpec Pipeline.
From S2P Require Import EndToEnd Examples SysWitnesses.

#[local] Existing Instance map_database.
#[local] Existing Instance map_database_laws.
#[local] Existing Instance digit_archive.
#[local] Existing Instance digit_archive_laws.
#[local] Existing Instance fl_countable.
#[local] Existing Instance sample_json.

(** ** The ring buffer *)

(** A value is pushed, and then the consumer calls [pop] again and again. *)
Definition turn (s : system (T:=nat)) : system :=
  match prod s, cons s with
  | PIdle, CIdle _ =>
      if decide (pushed s = []) then System (ring_of s) (PLoop 7) (cons s) (pushed s) (popped s)
      else System (ring_of s) (prod s) CLoad (pushed s) (popped s)
  | PIdle, c =>
      match pop_step moved0 2 c (ring_of s) with
      | Ret (c', r) => System r (prod s) c' (pushed s) (popped s ++ returned c)
      | Err _ => s
      end
  | p, _ =>
      match push_step 2 p (ring_of s) with
      | Ret (p', r) => System r p' (cons s) (pushed s ++ published p (ring_of s)) (popped s)
      | Err _ => s
      end
  end.
Definition run (i : nat) : system := Nat.iter i turn (new_system 0 2).
(** From the twelfth state on every third state is the same. *)
Definition idle : system := System (Ring 1 0 1 1 [0; 0]) PIdle (CIdle None) [7] [7].
Definition first_states : nat := 12.

Lemma run_split i j : run (i + j) = Nat.iter i turn (run j).
Proof. unfold run. by rewrite Nat.iter_add. Qed.
Lemma run_idle m : run (first_states + 3 * m) = idle.
Proof.
  induction m as [|m IH]; [reflexivity|].
  replace (first_states + 3 * S m) with (3 + (first_states + 3 * m)) by lia. by rewrite run_split, IH.
Qed.
Lemma run_late i :
  first_states ≤ i → ∃ r, r < 3 ∧ run i = Nat.iter r turn idle ∧ run (S i) = Nat.iter (S r) turn idle.
Proof.
  intros Hi. exists ((i - first_states) mod 3). split; [by apply Nat.mod_upper_bound|].
  assert (i = (i - first_states) mod 3 + (first_states + 3 * ((i - first_states) / 3))) as Heq.
  { pose proof (Nat.div_mod_eq (i - first_states) 3). lia. }
  split.
  - rewrite Heq at 1. by rewrite run_split, run_idle.
  - rewrite Heq at 1. change (S (?x + ?y)) with (S x + y). by rewrite run_split, run_idle.
Qed.

(** The consumer's turn, once the value was pushed. *)
Lemma turn_moves s :
  prod s = PIdle → pushed s ≠ [] → (∃ cr, pop_step moved0 2 (cons s) (ring_of s) = Ret cr) →
  roomy moved0 2 s (turn s) ∧ consumer_moves moved0 2 s (turn s).
Proof.
  intros Hp Hne [[c r] E].
  assert (consumer_moves moved0 2 s (turn s)) as Hm.
  { unfold turn. rewrite Hp. destruct (cons s) as [v| | | |] eqn:Hc.
    { rewrite decide_False by done. left. rewrite Hp. eauto. }
    all: rewrite E; right; rewrite Hp, Hc; split; [done|eauto]. }
  split; [|done]. split; [|left]; destruct Hm as [(v&Hv&->)|(_&c'&r'&E'&->)]; try done.
  - by apply (step_call_pop _ _ _ v).
  - by apply step_pop.
Qed.
(** The first states, and the three that come again. *)
Lemma run_first i : i < 12 → roomy moved0 2 (run i) (run (S i)).
Proof.
  intros Hi. destruct (decide (i < 4)) as [H4|H4].
  - do 4 (destruct i as [|i]; [split; [|by right]; first [by apply (step_call_push _ _ _ 7)|by eapply step_push]|]).
    lia.
  - unfold run. rewrite Nat.iter_succ.
    assert (∃ k, k < 8 ∧ i = 4 + k) as (k&Hk&->) by (exists (i - 4); lia). clear Hi H4.
    apply turn_moves; (do 8 (destruct k as [|k]; [by vm_compute; eauto|]); lia).
Qed.
Lemma run_again r : r < 3 →
  roomy moved0 2 (Nat.iter r turn idle) (Nat.iter (S r) turn idle) ∧
  consumer_moves moved0 2 (Nat.iter r turn idle) (Nat.iter (S r) turn idle).
Proof.
  intros Hr. rewrite Nat.iter_succ.
  apply turn_moves; (do 3 (destruct r as [|r]; [by vm_compute; eauto|]); lia).
Qed.
Lemma run_fair : fair_execution moved0 0 2 run.
Proof.
  split; [done|intros i|intros i].
  - destruct (decide (i < 12)) as [Hi|Hi]; [by apply run_first|].
    destruct (run_late i) as (r&Hr&->&->); [unfold first_states; lia|]. by apply run_again.
  - exists (first_states + i). split; [lia|].
    destruct (run_late (first_states + i)) as (r&Hr&->&->); [lia|]. by apply run_again.
Qed.

Lemma every_pushed_value_is_popped_witness : ∃ j, popped (run j) !! 0 = Some 7.
Proof.
  destruct (every_pushed_value_is_popped moved0 0 2 run 4 0 7 two_positive run_fair eq_refl) as (j&_&Hj).
  exists j. exact Hj.
Defined.

(** ** Routes *)

(** The pieces between the slashes of a path. *)
Fixpoint pieces (s : string) : list string :=
  match s with
  | EmptyString => []
  | String c s =>
      if decide (c = slash) then ""%string :: pieces s
      else match pieces s with
           | [] => [String c ""]
           | p :: ps => String c p :: ps
           end
  end.
Lemma path_of_cons s segs : path_of (s :: segs) = ("/" ++ s ++ path_of segs)%string.
Proof.
  unfold path_of. destruct segs as [|s' segs]; [|done]. csimpl. cbn. f_equal.
  induction s as [|c s IH]; [done|]. by apply (f_equal (String c)) in IH.
Qed.
Lemma pieces_path segs :
  Forall segment segs → pieces (path_of segs) = match segs with [] => [] | _ => ""%string :: segs end.
Proof.
  induction 1 as [|s segs [Hne Hs] _ IH]; [done|]. rewrite path_of_cons. simpl. f_equal.
  assert (∀ c s, Forall (λ c, c ≠ slash ∧ c ≠ percent) (String.list_ascii_of_string (String c s)) →
    pieces (String c s ++ path_of segs) = String c s :: segs) as H.
  { clear s Hne Hs. intros c s. revert c. induction s as [|d s IHs]; intros c [[Hc _] Hs]%Forall_cons.
    - change (String c "" ++ path_of segs)%string with (String c (path_of segs)). cbn [pieces].
      rewrite decide_False by done. rewrite IH. by destruct segs.
    - change (String c (String d s) ++ path_of segs)%string with (String c (String d s ++ path_of segs)).
      cbn [pieces]. rewrite decide_False by done. by rewrite IHs. }
  destruct s as [|c s]; [done|]. by apply H.
Qed.

(** The rules in the order in which they were added. *)
Fixpoint first_rule (op : operation_type) (segs : list string) (rs : list (match_rule * operation_type))
    : option (handler * gmap string string) :=
  match rs with
  | [] => None
  | (rule, op') :: rs =>
      match (if decide (op = op') then pair (rule_handler rule) <$> match_segments (matchers rule) segs
             else None) with
      | Some r => Some r
      | None => first_rule op segs rs
      end
  end.
Lemma first_rule_app op segs rs rule op' :
  first_rule op segs (rs ++ [(rule, op')]) =
    match first_rule op segs rs with
    | Some r => Some r
    | None => if decide (op = op') then pair (rule_handler rule) <$> match_segments (matchers rule) segs
              else None
    end.
Proof.
  induction rs as [|[rule' op''] rs IH]; simpl; [by destruct (if decide _ then _ else _)|].
  rewrite IH. by destruct (if decide (op = op'') then _ else _).
Qed.
#[local] Instance list_routes : Routes (list (match_rule * operation_type)) := {
  no_routes := [];
  routes_add rule op rs := rs ++ [(rule, op)];
  routes_get op path rs := first_rule op (tail (pieces path)) rs
}.
#[local] Instance list_routes_laws : RoutesLaws (list (match_rule * operation_type)).
Proof.
  split; [done|]. intros rule op op' segs rs _ _ Hs. simpl. rewrite first_rule_app.
  by rewrite (pieces_path segs Hs); destruct segs.
Qed.

(** ** Requests *)

Definition create_path : list string := ["orders"; "ACME"; "create"]%string.
Lemma create_path_segments : Forall segment create_path.
Proof. apply (bool_decide_unpack _). vm_compute. exact I. Qed.


(** Started at ten o'clock on a Tuesday, with a file that has one instrument. *)
Definition late_files (_ : string) : option chars := Some (String.list_ascii_of_string "ACME 100.5").
Definition late_databases (_ : string) : gmap string string := ∅.
Lemma late_infos_length :
  (Z.of_nat (length (read_instrument_init_data_from_file (late_files "../init/instruments.txt"))) ≤ 2 ^ 32)%Z.
Proof. vm_compute. discriminate. Qed.
Lemma late_acme :
  "ACME"%string ∈ (read_instrument_init_data_from_file (late_files "../init/instruments.txt")).*1.
Proof. apply (bool_decide_unpack _). vm_compute. exact I. Qed.
Lemma late_empty : get_all (late_databases (rocksdb_dir default_configuration)) = Ret [].
Proof. vm_compute. reflexivity. Qed.
Definition ten_o_clock : tm := Tm 0 0 10 3 2 126.
Lemma ten_is_late : ¬ opening_minute ten_o_clock.
Proof. by intros [? ?]. Qed.

Lemma late_turn rs e :
  server_step (R:=list (match_rule * operation_type)) (doc:=fields) (DB:=gmap string string) rs
    (λ t, ¬ opening_minute t) e e.
Proof. eapply (step_turn _ _ 9 ten_o_clock); [apply ten_is_late|]. reflexivity. Qed.

Lemma late_start_refuses_orders_witness :
  ∃ s rep, main (R:=list (match_rule * operation_type)) default_configuration late_files late_databases
      = Ret s ∧ _listens s = Some ("0.0.0.0"%string, 8000%Z) ∧
    serve (doc:=fields) 9 "id" (∅ : gmap string string) (_routes s) POST (path_of create_path) "buy"
      (_exchange s) = (_exchange s, Ret (Some rep)) ∧ r_status rep = no_content.
Proof.
  destruct (late_start_refuses_orders (R:=list (match_rule * operation_type)) (doc:=fields)
    default_configuration late_files late_databases late_empty late_infos_length) as (s&E&Hl&H).
  destruct (H (_exchange s) (rtc_once _ _ (late_turn _ _))) as (_&_&Hserve).
  destruct buy_request_order as (x&Hx&Hside).
  destruct (Hserve 9%Z "id"%string (∅ : gmap string string) "ACME"%string "buy"%string (order_text GTC) x)
    as (rep&Er&Hr);
    [by apply (proj1 (Forall_forall _ _) create_path_segments); right; left|exact late_acme|reflexivity
    |exact Hx|exact Hside|].
  exists s, rep. split; [exact E|]. split; [exact Hl|]. split; [exact Er|exact Hr].
Defined.

(** ** Texts *)

Local Abbreviation json_tree := (gen_tree (string + fl + (Z + bool))).
Fixpoint json_to_tree (j : json) : json_tree :=
  match j with
  | JString s => GenLeaf (inl (inl s))
  | JFloat x => GenLeaf (inl (inr x))
  | JInt z => GenLeaf (inr (inl z))
  | JBool b => GenLeaf (inr (inr b))
  | JArray l => GenNode 0 (map json_to_tree l)
  | JObject ms => GenNode 1 (map (λ m, GenNode 0 [GenLeaf (inl (inl m.1)); json_to_tree m.2]) ms)
  end.
Fixpoint json_of_tree (t : json_tree) : json :=
  match t with
  | GenLeaf (inl (inl s)) => JString s
  | GenLeaf (inl (inr x)) => JFloat x
  | GenLeaf (inr (inl z)) => JInt z
  | GenLeaf (inr (inr b)) => JBool b
  | GenNode 0 l => JArray (map json_of_tree l)
  | GenNode _ l =>
      JObject (map (λ t, match t with
                         | GenNode _ [GenLeaf (inl (inl s)); t] => (s, json_of_tree t)
                         | _ => (EmptyString, JBool false)
                         end) l)
  end.
Fixpoint json_of_to_tree (j : json) : json_of_tree (json_to_tree j) = j.
Proof.
  destruct j as [s|x|z|b|l|ms]; try reflexivity; simpl; f_equal.
  - induction l as [|j l IH]; [reflexivity|]. simpl. f_equal; [apply json_of_to_tree|exact IH].
  - induction ms as [|[k j] ms IH]; [reflexivity|]. simpl. f_equal; [|exact IH].
    f_equal. apply json_of_to_tree.
Qed.
#[local] Instance json_eq_dec : EqDecision json.
Proof.
  intros j k. destruct (decide (json_to_tree j = json_to_tree k)) as [E|Hne].
  - left. by rewrite <-(json_of_to_tree j), E, json_of_to_tree.
  - right. by intros ->.
Defined.
#[local] Instance json_countable : Countable json := inj_countable' _ _ json_of_to_tree.

(** A value's text is its number. *)
#[local] Instance digit_text : JsonText := {
  stream_object j := digits (encode j);
  read_json s := decode (number s)
}.
#[local] Instance digit_text_laws : JsonTextLaws.
Proof. split. intros j _. simpl. by rewrite number_digits, decode_encode. Qed.

Definition snapshot2 : Snapshot :=
  MkSnapshot [MkSnapshotLimit (whole_float 100) (whole_float 5)] [] (MkSpread (Fin 0) (whole_float 100) (Fin 0)).
Lemma snapshot2_finite : Forall (λ l, finite_limit l = true) (asks snapshot2 ++ bids snapshot2).
Proof. by repeat constructor. Qed.

Lemma reply_bodies_can_be_read_witness :
  ∃ j, body_text (OrderInfo (SeastarOrderInfoJson "a1" CANCELLED)) ≫= read_json = Some j ∧
    member j "status" = Some (JInt 4).
Proof.
  destruct (reply_bodies_can_be_read stored "a1" CANCELLED snapshot2 eq_refl snapshot2_finite eq_refl)
    as (_&(j&E&_&Hs)&_).
  exists j. split; [exact E|exact Hs].
Defined.

(** ** The store behind a book *)

(** Two books: in the first the second order takes the one that rests. *)
Definition two_books : list (string * float) :=
  [("ACME", whole_float 100); ("EMCA", whole_float 50)]%string.
Definition three_orders : list (string * (Z * order)) :=
  [("ACME", (1%Z, stored)); ("EMCA", (2%Z, request_order "e" SELL 3 60 GTC LIMIT));
   ("ACME", (3%Z, request_order "n" BUY 5 100 GTC LIMIT))]%string.
Definition empty_store : gmap string string := ∅.
Lemma three_orders_room : length three_orders < 4.
Proof. simpl. lia. Qed.
Lemma three_orders_valid : Forall (λ r, r.1 ∈ two_books.*1 ∧ valid_order r.2.2) three_orders.
Proof.
  repeat constructor; try (by apply request_valid); apply (bool_decide_unpack _); vm_compute; exact I.
Qed.
Lemma three_orders_nodup : NoDup (o_id <$> three_orders.*2.*2).
Proof. apply (bool_decide_unpack _). vm_compute. exact I. Qed.
Definition submitted : pipeline (gmap string string) :=
  (submit_all 4 three_orders (new_pipeline 4 two_books empty_store)).1.
Definition three_messages : list message := [("ACME", 0); ("EMCA", 0); ("ACME", 1)]%string.

(** The addresses of the objects of a book with an identifier. *)
Definition addresses inst (id : string) : list oid :=
  match p_books submitted !! inst with
  | Some b => (filter (λ e, o_id e.2 = id) (map_to_list (b_oh b))).*1
  | None => []
  end.
Lemma in_addresses m inst x y ids :
  m.1 = inst → (∃ z, object submitted m = Some z ∧ static z = static y) → o_id y = x →
  addresses inst x = [ids] → m = (inst, ids).
Proof.
  destruct m as [i o]. intros Hi (z&Hz&Hs) Hx Ha. simpl in Hi. subst i.
  assert (o ∈ addresses inst x) as Ho.
  { unfold addresses, object in *. simpl in Hz. destruct (p_books submitted !! inst) as [b|]; [|done].
    apply list_elem_of_fmap. exists (o, z). split; [done|]. apply list_elem_of_filter.
    split; [|by apply elem_of_map_to_list]. simpl. unfold static in Hs. congruence. }
  rewrite Ha in Ho. by apply list_elem_of_singleton in Ho as ->.
Qed.
Lemma submitted_messages ms :
  Forall2 (λ m r, m.1 = r.1 ∧ ∃ x, object submitted m = Some x ∧ static x = static r.2.2) ms three_orders →
  ms = three_messages.
Proof.
  intros H. inversion H as [|m1 r1 ms1 rs1 [I1 O1] H1 E1 E1']; subst.
  inversion H1 as [|m2 r2 ms2 rs2 [I2 O2] H2 E2 E2']; subst.
  inversion H2 as [|m3 r3 ms3 rs3 [I3 O3] H3 E3 E3']; subst.
  inversion H3; subst.
  rewrite (in_addresses _ "ACME" "a1" _ 0 I1 O1 eq_refl), (in_addresses _ "EMCA" "e" _ 0 I2 O2 eq_refl),
    (in_addresses _ "ACME" "n" _ 1 I3 O3 eq_refl); [reflexivity|vm_compute; reflexivity..].
Qed.
Lemma submitted_finite : Forall (λ x, finite (serialize x) = true) (objects submitted three_messages).
Proof. apply (bool_decide_unpack _). vm_compute. exact I. Qed.
Lemma submitted_writes : writes_ok empty_store (objects submitted three_messages) = true.
Proof. vm_compute. reflexivity. Qed.
Lemma submitted_ask :
  ∃ x, x ∈ objects submitted three_messages ∧ o_id x = "a1"%string ∧ dead x = true.
Proof.
  destruct (objects submitted three_messages) as [|x os] eqn:E; [by vm_compute in E|].
  exists x. split; [left|]. vm_compute in E. injection E as <- _. by split.
Qed.

(** The thread comes after all of them: it does not store the one that was taken. *)
Lemma late_thread_stores_the_final_orders_witness :
  ∃ p', consume_n 4 3 submitted = (p', Ret 3) ∧ consume 4 p' = (p', Ret false) ∧
    get "a1" (p_db p') = Ret None.
Proof.
  destruct (late_thread_stores_the_final_orders 4 two_books three_orders empty_store three_orders_room
    three_orders_valid three_orders_nodup (λ _, lookup_empty _)) as (p&sts&ms&E&Hms&H).
  assert (p = submitted) as -> by (unfold submitted; by rewrite E).
  assert (ms = three_messages) as -> by exact (submitted_messages ms Hms).
  destruct (H submitted_finite submitted_writes) as (p'&Hc&Hn&_&Hg&_).
  exists p'. split; [exact Hc|]. split; [exact Hn|].
  destruct submitted_ask as (x&Hx&Hid&Hd). specialize (Hg x Hx). rewrite Hid, Hd in Hg. exact Hg.
Defined.

(** The resting order alone, stored by the thread, and then the order that takes all of it. *)
Definition resting : book * abook := build [(1%Z, stored)] acme empty_abook.
Definition resting_store : gmap string string := process_message empty_store stored.
Definition caught_up : ring (T:=option message) := Ring 1 0 1 1 [None; None].
Definition rested_pipe : pipeline (gmap string string) :=
  Pipeline {["ACME"%string := resting.1]} caught_up resting_store.
Definition taking : order := request_order "n" BUY 5 100 GTC LIMIT.

Lemma resting_ok : book_ok resting.1 resting.2.
Proof.
  apply build_ok; [apply new_book_ok|repeat constructor; by apply request_valid| |done].
  apply NoDup_singleton.
Qed.
(** The ring is what the submission and a turn of the thread leave. *)
Lemma rested_pipe_made :
  p_ring ((in_book 2 "ACME" (submit 1 stored);; consume 2)
      (Pipeline {["ACME"%string := acme]} (new_ring None 2) empty_store)).1 = caught_up.
Proof. vm_compute. reflexivity. Qed.
Lemma rested_pipe_ok : pipe_ok 2 rested_pipe [].
Proof.
  split.
  - intros inst b. unfold rested_pipe. cbn [p_books]. rewrite lookup_singleton_Some. intros [_ <-].
    exists resting.2. apply resting_ok.
  - split; simpl; try done; try lia. exists 0. by split.
  - by intros m ?%elem_of_nil.
Qed.
Lemma rested_acme : p_books rested_pipe !! "ACME"%string = Some resting.1.
Proof. apply lookup_singleton_eq. Qed.
Lemma rested_order :
  ∃ y, b_oh resting.1 !! 0 = Some y ∧ has_param y STOP = false ∧ o_id y = "a1"%string ∧
    get (o_id y) (p_db rested_pipe) = Ret (Some (reloaded y)) ∧ o_current_qty y = whole_float 5.
Proof.
  destruct (b_oh resting.1 !! 0) as [y|] eqn:E; [|by vm_compute in E].
  exists y. vm_compute in E. injection E as <-. split_and!; by vm_compute.
Qed.
Lemma taking_valid : valid_order taking.
Proof. by apply request_valid. Qed.
Lemma taking_fresh : b_orders resting.1 !! o_id taking = None.
Proof. vm_compute. reflexivity. Qed.

(** What the thread has made of the store. *)
Definition taken_pipe : pipeline (gmap string string) := (in_book 2 "ACME" (submit 9 taking) rested_pipe).1.
Definition told_pipe : pipeline (gmap string string) := (consume 2 taken_pipe).1.
Lemma told_all : get_all (p_db told_pipe) = Ret [reloaded stored].
Proof. vm_compute. reflexivity. Qed.
Lemma stored_loadable : Forall loadable [reloaded stored].
Proof.
  repeat constructor. exists (5 * 2 ^ 149)%Z. split; [done|]. split; [lia|apply fits_whole; lia].
Qed.

Lemma stored_orders_go_stale_witness :
  ∃ st p' b2 i, in_book 2 "ACME" (submit 9 taking) rested_pipe = (taken_pipe, Ret st) ∧
    consume 2 taken_pipe = (p', Ret true) ∧
    open_book "ACME" (whole_float 100) [reloaded stored] = Ret b2 ∧
    o_current_qty <$> b_oh b2 !! i = Some (whole_float 5).
Proof.
  destruct rested_order as (y&Ho&Hs&Hid&Hg&Hq).
  assert (o_id taking ≠ o_id y) as Hne by (rewrite Hid; discriminate).
  destruct (stored_orders_go_stale 2 rested_pipe "ACME" resting.1 resting.2 0 y 9 taking "ACME"
    (whole_float 100) (Nat.lt_succ_diag_r 1) rested_pipe_ok rested_acme resting_ok Ho Hs Hg taking_valid
    taking_fresh Hne) as (b'&st&p1&p'&_&E&_&Ec&_&_&_&H).
  assert (p1 = taken_pipe) as -> by (unfold taken_pipe; by rewrite E).
  assert (p' = told_pipe) as -> by (unfold told_pipe; by rewrite Ec).
  destruct (H _ told_all stored_loadable) as (b2&bids&asks&i&Eo&_&_&_&_&Hi). rewrite Hq in Hi.
  exists st, told_pipe, b2, i. split; [exact E|]. split; [exact Ec|]. split; [exact Eo|exact Hi].
Defined.
