(* ===== verification/ProgramWitnesses.v ===== *)
(** * Witnesses for the program as a whole

    The types of the numbers at a concrete start: a file with one instrument, a stored order, and a
    day that opens, takes an order and is asked for a snapshot; the archive and the documents return
    nothing that is out of the range of its type.  Two instruments whose requests are interleaved in
    two ways.  The clock thread at four times of a day, in a calendar of one long month. *)

From Stdlib Require Import Ascii.
From S2P Require Import Prelude Float DataTypes OrderBook Utilities OBTypes Repository InstrumentFile.
From S2P Require Import Exchange ExchangeSpec Independence Responses Handlers Server SysTypes ClockThread.
From S2P Require Import RingBuffer ThreadPool Concurrency Examples SysWitnesses EndWitnesses.

#[local] Existing Instance map_database.
#[local] Existing Instance fl_countable.
#[local] Existing Instance Side_countable.
#[local] Existing Instance OrderType_countable.
#[local] Existing Instance list_routes.

#[local] Instance typed_archive : Archive := {
  oarchive a := @oarchive digit_archive a;
  iarchive text :=
    a ← @iarchive digit_archive text;
    if decide (typed_order (deserialize a)) then Some a else None
}.
#[local] Instance typed_archive_types : ArchiveTypes.
Proof.
  split. simpl. intros text a H. apply bind_Some in H as (a'&_&H). case_decide; [|done].
  by injection H as <-.
Qed.
#[local] Instance typed_json : Json fields := {
  iterate text := @iterate fields sample_json text;
  get_string d key := @get_string fields sample_json d key;
  get_double d key := @get_double fields sample_json d key;
  get_uint64 d key :=
    z ← @get_uint64 fields sample_json d key; if decide (uint64 z) then Some z else None
}.
#[local] Instance typed_json_types : JsonTypes fields.
Proof.
  split. simpl. intros d key v H. apply bind_Some in H as (z&_&H). case_decide; [|done].
  by injection H as <-.
Qed.

Definition stored_databases (_ : string) : gmap string string :=
  {[ "a1"%string := oarchive (serialize stored) ]}.
Definition day : list (event (gmap string string)) :=
  [ClockTurn 9 (Tm 0 30 9 3 2 126);
   Requested 10 "id" ∅ POST "/orders/ACME/create" "buy";
   Requested 11 "id2" ∅ GET "/orderbook/ACME/snapshot" ""]%string.

Lemma numbers_keep_their_types_witness :
  ∃ srv, main (R:=list (match_rule * operation_type)) default_configuration late_files stored_databases
      = Ret srv ∧
    let run := run_events (doc:=fields) (_routes srv) day (_exchange srv) in
    length run.2 = 3 ∧ Forall (λ r, ∃ rep, r = Ret (Some rep)) (tail run.2) ∧
    typed_exchange run.1 ∧ Forall typed_answer run.2.
Proof.
  eexists. split; [vm_compute; reflexivity|]. intros run. split; [vm_compute; reflexivity|].
  split; [vm_compute; repeat constructor; eexists; reflexivity|].
  apply (numbers_keep_their_types (doc:=fields) _ _ default_configuration late_files stored_databases);
    [vm_compute; reflexivity|by repeat constructor].
Defined.

(** ** Identifiers *)

Definition seed_text (seed : Z) : string := digits (encode seed).
Lemma identifiers_repeat_witness :
  ∃ i j d d', i ≠ j ∧ generate seed_text d = generate seed_text d' ∧ i < Z.to_nat (2 ^ 32 + 1) ∧
    j < Z.to_nat (2 ^ 32 + 1).
Proof.
  destruct (identifiers_repeat seed_text (replicate (Z.to_nat (2 ^ 32 + 1)) 0%Z))
    as (i&j&d&d'&Hne&Hi&Hj&E).
  - rewrite length_replicate, Z2Nat.id by lia. lia.
  - exists i, j, d, d'. apply lookup_replicate in Hi as [_ Hi], Hj as [_ Hj]. auto.
Defined.

(** ** Two instruments *)

Definition two_markets : exchange := (new_exchange [("ACME", Fin 100); ("INIT", Fin 50)]%string [] true).1.
Definition ask_acme : book_request := AddRequest 1 (request_order "a" SELL 5 100 GTC LIMIT).
Definition bid_acme : book_request := AddRequest 2 (request_order "b" BUY 5 100 GTC LIMIT).
Definition ask_init : book_request := AddRequest 1 (request_order "c" SELL 7 50 GTC LIMIT).
Definition one_way : list (string * book_request) :=
  [("ACME", ask_acme); ("INIT", ask_init); ("ACME", bid_acme); ("INIT", CancelRequest "c")]%string.
Definition other_way : list (string * book_request) :=
  [("INIT", ask_init); ("INIT", CancelRequest "c"); ("ACME", ask_acme); ("ACME", bid_acme)]%string.

Lemma instruments_are_independent_witness :
  (serve_exchange one_way two_markets).1 = (serve_exchange other_way two_markets).1 ∧
  answers_for "ACME" one_way two_markets = [Ret ACCEPTED; Ret MATCHED].
Proof.
  destruct (instruments_are_independent two_markets one_way other_way) as [H _].
  - apply Forall_forall, (bool_decide_unpack _). vm_compute. exact I.
  - intros inst. unfold one_way, other_way. rewrite !requests_for_cons.
    destruct (decide ("ACME" = inst)%string), (decide ("INIT" = inst)%string); congruence || reflexivity.
  - split; [exact H|vm_compute; reflexivity].
Defined.

(** ** Two workers *)

Definition no_task : string * book_request := (""%string, CancelRequest "").
Local Abbreviation hall_steps := (hall_step (λ _, no_task) 4).
(** The request is in the buffer of the first worker. *)
Lemma one_handed :
  ∃ h, rtc hall_steps (new_hall no_task 4 (workers two_markets) two_markets) h ∧
    handed h = [("ACME"%string, ask_acme)].
Proof.
  eexists. split.
  - eapply rtc_l; [eapply (hall_enqueue _ _ _ two_markets _ _ _ 0 ("ACME"%string, ask_acme) (FunctionTask no_task 4));
      [reflexivity|reflexivity|vm_compute; reflexivity|reflexivity]|].
    eapply rtc_l; [apply (hall_push _ _ _ two_markets _ _ _ 0); [reflexivity|exact I|reflexivity]|].
    eapply rtc_l; [apply (hall_push _ _ _ two_markets _ _ _ 0); [reflexivity|vm_compute; done|reflexivity]|].
    eapply rtc_l; [apply (hall_push _ _ _ two_markets _ _ _ 0); [reflexivity|exact I|reflexivity]|].
    apply rtc_refl.
  - reflexivity.
Defined.
Lemma two_markets_served inst i : instrument_idx two_markets !! inst = Some i → served two_markets inst.
Proof.
  assert (map_Forall (λ inst (_ : Z), served two_markets inst) (instrument_idx two_markets)) as H.
  { apply (bool_decide_unpack _). vm_compute. exact I. }
  apply H.
Qed.

Lemma workers_serve_the_exchange_witness :
  ∃ h, all_run h ∧ hall_exchange h = (serve_exchange [("ACME"%string, ask_acme)] two_markets).1.
Proof.
  destruct one_handed as (h1&R1&E1).
  destruct (workers_serve_the_exchange (λ _, no_task) no_task 4 two_markets h1 ltac:(lia) two_markets_served R1)
    as (_&_&(h2&R2&E2&Hall)&_).
  destruct (workers_serve_the_exchange (λ _, no_task) no_task 4 two_markets h2 ltac:(lia) two_markets_served)
    as (_&_&_&Hend); [by etrans|].
  exists h2. split; [exact Hall|]. destruct (Hend Hall) as [He _]. by rewrite <-E1, <-E2.
Defined.

(** ** A day of the clock thread *)

(** A calendar of one month that does not end, in UTC. *)
#[local] Instance long_month : Time := {
  localtime t := Tm (t mod 60)%Z ((t / 60) mod 60)%Z ((t / 3600) mod 24)%Z (t / 86400)%Z 5 126;
  mktime local := (86400 * tm_mday local + second_of_day local)%Z
}.
#[local] Instance long_month_laws : TimeLaws.
Proof.
  refine {| zone := 0 |}; unfold second_of_day, day_seconds; simpl.
  - intros t. split_and!; apply Z.mod_pos_bound; done.
  - intros t. rewrite Z.add_0_r. apply (Z.mod_unique_pos _ _ (t / 60 / 60 / 24)).
    + pose proof (Z.mod_pos_bound t 60). pose proof (Z.mod_pos_bound (t / 60) 60).
      pose proof (Z.mod_pos_bound (t / 3600) 24). lia.
    + replace (t / 3600)%Z with (t / 60 / 60)%Z by (by rewrite Z.div_div).
      pose proof (Z.div_mod t 60). pose proof (Z.div_mod (t / 60) 60).
      pose proof (Z.div_mod (t / 60 / 60) 24). lia.
  - intros t k Hk. unfold opening_second. rewrite Z.add_0_r.
    pose proof (Z.div_mod t 86400 ltac:(done)). unfold second_of_day, at_opening, opening_h, opening_m. simpl. lia.
Defined.
Definition no_routes_yet : list (match_rule * operation_type) := [].
Local Abbreviation steps := (program_step (doc:=fields) (DB:=gmap string string) no_routes_yet).

(** At eight o'clock in the evening, with an exchange that is not open. *)
Definition evening : Z := 72000.
Definition morning : Z := 120600.
Lemma stopping_waits_for_the_morning_witness :
  let asleep := Program evening new_stop_signal false (Sleeping (localtime evening) morning) closed_market main_end in
  (∃ p', rtc steps asleep p' ∧ (main_rest p' = [] ∨ ∃ err, clock_step p' = Err err)) ∧
  ∀ p', rtc steps asleep p' → main_rest p' = [] → (morning ≤ wall p')%Z.
Proof.
  destruct (stopping_waits_for_the_morning (doc:=fields) (DB:=gmap string string) no_routes_yet _
    evening closed_market
    (Program evening new_stop_signal false (Sleeping (localtime evening) morning) closed_market main_end)
    (localtime evening) morning) as (H1&H2&_).
  - apply rtc_once, step_clock. vm_compute. reflexivity.
  - reflexivity.
  - split; [exact H2|exact H1].
Defined.

(** At noon. *)
Lemma clock_thread_spins_all_day_witness :
  ∃ e', nsteps (λ p p', clock_step p = Ret p') 2000
    (Program 43200 new_stop_signal false AtTest closed_market main_end)
    (Program 43200 new_stop_signal false AtTest e' main_end).
Proof.
  destruct (clock_thread_spins_all_day _ 43200 new_stop_signal closed_market main_end 1000)
    as (e'&H&_).
  - vm_compute. split; [discriminate|reflexivity].
  - exists e'. exact H.
Defined.

(** At eight o'clock in the morning; the thread wakes up a second late. *)
Lemma the_exchange_opens_witness :
  nsteps (λ p p', clock_step p = Ret p') 3
    (Program 34201 new_stop_signal false (Sleeping (localtime 28800) 34200) closed_market main_end)
    (Program 34201 new_stop_signal false AtTest (set_working true closed_market).1 main_end).
Proof.
  destruct (the_exchange_opens _ 28800 new_stop_signal closed_market main_end) as (_&_&H).
  - vm_compute. reflexivity.
  - apply H. vm_compute. split; [discriminate|reflexivity].
Defined.

(** From half past five to the next morning. *)
Lemma the_exchange_stays_open_all_night_witness :
  working (ClockThread.market (Program 100000 new_stop_signal false AtTest two_markets main_end)) = true.
Proof.
  apply (the_exchange_stays_open_all_night (doc:=fields) (DB:=gmap string string) no_routes_yet _
    (Program 63000 new_stop_signal false AtTest two_markets main_end)).
  - vm_compute. reflexivity.
  - vm_compute. discriminate.
  - discriminate.
  - apply rtc_once. apply (step_time _ 63000 _ _ _ _ _ 37000). done.
  - vm_compute. reflexivity.
Defined.
