(* ===== verification/UnitTests.v ===== *)
(** * tests/unit: the program's own tests, on the model

    What test_rbtree.cpp, test_orderbook.cpp, test_limit.cpp and test_order.cpp do, run on the
    definitions of the model by evaluation, with the values that the tests assert.  A test of the
    order book looks at the sizes of the lists of orders; here the answer of each operation is
    shown, too. *)

From S2P Require Import Prelude Float RBTree DataTypes OrderBook OBAdd InstrumentFile.

(** ** test_rbtree.cpp *)

Definition less : Z → Z → bool := Z.ltb.

(** The colours and the keys below a node. *)
Inductive picture :=
  | Nil
  | Black (l : picture) (k : Z) (r : picture)
  | Red (l : picture) (k : Z) (r : picture).
Fixpoint picture_of (fuel : nat) (t : rbtree Z) (p : ptr) : picture :=
  match fuel, nodes t !! p with
  | S fuel, Some n =>
      if decide (p = nil_ptr) then Nil
      else (if is_black n then Black else Red)
             (picture_of fuel t (left n)) (key n) (picture_of fuel t (right n))
  | _, _ => Nil
  end.
Definition picture_of_tree (t : rbtree Z) : picture := picture_of (fuel_of t) t (root t).

Definition inserted (ks : list Z) : rbtree Z := (forM ks (insert less) (empty_tree 0%Z)).1.
Definition removed (ks : list Z) (t : rbtree Z) : rbtree Z :=
  (forM ks (λ k, remove less k;; mret tt) t).1.

Definition some_numbers : list Z := [12; 9; 8; 6; 5; 7; 6; 6]%Z.
Example TestContainsNonExistingNumber : (contains less 10%Z (inserted some_numbers)).2 = Ret false.
Proof. vm_compute. reflexivity. Qed.
Example TestFindNonExistingNumber : (find less 10%Z (inserted some_numbers)).2 = Ret None.
Proof. vm_compute. reflexivity. Qed.
Example TestContainsExistingNumber : (contains less 9%Z (inserted some_numbers)).2 = Ret true.
Proof. vm_compute. reflexivity. Qed.
Example TestFindExistingNumber : (find less 6%Z (inserted some_numbers)).2 = Ret (Some 6%Z).
Proof. vm_compute. reflexivity. Qed.

Example TestInsertRightRotation :
  picture_of_tree (inserted [5; 10; 12]%Z) = Black (Red Nil 5 Nil) 10 (Red Nil 12 Nil).
Proof. vm_compute. reflexivity. Qed.
Example TestInsertLeftRotation :
  picture_of_tree (inserted [5; 4; 3]%Z) = Black (Red Nil 3 Nil) 4 (Red Nil 5 Nil).
Proof. vm_compute. reflexivity. Qed.
Example TestReColoringAfterAddingLeafNode :
  picture_of_tree (inserted [6; 5; 3; 4]%Z)
    = Black (Black Nil 3 (Red Nil 4 Nil)) 5 (Black Nil 6 Nil).
Proof. vm_compute. reflexivity. Qed.
Example TestInsertBigRightRootRotation :
  picture_of_tree (inserted [15; 12; 7; 10; 5; 9; 8; 11]%Z)
    = Black (Red (Black Nil 5 Nil) 7 (Black Nil 8 Nil)) 9
        (Red (Black Nil 10 (Red Nil 11 Nil)) 12 (Black Nil 15 Nil)).
Proof. vm_compute. reflexivity. Qed.

Definition big_tree : rbtree Z := inserted [5; 30; 45; 60; 2; 63; 46; 47; 44]%Z.
Example TestInsertBigLeftRootRotation :
  picture_of_tree big_tree
    = Black (Red (Black (Red Nil 2 Nil) 5 Nil) 30 (Black (Red Nil 44 Nil) 45 Nil)) 46
        (Red (Black Nil 47 Nil) 60 (Black Nil 63 Nil)).
Proof. vm_compute. reflexivity. Qed.
Example TestClear :
  (contains less 5%Z (clear big_tree).1).2 = Ret false ∧ tree_size (clear big_tree).1 = 0%Z.
Proof. vm_compute. by split. Qed.

(** A leaf, an inner node twice, the root, and all that is left. *)
Example TestDelete_leaf :
  picture_of_tree (removed [2]%Z big_tree)
    = Black (Red (Black Nil 5 Nil) 30 (Black (Red Nil 44 Nil) 45 Nil)) 46
        (Red (Black Nil 47 Nil) 60 (Black Nil 63 Nil)).
Proof. vm_compute. reflexivity. Qed.
Example TestDelete_root_left :
  picture_of_tree (removed [2; 30]%Z big_tree)
    = Black (Red (Black Nil 5 Nil) 44 (Black Nil 45 Nil)) 46 (Red (Black Nil 47 Nil) 60 (Black Nil 63 Nil)).
Proof. vm_compute. reflexivity. Qed.
Example TestDelete_root_right :
  picture_of_tree (removed [2; 30; 60]%Z big_tree)
    = Black (Red (Black Nil 5 Nil) 44 (Black Nil 45 Nil)) 46 (Black (Red Nil 47 Nil) 63 Nil).
Proof. vm_compute. reflexivity. Qed.
Example TestDelete_root :
  picture_of_tree (removed [2; 30; 60; 46]%Z big_tree)
    = Black (Red (Black Nil 5 Nil) 44 (Black Nil 45 Nil)) 47 (Black Nil 63 Nil).
Proof. vm_compute. reflexivity. Qed.
Example TestDelete_all :
  picture_of_tree (removed [2; 30; 60; 46; 47; 44; 63; 45; 5]%Z big_tree) = Nil ∧
  tree_size (removed [2; 30; 60; 46; 47; 44; 63; 45; 5]%Z big_tree) = 0%Z.
Proof. vm_compute. by split. Qed.

Example TestFirst_of_a_right_child :
  (first (inserted [1000; 2000; 800; 600; 750; 630]%Z)).2 = Ret (Some 600%Z) ∧
  (first (removed [600]%Z (inserted [1000; 2000; 800; 600; 750; 630]%Z))).2 = Ret (Some 630%Z).
Proof. vm_compute. by split. Qed.
Example TestFirst :
  (first (empty_tree 0%Z)).2 = Ret None ∧ (first (inserted [8; 10]%Z)).2 = Ret (Some 8%Z) ∧
  (first (inserted [8; 10; 2]%Z)).2 = Ret (Some 2%Z) ∧
  (first (removed [2]%Z (inserted [8; 10; 2]%Z))).2 = Ret (Some 8%Z).
Proof. vm_compute. by split_and!. Qed.
Example TestLast :
  (last (empty_tree 0%Z)).2 = Ret None ∧ (last (inserted [8; 10; 11; 2]%Z)).2 = Ret (Some 11%Z) ∧
  (last (removed [11]%Z (inserted [8; 10; 11; 2]%Z))).2 = Ret (Some 10%Z) ∧
  (last (removed [3000]%Z (inserted [2000; 500; 3000; 2800]%Z))).2 = Ret (Some 2800%Z).
Proof. vm_compute. by split_and!. Qed.

(** [for(it = from; it != to; it++)], with the keys that the body sees. *)
Fixpoint walk (fuel : nat) (it stop : ptr) : M (rbtree Z) (list Z) :=
  match fuel with
  | 0 => fail OutOfFuel
  | S fuel =>
      if decide (it = stop) then mret [] else
      k ← get_key it;
      it ← successor it;
      ks ← walk fuel it stop;
      mret (k :: ks)
  end.
Definition walked (range : M (rbtree Z) (ptr * ptr)) (t : rbtree Z) : outcome (list Z) :=
  (('(from, to) ← range; walk (fuel_of t) from to) t).2.

Definition four : rbtree Z := inserted [2000; 500; 3000; 2800]%Z.
Example TestForwardIterator : walked (b ← begin; e ← end_; mret (b, e)) four = Ret [500; 2000; 2800]%Z.
Proof. vm_compute. reflexivity. Qed.

Definition bound_keys (bound : Z → M (rbtree Z) ptr) (t : rbtree Z) : list (outcome Z) :=
  (λ k, ((it ← bound k; get_key it) t).2) <$> [1000; 500; 2600; 5000; 100]%Z.
Example TestLowerBound :
  bound_keys (lower_bound less) four = Ret <$> [2000; 500; 2800; 3000; 500]%Z.
Proof. vm_compute. reflexivity. Qed.
Example TestUperBound :
  bound_keys (upper_bound less) four = Ret <$> [2000; 2000; 2800; 3000; 500]%Z.
Proof. vm_compute. reflexivity. Qed.

Definition eight : rbtree Z := inserted [2000; 500; 3000; 2800; 1500; 1780; 4000; 6000]%Z.
Example TestRange :
  walked (range less 1500 4000)%Z eight = Ret [1500; 1780; 2000; 2800; 3000; 4000]%Z ∧
  walked (range less 2800 7000)%Z eight = Ret [2800; 3000; 4000]%Z ∧
  walked (range less (-1000) 1500)%Z eight = Ret [500; 1500]%Z ∧
  walked (range less (-1000) 7000)%Z eight = Ret [500; 1500; 1780; 2000; 2800; 3000; 4000]%Z.
Proof. vm_compute. by split_and!. Qed.

(** ** test_orderbook.cpp *)

(** A price with two decimals. *)
Definition price (hundredths : Z) : float := default NaN (round_ratio hundredths 100).

Definition time0 : Z := 1700000000.
Definition eth : book := new_book "eth" (float_of_Z 1000) ∅.
Definition test_order (id : string) (qty pr : Z) (side : Side) (params : OrderParams)
    (type : OrderType) : order :=
  new_order time0 id "f_instrument" "test_user" (price qty) (price pr) side params type time0.
Definition test_stop (pr : Z) (side : Side) (type : OrderType) : order :=
  new_stop_order time0 "order_id" "f_instrument" "test_user" (price 10050) (price pr) (price pr) side
    STOP type time0.

Inductive call := Add (x : order) | Cancel (id : string) | CheckDates.
Definition run_call (c : call) : M book (option OrderStatus) :=
  match c with
  | Add x => Some <$> submit time0 x
  | Cancel id => Some <$> cancel_order id
  | CheckDates => check_date_orders time0;; mret None
  end.

(** The sizes of the bids, the asks, the waiting bids and asks, and the orders that expire. *)
Definition sizes (b : book) : list nat :=
  (λ get : M book (list oid), match (get b).2 with Ret os => length os | Err _ => 999 end) <$>
    [get_bids; get_asks; get_bid_stop_orders; get_ask_stop_orders; get_orders_with_experation].
Fixpoint observe (cs : list call) (b : book) : list (outcome (option OrderStatus) * list nat) :=
  match cs with
  | [] => []
  | c :: cs => let '(b, r) := run_call c b in (r, sizes b) :: observe cs b
  end.

Example TestAddStopOrder :
  observe [Add (test_stop 95002 BUY LIMIT); Add (test_stop 110002 SELL LIMIT);
           Add (test_stop 110002 BUY LIMIT); Add (test_stop 90002 SELL LIMIT);
           Add (test_stop 93002 BUY MARKET); Add (test_stop 120002 SELL MARKET);
           Add (test_stop 110002 BUY MARKET); Add (test_stop 90002 SELL MARKET)] eth
  = [(Ret (Some ACCEPTED), [0; 0; 1; 0; 0]); (Ret (Some ACCEPTED), [0; 0; 1; 1; 0]);
     (Ret (Some ACCEPTED), [1; 0; 1; 1; 0]); (Ret (Some MATCHED), [0; 0; 1; 1; 0]);
     (Ret (Some ACCEPTED), [0; 0; 2; 1; 0]); (Ret (Some ACCEPTED), [0; 0; 2; 2; 0]);
     (Ret (Some NOT_MATCHED), [0; 0; 2; 2; 0]); (Ret (Some NOT_MATCHED), [0; 0; 2; 2; 0])].
Proof. vm_compute. reflexivity. Qed.

(** The sizes are the asserted ones, but the two cancellations read an erased entry. *)
Example TestAddGTCOrder :
  observe [Add (test_order "order_id_1" 10050 95002 BUY GTC LIMIT);
           Add (test_order "order_id_2" 10050 100002 SELL GTC LIMIT);
           Cancel "order_id_1"; Cancel "order_id_2"] eth
  = [(Ret (Some ACCEPTED), [1; 0; 0; 0; 0]); (Ret (Some ACCEPTED), [1; 1; 0; 0; 0]);
     (Err UseAfterErase, [0; 1; 0; 0; 0]); (Err UseAfterErase, [0; 0; 0; 0; 0])].
Proof. vm_compute. reflexivity. Qed.

Example TestAddIOCOrder :
  observe [Add (test_order "order_id_1" 10050 95002 BUY IOC MARKET);
           Add (test_order "order_id_2" 10050 95002 SELL GTC LIMIT);
           Add (test_order "order_id_1" 10050 95002 BUY IOC MARKET);
           Add (test_order "order_id_2" 10050 95002 SELL IOC MARKET);
           Add (test_order "order_id_1" 10050 95002 BUY GTC LIMIT);
           Add (test_order "order_id_2" 10050 95002 SELL IOC MARKET)] eth
  = [(Ret (Some NOT_MATCHED), [0; 0; 0; 0; 0]); (Ret (Some ACCEPTED), [0; 1; 0; 0; 0]);
     (Ret (Some MATCHED), [0; 0; 0; 0; 0]); (Ret (Some NOT_MATCHED), [0; 0; 0; 0; 0]);
     (Ret (Some ACCEPTED), [1; 0; 0; 0; 0]); (Ret (Some MATCHED), [0; 0; 0; 0; 0])].
Proof. vm_compute. reflexivity. Qed.

(** The tests of the flags AON and FOK do the same and see the same. *)
Definition flag_calls (flag : OrderParams) : list call :=
  [Add (test_order "order_id_1" 10050 95002 BUY flag MARKET);
   Add (test_order "order_id_2" 8050 95002 SELL GTC LIMIT);
   Add (test_order "order_id_1" 9950 95002 BUY flag MARKET);
   Add (test_order "order_id_2" 10050 95002 SELL GTC LIMIT);
   Add (test_order "order_id_1" 10050 95002 BUY flag MARKET);
   Add (test_order "order_id_2" 10050 95002 SELL flag MARKET);
   Add (test_order "order_id_1" 8050 60002 BUY GTC LIMIT);
   Add (test_order "order_id_2" 9950 60002 SELL flag MARKET);
   Add (test_order "order_id_1" 10050 60002 BUY GTC LIMIT);
   Add (test_order "order_id_2" 10050 60002 SELL flag MARKET)].
Definition flag_results : list (outcome (option OrderStatus) * list nat) :=
  [(Ret (Some NOT_MATCHED), [0; 0; 0; 0; 0]); (Ret (Some ACCEPTED), [0; 1; 0; 0; 0]);
   (Ret (Some NOT_MATCHED), [0; 1; 0; 0; 0]); (Ret (Some ACCEPTED), [0; 2; 0; 0; 0]);
   (Ret (Some MATCHED), [0; 1; 0; 0; 0]); (Ret (Some NOT_MATCHED), [0; 1; 0; 0; 0]);
   (Ret (Some ACCEPTED), [1; 1; 0; 0; 0]); (Ret (Some NOT_MATCHED), [1; 1; 0; 0; 0]);
   (Ret (Some ACCEPTED), [2; 1; 0; 0; 0]); (Ret (Some MATCHED), [1; 1; 0; 0; 0])].
Example TestAddAONOrder : observe (flag_calls AON) eth = flag_results.
Proof. vm_compute. reflexivity. Qed.
Example TestAddAFOKOrder : observe (flag_calls FOK) eth = flag_results.
Proof. vm_compute. reflexivity. Qed.

Definition two_orders : book :=
  ((submit time0 (test_order "order_id_1" 8050 60002 BUY GTC LIMIT);;
   submit time0 (test_order "order_id_2" 8050 95002 SELL GTC LIMIT)) eth).1.
Example TestGetprice :
  (get_spread eth).2 = Ret (MkSpread (float_of_Z (-1)) (float_of_Z (-1)) (float_of_Z 1000)) ∧
  (get_spread two_orders).2 = Ret (MkSpread (price 60002) (price 95002) (float_of_Z 1000)).
Proof. vm_compute. by split. Qed.

(** The tests assert that no order expires afterwards.  The order is cancelled, but the cancellation
    reads the erased entry before the order is taken out of the orders that expire. *)
Example TestGFDOrders :
  observe [Add (test_order "123" 8050 60002 BUY GFD LIMIT); CheckDates] eth
  = [(Ret (Some ACCEPTED), [1; 0; 0; 0; 1]); (Err UseAfterErase, [0; 0; 0; 0; 1])].
Proof. vm_compute. reflexivity. Qed.
Example TestGTDOrders :
  observe [Add (test_order "123" 8050 60002 BUY GTD LIMIT); CheckDates] eth
  = [(Ret (Some ACCEPTED), [1; 0; 0; 0; 1]); (Err UseAfterErase, [0; 0; 0; 0; 1])] ∧
  observe [Add (new_order time0 "123" "f_instrument" "test_user" (price 8050) (price 60002) BUY GTD LIMIT
                  (time0 + 100000)%Z); CheckDates] eth
  = [(Ret (Some ACCEPTED), [1; 0; 0; 0; 1]); (Ret None, [1; 0; 0; 0; 1])].
Proof. vm_compute. by split. Qed.

(** ** test_limit.cpp *)

Example TestNumberOfOrders :
  let x := increase_number_of_orders (new_limit (float_of_Z 1000)) in
  get_number_of_active_orders x = 1%Z ∧ get_total_number_of_orders x = 1%Z ∧
  get_number_of_active_orders (decrease_number_of_orders x) = 0%Z ∧
  get_total_number_of_orders (decrease_number_of_orders x) = 1%Z.
Proof. vm_compute. by split_and!. Qed.
Example TestVolume :
  let x := increase_volume (float_of_Z 10) (new_limit (float_of_Z 1000)) in
  get_active_volume x = float_of_Z 10 ∧ get_total_volume x = float_of_Z 10 ∧
  get_active_volume (decrease_volume (float_of_Z 5) x) = float_of_Z 5 ∧
  get_total_volume (decrease_volume (float_of_Z 5) x) = float_of_Z 10.
Proof. vm_compute. by split_and!. Qed.

(** ** test_order.cpp *)

Definition order0 : order := test_stop 110002 BUY LIMIT.
Example TestModifyQty :
  let more := increase_qty (float_of_Z 10) order0 in
  get_qty more = price 11050 ∧ get_qty (decrease_qty (float_of_Z 10) more).1 = price 10050 ∧
  (decrease_qty (float_of_Z 1000) order0).2 = Err InvalidArgument.
Proof. vm_compute. by split_and!. Qed.
Example TestFillAndIsfullfilled : is_fullfilled order0 = false ∧ is_fullfilled (fill order0) = true.
Proof. vm_compute. by split. Qed.
Example TestHasParam :
  has_param order0 STOP = true ∧
  has_param (set_params FOK order0) <$> [STOP; AON; IOC; FOK; GFD] = [false; true; true; true; false] ∧
  has_param (set_params IOC order0) <$> [AON; IOC; FOK] = [false; true; true] ∧
  has_param (set_params AON order0) <$> [AON; IOC; FOK] = [true; false; true].
Proof. vm_compute. by split_and!. Qed.
